(** * Enhanced Fetch MCP: the sandbox lifecycle managers

    A shallow embedding of [src/sandbox-manager.ts] (class [SandboxManager],
    the container-backed manager) and of [src/browser-sandbox-manager.ts]
    (class [BrowserSandboxManager], the browser-backed manager), followed by
    the properties of the lifecycle, of the output decoder, of the memory-limit
    parser and of the page selection.

    Conventions of the embedding.
    - The external drivers (dockerode, Playwright) are oracles: a record of
      functions giving the outcome of every driver call.  A rejected promise
      or a thrown exception is [Err], a fulfilled one is [Ok].
    - Every manager method is a function from the manager's state to a
      result and a new state; the state also keeps the trace of the driver
      calls made so far, the events emitted and the pending timers.
    - A method runs to completion before the next one starts (the
      interleavings of concurrent calls at their [await] points are not
      part of the model).  The exception is module [Async], for the
      timeout of a sandbox: there [cleanupSandbox], [pauseSandbox] and
      [resumeSandbox] stop at their [await] and go on when the driver has
      answered, and time passes between the two.
    - A string is a sequence of the code units U+0000 to U+00FF.  The
      exception is module [Utf16], for the memory limit: there a string
      is a sequence of UTF-16 code units.
    - [Date.now()], [Math.random()] and the identifiers built from them are
      inputs.

    The same conventions hold for the parts that come after the two
    managers: the closing, sweeping and listing of browser contexts, the
    requests and errors of [FetchClient] ([src/fetch-client.ts]) and the
    memory cache of [Logger] ([src/logger.ts]). *)

From Stdlib Require Import ZArith NArith List String Ascii Bool Lia QArith.
From Stdlib Require DecimalString Permutation Sorted.
Import ListNotations.

Local Open Scope string_scope.
Local Open Scope list_scope.
Local Open Scope Z_scope.

Set Implicit Arguments.

(* ===================================================================== *)
(** * Results of fallible calls *)
(* ===================================================================== *)

Inductive Result (E A : Type) : Type :=
| Ok (a : A)
| Err (e : E).

Arguments Ok {E A} a.
Arguments Err {E A} e.

Definition isOk {E A} (r : Result E A) : bool :=
  match r with Ok _ => true | Err _ => false end.

(* ===================================================================== *)
(** * [Map<string, V>]: a map that remembers insertion order *)
(* ===================================================================== *)

(** A JavaScript [Map] iterates its entries in insertion order; [set] on a
    key already present replaces the value and keeps the key's position,
    [set] on a new key appends, [delete] removes the entry. *)
Module JsMap.

Definition t (V : Type) : Type := list (string * V).

Definition empty {V} : t V := [].

Fixpoint get {V} (k : string) (m : t V) : option V :=
  match m with
  | [] => None
  | (k', v) :: m' => if String.eqb k k' then Some v else get k m'
  end.

Definition has {V} (k : string) (m : t V) : bool :=
  match get k m with Some _ => true | None => false end.

Fixpoint set {V} (k : string) (v : V) (m : t V) : t V :=
  match m with
  | [] => [(k, v)]
  | (k', v') :: m' =>
      if String.eqb k k' then (k', v) :: m' else (k', v') :: set k v m'
  end.

Definition delete {V} (k : string) (m : t V) : t V :=
  filter (fun kv => negb (String.eqb k (fst kv))) m.

Definition keys {V} (m : t V) : list string := map fst m.
Definition values {V} (m : t V) : list V := map snd m.
Definition entries {V} (m : t V) : list (string * V) := m.
Definition size {V} (m : t V) : nat := List.length m.

End JsMap.

(* ===================================================================== *)
(** * The JavaScript values the managers compute with *)
(* ===================================================================== *)

Module Js.

(** ** Numbers

    A JavaScript number is an IEEE-754 double.  The only arithmetic on
    numbers that the properties below depend on is on non-negative
    integers ([parseInt] of a string of digits, times a power of two), so a
    number is modelled as the non-negative integer it holds, or [Infinity].
    [toDouble n] is the double nearest to the integer [n] (ties to even,
    53 significant bits, overflow to [Infinity] from [2^1024]). *)
Inductive Number : Type :=
| Finite (z : Z)
| Infinity.

Definition toDouble (n : Z) : Number :=
  if n <? 2 ^ 53 then Finite n
  else
    let e := Z.log2 n - 52 in
    let q := Z.shiftr n e in
    let r := Z.land n (Z.ones e) in
    let half := Z.shiftl 1 (e - 1) in
    let q' := if (half <? r) || ((r =? half) && Z.odd q) then q + 1 else q in
    let v := Z.shiftl q' e in
    if v <? 2 ^ 1024 then Finite v else Infinity.

(** [x * u] for a number [x] and a positive integer [u]. *)
Definition mul (x : Number) (u : Z) : Number :=
  match x with
  | Finite a => toDouble (a * u)
  | Infinity => Infinity
  end.

(** ** Strings of the configuration

    Identifiers, names, messages and configuration strings are [string]s; a
    character stands for the code unit of the same number (U+0000 to
    U+00FF). *)

Definition code (c : ascii) : N := N_of_ascii c.

Definition isDigit (c : ascii) : bool :=
  ((48 <=? code c) && (code c <=? 57))%N.

(** [String.prototype.toLowerCase] on the code units U+0000..U+00FF: the
    letters A-Z and the Latin-1 capitals U+00C0..U+00DE (but not the
    multiplication sign U+00D7) move 32 places up. *)
Definition lowerChar (c : ascii) : ascii :=
  let n := code c in
  if (((65 <=? n) && (n <=? 90))
      || ((192 <=? n) && (n <=? 222) && negb (n =? 215)))%N
  then ascii_of_N (n + 32) else c.

Fixpoint toLowerCase (s : string) : string :=
  match s with
  | EmptyString => EmptyString
  | String c s' => String (lowerChar c) (toLowerCase s')
  end.

Fixpoint allDigits (s : string) : bool :=
  match s with
  | EmptyString => true
  | String c s' => isDigit c && allDigits s'
  end.

(** The value of a string of decimal digits, most significant first. *)
Fixpoint digitsValueFrom (acc : Z) (s : string) : Z :=
  match s with
  | EmptyString => acc
  | String c s' => digitsValueFrom (10 * acc + (Z.of_N (code c) - 48)) s'
  end.

Definition digitsValue (s : string) : Z := digitsValueFrom 0 s.

(** [parseInt(value, 10)] for a [value] made of decimal digits. *)
Definition parseInt10 (value : string) : Number := toDouble (digitsValue value).

(** Truthiness of an optional string: [undefined] and [""] are falsy. *)
Definition truthy (s : option string) : option string :=
  match s with
  | Some EmptyString => None
  | _ => s
  end.

(** ** Buffers and the strings decoded from them

    A [Buffer] is a list of bytes; a decoded string is the list of its
    UTF-16 code units. *)

Definition Buffer : Type := list Byte.byte.
Definition Text : Type := list N.

(** [Buffer.prototype.toString()] decodes UTF-8, replacing every ill-formed
    sequence by U+FFFD; the decoder below is the one of the Encoding
    Standard, a byte at a time. *)
Record Utf8State : Type := {
  u_cp : N;
  u_needed : nat;
  u_lower : N;
  u_upper : N
}.

Definition utf8_init : Utf8State :=
  {| u_cp := 0; u_needed := 0; u_lower := 0x80; u_upper := 0xBF |}.

Definition utf8_lead (b : N) : list N * Utf8State :=
  (if b <=? 0x7F then ([b], utf8_init)
   else if (0xC2 <=? b) && (b <=? 0xDF) then
     ([], {| u_cp := N.land b 0x1F; u_needed := 1;
             u_lower := 0x80; u_upper := 0xBF |})
   else if (0xE0 <=? b) && (b <=? 0xEF) then
     ([], {| u_cp := N.land b 0xF; u_needed := 2;
             u_lower := if b =? 0xE0 then 0xA0 else 0x80;
             u_upper := if b =? 0xED then 0x9F else 0xBF |})
   else if (0xF0 <=? b) && (b <=? 0xF4) then
     ([], {| u_cp := N.land b 0x7; u_needed := 3;
             u_lower := if b =? 0xF0 then 0x90 else 0x80;
             u_upper := if b =? 0xF4 then 0x8F else 0xBF |})
   else ([0xFFFD], utf8_init))%N.

Definition utf8_step (st : Utf8State) (b : N) : list N * Utf8State :=
  match u_needed st with
  | O => utf8_lead b
  | S k =>
      if ((u_lower st <=? b) && (b <=? u_upper st))%N then
        let cp := N.lor (N.shiftl (u_cp st) 6) (N.land b 0x3F) in
        match k with
        | O => ([cp], utf8_init)
        | S _ => ([], {| u_cp := cp; u_needed := k;
                         u_lower := 0x80; u_upper := 0xBF |})
        end
      else
        let '(out, st') := utf8_lead b in (0xFFFD%N :: out, st')
  end.

Fixpoint utf8_decode (st : Utf8State) (bs : Buffer) : list N :=
  match bs with
  | [] => match u_needed st with O => [] | S _ => [0xFFFD%N] end
  | b :: bs' =>
      let '(out, st') := utf8_step st (Byte.to_N b) in
      out ++ utf8_decode st' bs'
  end.

Definition utf16_units (cp : N) : list N :=
  (if cp <? 0x10000 then [cp]
   else let c := cp - 0x10000 in
        [0xD800 + N.shiftr c 10; 0xDC00 + N.land c 0x3FF])%N.

Definition toString (chunk : Buffer) : Text :=
  flat_map utf16_units (utf8_decode utf8_init chunk).

(** [s.substring(n)] for [n] within [0 .. s.length]. *)
Definition substring (n : nat) (s : Text) : Text := skipn n s.

(** The code units that [String.prototype.trim] removes: WhiteSpace and
    LineTerminator of ECMAScript. *)
Definition isWhiteSpace (c : N) : bool :=
  ((c =? 0x09) || (c =? 0x0A) || (c =? 0x0B) || (c =? 0x0C) || (c =? 0x0D)
   || (c =? 0x20) || (c =? 0xA0) || (c =? 0x1680)
   || ((0x2000 <=? c) && (c <=? 0x200A))
   || (c =? 0x2028) || (c =? 0x2029) || (c =? 0x202F) || (c =? 0x205F)
   || (c =? 0x3000) || (c =? 0xFEFF))%N.

Fixpoint trimStart (s : Text) : Text :=
  match s with
  | [] => []
  | c :: s' => if isWhiteSpace c then trimStart s' else s
  end.

Definition trimEnd (s : Text) : Text := rev (trimStart (rev s)).

Definition trim (s : Text) : Text := trimEnd (trimStart s).

(** The code units of an ASCII string, for writing examples. *)
Fixpoint text (s : string) : Text :=
  match s with
  | EmptyString => []
  | String c s' => code c :: text s'
  end.

Definition bytes (l : list N) : Buffer :=
  map (fun n => match Byte.of_N n with Some b => b | None => Byte.x00 end) l.

End Js.

(* ===================================================================== *)
(** * [SandboxManager]: the container-backed manager *)
(* ===================================================================== *)

Module SandboxManager.

Import Js.

(** ** Data model ([types.ts]) *)

Inductive SandboxStatus : Type :=
| CREATING
| RUNNING
| PAUSED
| STOPPED
| ERROR.

Definition statusText (s : SandboxStatus) : string :=
  match s with
  | CREATING => "creating"
  | RUNNING => "running"
  | PAUSED => "paused"
  | STOPPED => "stopped"
  | ERROR => "error"
  end.

Definition status_eqb (a b : SandboxStatus) : bool :=
  match a, b with
  | CREATING, CREATING | RUNNING, RUNNING | PAUSED, PAUSED
  | STOPPED, STOPPED | ERROR, ERROR => true
  | _, _ => false
  end.

(** The fields of [SandboxConfig] that the manager reads; an absent field
    is [None]. *)
Record SandboxConfig : Type := {
  image : option string;
  memoryLimit : option string;
  cpuLimit : option Q;
  timeout : option Z;
  env : option (list (string * string));
  workDir : option string;
  autoRemove : option bool
}.

Record SandboxInfo : Type := {
  id : string;
  name : string;
  status : SandboxStatus;
  containerId : option string;
  createdAt : Z;
  config : SandboxConfig
}.

Definition withStatus (s : SandboxStatus) (sb : SandboxInfo) : SandboxInfo :=
  {| id := id sb; name := name sb; status := s;
     containerId := containerId sb; createdAt := createdAt sb;
     config := config sb |}.

Definition withContainerId (c : string) (sb : SandboxInfo) : SandboxInfo :=
  {| id := id sb; name := name sb; status := status sb;
     containerId := Some c; createdAt := createdAt sb;
     config := config sb |}.

Record ExecuteResult : Type := {
  stdout : Text;
  stderr : Text;
  exitCode : Z
}.

Record SandboxStats : Type := {
  cpuUsage : Q;
  memoryUsage : Z;
  networkRx : Z;
  networkTx : Z
}.

(** ** The driver *)

(** The argument of [docker.createContainer]. *)
Record ContainerCreateOptions : Type := {
  co_name : string;
  Image : string;
  Cmd : list string;
  Tty : bool;
  OpenStdin : bool;
  Memory : Number;
  NanoCpus : Q;
  AutoRemove : option bool;
  NetworkMode : string;
  Env : list string;
  WorkingDir : string
}.

(** What the stream of [exec.start] delivers: its ['data'] chunks in order,
    then ['end'] or ['error']. *)
Inductive StreamEnd : Type :=
| StreamEnded
| StreamError (message : string).

Record ExecStream : Type := {
  chunks : list Buffer;
  ending : StreamEnd
}.

(** The raw counters of [container.stats]. *)
Record RawStats : Type := {
  cpu_total_usage : Z;
  cpu_system_usage : Z;
  online_cpus : option Z;
  precpu_total_usage : Z;
  precpu_system_usage : Z;
  memory_usage : option Z;
  eth0_rx_bytes : option Z;
  eth0_tx_bytes : option Z
}.

(** The outcome of every call to dockerode; [Err m] is a rejection whose
    [message] is [m]. *)
Record Docker : Type := {
  createContainer : ContainerCreateOptions -> Result string string;
  start : string -> Result string unit;
  exec : string -> list string -> Result string unit;
  execStart : string -> list string -> Result string ExecStream;
  execInspect : string -> list string -> Result string (option Z);
  pause : string -> Result string unit;
  unpause : string -> Result string unit;
  stop : string -> Z -> Result string unit;
  remove : string -> bool -> Result string unit;
  stats : string -> Result string RawStats
}.

(** The calls made to the driver, oldest first. *)
Inductive DockerCall : Type :=
| CallCreateContainer (opts : ContainerCreateOptions)
| CallStart (container : string)
| CallExec (container : string) (command : list string)
| CallExecStart (container : string) (command : list string)
| CallExecInspect (container : string) (command : list string)
| CallPause (container : string)
| CallUnpause (container : string)
| CallStop (container : string) (t : Z)
| CallRemove (container : string) (force : bool)
| CallStats (container : string).

(** ** Errors

    The manager throws plain [Error]s; each constructor is one of its
    messages. *)
Inductive SandboxError : Type :=
| NotFound (sandboxId : string)
| NotRunning (sandboxId : string) (st : SandboxStatus)
| PauseNotRunning (sandboxId : string)
| NotPaused (sandboxId : string)
| NotFoundOrNotRunning (sandboxId : string)
| Failed (what : string) (message : string)
| Rejected (message : string).

Definition errorMessage (e : SandboxError) : string :=
  match e with
  | NotFound i => "Sandbox " ++ i ++ " not found"
  | NotRunning i s =>
      "Sandbox " ++ i ++ " is not running (status: " ++ statusText s ++ ")"
  | PauseNotRunning i => "Sandbox " ++ i ++ " is not running"
  | NotPaused i => "Sandbox " ++ i ++ " is not paused"
  | NotFoundOrNotRunning i => "Sandbox " ++ i ++ " not found or not running"
  | Failed what m => "Failed to " ++ what ++ ": " ++ m
  | Rejected m => m
  end%string.

(** ** State of the manager *)

Inductive Event : Type :=
| SandboxCreated (info : SandboxInfo)
| SandboxPaused (info : SandboxInfo)
| SandboxResumed (info : SandboxInfo)
| SandboxCleaned (sandboxId : string)
| CleanupStale (ids : list string)
| Shutdown.

(** A pending [setTimeout]: the time it is due and the sandbox it cleans. *)
Record Timer : Type := {
  due : Z;
  target : string
}.

Record State : Type := {
  sandboxes : JsMap.t SandboxInfo;
  calls : list DockerCall;
  emitted : list Event;
  timers : list Timer;
  clock : Z
}.

Definition initial : State :=
  {| sandboxes := JsMap.empty; calls := []; emitted := [];
     timers := []; clock := 0 |}.

Definition setSandboxes (m : JsMap.t SandboxInfo) (s : State) : State :=
  {| sandboxes := m; calls := calls s; emitted := emitted s;
     timers := timers s; clock := clock s |}.

Definition call (c : DockerCall) (s : State) : State :=
  {| sandboxes := sandboxes s; calls := calls s ++ [c];
     emitted := emitted s; timers := timers s; clock := clock s |}.

Definition emit (e : Event) (s : State) : State :=
  {| sandboxes := sandboxes s; calls := calls s;
     emitted := emitted s ++ [e]; timers := timers s; clock := clock s |}.

Definition setTimers (ts : list Timer) (s : State) : State :=
  {| sandboxes := sandboxes s; calls := calls s; emitted := emitted s;
     timers := ts; clock := clock s |}.

Definition setClock (t : Z) (s : State) : State :=
  {| sandboxes := sandboxes s; calls := calls s; emitted := emitted s;
     timers := timers s; clock := t |}.

Definition put (sb : SandboxInfo) (s : State) : State :=
  setSandboxes (JsMap.set (id sb) sb (sandboxes s)) s.

(** A manager method: a result and the state it leaves. *)
Definition M (A : Type) : Type := State -> Result SandboxError A * State.

(** ** Private helpers *)

Definition units (u : ascii) : option Z :=
  match u with
  | "b"%char => Some 1
  | "k"%char => Some 1024
  | "m"%char => Some (1024 ^ 2)
  | "g"%char => Some (1024 ^ 3)
  | _ => None
  end.

(** The last character of a string and what precedes it. *)
Fixpoint splitLast (s : string) : option (string * ascii) :=
  match s with
  | EmptyString => None
  | String c EmptyString => Some (EmptyString, c)
  | String c s' =>
      match splitLast s' with
      | Some (p, l) => Some (String c p, l)
      | None => None
      end
  end.

Definition isUnitChar (c : ascii) : bool :=
  match units c with Some _ => true | None => false end.

(** [s.match(/^(\d+)([bkmg])$/)]: the two groups, when [s] is one or more
    digits followed by one of [b], [k], [m], [g] and nothing else. *)
Definition matchLimit (s : string) : option (string * ascii) :=
  match splitLast s with
  | Some (value, unit) =>
      match value with
      | EmptyString => None
      | _ => if allDigits value && isUnitChar unit
             then Some (value, unit) else None
      end
  | None => None
  end.

(** A memory limit such as [512m].  The source's test [!value || !unit]
    can only fail on an empty [value]: [unit] is one character. *)
Definition parseMemoryLimit (limit : string) : Result string Number :=
  match matchLimit (toLowerCase limit) with
  | None => Err ("Invalid memory limit format: " ++ limit)%string
  | Some (value, unit) =>
      match value with
      | EmptyString => Err ("Invalid memory limit format: " ++ limit)%string
      | _ =>
          match units unit with
          | None => Err ("Invalid memory unit: " ++ String unit "")%string
          | Some factor => Ok (mul (parseInt10 value) factor)
          end
      end
  end.

Definition calculateCpuPercent (s : RawStats) : Q :=
  let cpuDelta := cpu_total_usage s - precpu_total_usage s in
  let systemDelta := cpu_system_usage s - precpu_system_usage s in
  let numberCpus :=
    match online_cpus s with
    | Some 0 | None => 1
    | Some n => n
    end in
  if (0 <? systemDelta) && (0 <? cpuDelta)
  then ((inject_Z cpuDelta / inject_Z systemDelta)
        * inject_Z numberCpus * inject_Z 100)%Q
  else 0%Q.

(** [x || 0] *)
Definition orZero (x : option Z) : Z :=
  match x with Some n => n | None => 0 end.

(** ** Public methods *)

(** A field of [{ ...defaults, ...config }]: that of [config] when it has
    one, the default otherwise. *)
Definition orElse {A} (x : option A) (d : A) : option A :=
  match x with Some _ => x | None => Some d end.

(** [{ image: 'node:20-alpine', memoryLimit: '512m', cpuLimit: 1,
       timeout: 300000, autoRemove: true, ...config }] *)
Definition withDefaults (c : SandboxConfig) : SandboxConfig :=
  {| image := orElse (image c) "node:20-alpine";
     memoryLimit := orElse (memoryLimit c) "512m";
     cpuLimit := orElse (cpuLimit c) 1%Q;
     timeout := orElse (timeout c) 300000;
     env := env c;
     workDir := workDir c;
     autoRemove := orElse (autoRemove c) true |}.

(** [x!] on a string field: the field itself; dockerode writes an absent
    one as the text [undefined] into the request. *)
Definition bang (x : option string) : string :=
  match x with Some s => s | None => "undefined" end.

Definition envEntries (e : option (list (string * string))) : list string :=
  match e with
  | Some l => map (fun kv => (fst kv ++ "=" ++ snd kv)%string) l
  | None => []
  end.

Definition containerOptions (sandboxId : string) (c : SandboxConfig)
    (memory : Number) : ContainerCreateOptions :=
  {| co_name := ("sandbox-" ++ sandboxId)%string;
     Image := bang (image c);
     Cmd := ["/bin/sh"];
     Tty := true;
     OpenStdin := true;
     Memory := memory;
     NanoCpus :=
       (match cpuLimit c with Some n => n | None => 0 end
        * inject_Z 1000000000)%Q;
     AutoRemove := autoRemove c;
     NetworkMode := "bridge";
     Env := envEntries (env c);
     WorkingDir :=
       match truthy (workDir c) with Some w => w | None => "/workspace" end
  |}.

(** The delay Node gives a [setTimeout(f, ms)]: [ms] itself when it lies in
    [1 .. 2^31 - 1], and 1 otherwise. *)
Definition timerDelay (ms : Z) : Z :=
  if (1 <=? ms) && (ms <=? 2147483647) then ms else 1.

Definition setTimeout (sandboxId : string) (ms : Z) (s : State) : State :=
  setTimers
    (timers s ++ [{| due := clock s + timerDelay ms; target := sandboxId |}])
    s.

(** The [catch] of [createSandbox]. *)
Definition createFailed (sb : SandboxInfo) (m : string) : M SandboxInfo :=
  fun s => (Err (Failed "create sandbox" m), put (withStatus ERROR sb) s).

(** [sandboxId] is the value of [generateId()], and [clock] that of
    [new Date()]. *)
Definition createSandbox (d : Docker) (sandboxId : string) (name : string)
    (config : SandboxConfig) : M SandboxInfo :=
  fun s =>
    let defaultConfig := withDefaults config in
    let sandboxInfo :=
      {| id := sandboxId; name := name; status := CREATING;
         containerId := None; createdAt := clock s;
         config := defaultConfig |} in
    let s := put sandboxInfo s in
    match parseMemoryLimit (bang (memoryLimit defaultConfig)) with
    | Err m => createFailed sandboxInfo m s
    | Ok memory =>
        let opts := containerOptions sandboxId defaultConfig memory in
        let s := call (CallCreateContainer opts) s in
        match createContainer d opts with
        | Err m => createFailed sandboxInfo m s
        | Ok container =>
            let s := call (CallStart container) s in
            match start d container with
            | Err m => createFailed sandboxInfo m s
            | Ok _ =>
                let sandboxInfo :=
                  withStatus RUNNING (withContainerId container sandboxInfo) in
                let s := put sandboxInfo s in
                let s := emit (SandboxCreated sandboxInfo) s in
                let s :=
                  match timeout defaultConfig with
                  | Some 0 | None => s
                  | Some ms => setTimeout sandboxId ms s
                  end in
                (Ok sandboxInfo, s)
            end
        end
    end.

(** The ['data'] handler of [executeInSandbox]: the pair is
    [(stdout, stderr)]. *)
Definition onData (acc : Text * Text) (chunk : Buffer) : Text * Text :=
  let data := toString chunk in
  match chunk with
  | Byte.x01 :: _ => (fst acc ++ substring 8 data, snd acc)
  | Byte.x02 :: _ => (fst acc, snd acc ++ substring 8 data)
  | _ => acc
  end.

Definition demultiplex (cs : list Buffer) : Text * Text :=
  fold_left onData cs ([], []).

Definition executeInSandbox (d : Docker) (sandboxId : string)
    (command : list string) : M ExecuteResult :=
  fun s =>
    match JsMap.get sandboxId (sandboxes s) with
    | None => (Err (NotFound sandboxId), s)
    | Some sandbox =>
        if negb (status_eqb (status sandbox) RUNNING)
        then (Err (NotRunning sandboxId (status sandbox)), s)
        else
          let container := bang (containerId sandbox) in
          let s := call (CallExec container command) s in
          match exec d container command with
          | Err m => (Err (Failed "execute command" m), s)
          | Ok _ =>
              let s := call (CallExecStart container command) s in
              match execStart d container command with
              | Err m => (Err (Failed "execute command" m), s)
              | Ok stream =>
                  let '(out, err) := demultiplex (chunks stream) in
                  match ending stream with
                  | StreamError m => (Err (Rejected m), s)
                  | StreamEnded =>
                      let s := call (CallExecInspect container command) s in
                      match execInspect d container command with
                      | Err m => (Err (Rejected m), s)
                      | Ok code =>
                          (Ok {| stdout := trim out; stderr := trim err;
                                 exitCode := orZero code |}, s)
                      end
                  end
              end
          end
    end.

Definition pauseSandbox (d : Docker) (sandboxId : string) : M unit :=
  fun s =>
    match JsMap.get sandboxId (sandboxes s) with
    | None => (Err (NotFound sandboxId), s)
    | Some sandbox =>
        if negb (status_eqb (status sandbox) RUNNING)
        then (Err (PauseNotRunning sandboxId), s)
        else
          let container := bang (containerId sandbox) in
          let s := call (CallPause container) s in
          match pause d container with
          | Err m => (Err (Failed "pause sandbox" m), s)
          | Ok _ =>
              let sandbox := withStatus PAUSED sandbox in
              let s := setSandboxes
                         (JsMap.set sandboxId sandbox (sandboxes s)) s in
              (Ok tt, emit (SandboxPaused sandbox) s)
          end
    end.

Definition resumeSandbox (d : Docker) (sandboxId : string) : M unit :=
  fun s =>
    match JsMap.get sandboxId (sandboxes s) with
    | None => (Err (NotFound sandboxId), s)
    | Some sandbox =>
        if negb (status_eqb (status sandbox) PAUSED)
        then (Err (NotPaused sandboxId), s)
        else
          let container := bang (containerId sandbox) in
          let s := call (CallUnpause container) s in
          match unpause d container with
          | Err m => (Err (Failed "resume sandbox" m), s)
          | Ok _ =>
              let sandbox := withStatus RUNNING sandbox in
              let s := setSandboxes
                         (JsMap.set sandboxId sandbox (sandboxes s)) s in
              (Ok tt, emit (SandboxResumed sandbox) s)
          end
    end.

(** The driver side of [cleanupSandbox]: [stop], then [remove] unless the
    container removes itself; a rejection of either is swallowed. *)
Definition teardown (sandbox : SandboxInfo) (s : State) : State :=
  match truthy (containerId sandbox) with
  | Some container =>
      let s := call (CallStop container 10) s in
      match autoRemove (config sandbox) with
      | Some true => s
      | _ => call (CallRemove container true) s
      end
  | None => s
  end.

Definition cleanupSandbox (d : Docker) (sandboxId : string) : M unit :=
  fun s =>
    match JsMap.get sandboxId (sandboxes s) with
    | None => (Err (NotFound sandboxId), s)
    | Some sandbox =>
        let s := teardown sandbox s in
        let s := setSandboxes (JsMap.delete sandboxId (sandboxes s)) s in
        (Ok tt, emit (SandboxCleaned sandboxId) s)
    end.

Definition getSandbox (sandboxId : string) (s : State) : option SandboxInfo :=
  JsMap.get sandboxId (sandboxes s).

Definition listSandboxes (s : State) : list SandboxInfo :=
  JsMap.values (sandboxes s).

Definition getSandboxStats (d : Docker) (sandboxId : string)
    : M SandboxStats :=
  fun s =>
    match JsMap.get sandboxId (sandboxes s) with
    | None => (Err (NotFoundOrNotRunning sandboxId), s)
    | Some sandbox =>
        match truthy (containerId sandbox) with
        | None => (Err (NotFoundOrNotRunning sandboxId), s)
        | Some container =>
            let s := call (CallStats container) s in
            match stats d container with
            | Err m => (Err (Failed "get sandbox stats" m), s)
            | Ok raw =>
                (Ok {| cpuUsage := calculateCpuPercent raw;
                       memoryUsage := orZero (memory_usage raw);
                       networkRx := orZero (eth0_rx_bytes raw);
                       networkTx := orZero (eth0_tx_bytes raw) |}, s)
            end
        end
    end.

(** [ids.map(id => this.cleanupSandbox(id).catch(console.error))]: every
    cleanup is run, a failing one is only logged. *)
Definition cleanupAll (d : Docker) (ids : list string) (s : State) : State :=
  fold_left (fun s i => snd (cleanupSandbox d i s)) ids s.

Definition shutdown (d : Docker) (s : State) : State :=
  emit Shutdown (cleanupAll d (JsMap.keys (sandboxes s)) s).

Definition isStale (now : Z) (sandbox : SandboxInfo) : bool :=
  let age := now - createdAt sandbox in
  let timeout :=
    match timeout (config sandbox) with
    | Some 0 | None => 300000
    | Some ms => ms
    end in
  (timeout <? age) && negb (status_eqb (status sandbox) STOPPED).

(** The callback of the cleanup scheduler; [clock] is [Date.now()]. *)
Definition cleanupStaleSandboxes (d : Docker) (s : State) : State :=
  let staleSandboxes :=
    JsMap.keys
      (filter (fun e => isStale (clock s) (snd e))
              (JsMap.entries (sandboxes s))) in
  let s := cleanupAll d staleSandboxes s in
  match staleSandboxes with
  | [] => s
  | _ => emit (CleanupStale staleSandboxes) s
  end.

(** ** The passing of time

    [advance d t] lets the clock reach [t]: the timers due by then fire in
    the order of their due times (those due together, in the order they
    were set), each running its [cleanupSandbox] with the failure logged;
    the later timers stay pending. *)
Fixpoint insertTimer (x : Timer) (l : list Timer) : list Timer :=
  match l with
  | [] => [x]
  | y :: l' => if due x <? due y then x :: l else y :: insertTimer x l'
  end.

Definition byDue (l : list Timer) : list Timer :=
  fold_left (fun acc x => insertTimer x acc) l [].

Definition advance (d : Docker) (t : Z) (s : State) : State :=
  let fired := byDue (filter (fun x => due x <=? t) (timers s)) in
  let pending := filter (fun x => negb (due x <=? t)) (timers s) in
  let s := setTimers pending s in
  let s := cleanupAll d (map target fired) s in
  setClock (Z.max (clock s) t) s.

End SandboxManager.

(* ===================================================================== *)
(** * Memory limits over all strings *)
(* ===================================================================== *)

(** The memory limit of a configuration is any string ([z.string()]), and
    [parseMemoryLimit] lowers it before it matches it.  This module has
    the parser on the UTF-16 code units of a string, with
    [String.prototype.toLowerCase] on all of Unicode. *)
Module Utf16.

Import Js.

(** ** [toLowerCase]

    The lowercase mapping of a code point that has a single one, from the
    Unicode Character Database (version 14.0): [(first, last, delta,
    stride)] stands for the code points [first], [first + stride], ...,
    [last], each mapped to itself plus [delta]. *)
Definition lowerRanges : list (Z * Z * Z * Z) :=
  [(65, 90, 32, 1); (192, 214, 32, 1); (216, 222, 32, 1);
   (256, 302, 1, 2); (306, 310, 1, 2); (313, 327, 1, 2); (330, 374, 1, 2);
   (376, 376, (-121), 1); (377, 381, 1, 2); (385, 385, 210, 1);
   (386, 388, 1, 2); (390, 390, 206, 1); (391, 391, 1, 1);
   (393, 394, 205, 1); (395, 395, 1, 1); (398, 398, 79, 1);
   (399, 399, 202, 1); (400, 400, 203, 1); (401, 401, 1, 1);
   (403, 403, 205, 1); (404, 404, 207, 1); (406, 406, 211, 1);
   (407, 407, 209, 1); (408, 408, 1, 1); (412, 412, 211, 1);
   (413, 413, 213, 1); (415, 415, 214, 1); (416, 420, 1, 2);
   (422, 422, 218, 1); (423, 423, 1, 1); (425, 425, 218, 1);
   (428, 428, 1, 1); (430, 430, 218, 1); (431, 431, 1, 1);
   (433, 434, 217, 1); (435, 437, 1, 2); (439, 439, 219, 1);
   (440, 440, 1, 1); (444, 444, 1, 1); (452, 452, 2, 1); (453, 453, 1, 1);
   (455, 455, 2, 1); (456, 456, 1, 1); (458, 458, 2, 1); (459, 475, 1, 2);
   (478, 494, 1, 2); (497, 497, 2, 1); (498, 500, 1, 2);
   (502, 502, (-97), 1); (503, 503, (-56), 1); (504, 542, 1, 2);
   (544, 544, (-130), 1); (546, 562, 1, 2); (570, 570, 10795, 1);
   (571, 571, 1, 1); (573, 573, (-163), 1); (574, 574, 10792, 1);
   (577, 577, 1, 1); (579, 579, (-195), 1); (580, 580, 69, 1);
   (581, 581, 71, 1); (582, 590, 1, 2); (880, 882, 1, 2);
   (886, 886, 1, 1); (895, 895, 116, 1); (902, 902, 38, 1);
   (904, 906, 37, 1); (908, 908, 64, 1); (910, 911, 63, 1);
   (913, 929, 32, 1); (931, 939, 32, 1); (975, 975, 8, 1);
   (984, 1006, 1, 2); (1012, 1012, (-60), 1); (1015, 1015, 1, 1);
   (1017, 1017, (-7), 1); (1018, 1018, 1, 1); (1021, 1023, (-130), 1);
   (1024, 1039, 80, 1); (1040, 1071, 32, 1); (1120, 1152, 1, 2);
   (1162, 1214, 1, 2); (1216, 1216, 15, 1); (1217, 1229, 1, 2);
   (1232, 1326, 1, 2); (1329, 1366, 48, 1); (4256, 4293, 7264, 1);
   (4295, 4295, 7264, 1); (4301, 4301, 7264, 1); (5024, 5103, 38864, 1);
   (5104, 5109, 8, 1); (7312, 7354, (-3008), 1); (7357, 7359, (-3008), 1);
   (7680, 7828, 1, 2); (7838, 7838, (-7615), 1); (7840, 7934, 1, 2);
   (7944, 7951, (-8), 1); (7960, 7965, (-8), 1); (7976, 7983, (-8), 1);
   (7992, 7999, (-8), 1); (8008, 8013, (-8), 1); (8025, 8031, (-8), 2);
   (8040, 8047, (-8), 1); (8072, 8079, (-8), 1); (8088, 8095, (-8), 1);
   (8104, 8111, (-8), 1); (8120, 8121, (-8), 1); (8122, 8123, (-74), 1);
   (8124, 8124, (-9), 1); (8136, 8139, (-86), 1); (8140, 8140, (-9), 1);
   (8152, 8153, (-8), 1); (8154, 8155, (-100), 1); (8168, 8169, (-8), 1);
   (8170, 8171, (-112), 1); (8172, 8172, (-7), 1);
   (8184, 8185, (-128), 1); (8186, 8187, (-126), 1);
   (8188, 8188, (-9), 1); (8486, 8486, (-7517), 1);
   (8490, 8490, (-8383), 1); (8491, 8491, (-8262), 1);
   (8498, 8498, 28, 1); (8544, 8559, 16, 1); (8579, 8579, 1, 1);
   (9398, 9423, 26, 1); (11264, 11311, 48, 1); (11360, 11360, 1, 1);
   (11362, 11362, (-10743), 1); (11363, 11363, (-3814), 1);
   (11364, 11364, (-10727), 1); (11367, 11371, 1, 2);
   (11373, 11373, (-10780), 1); (11374, 11374, (-10749), 1);
   (11375, 11375, (-10783), 1); (11376, 11376, (-10782), 1);
   (11378, 11378, 1, 1); (11381, 11381, 1, 1);
   (11390, 11391, (-10815), 1); (11392, 11490, 1, 2);
   (11499, 11501, 1, 2); (11506, 11506, 1, 1); (42560, 42604, 1, 2);
   (42624, 42650, 1, 2); (42786, 42798, 1, 2); (42802, 42862, 1, 2);
   (42873, 42875, 1, 2); (42877, 42877, (-35332), 1);
   (42878, 42886, 1, 2); (42891, 42891, 1, 1);
   (42893, 42893, (-42280), 1); (42896, 42898, 1, 2);
   (42902, 42920, 1, 2); (42922, 42922, (-42308), 1);
   (42923, 42923, (-42319), 1); (42924, 42924, (-42315), 1);
   (42925, 42925, (-42305), 1); (42926, 42926, (-42308), 1);
   (42928, 42928, (-42258), 1); (42929, 42929, (-42282), 1);
   (42930, 42930, (-42261), 1); (42931, 42931, 928, 1);
   (42932, 42946, 1, 2); (42948, 42948, (-48), 1);
   (42949, 42949, (-42307), 1); (42950, 42950, (-35384), 1);
   (42951, 42953, 1, 2); (42960, 42960, 1, 1); (42966, 42968, 1, 2);
   (42997, 42997, 1, 1); (65313, 65338, 32, 1); (66560, 66599, 40, 1);
   (66736, 66771, 40, 1); (66928, 66964, 39, 2); (66929, 66938, 39, 1);
   (66940, 66954, 39, 1); (66956, 66962, 39, 1); (66964, 66965, 39, 1);
   (68736, 68786, 64, 1); (71840, 71871, 32, 1); (93760, 93791, 32, 1);
   (125184, 125217, 34, 1)]%Z.

Definition covers (cp : Z) (r : Z * Z * Z * Z) : bool :=
  let '(first, last, _, stride) := r in
  (first <=? cp) && (cp <=? last) && ((cp - first) mod stride =? 0).

Definition lowerPoint (cp : N) : N :=
  match find (covers (Z.of_N cp)) lowerRanges with
  | Some (_, _, delta, _) => Z.to_N (Z.of_N cp + delta)
  | None => cp
  end.

(** The lowercase of a code point between the code units [before] and
    [after]: the capital sigma becomes the final sigma U+03C2 where the
    condition [Final_Sigma] of Unicode holds (as [finalSigma] tells) and
    the sigma U+03C3 elsewhere; the capital I with a dot U+0130 becomes
    two code points; every other code point has its single mapping. *)
Definition lowerOne (finalSigma : Text -> Text -> bool)
    (before : Text) (cp : N) (after : Text) : list N :=
  (if cp =? 0x3A3 then [if finalSigma before after then 0x3C2 else 0x3C3]
   else if cp =? 0x130 then [0x69; 0x307]
   else [lowerPoint cp])%N.

Definition isHighSurrogate (u : N) : bool :=
  ((0xD800 <=? u) && (u <=? 0xDBFF))%N.

Definition isLowSurrogate (u : N) : bool :=
  ((0xDC00 <=? u) && (u <=? 0xDFFF))%N.

Definition codePoint (high low : N) : N :=
  (0x10000 + (high - 0xD800) * 0x400 + (low - 0xDC00))%N.

(** The code units of a string are read as code points, a surrogate pair
    as one and a lone surrogate as itself; [before] is what was read. *)
Fixpoint lowerFrom (finalSigma : Text -> Text -> bool)
    (before s : Text) {struct s} : Text :=
  match s with
  | [] => []
  | u :: rest =>
      match rest with
      | low :: rest' =>
          if isHighSurrogate u && isLowSurrogate low
          then flat_map utf16_units
                 (lowerOne finalSigma before (codePoint u low) rest')
               ++ lowerFrom finalSigma (before ++ [u; low]) rest'
          else flat_map utf16_units (lowerOne finalSigma before u rest)
               ++ lowerFrom finalSigma (before ++ [u]) rest
      | [] => flat_map utf16_units (lowerOne finalSigma before u [])
      end
  end.

Definition toLowerCase (finalSigma : Text -> Text -> bool) (s : Text)
    : Text :=
  lowerFrom finalSigma [] s.

(** ** The parser *)

Definition isDigit (u : N) : bool := ((48 <=? u) && (u <=? 57))%N.

Definition units (u : N) : option Z :=
  match u with
  | 98%N => Some 1
  | 107%N => Some 1024
  | 109%N => Some (1024 ^ 2)
  | 103%N => Some (1024 ^ 3)
  | _ => None
  end.

(** The last code unit of a string and what precedes it. *)
Fixpoint splitLast (s : Text) : option (Text * N) :=
  match s with
  | [] => None
  | [u] => Some ([], u)
  | u :: s' =>
      match splitLast s' with
      | Some (p, l) => Some (u :: p, l)
      | None => None
      end
  end.

Definition isUnitChar (u : N) : bool :=
  match units u with Some _ => true | None => false end.

(** [s.match(/^(\d+)([bkmg])$/)] *)
Definition matchLimit (s : Text) : option (Text * N) :=
  match splitLast s with
  | Some (value, unit) =>
      match value with
      | [] => None
      | _ => if forallb isDigit value && isUnitChar unit
             then Some (value, unit) else None
      end
  | None => None
  end.

Fixpoint digitsValueFrom (acc : Z) (s : Text) : Z :=
  match s with
  | [] => acc
  | u :: s' => digitsValueFrom (10 * acc + (Z.of_N u - 48)) s'
  end.

Definition digitsValue (s : Text) : Z := digitsValueFrom 0 s.

(** [parseInt(value, 10)] for a [value] made of decimal digits. *)
Definition parseInt10 (value : Text) : Number := toDouble (digitsValue value).

(** [parseMemoryLimit]; an error is the message of the [Error] thrown. *)
Definition parseMemoryLimit (finalSigma : Text -> Text -> bool)
    (limit : Text) : Result Text Number :=
  match matchLimit (toLowerCase finalSigma limit) with
  | None => Err (text "Invalid memory limit format: " ++ limit)
  | Some (value, unit) =>
      match value with
      | [] => Err (text "Invalid memory limit format: " ++ limit)
      | _ =>
          match units unit with
          | None => Err (text "Invalid memory unit: " ++ [unit])
          | Some factor => Ok (mul (parseInt10 value) factor)
          end
      end
  end.

End Utf16.

(* ===================================================================== *)
(** * [BrowserSandboxManager]: the browser-backed manager *)
(* ===================================================================== *)

Module BrowserSandboxManager.

Import Js.

(** ** Data model *)

Inductive BrowserType : Type := chromium | firefox | webkit.

Inductive ContextStatus : Type := active | closed.

Inductive WaitUntil : Type := load | domcontentloaded | networkidle.

Inductive BrowserErrorCode : Type :=
| BROWSER_NOT_INITIALIZED
| CONTEXT_NOT_FOUND
| PAGE_NOT_FOUND
| NAVIGATION_FAILED
| NAVIGATION_TIMEOUT
| SCREENSHOT_FAILED
| PDF_GENERATION_FAILED
| JAVASCRIPT_EXECUTION_FAILED
| BROWSER_LAUNCH_FAILED
| CONTEXT_CREATION_FAILED.

(** What a driver call throws: an [Error] with its [message], or another
    value with the text [String(value)]. *)
Inductive Thrown : Type :=
| ThrownError (message : string)
| ThrownValue (asString : string).

(** [error instanceof Error ? error.message : String(error)] *)
Definition thrownText (t : Thrown) : string :=
  match t with
  | ThrownError m => m
  | ThrownValue v => v
  end.

Record BrowserError : Type := {
  message : string;
  code : BrowserErrorCode;
  originalError : option Thrown
}.

(** The fields of the configuration and of the options that the methods
    below read. *)
Record BrowserContextConfig : Type := {
  cfg_browserType : option BrowserType;
  cfg_timeout : option Z
}.

Record NavigateOptions : Type := {
  waitUntil : option WaitUntil;
  timeout : option Z;
  referer : option string
}.

Record JavaScriptResult : Type := {
  success : bool;
  result : option string;
  error : option string
}.

(** Driver handles. *)
Definition Page : Type := nat.
Definition BrowserContext : Type := nat.

Record ManagedContext : Type := {
  id : string;
  browserType : BrowserType;
  context : BrowserContext;
  pages : JsMap.t Page;
  createdAt : Z;
  lastAccessedAt : Z;
  config : BrowserContextConfig;
  status : ContextStatus
}.

Definition withPages (p : JsMap.t Page) (c : ManagedContext) : ManagedContext :=
  {| id := id c; browserType := browserType c; context := context c;
     pages := p; createdAt := createdAt c;
     lastAccessedAt := lastAccessedAt c; config := config c;
     status := status c |}.

Definition withLastAccessedAt (t : Z) (c : ManagedContext) : ManagedContext :=
  {| id := id c; browserType := browserType c; context := context c;
     pages := pages c; createdAt := createdAt c;
     lastAccessedAt := t; config := config c; status := status c |}.

(** ** The driver *)

Record Playwright : Type := {
  newPage : BrowserContext -> Result Thrown Page;
  setExtraHTTPHeaders : Page -> string -> Result Thrown unit;
  goto : Page -> string -> WaitUntil -> Z -> Result Thrown unit;
  content : Page -> Result Thrown string;
  evaluate : Page -> string -> Result Thrown string;
  close : Page -> Result Thrown unit
}.

Inductive PlaywrightCall : Type :=
| CallNewPage (c : BrowserContext)
| CallSetExtraHTTPHeaders (p : Page) (referer : string)
| CallGoto (p : Page) (url : string) (w : WaitUntil) (timeout : Z)
| CallContent (p : Page)
| CallEvaluate (p : Page) (script : string)
| CallClose (p : Page).

(** ** State of the manager *)

Inductive Event : Type :=
| NavigationStart (contextId pageId url : string)
| NavigationComplete (contextId pageId url : string) (duration : Z)
| PageCreated (contextId pageId url : string)
| PageClosed (contextId pageId : string).

Record State : Type := {
  contexts : JsMap.t ManagedContext;
  calls : list PlaywrightCall;
  emitted : list Event;
  clock : Z
}.

Definition setContexts (m : JsMap.t ManagedContext) (s : State) : State :=
  {| contexts := m; calls := calls s; emitted := emitted s;
     clock := clock s |}.

Definition call (c : PlaywrightCall) (s : State) : State :=
  {| contexts := contexts s; calls := calls s ++ [c];
     emitted := emitted s; clock := clock s |}.

Definition emit (e : Event) (s : State) : State :=
  {| contexts := contexts s; calls := calls s;
     emitted := emitted s ++ [e]; clock := clock s |}.

(** An assignment to a field of the managed context [contextId], an
    object shared with the [contexts] map. *)
Definition update (contextId : string) (f : ManagedContext -> ManagedContext)
    (s : State) : State :=
  match JsMap.get contextId (contexts s) with
  | Some c => setContexts (JsMap.set contextId (f c) (contexts s)) s
  | None => s
  end.

Definition M (A : Type) : Type := State -> Result BrowserError A * State.

Definition DEFAULT_timeout : Z := 30000.

(** ** Private helpers *)

Fixpoint startsWith (p s : string) : bool :=
  match p, s with
  | EmptyString, _ => true
  | String a p', String b s' => Ascii.eqb a b && startsWith p' s'
  | String _ _, EmptyString => false
  end.

(** [s.includes(p)] *)
Fixpoint includes (s p : string) : bool :=
  startsWith p s
  || match s with
     | EmptyString => false
     | String _ s' => includes s' p
     end.

Definition getManagedContext (contextId : string) (s : State)
    : Result BrowserError ManagedContext :=
  match JsMap.get contextId (contexts s) with
  | None =>
      Err {| message := ("Context not found: " ++ contextId)%string;
             code := CONTEXT_NOT_FOUND; originalError := None |}
  | Some managedContext =>
      match status managedContext with
      | active => Ok managedContext
      | closed =>
          Err {| message := ("Context is not active: " ++ contextId)%string;
                 code := CONTEXT_NOT_FOUND; originalError := None |}
      end
  end.

(** [pages[pages.length - 1]], undefined on the empty array. *)
Definition lastOf {A} (l : list A) : option A :=
  match l with
  | [] => None
  | _ => nth_error l (List.length l - 1)
  end.

Definition getPage (contextId : string) (pageId : option string) (s : State)
    : Result BrowserError Page :=
  match getManagedContext contextId s with
  | Err e => Err e
  | Ok managedContext =>
      match truthy pageId with
      | None =>
          let pages := JsMap.values (pages managedContext) in
          match lastOf pages with
          | None =>
              Err {| message :=
                       ("No pages found in context: " ++ contextId)%string;
                     code := PAGE_NOT_FOUND; originalError := None |}
          | Some lastPage => Ok lastPage
          end
      | Some pageId =>
          match JsMap.get pageId (pages managedContext) with
          | None =>
              Err {| message := ("Page not found: " ++ pageId)%string;
                     code := PAGE_NOT_FOUND; originalError := None |}
          | Some page => Ok page
          end
      end
  end.

(** ** Public methods *)

(** The [catch] of [navigate]. *)
Definition navigationError (url : string) (t : Thrown) : BrowserError :=
  {| message := ("Failed to navigate to " ++ url)%string;
     code :=
       match t with
       | ThrownError m =>
           if includes (toLowerCase m) "timeout"
           then NAVIGATION_TIMEOUT else NAVIGATION_FAILED
       | ThrownValue _ => NAVIGATION_FAILED
       end;
     originalError :=
       match t with ThrownError _ => Some t | ThrownValue _ => None end |}.

(** [x || y] on optional numbers: [undefined] and [0] are falsy. *)
Definition orNumber (x : option Z) (y : Z) : Z :=
  match x with
  | Some 0 | None => y
  | Some n => n
  end.

(** [pageId] is the value of [generatePageId()]. *)
Definition navigate (d : Playwright) (contextId : string) (pageId : string)
    (url : string) (options : NavigateOptions) : M string :=
  fun s =>
    match getManagedContext contextId s with
    | Err e => (Err e, s)
    | Ok managedContext =>
        let startTime := clock s in
        let s := call (CallNewPage (context managedContext)) s in
        match newPage d (context managedContext) with
        | Err t => (Err (navigationError url t), s)
        | Ok page =>
            let headers :=
              match truthy (referer options) with
              | Some r =>
                  (call (CallSetExtraHTTPHeaders page r) s,
                   setExtraHTTPHeaders d page r)
              | None => (s, Ok tt)
              end in
            let s := fst headers in
            match snd headers with
            | Err t => (Err (navigationError url t), s)
            | Ok _ =>
                let s := update contextId (withLastAccessedAt (clock s)) s in
                let s := emit (NavigationStart contextId pageId url) s in
                let waitUntil :=
                  match waitUntil options with Some w => w | None => load end in
                let timeout :=
                  orNumber (timeout options)
                    (orNumber (cfg_timeout (config managedContext))
                       DEFAULT_timeout) in
                let s := call (CallGoto page url waitUntil timeout) s in
                match goto d page url waitUntil timeout with
                | Err t => (Err (navigationError url t), s)
                | Ok _ =>
                    let s :=
                      update contextId
                        (fun c => withPages (JsMap.set pageId page (pages c)) c)
                        s in
                    let duration := clock s - startTime in
                    let s :=
                      emit (NavigationComplete contextId pageId url duration)
                        s in
                    let s := emit (PageCreated contextId pageId url) s in
                    (Ok pageId, s)
                end
            end
        end
    end.

Definition getPageContent (d : Playwright) (contextId : string)
    (pageId : option string) : M string :=
  fun s =>
    match getPage contextId pageId s with
    | Err e => (Err e, s)
    | Ok page =>
        match getManagedContext contextId s with
        | Err e => (Err e, s)
        | Ok managedContext =>
            let s := update contextId (withLastAccessedAt (clock s)) s in
            let s := call (CallContent page) s in
            match content d page with
            | Ok html => (Ok html, s)
            | Err t =>
                (Err {| message := "Failed to get page content";
                        code := PAGE_NOT_FOUND;
                        originalError :=
                          match t with
                          | ThrownError _ => Some t
                          | ThrownValue _ => None
                          end |}, s)
            end
        end
    end.

Definition executeJavaScript (d : Playwright) (contextId : string)
    (script : string) (pageId : option string) : M JavaScriptResult :=
  fun s =>
    match getPage contextId pageId s with
    | Err e => (Err e, s)
    | Ok page =>
        match getManagedContext contextId s with
        | Err e => (Err e, s)
        | Ok managedContext =>
            let s := update contextId (withLastAccessedAt (clock s)) s in
            let s := call (CallEvaluate page script) s in
            match evaluate d page script with
            | Ok r =>
                (Ok {| success := true; result := Some r; error := None |}, s)
            | Err t =>
                (Ok {| success := false; result := None;
                       error := Some (thrownText t) |}, s)
            end
        end
    end.

Definition closePage (d : Playwright) (contextId : string) (pageId : string)
    : M unit :=
  fun s =>
    match getManagedContext contextId s with
    | Err e => (Err e, s)
    | Ok managedContext =>
        match JsMap.get pageId (pages managedContext) with
        | None =>
            (Err {| message := ("Page not found: " ++ pageId)%string;
                    code := PAGE_NOT_FOUND; originalError := None |}, s)
        | Some page =>
            let s := call (CallClose page) s in
            match close d page with
            | Err t =>
                (Err {| message := ("Failed to close page: " ++ pageId)%string;
                        code := PAGE_NOT_FOUND;
                        originalError :=
                          match t with
                          | ThrownError _ => Some t
                          | ThrownValue _ => None
                          end |}, s)
            | Ok _ =>
                let s :=
                  update contextId
                    (fun c => withPages (JsMap.delete pageId (pages c)) c) s in
                (Ok tt, emit (PageClosed contextId pageId) s)
            end
        end
    end.

End BrowserSandboxManager.

(* ===================================================================== *)
(** * [BrowserSandboxManager]: contexts and their listing *)
(* ===================================================================== *)

Module BrowserContexts.

Import Js BrowserSandboxManager.

(** ** Data model *)

Record BrowserContextInfo : Type := {
  info_id : string;
  info_browserType : BrowserType;
  info_createdAt : Z;
  pageCount : nat;
  info_status : ContextStatus
}.

Record BrowserPageInfo : Type := {
  page_id : string;
  contextId : string;
  url : string;
  title : string;
  page_createdAt : Z
}.

(** ** The driver

    Beside the calls on pages: the address a page shows, and the closing
    of a browser context. *)
Record Driver : Type := {
  playwright : Playwright;
  pageUrl : Page -> string;
  contextClose : BrowserContext -> Result Thrown unit
}.

(** ** State of the manager

    The state of the page methods, the contexts that the driver was asked
    to close, and the events about contexts.  The pages of a context are
    closed before the context itself. *)
Inductive ContextEvent : Type :=
| ContextClosed (contextId : string)
| CleanupStale (closedContextIds : list string).

Record Manager : Type := {
  st : State;
  closes : list BrowserContext;
  announced : list ContextEvent
}.

Definition setSt (s : State) (m : Manager) : Manager :=
  {| st := s; closes := closes m; announced := announced m |}.

Definition callClose (c : BrowserContext) (m : Manager) : Manager :=
  {| st := st m; closes := closes m ++ [c]; announced := announced m |}.

Definition announce (e : ContextEvent) (m : Manager) : Manager :=
  {| st := st m; closes := closes m; announced := announced m ++ [e] |}.

Definition DEFAULT_contextMaxAge : Z := 5 * 60 * 1000.

(** ** Public methods *)

(** The object literal of [listContexts] and of [getContext]. *)
Definition contextInfo (managedContext : ManagedContext)
    : BrowserContextInfo :=
  {| info_id := id managedContext;
     info_browserType := browserType managedContext;
     info_createdAt := createdAt managedContext;
     pageCount := JsMap.size (pages managedContext);
     info_status := status managedContext |}.

Definition listContexts (s : State) : list BrowserContextInfo :=
  map contextInfo (JsMap.values (contexts s)).

Definition getContext (contextId : string) (s : State)
    : option BrowserContextInfo :=
  match JsMap.get contextId (contexts s) with
  | None => None
  | Some managedContext => Some (contextInfo managedContext)
  end.

Definition listPages (d : Driver) (contextId : string) (s : State)
    : Result BrowserError (list BrowserPageInfo) :=
  match getManagedContext contextId s with
  | Err e => Err e
  | Ok managedContext =>
      Ok (map (fun e =>
                 {| page_id := fst e;
                    contextId := contextId;
                    url := pageUrl d (snd e);
                    title := "";
                    page_createdAt := createdAt managedContext |})
              (JsMap.entries (pages managedContext)))
  end.

(** The loop of [closeContext] over the pages: each page is asked to
    close, and a rejection is only logged. *)
Definition closePages (d : Driver) (ps : JsMap.t Page) (s : State) : State :=
  fold_left (fun s e => call (CallClose (snd e)) s) (JsMap.entries ps) s.

Definition closeContext (d : Driver) (contextId : string)
    : Manager -> Result BrowserError unit * Manager :=
  fun m =>
    match JsMap.get contextId (contexts (st m)) with
    | None =>
        (Err {| message := ("Context not found: " ++ contextId)%string;
                code := CONTEXT_NOT_FOUND; originalError := None |}, m)
    | Some managedContext =>
        let m := setSt (closePages d (pages managedContext) (st m)) m in
        let m := callClose (context managedContext) m in
        match contextClose d (context managedContext) with
        | Err t =>
            (Err {| message :=
                      ("Failed to close browser context: " ++ contextId)%string;
                    code := CONTEXT_NOT_FOUND;
                    originalError :=
                      match t with
                      | ThrownError _ => Some t
                      | ThrownValue _ => None
                      end |}, m)
        | Ok _ =>
            let m :=
              setSt (setContexts (JsMap.delete contextId (contexts (st m)))
                       (st m)) m in
            (Ok tt, announce (ContextClosed contextId) m)
        end
    end.

(** The body of the loop of [cleanupStaleContexts]: the manager and the
    identifiers closed so far. *)
Definition cleanupVisit (d : Driver) (now : Z)
    (acc : Manager * list string) (e : string * ManagedContext)
    : Manager * list string :=
  let age := now - lastAccessedAt (snd e) in
  if DEFAULT_contextMaxAge <? age
  then
    match closeContext d (fst e) (fst acc) with
    | (Ok _, m) => (m, snd acc ++ [fst e])
    | (Err _, m) => (m, snd acc)
    end
  else acc.

(** The callback of the cleanup scheduler; [clock] is [Date.now()]. *)
Definition cleanupStaleContexts (d : Driver) (m : Manager) : Manager :=
  let now := clock (st m) in
  let r :=
    fold_left (cleanupVisit d now) (JsMap.entries (contexts (st m)))
              (m, []) in
  match snd r with
  | [] => fst r
  | closedContextIds => announce (CleanupStale closedContextIds) (fst r)
  end.

End BrowserContexts.

(* ===================================================================== *)
(** * [FetchClient]: requests and errors of the HTTP client *)
(* ===================================================================== *)

Module FetchClient.

Import Js.

(** ** Data model *)

Inductive FetchErrorCode : Type :=
| NETWORK_ERROR
| TIMEOUT_ERROR
| INVALID_URL
| TOO_MANY_REDIRECTS
| REQUEST_FAILED
| INVALID_RESPONSE
| UNSUPPORTED_PROTOCOL.

(** An object that is only passed along. *)
Definition Object : Type := nat.

(** [string | Record<string, unknown>] *)
Inductive Body : Type :=
| BodyString (s : string)
| BodyObject (o : Object).

Record Auth : Type := {
  username : string;
  password : string
}.

Record Proxy : Type := {
  host : string;
  port : Z;
  auth : option Auth
}.

(** A [Record<string, string>] is a map from its keys, in the order of
    their insertion. *)
Record FetchOptions : Type := {
  method : option string;
  headers : option (JsMap.t string);
  body : option Body;
  timeout : option Z;
  maxRedirects : option Z;
  followRedirects : option bool;
  userAgent : option string;
  validateStatus : option (Z -> bool);
  proxy : option Proxy
}.

Record AxiosRequestConfig : Type := {
  req_url : string;
  req_method : string;
  req_timeout : Z;
  req_maxRedirects : Z;
  req_headers : JsMap.t string;
  req_validateStatus : Z -> bool;
  req_data : option Body;
  req_proxy : option Proxy
}.

(** The value of a response header as axios hands it over: a string, an
    array (of the texts that [join] sees), another value (with its
    [String(value)]), or [undefined]. *)
Inductive HeaderValue : Type :=
| HeaderString (s : string)
| HeaderArray (l : list string)
| HeaderOther (asString : string)
| HeaderUndefined.

(** The data of a response: a string, a [Buffer] (with its UTF-8 text), an
    object (with its [JSON.stringify]), or another value (with its
    [String(value)]). *)
Inductive Data : Type :=
| DataString (s : string)
| DataBuffer (utf8 : string)
| DataObject (json : string)
| DataOther (asString : string).

(** A response of axios: beside its own fields, the url of its [config],
    the [responseUrl] of the underlying response when that is a string,
    and the [_redirectCount] of the underlying request when that is a
    number. *)
Record AxiosResponse : Type := {
  status : Z;
  statusText : string;
  res_headers : option (JsMap.t HeaderValue);
  data : Data;
  config_url : option string;
  responseUrl : option string;
  redirectable_redirectCount : option Z
}.

Record AxiosError : Type := {
  ax_code : option string;
  ax_message : string;
  ax_response : option AxiosResponse
}.

(** The [Error] kept as [originalError]. *)
Inductive Original : Type :=
| OriginalAxios (e : AxiosError)
| OriginalError (message : string).

Record ErrorResponse : Type := {
  err_status : Z;
  err_statusText : string;
  err_headers : JsMap.t string;
  err_body : option string
}.

Record FetchError : Type := {
  message : string;
  code : FetchErrorCode;
  statusCode : option Z;
  response : option ErrorResponse;
  originalError : option Original
}.

(** What [fetchUrl] catches: a [FetchError], an error of axios, another
    [Error], or a value that is no [Error]. *)
Inductive Caught : Type :=
| CaughtFetchError (e : FetchError)
| CaughtAxiosError (e : AxiosError)
| CaughtError (message : string)
| CaughtValue.

(** The value of [parseInt]: [NaN], or an integer with its sign. *)
Inductive Parsed : Type :=
| NaN
| Int (negative : bool) (magnitude : Number).

Record Timings : Type := {
  start : Z;
  total : Z
}.

Record FetchResponse : Type := {
  fr_url : string;
  finalUrl : string;
  fr_status : Z;
  fr_statusText : string;
  fr_headers : JsMap.t string;
  fr_body : string;
  contentType : string;
  contentLength : option Parsed;
  redirectCount : Z;
  timings : option Timings
}.

(** The events of the client: ['request'] with the method and the url,
    ['response'] with the status and the url, ['fetch:success'] and
    ['fetch:error']. *)
Inductive Event : Type :=
| Request (method url : option string)
| Response (status : Z) (url : option string)
| FetchSuccess (response : FetchResponse)
| FetchFailure (error : FetchError).

(** What the client relies on: the parser of [new URL(url)], which gives
    the protocol of the url or throws a [TypeError] with a message, and
    the axios instance.  Of the instance: the method and the url of the
    configuration that it hands to the request interceptor for a request
    (the request's own merged with the defaults of the instance), and the
    outcome of the request that it then sends, before the response
    interceptor sees it. *)
Record Environment : Type := {
  URL : string -> Result string string;
  merged : AxiosRequestConfig -> option string * option string;
  request : AxiosRequestConfig -> Result Caught AxiosResponse
}.

(** ** Defaults *)

Definition DEFAULT_timeout : Z := 30000.
Definition DEFAULT_maxRedirects : Z := 5.
Definition DEFAULT_userAgent : string := "Enhanced-Fetch-MCP/1.0".
Definition DEFAULT_validateStatus (status : Z) : bool :=
  (200 <=? status) && (status <? 600).

(** ** Private helpers *)

(** [{ ...base, ...extra }] *)
Definition spread (base extra : JsMap.t string) : JsMap.t string :=
  fold_left (fun acc kv => JsMap.set (fst kv) (snd kv) acc) extra base.

Definition buildRequestConfig (url : string) (options : FetchOptions)
    : AxiosRequestConfig :=
  let config :=
    {| req_url := url;
       req_method :=
         match truthy (method options) with Some m => m | None => "GET" end;
       req_timeout :=
         match timeout options with
         | Some 0 | None => DEFAULT_timeout
         | Some ms => ms
         end;
       req_maxRedirects :=
         match maxRedirects options with
         | Some n => n
         | None => DEFAULT_maxRedirects
         end;
       req_headers :=
         spread
           [("User-Agent",
             match truthy (userAgent options) with
             | Some ua => ua
             | None => DEFAULT_userAgent
             end)]
           (match headers options with Some h => h | None => [] end);
       req_validateStatus :=
         match validateStatus options with
         | Some f => f
         | None => DEFAULT_validateStatus
         end;
       req_data := None;
       req_proxy := None |} in
  let config :=
    match followRedirects options with
    | Some false =>
        {| req_url := req_url config; req_method := req_method config;
           req_timeout := req_timeout config; req_maxRedirects := 0;
           req_headers := req_headers config;
           req_validateStatus := req_validateStatus config;
           req_data := req_data config; req_proxy := req_proxy config |}
    | _ => config
    end in
  let config :=
    match body options with
    | None | Some (BodyString EmptyString) => config
    | Some (BodyString s) =>
        {| req_url := req_url config; req_method := req_method config;
           req_timeout := req_timeout config;
           req_maxRedirects := req_maxRedirects config;
           req_headers := req_headers config;
           req_validateStatus := req_validateStatus config;
           req_data := Some (BodyString s); req_proxy := req_proxy config |}
    | Some (BodyObject o) =>
        {| req_url := req_url config; req_method := req_method config;
           req_timeout := req_timeout config;
           req_maxRedirects := req_maxRedirects config;
           req_headers :=
             match truthy (JsMap.get "Content-Type" (req_headers config)) with
             | Some _ => req_headers config
             | None =>
                 JsMap.set "Content-Type" "application/json"
                   (req_headers config)
             end;
           req_validateStatus := req_validateStatus config;
           req_data := Some (BodyObject o); req_proxy := req_proxy config |}
    end in
  match proxy options with
  | None => config
  | Some p =>
      {| req_url := req_url config; req_method := req_method config;
         req_timeout := req_timeout config;
         req_maxRedirects := req_maxRedirects config;
         req_headers := req_headers config;
         req_validateStatus := req_validateStatus config;
         req_data := req_data config;
         req_proxy :=
           Some {| host := host p; port := port p; auth := auth p |} |}
  end.

Definition convertResponseToString (d : Data) : string :=
  match d with
  | DataString s => s
  | DataBuffer utf8 => utf8
  | DataObject json => json
  | DataOther asString => asString
  end.

(** The loop over [Object.keys(headers)] that keeps the strings, joins the
    arrays and skips the undefined values. *)
Definition stringHeaders (h : JsMap.t HeaderValue) : JsMap.t string :=
  fold_left
    (fun acc kv =>
       match snd kv with
       | HeaderString s => JsMap.set (fst kv) s acc
       | HeaderArray l => JsMap.set (fst kv) (String.concat ", " l) acc
       | HeaderOther asString => JsMap.set (fst kv) asString acc
       | HeaderUndefined => acc
       end)
    (JsMap.entries h) [].

(** [error.code === c] *)
Definition codeIs (error : AxiosError) (c : string) : bool :=
  match ax_code error with
  | Some c' => String.eqb c' c
  | None => false
  end.

(** The decimal text of an integer. *)
Definition decimal (n : Z) : string :=
  DecimalString.NilZero.string_of_int (Z.to_int n).

Definition handleAxiosError (error : AxiosError) (url : string)
    : FetchError :=
  if codeIs error "ECONNABORTED"
     || BrowserSandboxManager.includes (ax_message error) "timeout"
  then
    {| message := ("Request timeout while fetching " ++ url)%string;
       code := TIMEOUT_ERROR; statusCode := None; response := None;
       originalError := Some (OriginalAxios error) |}
  else if codeIs error "ENOTFOUND" || codeIs error "ECONNREFUSED"
          || codeIs error "ETIMEDOUT" || codeIs error "ENETUNREACH"
  then
    {| message :=
         ("Network error while fetching " ++ url ++ ": "
          ++ ax_message error)%string;
       code := NETWORK_ERROR; statusCode := None; response := None;
       originalError := Some (OriginalAxios error) |}
  else if BrowserSandboxManager.includes (ax_message error) "maximum redirect"
  then
    {| message := ("Too many redirects while fetching " ++ url)%string;
       code := TOO_MANY_REDIRECTS; statusCode := None; response := None;
       originalError := Some (OriginalAxios error) |}
  else
    match ax_response error with
    | Some r =>
        {| message :=
             ("HTTP " ++ decimal (status r) ++ " error while fetching "
              ++ url)%string;
           code := REQUEST_FAILED;
           statusCode := Some (status r);
           response :=
             Some {| err_status := status r;
                     err_statusText := statusText r;
                     err_headers :=
                       match res_headers r with
                       | Some h => stringHeaders h
                       | None => []
                       end;
                     err_body := Some (convertResponseToString (data r)) |};
           originalError := Some (OriginalAxios error) |}
    | None =>
        {| message :=
             ("Request failed while fetching " ++ url ++ ": "
              ++ ax_message error)%string;
           code := REQUEST_FAILED; statusCode := None; response := None;
           originalError := Some (OriginalAxios error) |}
    end.

Definition handleError (error : Caught) (url : string) : FetchError :=
  match error with
  | CaughtFetchError e => e
  | CaughtAxiosError e => handleAxiosError e url
  | CaughtError m =>
      {| message := ("Unknown error occurred while fetching " ++ url)%string;
         code := REQUEST_FAILED; statusCode := None; response := None;
         originalError := Some (OriginalError m) |}
  | CaughtValue =>
      {| message := ("Unknown error occurred while fetching " ++ url)%string;
         code := REQUEST_FAILED; statusCode := None; response := None;
         originalError := None |}
  end.

(** [parseInt(s, 10)]: white space is skipped, a sign is read, and the
    digits that follow are the number; without a digit there the value is
    [NaN]. *)
Fixpoint skipWhiteSpace (s : string) : string :=
  match s with
  | EmptyString => EmptyString
  | String c s' =>
      if isWhiteSpace (Js.code c) then skipWhiteSpace s' else s
  end.

Fixpoint digitsPrefix (s : string) : string :=
  match s with
  | EmptyString => EmptyString
  | String c s' => if isDigit c then String c (digitsPrefix s') else EmptyString
  end.

Definition parseInt (s : string) : Parsed :=
  let s := skipWhiteSpace s in
  let signed :=
    match s with
    | String "-"%char s' => (true, s')
    | String "+"%char s' => (false, s')
    | _ => (false, s)
    end in
  match digitsPrefix (snd signed) with
  | EmptyString => NaN
  | digits => Int (fst signed) (toDouble (digitsValue digits))
  end.

Definition validateUrl (env : Environment) (url : string)
    : Result FetchError unit :=
  match URL env url with
  | Ok protocol =>
      if String.eqb protocol "http:" || String.eqb protocol "https:"
      then Ok tt
      else
        Err {| message := ("Unsupported protocol: " ++ protocol)%string;
               code := UNSUPPORTED_PROTOCOL; statusCode := None;
               response := None; originalError := None |}
  | Err m =>
      Err {| message := ("Invalid URL: " ++ url)%string;
             code := INVALID_URL; statusCode := None; response := None;
             originalError := Some (OriginalError m) |}
  end.

Definition calculateRedirectCount (response : AxiosResponse) : Z :=
  match redirectable_redirectCount response with
  | Some redirectCount => redirectCount
  | None => 0
  end.

(** [endTime] is the value of [Date.now()]. *)
Definition buildFetchResponse (response : AxiosResponse)
    (originalUrl : string) (startTime endTime : Z) : FetchResponse :=
  let totalTime := endTime - startTime in
  let headers :=
    match res_headers response with
    | Some h => stringHeaders h
    | None => []
    end in
  let contentType :=
    match truthy (JsMap.get "content-type" headers) with
    | Some t => t
    | None => "application/octet-stream"
    end in
  let contentLength :=
    match truthy (JsMap.get "content-length" headers) with
    | Some contentLengthStr => Some (parseInt contentLengthStr)
    | None => None
    end in
  let redirectCount := calculateRedirectCount response in
  let finalUrl :=
    match truthy (match responseUrl response with
                  | Some u => Some u
                  | None => config_url response
                  end) with
    | Some u => u
    | None => originalUrl
    end in
  let body := convertResponseToString (data response) in
  {| fr_url := originalUrl;
     finalUrl := finalUrl;
     fr_status := status response;
     fr_statusText := statusText response;
     fr_headers := headers;
     fr_body := body;
     contentType := contentType;
     contentLength := contentLength;
     redirectCount := redirectCount;
     timings := Some {| start := startTime; total := totalTime |} |}.

(** ** The interceptors of the axios instance *)

(** The request interceptor: [this.emit('request', { method, url })], and
    the configuration goes on as it is. *)
Definition onRequest (method url : option string) : list Event :=
  [Request method url].

(** The response interceptor, for a response:
    [this.emit('response', { status, url })], and the response goes on as
    it is; for an error it only logs, and the error goes on. *)
Definition onResponse (response : AxiosResponse) : list Event :=
  [Response (status response) (config_url response)].

Definition onResponseError (error : Caught) : list Event := [].

(** [this.axiosInstance.request(config)]: the request interceptor, the
    request, the response interceptor; the result comes with the events
    emitted. *)
Definition executeRequest (env : Environment) (config : AxiosRequestConfig)
    : Result Caught AxiosResponse * list Event :=
  let events := onRequest (fst (merged env config)) (snd (merged env config)) in
  match request env config with
  | Ok response => (Ok response, events ++ onResponse response)
  | Err error => (Err error, events ++ onResponseError error)
  end.

(** ** [fetchUrl] *)

(** [startTime] and [endTime] are the values of [Date.now()] at the start
    of the call and when the response is there; the result comes with the
    events emitted. *)
Definition fetchUrl (env : Environment) (url : string)
    (options : FetchOptions) (startTime endTime : Z)
    : Result FetchError FetchResponse * list Event :=
  match validateUrl env url with
  | Err e =>
      let fetchError := handleError (CaughtFetchError e) url in
      (Err fetchError, [FetchFailure fetchError])
  | Ok _ =>
      let config := buildRequestConfig url options in
      match executeRequest env config with
      | (Err error, events) =>
          let fetchError := handleError error url in
          (Err fetchError, events ++ [FetchFailure fetchError])
      | (Ok response, events) =>
          let fetchResponse :=
            buildFetchResponse response url startTime endTime in
          (Ok fetchResponse, events ++ [FetchSuccess fetchResponse])
      end
  end.

End FetchClient.

(* ===================================================================== *)
(** * [Logger]: the log entries kept in memory *)
(* ===================================================================== *)

Module Logger.

Import Js.

(** ** Data model *)

Inductive LogLevel : Type := DEBUG | INFO | WARN | ERROR | FATAL.

Definition level_eqb (a b : LogLevel) : bool :=
  match a, b with
  | DEBUG, DEBUG | INFO, INFO | WARN, WARN | ERROR, ERROR | FATAL, FATAL =>
      true
  | _, _ => false
  end.

(** [Object.values(LogLevel)] *)
Definition levels : list LogLevel := [DEBUG; INFO; WARN; ERROR; FATAL].

(** A metadata object, only passed along. *)
Definition Metadata : Type := nat.

Record LogEntry : Type := {
  id : string;
  timestamp : Z;
  level : LogLevel;
  source : string;
  message : string;
  metadata : option Metadata;
  sandboxId : option string;
  containerId : option string
}.

(** A call of the winston logger: the method, the message, the metadata. *)
Record Line : Type := {
  line_level : LogLevel;
  line_message : string;
  line_metadata : option Metadata
}.

Record State : Type := {
  serviceName : string;
  logEntries : list LogEntry;
  written : list Line
}.

Definition maxLogEntries : Z := 10000.

Definition setLogEntries (l : list LogEntry) (s : State) : State :=
  {| serviceName := serviceName s; logEntries := l; written := written s |}.

Definition write (l : Line) (s : State) : State :=
  {| serviceName := serviceName s; logEntries := logEntries s;
     written := written s ++ [l] |}.

(** ** Private helpers *)

(** [logId] is the value of [generateLogId()] and [now] that of
    [new Date()]. *)
Definition createLogEntry (logId : string) (now : Z) (level : LogLevel)
    (message : string) (metadata : option Metadata)
    (sandboxInfo : option SandboxManager.SandboxInfo) (s : State)
    : LogEntry :=
  {| id := logId;
     timestamp := now;
     level := level;
     source := serviceName s;
     message := message;
     metadata := metadata;
     sandboxId := option_map SandboxManager.id sandboxInfo;
     containerId :=
       match sandboxInfo with
       | Some info => SandboxManager.containerId info
       | None => None
       end |}.

(** [push], then [shift] when the array has grown beyond the limit. *)
Definition addToMemoryCache (entry : LogEntry) (s : State) : State :=
  let entries := logEntries s ++ [entry] in
  if maxLogEntries <? Z.of_nat (List.length entries)
  then setLogEntries (tl entries) s
  else setLogEntries entries s.

(** ** Public methods *)

Definition debug (logId : string) (now : Z) (message : string)
    (metadata : option Metadata)
    (sandboxInfo : option SandboxManager.SandboxInfo) (s : State) : State :=
  let entry := createLogEntry logId now DEBUG message metadata sandboxInfo s in
  let s := addToMemoryCache entry s in
  write {| line_level := DEBUG; line_message := message;
           line_metadata := metadata |} s.

Definition info (logId : string) (now : Z) (message : string)
    (metadata : option Metadata)
    (sandboxInfo : option SandboxManager.SandboxInfo) (s : State) : State :=
  let entry := createLogEntry logId now INFO message metadata sandboxInfo s in
  let s := addToMemoryCache entry s in
  write {| line_level := INFO; line_message := message;
           line_metadata := metadata |} s.

Definition warn (logId : string) (now : Z) (message : string)
    (metadata : option Metadata)
    (sandboxInfo : option SandboxManager.SandboxInfo) (s : State) : State :=
  let entry := createLogEntry logId now WARN message metadata sandboxInfo s in
  let s := addToMemoryCache entry s in
  write {| line_level := WARN; line_message := message;
           line_metadata := metadata |} s.

Definition error (logId : string) (now : Z) (message : string)
    (metadata : option Metadata)
    (sandboxInfo : option SandboxManager.SandboxInfo) (s : State) : State :=
  let entry := createLogEntry logId now ERROR message metadata sandboxInfo s in
  let s := addToMemoryCache entry s in
  write {| line_level := ERROR; line_message := message;
           line_metadata := metadata |} s.

(** A fatal entry goes to winston as an error whose message starts with
    [FATAL: ]. *)
Definition fatal (logId : string) (now : Z) (message : string)
    (metadata : option Metadata)
    (sandboxInfo : option SandboxManager.SandboxInfo) (s : State) : State :=
  let entry := createLogEntry logId now FATAL message metadata sandboxInfo s in
  let s := addToMemoryCache entry s in
  write {| line_level := ERROR; line_message := ("FATAL: " ++ message)%string;
           line_metadata := metadata |} s.

(** [logs.sort((a, b) => b.timestamp - a.timestamp)]: the sort is stable,
    so its result is the one of the insertion below. *)
Fixpoint insertNewestFirst (x : LogEntry) (l : list LogEntry)
    : list LogEntry :=
  match l with
  | [] => [x]
  | y :: l' =>
      if timestamp y <=? timestamp x then x :: l
      else y :: insertNewestFirst x l'
  end.

Definition sortNewestFirst (l : list LogEntry) : list LogEntry :=
  fold_right insertNewestFirst [] l.

(** [l.slice(0, limit)] for an integer [limit]. *)
Definition slice0 {A} (l : list A) (limit : Z) : list A :=
  let len := Z.of_nat (List.length l) in
  let k := if limit <? 0 then Z.max (len + limit) 0 else Z.min limit len in
  firstn (Z.to_nat k) l.

(** [limit] is 100 when the caller gives none. *)
Definition getLogEntries (bySandbox : option string)
    (byLevel : option LogLevel) (limit : option Z) (s : State)
    : list LogEntry :=
  let logs := logEntries s in
  let logs :=
    match truthy bySandbox with
    | Some i =>
        filter (fun entry =>
                  match sandboxId entry with
                  | Some j => String.eqb j i
                  | None => false
                  end) logs
    | None => logs
    end in
  let logs :=
    match byLevel with
    | Some l => filter (fun entry => level_eqb (level entry) l) logs
    | None => logs
    end in
  let logs := sortNewestFirst logs in
  slice0 logs (match limit with Some n => n | None => 100 end).

Definition getLogStats (s : State) : list (LogLevel * nat) :=
  map (fun l =>
         (l, List.length
               (filter (fun entry => level_eqb (level entry) l)
                       (logEntries s))))
      levels.

Definition clearMemoryLogs (logId : string) (now : Z) (s : State) : State :=
  info logId now "Memory logs cleared" None None (setLogEntries [] s).

End Logger.

(* ===================================================================== *)
(** * Vocabulary of the properties *)
(* ===================================================================== *)

Module Statements.

Import Js SandboxManager.

(** ** The format of a memory limit, as the specification words it

    An integer followed by exactly one unit letter among b, k, m, g, in
    either case; the factor of a unit is 1, 1024, 1024^2 or 1024^3. *)

Definition isUnitLetter (c : ascii) : Prop :=
  In c ["b"; "k"; "m"; "g"; "B"; "K"; "M"; "G"]%char.

Definition wellFormedLimit (limit : string) : Prop :=
  exists digits unit,
    limit = (digits ++ String unit "")%string
    /\ digits <> ""
    /\ allDigits digits = true
    /\ isUnitLetter unit.

Definition unitFactor (c : ascii) : Z :=
  match c with
  | "b"%char | "B"%char => 1
  | "k"%char | "K"%char => 1024
  | "m"%char | "M"%char => 1024 * 1024
  | "g"%char | "G"%char => 1024 * 1024 * 1024
  | _ => 0
  end.

(** ** Drivers and runs of the container manager *)

(** A driver on which every call succeeds; a command prints nothing and
    exits with 0. *)
Definition healthy : Docker :=
  {| createContainer := fun opts => Ok ("c-" ++ co_name opts)%string;
     start := fun _ => Ok tt;
     exec := fun _ _ => Ok tt;
     execStart := fun _ _ => Ok {| chunks := []; ending := StreamEnded |};
     execInspect := fun _ _ => Ok (Some 0);
     pause := fun _ => Ok tt;
     unpause := fun _ => Ok tt;
     stop := fun _ _ => Ok tt;
     remove := fun _ _ => Ok tt;
     stats := fun _ =>
       Ok {| cpu_total_usage := 200; cpu_system_usage := 1000;
             online_cpus := Some 2; precpu_total_usage := 100;
             precpu_system_usage := 500; memory_usage := Some 4096;
             eth0_rx_bytes := Some 10; eth0_tx_bytes := Some 20 |} |}.

(** A driver that refuses to allocate a container. *)
Definition refusing (m : string) : Docker :=
  {| createContainer := fun _ => Err m;
     start := start healthy; exec := exec healthy;
     execStart := execStart healthy; execInspect := execInspect healthy;
     pause := pause healthy; unpause := unpause healthy;
     stop := stop healthy; remove := remove healthy;
     stats := stats healthy |}.

(** A driver whose commands deliver the given stream. *)
Definition printing (stream : ExecStream) : Docker :=
  {| createContainer := createContainer healthy;
     start := start healthy; exec := exec healthy;
     execStart := fun _ _ => Ok stream; execInspect := execInspect healthy;
     pause := pause healthy; unpause := unpause healthy;
     stop := stop healthy; remove := remove healthy;
     stats := stats healthy |}.

Definition noConfig : SandboxConfig :=
  {| image := None; memoryLimit := None; cpuLimit := None;
     timeout := None; env := None; workDir := None; autoRemove := None |}.

Definition withMemoryLimit (limit : string) : SandboxConfig :=
  {| image := None; memoryLimit := Some limit; cpuLimit := None;
     timeout := None; env := None; workDir := None; autoRemove := None |}.

Definition withTimeout (ms : Z) : SandboxConfig :=
  {| image := None; memoryLimit := None; cpuLimit := None;
     timeout := Some ms; env := None; workDir := None; autoRemove := None |}.

(** The driver rejects the allocation or the start of the container that
    [createSandbox] asks for, with the message [m]. *)
Definition driverRejects (d : Docker) (sandboxId : string)
    (config : SandboxConfig) (m : string) : Prop :=
  exists memory,
    parseMemoryLimit (bang (memoryLimit (withDefaults config))) = Ok memory
    /\ let opts := containerOptions sandboxId (withDefaults config) memory in
       (createContainer d opts = Err m
        \/ exists container,
             createContainer d opts = Ok container
             /\ start d container = Err m).

(** The operations that address an existing sandbox. *)
Inductive Operation : Type :=
| Execute (command : list string)
| Pause
| Resume
| Cleanup
| Stats.

Definition errorOf {E A} (r : Result E A) : option E :=
  match r with Ok _ => None | Err e => Some e end.

(** An operation on [sandboxId]: the error it raises, if any, and the
    state it leaves. *)
Definition perform (d : Docker) (sandboxId : string) (op : Operation)
    (s : State) : option SandboxError * State :=
  match op with
  | Execute command =>
      let r := executeInSandbox d sandboxId command s in
      (errorOf (fst r), snd r)
  | Pause => let r := pauseSandbox d sandboxId s in (errorOf (fst r), snd r)
  | Resume => let r := resumeSandbox d sandboxId s in (errorOf (fst r), snd r)
  | Cleanup => let r := cleanupSandbox d sandboxId s in (errorOf (fst r), snd r)
  | Stats => let r := getSandboxStats d sandboxId s in (errorOf (fst r), snd r)
  end.

(** The error with which an operation answers for an identifier that the
    registry does not hold. *)
Definition notFoundError (op : Operation) (sandboxId : string) : SandboxError :=
  match op with
  | Stats => NotFoundOrNotRunning sandboxId
  | _ => NotFound sandboxId
  end.

(** What happens to a manager: a call of one of its methods, a run of the
    scheduler's callback, a shutdown, or time passing.  Each comes with
    the driver's behaviour at that moment. *)
Inductive Step : Type :=
| Create (d : Docker) (sandboxId name : string) (config : SandboxConfig)
| On (d : Docker) (sandboxId : string) (op : Operation)
| Sweep (d : Docker)
| ShutDown (d : Docker)
| Advance (d : Docker) (t : Z).

Definition step (s : State) (x : Step) : State :=
  match x with
  | Create d sandboxId name config =>
      snd (createSandbox d sandboxId name config s)
  | On d sandboxId op => snd (perform d sandboxId op s)
  | Sweep d => cleanupStaleSandboxes d s
  | ShutDown d => shutdown d s
  | Advance d t => advance d t s
  end.

Definition run (xs : list Step) (s : State) : State := fold_left step xs s.

Definition reachable (s : State) : Prop := exists xs, s = run xs initial.

(** [generateId] never issues [sandboxId] in these steps. *)
Definition neverCreates (sandboxId : string) (xs : list Step) : Prop :=
  Forall (fun x =>
            match x with
            | Create _ i _ _ => i <> sandboxId
            | _ => True
            end) xs.

(** The steps that address one sandbox with an operation. *)
Definition onlyOn (sandboxId : string) (xs : list Step) : Prop :=
  Forall (fun x =>
            match x with
            | On _ i _ => i = sandboxId
            | _ => False
            end) xs.

(** Every entry of the registry is filed under its own [id]. *)
Definition wellKeyed (s : State) : Prop :=
  forall k sb, In (k, sb) (sandboxes s) -> id sb = k.

(** ** Multiplexed streams

    The stream of a command run without a terminal is a sequence of
    frames: a header of 8 bytes, whose first byte is 1 for standard output
    and 2 for standard error and whose last four bytes are the length of
    the payload, then the payload.  The transport cuts the stream into
    chunks wherever it likes. *)
Inductive StreamType : Type := Stdout | Stderr.

Record Frame : Type := {
  stream : StreamType;
  payload : Buffer
}.

Definition tag (t : StreamType) : N :=
  match t with Stdout => 1 | Stderr => 2 end%N.

Definition header (f : Frame) : Buffer :=
  let n := N.of_nat (List.length (payload f)) in
  bytes [tag (stream f); 0; 0; 0;
         N.land (N.shiftr n 24) 255; N.land (N.shiftr n 16) 255;
         N.land (N.shiftr n 8) 255; N.land n 255]%N.

Definition encode (fs : list Frame) : Buffer :=
  flat_map (fun f => header f ++ payload f) fs.

Definition isStream (t : StreamType) (f : Frame) : bool :=
  match t, stream f with
  | Stdout, Stdout | Stderr, Stderr => true
  | _, _ => false
  end.

(** The bytes written to one of the two streams. *)
Definition written (t : StreamType) (fs : list Frame) : Buffer :=
  flat_map payload (filter (isStream t) fs).

Definition frame (t : StreamType) (s : string) : Frame :=
  {| stream := t; payload := bytes (text s) |}.

(** The transport delivers each frame as a chunk of its own. *)
Definition chunkPerFrame (fs : list Frame) : list Buffer :=
  map (fun f => header f ++ payload f) fs.

(** A frame of fewer than 128 bytes, all of them ASCII. *)
Definition plain (f : Frame) : Prop :=
  (List.length (payload f) < 128)%nat
  /\ Forall (fun b => (Byte.to_N b < 128)%N) (payload f).

(** ** Trimmed text *)

Definition firstUnit (t : Text) : option N := hd_error t.
Definition lastUnit (t : Text) : option N := hd_error (rev t).

(** A text with white space at its start or at its end. *)
Definition hasSurroundingWhiteSpace (t : Text) : Prop :=
  exists c, (firstUnit t = Some c \/ lastUnit t = Some c)
            /\ isWhiteSpace c = true.

Definition isTrimmed (t : Text) : Prop :=
  forall c, firstUnit t = Some c \/ lastUnit t = Some c ->
            isWhiteSpace c = false.

End Statements.

Module BrowserStatements.

Import Js BrowserSandboxManager.

(** ** Drivers and states of the browser manager *)

(** A driver on which every call succeeds: the next page it opens is
    [next], and the content of a page tells its number. *)
Definition working (next : Page) : Playwright :=
  {| newPage := fun _ => Ok next;
     setExtraHTTPHeaders := fun _ _ => Ok tt;
     goto := fun _ _ _ _ => Ok tt;
     content := fun p =>
       Ok (match p with
           | 1%nat => "<html>first</html>"
           | 2%nat => "<html>second</html>"
           | _ => "<html></html>"
           end);
     evaluate := fun _ _ => Ok "42";
     close := fun _ => Ok tt |}.

(** A driver on which navigation is rejected with [t]. *)
Definition unreachable (next : Page) (t : Thrown) : Playwright :=
  {| newPage := newPage (working next);
     setExtraHTTPHeaders := setExtraHTTPHeaders (working next);
     goto := fun _ _ _ _ => Err t;
     content := content (working next);
     evaluate := evaluate (working next);
     close := close (working next) |}.

(** A driver on which every script throws [t]. *)
Definition throwing (t : Thrown) : Playwright :=
  {| newPage := newPage (working 1%nat);
     setExtraHTTPHeaders := setExtraHTTPHeaders (working 1%nat);
     goto := goto (working 1%nat);
     content := content (working 1%nat);
     evaluate := fun _ _ => Err t;
     close := close (working 1%nat) |}.

Definition noOptions : NavigateOptions :=
  {| waitUntil := None; timeout := None; referer := None |}.

(** A manager with one active context and no page. *)
Definition oneContext : State :=
  {| contexts :=
       [("ctx_1",
         {| id := "ctx_1"; browserType := chromium; context := 0%nat;
            pages := []; createdAt := 0; lastAccessedAt := 0;
            config := {| cfg_browserType := None; cfg_timeout := None |};
            status := active |})];
     calls := []; emitted := []; clock := 0 |}.

(** The driver rejects, with [t], one of the calls that [navigate] makes
    for the context [c]. *)
Definition navigationRejected (d : Playwright) (c : ManagedContext)
    (url : string) (options : NavigateOptions) (t : Thrown) : Prop :=
  newPage d (context c) = Err t
  \/ exists page,
       newPage d (context c) = Ok page
       /\ ((exists r, truthy (referer options) = Some r
                      /\ setExtraHTTPHeaders d page r = Err t)
           \/ ((forall r, truthy (referer options) = Some r ->
                          setExtraHTTPHeaders d page r = Ok tt)
               /\ goto d page url
                    (match waitUntil options with
                     | Some w => w
                     | None => load
                     end)
                    (orNumber (timeout options)
                       (orNumber (cfg_timeout (config c)) DEFAULT_timeout))
                  = Err t)).

(** The page map of every context. *)
Definition pagesOf (contextId : string) (s : State)
    : option (JsMap.t Page) :=
  option_map pages (JsMap.get contextId (contexts s)).

End BrowserStatements.

Module RegistryStatements.

Import Js SandboxManager Statements.

(** ** States and drivers of the container manager *)

(** The memory limit of [cfg] parses to [memory], and the driver allocates
    and starts the container that [createSandbox] asks for, under the
    identifier [container]. *)
Definition driverAccepts (d : Docker) (sandboxId : string)
    (cfg : SandboxConfig) (memory : Number) (container : string) : Prop :=
  parseMemoryLimit (bang (memoryLimit (withDefaults cfg))) = Ok memory
  /\ createContainer d (containerOptions sandboxId (withDefaults cfg) memory)
     = Ok container
  /\ start d container = Ok tt.

(** No identifier is the key of two entries. *)
Definition uniqueKeys (s : State) : Prop :=
  NoDup (JsMap.keys (sandboxes s)).

(** An entry between two calls of the manager: running or paused on a
    container, or failed without one. *)
Definition settled (sb : SandboxInfo) : Prop :=
  ((status sb = RUNNING \/ status sb = PAUSED)
   /\ exists container, containerId sb = Some container)
  \/ (status sb = ERROR /\ containerId sb = None).

(** The registry [m'] comes from the registry [m] by writing settled
    entries under their own identifiers and by deleting entries. *)
Inductive evolves (m : JsMap.t SandboxInfo)
    : JsMap.t SandboxInfo -> Prop :=
| evolves_refl : evolves m m
| evolves_set m' sb :
    evolves m m' -> settled sb -> evolves m (JsMap.set (id sb) sb m')
| evolves_delete m' k :
    evolves m m' -> evolves m (JsMap.delete k m').

(** The sandbox that a method call addresses. *)
Definition addressee (x : Step) : option string :=
  match x with
  | Create _ sandboxId _ _ => Some sandboxId
  | On _ sandboxId _ => Some sandboxId
  | _ => None
  end.

(** A driver that accepts everything but [pause] and [unpause]. *)
Definition frozen (m : string) : Docker :=
  {| createContainer := createContainer healthy;
     start := start healthy; exec := exec healthy;
     execStart := execStart healthy; execInspect := execInspect healthy;
     pause := fun _ => Err m; unpause := fun _ => Err m;
     stop := stop healthy; remove := remove healthy;
     stats := stats healthy |}.

(** A driver whose commands end with the exit code [code]. *)
Definition exiting (code : option Z) : Docker :=
  {| createContainer := createContainer healthy;
     start := start healthy; exec := exec healthy;
     execStart := execStart healthy; execInspect := fun _ _ => Ok code;
     pause := pause healthy; unpause := unpause healthy;
     stop := stop healthy; remove := remove healthy;
     stats := stats healthy |}.

(** A driver that allocates containers and cannot start them. *)
Definition stalling (m : string) : Docker :=
  {| createContainer := createContainer healthy;
     start := fun _ => Err m; exec := exec healthy;
     execStart := execStart healthy; execInspect := execInspect healthy;
     pause := pause healthy; unpause := unpause healthy;
     stop := stop healthy; remove := remove healthy;
     stats := stats healthy |}.

Definition keepingContainer : SandboxConfig :=
  {| image := None; memoryLimit := None; cpuLimit := None;
     timeout := None; env := None; workDir := None;
     autoRemove := Some false |}.

End RegistryStatements.

Module ContextStatements.

Import Js BrowserSandboxManager BrowserContexts BrowserStatements.

(** ** Drivers and states of the browser manager *)

(** The driver accepts every call that [navigate] makes for the context
    [c], and opens [page]. *)
Definition navigationAccepted (d : Playwright) (c : ManagedContext)
    (url : string) (options : NavigateOptions) (page : Page) : Prop :=
  newPage d (context c) = Ok page
  /\ (forall r, truthy (referer options) = Some r ->
                setExtraHTTPHeaders d page r = Ok tt)
  /\ goto d page url
       (match waitUntil options with Some w => w | None => load end)
       (orNumber (timeout options)
          (orNumber (cfg_timeout (config c)) DEFAULT_timeout))
     = Ok tt.

(** [s] holds [p] somewhere. *)
Definition contains (s p : string) : Prop :=
  exists a b, s = (a ++ p ++ b)%string.

(** The calls that the driver has received since the state [s]. *)
Definition callsSince (s s' : State) : list PlaywrightCall :=
  skipn (List.length (calls s)) (calls s').

(** A driver on which every call succeeds; no page can be closed on the
    second one, and no context on the third. *)
Definition closing : Driver :=
  {| playwright := working 1%nat;
     pageUrl := fun _ => "about:blank";
     contextClose := fun _ => Ok tt |}.

Definition pagesStuck (t : Thrown) : Driver :=
  {| playwright :=
       {| newPage := newPage (working 1%nat);
          setExtraHTTPHeaders := setExtraHTTPHeaders (working 1%nat);
          goto := goto (working 1%nat);
          content := content (working 1%nat);
          evaluate := evaluate (working 1%nat);
          close := fun _ => Err t |};
     pageUrl := fun _ => "about:blank";
     contextClose := fun _ => Ok tt |}.

Definition contextStuck (t : Thrown) : Driver :=
  {| playwright := working 1%nat;
     pageUrl := fun _ => "about:blank";
     contextClose := fun _ => Err t |}.

Definition managing (s : State) : Manager :=
  {| st := s; closes := []; announced := [] |}.

(** A manager with the context [ctx_1] and its pages [page_1] and
    [page_2]. *)
Definition twoPages : State :=
  {| contexts :=
       [("ctx_1",
         {| id := "ctx_1"; browserType := chromium; context := 7%nat;
            pages := [("page_1", 1%nat); ("page_2", 2%nat)];
            createdAt := 0; lastAccessedAt := 0;
            config := {| cfg_browserType := None; cfg_timeout := None |};
            status := active |})];
     calls := []; emitted := []; clock := 0 |}.

(** At 400000: an old context, last used at 0, and a recent one, last
    used at 200000. *)
Definition oldAndRecent : State :=
  {| contexts :=
       [("ctx_old",
         {| id := "ctx_old"; browserType := chromium; context := 7%nat;
            pages := [("page_1", 1%nat)];
            createdAt := 0; lastAccessedAt := 0;
            config := {| cfg_browserType := None; cfg_timeout := None |};
            status := active |});
        ("ctx_recent",
         {| id := "ctx_recent"; browserType := firefox; context := 8%nat;
            pages := []; createdAt := 0; lastAccessedAt := 200000;
            config := {| cfg_browserType := None; cfg_timeout := None |};
            status := active |})];
     calls := []; emitted := []; clock := 400000 |}.

(** The sweep closes the context of the entry [e] at the time [now]: it
    has not been used for more than the maximal age, and the driver
    closes it. *)
Definition sweptAt (d : Driver) (now : Z) (e : string * ManagedContext)
    : bool :=
  (DEFAULT_contextMaxAge <? now - lastAccessedAt (snd e))
  && isOk (contextClose d (context (snd e))).

End ContextStatements.

Module FetchStatements.

Import Js FetchClient.

(** ** Errors and options of the HTTP client *)

(** [s] holds [p] somewhere. *)
Definition holds (s p : string) : Prop :=
  exists a b, s = (a ++ p ++ b)%string.

(** The error of axios tells a timeout, a network failure, a redirect
    loop. *)
Definition tellsTimeout (error : AxiosError) : Prop :=
  ax_code error = Some "ECONNABORTED" \/ holds (ax_message error) "timeout".

Definition tellsNetwork (error : AxiosError) : Prop :=
  ax_code error = Some "ENOTFOUND" \/ ax_code error = Some "ECONNREFUSED"
  \/ ax_code error = Some "ETIMEDOUT" \/ ax_code error = Some "ENETUNREACH".

Definition tellsRedirects (error : AxiosError) : Prop :=
  holds (ax_message error) "maximum redirect".

(** The headers that the caller gives. *)
Definition givenHeaders (options : FetchOptions) : JsMap.t string :=
  match headers options with Some h => h | None => [] end.

(** The events of [fetchUrl] itself, as against those of the
    interceptors. *)
Definition isFetchEvent (e : Event) : bool :=
  match e with
  | FetchSuccess _ | FetchFailure _ => true
  | Request _ _ | Response _ _ => false
  end.

(** A JSON body sent with a content type written in small letters. *)
Definition jsonWithSmallLetters : FetchOptions :=
  {| method := Some "POST";
     headers := Some [("content-type", "text/plain")];
     body := Some (BodyObject 1%nat); timeout := Some 0;
     maxRedirects := Some 0; followRedirects := None; userAgent := None;
     validateStatus := None; proxy := None |}.

End FetchStatements.

Module LoggerStatements.

Import Js Logger.

(** ** Entries and states of the logger *)

(** The last [n] elements of a list. *)
Definition lastn {A} (n : nat) (l : list A) : list A :=
  skipn (List.length l - n) l.

(** The entry passes the filters of [getLogEntries]. *)
Definition selected (bySandbox : option string) (byLevel : option LogLevel)
    (entry : LogEntry) : Prop :=
  (forall i, truthy bySandbox = Some i -> sandboxId entry = Some i)
  /\ (forall l, byLevel = Some l -> level entry = l).

(** The count that [getLogStats] gives for a level. *)
Definition countOf (l : LogLevel) (stats : list (LogLevel * nat)) : nat :=
  match find (fun kv => level_eqb (fst kv) l) stats with
  | Some kv => snd kv
  | None => 0
  end.

Definition fresh (name : string) : State :=
  {| serviceName := name; logEntries := []; written := [] |}.

(** A call of one of the five logging methods. *)
Record Call : Type := {
  call_level : LogLevel;
  call_id : string;
  call_now : Z;
  call_message : string;
  call_metadata : option Metadata;
  call_sandbox : option SandboxManager.SandboxInfo
}.

Definition perform (c : Call) (s : State) : State :=
  (match call_level c with
   | DEBUG => debug
   | INFO => info
   | WARN => warn
   | ERROR => error
   | FATAL => fatal
   end) (call_id c) (call_now c) (call_message c) (call_metadata c)
        (call_sandbox c) s.

Definition performAll (cs : list Call) (s : State) : State :=
  fold_left (fun s c => perform c s) cs s.

(** The entry that a call makes in a logger of the service [name]. *)
Definition entryOf (name : string) (c : Call) : LogEntry :=
  createLogEntry (call_id c) (call_now c) (call_level c) (call_message c)
    (call_metadata c) (call_sandbox c) (fresh name).

(** No newer entry comes after an older one. *)
Definition newestFirst (l : list LogEntry) : Prop :=
  Sorted.StronglySorted (fun a b => timestamp b <= timestamp a) l.

End LoggerStatements.

Module LimitStatements.

Import Js.

(** ** The format of a memory limit, over all strings

    One or more decimal digits followed by one unit: one of the letters
    b, k, m, g in either case, or the Kelvin sign U+212A, whose lowercase
    is the letter k. *)

Definition kelvin : N := 0x212A.

Definition isUnit (u : N) : Prop :=
  In u [98; 107; 109; 103; 66; 75; 77; 71; kelvin]%N.

Definition wellFormed (limit : Text) : Prop :=
  exists digits unit,
    limit = digits ++ [unit]
    /\ digits <> []
    /\ forallb Utf16.isDigit digits = true
    /\ isUnit unit.

Definition factorOf (u : N) : Z :=
  match u with
  | 98%N | 66%N => 1
  | 107%N | 75%N | 0x212A%N => 1024
  | 109%N | 77%N => 1024 * 1024
  | 103%N | 71%N => 1024 * 1024 * 1024
  | _ => 0
  end.

(** An oracle for [Final_Sigma]. *)
Definition neverFinal : Text -> Text -> bool := fun _ _ => false.

(** ** Code units and their lowercase *)

(** What [toLowerCase] makes of a code unit below U+0080 and of the
    Kelvin sign. *)
Definition foldUnit (u : N) : N :=
  (if (65 <=? u) && (u <=? 90) then u + 32
   else if u =? kelvin then 107 else u)%N.

Definition isPlain (u : N) : bool := ((u <? 128) || (u =? kelvin))%N.

Definition isSmall (u : N) : bool := (u <? 128)%N.

Definition rangeLeavesAscii (r : Z * Z * Z * Z) : bool :=
  let '(first, last, delta, stride) := r in
  (128 <=? first + delta) || (last <? 128)
  || ((first =? 8490) && (last =? 8490)).

End LimitStatements.

(* ===================================================================== *)
(** * [SandboxManager] in time *)
(* ===================================================================== *)

(** [cleanupSandbox], [pauseSandbox] and [resumeSandbox] write the
    registry after they have awaited the driver.  This module has them
    with their awaits: a method runs up to its [await] at the instant it
    is called, and goes on when the driver has answered; a timer fires
    when it is due.  [createSandbox], [executeInSandbox] and
    [getSandboxStats] write the registry under the identifier of their
    own sandbox or not at all; they are taken at the instant they
    return. *)
Module Async.

Import Js SandboxManager Statements.

(** The time, in milliseconds, that the driver takes to answer a call on a
    container that is made at a given instant. *)
Record Latency : Type := {
  stopTakes : string -> Z -> N;
  removeTakes : string -> Z -> N;
  pauseTakes : string -> Z -> N;
  unpauseTakes : string -> Z -> N
}.

(** What a method that has been called awaits, with what it needs to go
    on: [container.stop] and [container.remove] in [cleanupSandbox], with
    the [Promise.all] that waits for the cleanup, if any; [container.pause]
    and [container.unpause] in [pauseSandbox] and [resumeSandbox], with
    the sandbox that the method has looked up and the answer that the
    driver is about to give. *)
Inductive Awaited : Type :=
| AwaitStop (sandboxId container : string) (sandbox : SandboxInfo)
    (join : option nat)
| AwaitRemove (sandboxId : string) (join : option nat)
| AwaitPause (sandboxId : string) (sandbox : SandboxInfo)
    (answer : Result string unit)
| AwaitUnpause (sandboxId : string) (sandbox : SandboxInfo)
    (answer : Result string unit).

(** A call in flight: what it awaits and the time the answer is there. *)
Record Task : Type := {
  ready : Z;
  awaited : Awaited
}.

(** A [Promise.all] in flight: the number of its promises that are not
    settled, and the event that is emitted once they all are. *)
Record Join : Type := {
  remaining : nat;
  announces : Event
}.

(** The manager with its calls in flight; a [Promise.all] is known by its
    place in [joins]. *)
Record World : Type := {
  state : State;
  pending : list Task;
  joins : list Join
}.

(** The manager as [new SandboxManager()] leaves it. *)
Definition idle : World :=
  {| state := initial; pending := []; joins := [] |}.

Definition onState (f : State -> State) (w : World) : World :=
  {| state := f (state w); pending := pending w; joins := joins w |}.

Definition await (k : Task) (w : World) : World :=
  {| state := state w; pending := pending w ++ [k]; joins := joins w |}.

(** What a call has come to at the instant it is made: it has thrown, it
    has returned, or it awaits the driver. *)
Inductive Outcome : Type :=
| Threw (e : SandboxError)
| Returned
| Awaiting.

(** ** [cleanupSandbox] *)

(** The end of [cleanupSandbox]: the entry is deleted and
    [sandbox:cleaned] is emitted. *)
Definition cleaned (sandboxId : string) (s : State) : State :=
  emit (SandboxCleaned sandboxId)
    (setSandboxes (JsMap.delete sandboxId (sandboxes s)) s).

(** One promise of a [Promise.all] is settled; the last one lets the
    event be emitted. *)
Definition settle (join : option nat) (w : World) : World :=
  match join with
  | None => w
  | Some key =>
      match nth_error (joins w) key with
      | Some j =>
          match remaining j with
          | O => w
          | S n =>
              let left :=
                firstn key (joins w)
                ++ {| remaining := n; announces := announces j |}
                   :: skipn (S key) (joins w) in
              {| state := match n with
                          | O => emit (announces j) (state w)
                          | S _ => state w
                          end;
                 pending := pending w;
                 joins := left |}
          end
      | None => w
      end
  end.

(** [cleanupSandbox] up to its first [await]. *)
Definition cleanupSandbox (lat : Latency) (sandboxId : string)
    (join : option nat) (w : World) : Outcome * World :=
  match JsMap.get sandboxId (sandboxes (state w)) with
  | None => (Threw (NotFound sandboxId), w)
  | Some sandbox =>
      match truthy (containerId sandbox) with
      | Some container =>
          let w := onState (call (CallStop container 10)) w in
          let now := clock (state w) in
          (Awaiting,
           await {| ready := now + Z.of_N (stopTakes lat container now);
                    awaited := AwaitStop sandboxId container sandbox join |}
             w)
      | None => (Returned, onState (cleaned sandboxId) w)
      end
  end.

(** ** [pauseSandbox] and [resumeSandbox] up to their [await] *)

Definition pauseSandbox (lat : Latency) (d : Docker) (sandboxId : string)
    (w : World) : Outcome * World :=
  match JsMap.get sandboxId (sandboxes (state w)) with
  | None => (Threw (NotFound sandboxId), w)
  | Some sandbox =>
      if negb (status_eqb (status sandbox) RUNNING)
      then (Threw (PauseNotRunning sandboxId), w)
      else
        let container := bang (containerId sandbox) in
        let w := onState (call (CallPause container)) w in
        let now := clock (state w) in
        (Awaiting,
         await {| ready := now + Z.of_N (pauseTakes lat container now);
                  awaited := AwaitPause sandboxId sandbox
                               (pause d container) |}
           w)
  end.

Definition resumeSandbox (lat : Latency) (d : Docker) (sandboxId : string)
    (w : World) : Outcome * World :=
  match JsMap.get sandboxId (sandboxes (state w)) with
  | None => (Threw (NotFound sandboxId), w)
  | Some sandbox =>
      if negb (status_eqb (status sandbox) PAUSED)
      then (Threw (NotPaused sandboxId), w)
      else
        let container := bang (containerId sandbox) in
        let w := onState (call (CallUnpause container)) w in
        let now := clock (state w) in
        (Awaiting,
         await {| ready := now + Z.of_N (unpauseTakes lat container now);
                  awaited := AwaitUnpause sandboxId sandbox
                               (unpause d container) |}
           w)
  end.

(** ** After an [await] *)

(** The sandbox that a method has looked up gets a status and is filed
    again under its identifier. *)
Definition refile (sandboxId : string) (sandbox : SandboxInfo)
    (announce : SandboxInfo -> Event) (s : State) : State :=
  emit (announce sandbox)
    (setSandboxes (JsMap.set sandboxId sandbox (sandboxes s)) s).

(** The driver has answered: the method goes on from its [await].  A
    rejection of [stop] or [remove] is swallowed; one of [pause] or
    [unpause] makes the method throw. *)
Definition resume (lat : Latency) (a : Awaited) (w : World) : World :=
  match a with
  | AwaitStop sandboxId container sandbox join =>
      match autoRemove (config sandbox) with
      | Some true => settle join (onState (cleaned sandboxId) w)
      | _ =>
          let w := onState (call (CallRemove container true)) w in
          let now := clock (state w) in
          await {| ready := now + Z.of_N (removeTakes lat container now);
                   awaited := AwaitRemove sandboxId join |}
            w
      end
  | AwaitRemove sandboxId join => settle join (onState (cleaned sandboxId) w)
  | AwaitPause sandboxId sandbox answer =>
      match answer with
      | Ok _ =>
          onState (refile sandboxId (withStatus PAUSED sandbox) SandboxPaused)
            w
      | Err _ => w
      end
  | AwaitUnpause sandboxId sandbox answer =>
      match answer with
      | Ok _ =>
          onState (refile sandboxId (withStatus RUNNING sandbox)
                     SandboxResumed) w
      | Err _ => w
      end
  end.

(** ** [cleanupStaleSandboxes] and [shutdown] *)

(** [ids.map(id => this.cleanupSandbox(id).catch(console.error))]: every
    cleanup runs up to its [await]; the result has the number of those
    that await the driver. *)
Definition cleanupEach (lat : Latency) (ids : list string) (join : nat)
    (w : World) : nat * World :=
  fold_left
    (fun acc sandboxId =>
       match cleanupSandbox lat sandboxId (Some join) (snd acc) with
       | (Awaiting, w') => (S (fst acc), w')
       | (_, w') => (fst acc, w')
       end)
    ids (O, w).

(** [await Promise.all(promises)] and the event emitted after it. *)
Definition awaitAll (unsettled : nat) (announcement : Event) (w : World)
    : World :=
  match unsettled with
  | O => onState (emit announcement) w
  | S _ =>
      {| state := state w; pending := pending w;
         joins := joins w
                  ++ [{| remaining := unsettled;
                         announces := announcement |}] |}
  end.

(** The callback of the cleanup scheduler; [clock] is [Date.now()]. *)
Definition cleanupStaleSandboxes (lat : Latency) (w : World) : World :=
  let s := state w in
  let staleSandboxes :=
    JsMap.keys
      (filter (fun e => isStale (clock s) (snd e))
              (JsMap.entries (sandboxes s))) in
  let '(unsettled, w') :=
    cleanupEach lat staleSandboxes (List.length (joins w)) w in
  match staleSandboxes with
  | [] => w'
  | _ => awaitAll unsettled (CleanupStale staleSandboxes) w'
  end.

Definition shutdown (lat : Latency) (w : World) : World :=
  let sandboxIds := JsMap.keys (sandboxes (state w)) in
  let '(unsettled, w') :=
    cleanupEach lat sandboxIds (List.length (joins w)) w in
  awaitAll unsettled Shutdown w'.

(** ** The passing of time *)

(** The first of the elements of a list that come earliest, and the
    others. *)
Fixpoint earliest {A} (time : A -> Z) (l : list A) : option (A * list A) :=
  match l with
  | [] => None
  | x :: l' =>
      match earliest time l' with
      | Some (y, others) =>
          if time y <? time x then Some (y, x :: others) else Some (x, l')
      | None => Some (x, l')
      end
  end.

(** What happens next: a timer fires or the driver answers; of a timer
    and an answer of the same time, the timer comes first. *)
Inductive Due : Type :=
| TimerDue (timer : Timer) (others : list Timer)
| AnswerDue (task : Task) (others : list Task).

Definition next (w : World) : option Due :=
  match earliest due (timers (state w)), earliest ready (pending w) with
  | Some (timer, timers'), Some (task, tasks') =>
      if due timer <=? ready task
      then Some (TimerDue timer timers') else Some (AnswerDue task tasks')
  | Some (timer, timers'), None => Some (TimerDue timer timers')
  | None, Some (task, tasks') => Some (AnswerDue task tasks')
  | None, None => None
  end.

Definition timeOf (e : Due) : Z :=
  match e with
  | TimerDue timer _ => due timer
  | AnswerDue task _ => ready task
  end.

(** The callback of the timer that [createSandbox] sets is
    [void this.cleanupSandbox(sandboxId).catch(console.error)]. *)
Definition happen (lat : Latency) (e : Due) (w : World) : World :=
  match e with
  | TimerDue timer others =>
      let s := setTimers others (state w) in
      let s := setClock (Z.max (clock s) (due timer)) s in
      snd (cleanupSandbox lat (target timer) None
             {| state := s; pending := pending w; joins := joins w |})
  | AnswerDue task others =>
      let s := setClock (Z.max (clock (state w)) (ready task)) (state w) in
      resume lat (awaited task)
        {| state := s; pending := others; joins := joins w |}
  end.

(** A timer that fires leaves at most one call in flight, and
    [cleanupSandbox] awaits the driver at most twice: what is due by a
    given time has happened after this many steps. *)
Definition weight (k : Task) : nat :=
  match awaited k with
  | AwaitStop _ _ _ _ => 2
  | _ => 1
  end.

Definition budget (w : World) : nat :=
  3 * List.length (timers (state w)) + list_sum (map weight (pending w)).

Fixpoint passing (lat : Latency) (fuel : nat) (t : Z) (w : World) : World :=
  match fuel with
  | O => w
  | S fuel' =>
      match next w with
      | Some e =>
          if timeOf e <=? t then passing lat fuel' t (happen lat e w) else w
      | None => w
      end
  end.

(** [passTo lat t] lets the clock reach [t]: what is due by then happens,
    in the order of time. *)
Definition passTo (lat : Latency) (t : Z) (w : World) : World :=
  onState (fun s => setClock (Z.max (clock s) t) s)
    (passing lat (budget w) t w).

(** ** What happens to a manager *)

Definition step (lat : Latency) (w : World) (x : Step) : World :=
  match x with
  | Create d sandboxId name config =>
      onState (fun s => snd (createSandbox d sandboxId name config s)) w
  | On d sandboxId (Execute command) =>
      onState (fun s => snd (executeInSandbox d sandboxId command s)) w
  | On d sandboxId Stats =>
      onState (fun s => snd (getSandboxStats d sandboxId s)) w
  | On d sandboxId Pause => snd (pauseSandbox lat d sandboxId w)
  | On d sandboxId Resume => snd (resumeSandbox lat d sandboxId w)
  | On d sandboxId Cleanup => snd (cleanupSandbox lat sandboxId None w)
  | Sweep d => cleanupStaleSandboxes lat w
  | ShutDown d => shutdown lat w
  | Advance d t => passTo lat t w
  end.

Definition run (lat : Latency) (xs : list Step) (w : World) : World :=
  fold_left (step lat) xs w.

End Async.

Module AsyncStatements.

Import Js SandboxManager Statements Async.

(** ** Runs in time *)

(** The manager of [w] with the state [s]. *)
Definition withState (s : State) (w : World) : World :=
  {| state := s; pending := pending w; joins := joins w |}.

(** Nobody pauses or resumes [sandboxId] in these steps, and
    [generateId] never issues it. *)
Definition leftAlone (sandboxId : string) (xs : list Step) : Prop :=
  Forall (fun x =>
            match x with
            | Create _ i _ _ => i <> sandboxId
            | On _ i Pause | On _ i Resume => i <> sandboxId
            | _ => True
            end) xs.

(** Nothing but time passing. *)
Definition onlyTime (xs : list Step) : Prop :=
  Forall (fun x => match x with Advance _ _ => True | _ => False end) xs.

(** A driver that answers at once, and one that takes [ms] milliseconds
    to stop a container. *)
Definition prompt : Latency :=
  {| stopTakes := fun _ _ => 0%N; removeTakes := fun _ _ => 0%N;
     pauseTakes := fun _ _ => 0%N; unpauseTakes := fun _ _ => 0%N |}.

Definition slowToStop (ms : N) : Latency :=
  {| stopTakes := fun _ _ => ms; removeTakes := fun _ _ => 0%N;
     pauseTakes := fun _ _ => 0%N; unpauseTakes := fun _ _ => 0%N |}.

(** One that takes [ms] milliseconds to pause a container. *)
Definition slowToPause (ms : N) : Latency :=
  {| stopTakes := fun _ _ => 0%N; removeTakes := fun _ _ => 0%N;
     pauseTakes := fun _ _ => ms; unpauseTakes := fun _ _ => 0%N |}.

(** The sandbox that a call in flight goes on with. *)
Definition addressee (a : Awaited) : string :=
  match a with
  | AwaitStop i _ _ _ | AwaitRemove i _
  | AwaitPause i _ _ | AwaitUnpause i _ _ => i
  end.

(** The call in flight files a sandbox again when it goes on. *)
Definition refiles (a : Awaited) : bool :=
  match a with
  | AwaitPause _ _ _ | AwaitUnpause _ _ _ => true
  | AwaitStop _ _ _ _ | AwaitRemove _ _ => false
  end.

(** No timer is set for [sandboxId] and no call on it is in flight. *)
Definition untouched (sandboxId : string) (w : World) : Prop :=
  (forall tm, In tm (timers (state w)) -> target tm <> sandboxId)
  /\ (forall k, In k (pending w) -> addressee (awaited k) <> sandboxId).

(** The manager does not know [sandboxId]; it holds [sandbox] under
    [sandboxId] and does nothing about it. *)
Definition unknown (sandboxId : string) (w : World) : Prop :=
  getSandbox sandboxId (state w) = None /\ untouched sandboxId w.

Definition forgotten (sandboxId : string) (sandbox : SandboxInfo)
    (w : World) : Prop :=
  getSandbox sandboxId (state w) = Some sandbox /\ untouched sandboxId w.

(** No call in flight files [sandboxId] again. *)
Definition notRefiled (sandboxId : string) (w : World) : Prop :=
  forall k, In k (pending w) ->
            refiles (awaited k) = true ->
            addressee (awaited k) <> sandboxId.

(** The sandbox [sandboxId] is on its way out: no call in flight files
    it again, and it is gone, or a timer for it fires by [deadline], or
    its cleanup awaits [stop] or [remove] and has the answer in time, the
    driver taking at most [stopBound] to stop a container and
    [removeBound] to remove one. *)
Definition leaving (sandboxId : string) (deadline stopBound removeBound : Z)
    (w : World) : Prop :=
  notRefiled sandboxId w
  /\ (getSandbox sandboxId (state w) = None
      \/ (exists tm, In tm (timers (state w))
                     /\ target tm = sandboxId
                     /\ clock (state w) <= due tm <= deadline)
      \/ (exists k container sandbox join,
             In k (pending w)
             /\ awaited k = AwaitStop sandboxId container sandbox join
             /\ clock (state w) <= ready k <= deadline + stopBound)
      \/ (exists k join,
             In k (pending w)
             /\ awaited k = AwaitRemove sandboxId join
             /\ ready k <= deadline + stopBound + removeBound)).

(** Nothing that is due by [t] is left. *)
Definition quietBy (t : Z) (w : World) : Prop :=
  (forall tm, In tm (timers (state w)) -> t < due tm)
  /\ (forall k, In k (pending w) -> t < ready k).

(** Every entry of the registry is filed under its own [id], and so will
    be the sandboxes that the calls in flight file again. *)
Definition wellFiled (w : World) : Prop :=
  wellKeyed (state w)
  /\ forall k, In k (pending w) ->
               match awaited k with
               | AwaitPause i sb _ | AwaitUnpause i sb _ => id sb = i
               | _ => True
               end.

End AsyncStatements.

(* ===================================================================== *)
(** * Facts about the insertion-ordered map *)
(* ===================================================================== *)

Module JsMapFacts.

Section Facts.
Import JsMap.
Context {V : Type}.
Implicit Types (m : t V) (k : string) (v : V).

Lemma get_set_same m k v : get k (set k v m) = Some v.
Proof.
  induction m as [|[k' v'] m IH]; simpl.
  - now rewrite String.eqb_refl.
  - destruct (String.eqb k k') eqn:E; simpl; rewrite E; auto.
Qed.

Lemma get_set_other m k k' v : k' <> k -> get k' (set k v m) = get k' m.
Proof.
  intros Hne. induction m as [|[k0 v0] m IH]; simpl.
  - destruct (String.eqb k' k) eqn:E; auto.
    apply String.eqb_eq in E. contradiction.
  - destruct (String.eqb k k0) eqn:E; simpl.
    + apply String.eqb_eq in E; subst k0.
      destruct (String.eqb k' k) eqn:E'; auto.
      apply String.eqb_eq in E'. contradiction.
    + now rewrite IH.
Qed.

Lemma get_delete_same m k : get k (delete k m) = None.
Proof.
  induction m as [|[k' v'] m IH]; simpl; auto.
  destruct (String.eqb k k') eqn:E; simpl; auto.
  now rewrite E.
Qed.

Lemma get_delete_other m k k' : k' <> k -> get k' (delete k m) = get k' m.
Proof.
  intros Hne. induction m as [|[k0 v0] m IH]; simpl; auto.
  destruct (String.eqb k k0) eqn:E; simpl.
  - apply String.eqb_eq in E; subst k0.
    destruct (String.eqb k' k) eqn:E'; auto.
    apply String.eqb_eq in E'. contradiction.
  - now rewrite IH.
Qed.

Lemma keys_delete m k : ~ In k (keys (delete k m)).
Proof.
  unfold keys, delete. rewrite in_map_iff.
  intros [[k' v'] [Hk Hin]]. simpl in Hk. subst k'.
  apply filter_In in Hin. destruct Hin as [_ Hf]. simpl in Hf.
  now rewrite String.eqb_refl in Hf.
Qed.

Lemma In_delete m k kv : In kv (delete k m) <-> In kv m /\ fst kv <> k.
Proof.
  unfold delete. rewrite filter_In. split; intros [H1 H2]; split; auto.
  - intros E. rewrite E, String.eqb_refl in H2. discriminate.
  - destruct (String.eqb k (fst kv)) eqn:E; auto.
    apply String.eqb_eq in E. congruence.
Qed.

Lemma get_None_keys m k : get k m = None <-> ~ In k (keys m).
Proof.
  induction m as [|[k' v'] m IH]; simpl.
  - tauto.
  - destruct (String.eqb k k') eqn:E.
    + apply String.eqb_eq in E. subst. split; [discriminate | tauto].
    + apply String.eqb_neq in E. rewrite IH. split.
      * intros H [H'|H']; [congruence | tauto].
      * tauto.
Qed.

Lemma get_Some_In m k v : get k m = Some v -> In (k, v) m.
Proof.
  induction m as [|[k' v'] m IH]; simpl; [discriminate|].
  destruct (String.eqb k k') eqn:E.
  - apply String.eqb_eq in E. subst. intros [= ->]. now left.
  - intros H. right. auto.
Qed.

(** [set] on a key that is not yet in the map appends the entry. *)
Lemma set_fresh m k v : get k m = None -> set k v m = m ++ [(k, v)].
Proof.
  induction m as [|[k' v'] m IH]; simpl; auto.
  destruct (String.eqb k k') eqn:E; [discriminate|].
  intros H. now rewrite IH.
Qed.

Lemma In_set m k v kv : In kv (set k v m) -> kv = (k, v) \/ In kv m.
Proof.
  induction m as [|[k' v'] m IH]; simpl.
  - intros [H|[]]; auto.
  - destruct (String.eqb k k') eqn:E; simpl.
    + apply String.eqb_eq in E. subst k'. intros [H|H]; auto.
    + intros [H|H]; auto. destruct (IH H); auto.
Qed.

End Facts.

End JsMapFacts.

(* ===================================================================== *)
(** * The memory limit of a sandbox *)
(* ===================================================================== *)

Module MemoryLimit.

Import Js SandboxManager Statements LimitStatements.

(** ** Strings *)

Lemma splitLast_app p c : splitLast (p ++ String c "")%string = Some (p, c).
Proof.
  induction p as [|a p IH]; simpl; auto.
  rewrite IH. destruct p; reflexivity.
Qed.

Lemma splitLast_Some s p c :
  splitLast s = Some (p, c) -> s = (p ++ String c "")%string.
Proof.
  revert p. induction s as [|a s IH]; intros p; simpl; [discriminate|].
  destruct s as [|b s].
  - intros [= <- <-]. reflexivity.
  - destruct (splitLast (String b s)) as [[p' l]|] eqn:E; [|discriminate].
    intros [= <- <-]. simpl. f_equal. now apply IH.
Qed.

Lemma splitLast_cons a b s :
  splitLast (String a (String b s)) =
  match splitLast (String b s) with
  | Some (p, l) => Some (String a p, l)
  | None => None
  end.
Proof. reflexivity. Qed.

Lemma splitLast_toLowerCase s :
  splitLast (toLowerCase s) =
  match splitLast s with
  | Some (p, c) => Some (toLowerCase p, lowerChar c)
  | None => None
  end.
Proof.
  induction s as [|a s IH]; [reflexivity|].
  destruct s as [|b s]; [reflexivity|].
  change (toLowerCase (String a (String b s)))
    with (String (lowerChar a) (toLowerCase (String b s))).
  change (toLowerCase (String b s))
    with (String (lowerChar b) (toLowerCase s)) at 1.
  rewrite !splitLast_cons.
  change (String (lowerChar b) (toLowerCase s))
    with (toLowerCase (String b s)).
  rewrite IH.
  destruct (splitLast (String b s)) as [[p l]|]; reflexivity.
Qed.

Lemma isDigit_lowerChar c : isDigit c = true -> lowerChar c = c.
Proof.
  destruct c as [[] [] [] [] [] [] [] []]; vm_compute; congruence.
Qed.

Lemma isDigit_lowerChar_eq c : isDigit (lowerChar c) = isDigit c.
Proof.
  destruct c as [[] [] [] [] [] [] [] []]; reflexivity.
Qed.

Lemma allDigits_toLowerCase s : allDigits (toLowerCase s) = allDigits s.
Proof.
  induction s as [|a s IH]; simpl; auto.
  now rewrite isDigit_lowerChar_eq, IH.
Qed.

Lemma toLowerCase_digits s : allDigits s = true -> toLowerCase s = s.
Proof.
  induction s as [|a s IH]; simpl; auto.
  intros H. apply andb_prop in H. destruct H as [Ha Hs].
  now rewrite isDigit_lowerChar, IH.
Qed.

Lemma toLowerCase_empty s : toLowerCase s = "" -> s = "".
Proof. destruct s; simpl; [auto | discriminate]. Qed.

Lemma units_lowerChar c :
  isUnitLetter c -> units (lowerChar c) = Some (unitFactor c).
Proof.
  unfold isUnitLetter. simpl.
  intros [<-|[<-|[<-|[<-|[<-|[<-|[<-|[<-|[]]]]]]]]]; reflexivity.
Qed.

Lemma isUnitChar_lowerChar c :
  isUnitChar (lowerChar c) = true -> isUnitLetter c.
Proof.
  unfold isUnitLetter.
  destruct c as [[] [] [] [] [] [] [] []]; vm_compute;
    try discriminate; intros _; tauto.
Qed.

(** ** Numbers *)

Lemma digitsValueFrom_nonneg s :
  forall acc, 0 <= acc -> allDigits s = true -> 0 <= digitsValueFrom acc s.
Proof.
  induction s as [|a s IH]; cbn [allDigits digitsValueFrom];
    intros acc Hacc H; auto.
  apply andb_prop in H. destruct H as [Ha Hs].
  apply IH; auto.
  unfold isDigit in Ha. apply andb_prop in Ha. destruct Ha as [Hlo _].
  apply N.leb_le in Hlo. generalize dependent (code a). intros n Hn. lia.
Qed.

Lemma digitsValue_nonneg s : allDigits s = true -> 0 <= digitsValue s.
Proof. apply digitsValueFrom_nonneg. lia. Qed.

Lemma toDouble_exact n : n <= 2 ^ 53 -> toDouble n = Finite n.
Proof.
  intros H. destruct (Z.eq_dec n (2 ^ 53)) as [->|Hne].
  - reflexivity.
  - unfold toDouble.
    replace (n <? 2 ^ 53) with true; auto.
    symmetry. apply Z.ltb_lt. lia.
Qed.

(** ** The parser *)

Lemma matchLimit_Some s value unit :
  matchLimit s = Some (value, unit) ->
  s = (value ++ String unit "")%string /\ value <> ""
  /\ allDigits value = true /\ isUnitChar unit = true.
Proof.
  unfold matchLimit.
  destruct (splitLast s) as [[p c]|] eqn:E; [|discriminate].
  apply splitLast_Some in E.
  destruct p as [|a p]; [discriminate|].
  destruct (allDigits (String a p) && isUnitChar c) eqn:B; [|discriminate].
  apply andb_prop in B. destruct B as [B1 B2].
  intros [= <- <-]. repeat split; auto. discriminate.
Qed.

Lemma matchLimit_app value unit :
  value <> "" -> allDigits value = true -> isUnitChar unit = true ->
  matchLimit (value ++ String unit "")%string = Some (value, unit).
Proof.
  intros Hne Hd Hu. unfold matchLimit. rewrite splitLast_app.
  destruct value as [|a p]; [congruence|].
  now rewrite Hd, Hu.
Qed.

Lemma parseMemoryLimit_wellFormed digits unit :
  digits <> "" -> allDigits digits = true -> isUnitLetter unit ->
  parseMemoryLimit (digits ++ String unit "")%string
  = Ok (mul (parseInt10 digits) (unitFactor unit)).
Proof.
  intros Hne Hd Hu. unfold parseMemoryLimit.
  assert (Hlow : toLowerCase (digits ++ String unit "")%string
                 = (digits ++ String (lowerChar unit) "")%string).
  { clear Hne. induction digits as [|a p IH]; simpl in *; auto.
    apply andb_prop in Hd. destruct Hd as [Ha Hp].
    now rewrite isDigit_lowerChar, IH. }
  rewrite Hlow, matchLimit_app; auto.
  - destruct digits; [congruence|]. now rewrite units_lowerChar.
  - unfold isUnitChar. now rewrite units_lowerChar.
Qed.

Lemma parseMemoryLimit_Ok limit n :
  parseMemoryLimit limit = Ok n -> wellFormedLimit limit.
Proof.
  unfold parseMemoryLimit.
  destruct (matchLimit (toLowerCase limit)) as [[value unit]|] eqn:E;
    [|discriminate].
  intros _. unfold matchLimit in E. rewrite splitLast_toLowerCase in E.
  destruct (splitLast limit) as [[p c]|] eqn:S; [|discriminate].
  apply splitLast_Some in S.
  destruct (toLowerCase p) as [|a q] eqn:L; [discriminate|].
  destruct (allDigits (String a q) && isUnitChar (lowerChar c)) eqn:B;
    [|discriminate].
  apply andb_prop in B. destruct B as [B1 B2].
  exists p, c. repeat split; auto.
  - intros ->. discriminate.
  - now rewrite <- allDigits_toLowerCase, L.
  - now apply isUnitChar_lowerChar.
Qed.

Lemma parseMemoryLimit_Err limit :
  ~ wellFormedLimit limit ->
  parseMemoryLimit limit
  = Err ("Invalid memory limit format: " ++ limit)%string.
Proof.
  intros H. destruct (parseMemoryLimit limit) as [n|e] eqn:E.
  - exfalso. apply H. eapply parseMemoryLimit_Ok; eauto.
  - revert E. unfold parseMemoryLimit.
    destruct (matchLimit (toLowerCase limit)) as [[value unit]|] eqn:M.
    + apply matchLimit_Some in M. destruct M as (_ & Hne & _ & Hu).
      destruct value; [congruence|].
      unfold isUnitChar in Hu. destruct (units unit); [discriminate|].
      discriminate.
    + congruence.
Qed.

(** ** The limit in [createSandbox] *)

Lemma unitFactor_pos unit : isUnitLetter unit -> 1 <= unitFactor unit.
Proof.
  unfold isUnitLetter. simpl.
  intros [<-|[<-|[<-|[<-|[<-|[<-|[<-|[<-|[]]]]]]]]]; simpl; lia.
Qed.

Lemma mul_parseInt10_exact digits factor :
  allDigits digits = true -> 1 <= factor ->
  digitsValue digits * factor <= 2 ^ 53 ->
  mul (parseInt10 digits) factor = Finite (digitsValue digits * factor).
Proof.
  intros Hd Hf Hb. pose proof (digitsValue_nonneg digits Hd) as Hn.
  unfold parseInt10. rewrite toDouble_exact by nia.
  simpl. now apply toDouble_exact.
Qed.

Lemma createFailed_calls sb m s : calls (snd (createFailed sb m s)) = calls s.
Proof. reflexivity. Qed.

Lemma createSandbox_calls_accepted d sandboxId name config s memory :
  parseMemoryLimit (bang (memoryLimit (withDefaults config))) = Ok memory ->
  exists rest,
    calls (snd (createSandbox d sandboxId name config s))
    = calls s
      ++ CallCreateContainer
           (containerOptions sandboxId (withDefaults config) memory)
      :: rest.
Proof.
  intros Hp. unfold createSandbox. rewrite Hp.
  destruct (createContainer d _) as [container|m].
  - destruct (start d container) as [[]|m].
    + exists [CallStart container].
      destruct (timeout (withDefaults config)) as [[| |]|]; simpl;
        now rewrite <- app_assoc.
    + exists [CallStart container]. simpl. now rewrite <- app_assoc.
  - exists []. reflexivity.
Qed.

Lemma createSandbox_rejected_limit d sandboxId name config s m :
  parseMemoryLimit (bang (memoryLimit (withDefaults config))) = Err m ->
  fst (createSandbox d sandboxId name config s)
  = Err (Failed "create sandbox" m)
  /\ calls (snd (createSandbox d sandboxId name config s)) = calls s.
Proof.
  intros Hp. unfold createSandbox. rewrite Hp. split; reflexivity.
Qed.

(** ** Lowercase over all of Unicode *)

Lemma lowerRanges_leave_ascii :
  forallb rangeLeavesAscii Utf16.lowerRanges = true.
Proof. vm_compute. reflexivity. Qed.

Lemma lowerPoint_small cp :
  isSmall (Utf16.lowerPoint cp) = true -> isPlain cp = true.
Proof.
  unfold isSmall, isPlain, Utf16.lowerPoint, kelvin.
  destruct (find (Utf16.covers (Z.of_N cp)) Utf16.lowerRanges)
    as [[[[first last] delta] stride]|] eqn:F.
  - apply find_some in F. destruct F as [Hin Hcov].
    pose proof (proj1 (forallb_forall _ _) lowerRanges_leave_ascii _ Hin)
      as Hr.
    unfold Utf16.covers in Hcov. unfold rangeLeavesAscii in Hr.
    apply andb_prop in Hcov. destruct Hcov as [Hcov _].
    apply andb_prop in Hcov. destruct Hcov as [H1 H2].
    apply Z.leb_le in H1, H2.
    intros Hs. apply N.ltb_lt in Hs.
    apply orb_true_iff.
    apply orb_prop in Hr. destruct Hr as [Hr|Hr].
    + apply orb_prop in Hr. destruct Hr as [Hr|Hr].
      * apply Z.leb_le in Hr. lia.
      * apply Z.ltb_lt in Hr. left. apply N.ltb_lt. lia.
    + apply andb_prop in Hr. destruct Hr as [Ha Hb].
      apply Z.eqb_eq in Ha, Hb. right. apply N.eqb_eq. lia.
  - intros Hs. now rewrite Hs.
Qed.

Lemma lowerPoint_below_128 :
  forallb (fun n => (Utf16.lowerPoint (N.of_nat n) =? foldUnit (N.of_nat n))%N)
    (seq 0 128) = true.
Proof. vm_compute. reflexivity. Qed.

Lemma lowerPoint_plain u :
  isPlain u = true -> Utf16.lowerPoint u = foldUnit u.
Proof.
  unfold isPlain. intros H. apply orb_prop in H. destruct H as [H|H].
  - apply N.ltb_lt in H.
    pose proof (proj1 (forallb_forall _ _) lowerPoint_below_128
                  (N.to_nat u)) as Hall.
    cbv beta in Hall. rewrite N2Nat.id in Hall.
    apply N.eqb_eq, Hall, in_seq. lia.
  - apply N.eqb_eq in H. subst u. vm_compute. reflexivity.
Qed.

Lemma foldUnit_small u : isPlain u = true -> isSmall (foldUnit u) = true.
Proof.
  unfold isPlain, isSmall, foldUnit. intros H.
  destruct ((65 <=? u) && (u <=? 90))%N eqn:E.
  - apply andb_prop in E. destruct E as [E1 E2].
    apply N.leb_le in E1, E2. apply N.ltb_lt. lia.
  - destruct (u =? kelvin)%N eqn:K; [reflexivity|].
    now rewrite orb_false_r in H.
Qed.

Lemma utf16_units_small cp :
  forallb isSmall (utf16_units cp) = true -> isSmall cp = true.
Proof.
  unfold utf16_units, isSmall.
  destruct (cp <? 65536)%N eqn:E.
  - cbn [forallb]. now rewrite andb_true_r.
  - cbn [forallb]. intros H. apply andb_prop in H. destruct H as [H _].
    apply N.ltb_lt in H. lia.
Qed.

Lemma lowerOne_small finalSigma before cp after :
  forallb isSmall (flat_map utf16_units
                     (Utf16.lowerOne finalSigma before cp after)) = true ->
  isPlain cp = true.
Proof.
  unfold Utf16.lowerOne.
  destruct (cp =? 931)%N; [destruct (finalSigma before after); discriminate|].
  destruct (cp =? 304)%N; [discriminate|].
  cbn [flat_map]. rewrite app_nil_r. intros H.
  now apply lowerPoint_small, utf16_units_small.
Qed.

Lemma lowerOne_plain finalSigma before u after :
  isPlain u = true ->
  flat_map utf16_units (Utf16.lowerOne finalSigma before u after)
  = [foldUnit u].
Proof.
  intros H. unfold Utf16.lowerOne.
  assert (H3 : (u =? 931)%N = false).
  { apply N.eqb_neq. intros ->. discriminate. }
  assert (H1 : (u =? 304)%N = false).
  { apply N.eqb_neq. intros ->. discriminate. }
  rewrite H3, H1. cbn [flat_map]. rewrite app_nil_r.
  rewrite lowerPoint_plain by assumption.
  pose proof (foldUnit_small u H) as Hs. unfold isSmall in Hs.
  apply N.ltb_lt in Hs. unfold utf16_units.
  replace (foldUnit u <? 65536)%N with true
    by (symmetry; apply N.ltb_lt; lia).
  reflexivity.
Qed.

Lemma plain_not_high u : isPlain u = true -> Utf16.isHighSurrogate u = false.
Proof.
  unfold isPlain, Utf16.isHighSurrogate, kelvin. intros H.
  apply orb_prop in H. destruct H as [H|H].
  - apply N.ltb_lt in H. apply andb_false_iff. left. apply N.leb_gt. lia.
  - apply N.eqb_eq in H. now subst u.
Qed.

Lemma pair_not_plain high low :
  Utf16.isHighSurrogate high && Utf16.isLowSurrogate low = true ->
  isPlain (Utf16.codePoint high low) = false.
Proof.
  unfold Utf16.isHighSurrogate, Utf16.isLowSurrogate, Utf16.codePoint,
    isPlain, kelvin.
  intros H. apply andb_prop in H. destruct H as [H1 H2].
  apply andb_prop in H1. destruct H1 as [H1 _]. apply N.leb_le in H1.
  apply orb_false_iff. split.
  - apply N.ltb_ge. lia.
  - apply N.eqb_neq. lia.
Qed.

Lemma lowerFrom_plain finalSigma s :
  forallb isPlain s = true ->
  forall before, Utf16.lowerFrom finalSigma before s = map foldUnit s.
Proof.
  induction s as [|u rest IH]; [reflexivity|].
  intros H before. cbn [forallb] in H. apply andb_prop in H.
  destruct H as [Hu Hrest]. cbn [Utf16.lowerFrom].
  destruct rest as [|low rest'].
  - now rewrite lowerOne_plain.
  - rewrite plain_not_high by assumption. cbn [andb].
    rewrite lowerOne_plain by assumption.
    now rewrite IH.
Qed.

Lemma lowerFrom_small finalSigma s :
  forall before,
    forallb isSmall (Utf16.lowerFrom finalSigma before s) = true ->
    forallb isPlain s = true.
Proof.
  induction s as [|u rest IH]; [reflexivity|].
  intros before. cbn [Utf16.lowerFrom].
  destruct rest as [|low rest'].
  - intros H. apply lowerOne_small in H. cbn. now rewrite H.
  - destruct (Utf16.isHighSurrogate u && Utf16.isLowSurrogate low) eqn:P.
    + rewrite forallb_app. intros H. apply andb_prop in H.
      destruct H as [H _]. apply lowerOne_small in H.
      now rewrite pair_not_plain in H.
    + rewrite forallb_app. intros H. apply andb_prop in H.
      destruct H as [H1 H2]. apply lowerOne_small in H1.
      apply IH in H2. cbn [forallb] in *. now rewrite H1, H2.
Qed.

(** ** The parser over all strings *)

Lemma wide_splitLast_app (p : Text) c :
  Utf16.splitLast (p ++ [c]) = Some (p, c).
Proof.
  induction p as [|a p IH]; cbn [app Utf16.splitLast]; auto.
  rewrite IH. destruct p; reflexivity.
Qed.

Lemma wide_splitLast_Some s p c :
  Utf16.splitLast s = Some (p, c) -> s = p ++ [c].
Proof.
  revert p. induction s as [|a s IH]; intros p; cbn [Utf16.splitLast];
    [discriminate|].
  destruct s as [|b s].
  - intros [= <- <-]. reflexivity.
  - destruct (Utf16.splitLast (b :: s)) as [[p' l]|] eqn:E; [|discriminate].
    intros [= <- <-]. cbn [app]. f_equal. now apply IH.
Qed.

Lemma wide_matchLimit_Some s value unit :
  Utf16.matchLimit s = Some (value, unit) ->
  s = value ++ [unit] /\ value <> []
  /\ forallb Utf16.isDigit value = true /\ Utf16.isUnitChar unit = true.
Proof.
  unfold Utf16.matchLimit.
  destruct (Utf16.splitLast s) as [[p c]|] eqn:E; [|discriminate].
  apply wide_splitLast_Some in E.
  destruct p as [|a p]; [discriminate|].
  destruct (forallb Utf16.isDigit (a :: p) && Utf16.isUnitChar c) eqn:B;
    [|discriminate].
  apply andb_prop in B. destruct B as [B1 B2].
  intros [= <- <-]. repeat split; auto. discriminate.
Qed.

Lemma wide_matchLimit_app value unit :
  value <> [] -> forallb Utf16.isDigit value = true ->
  Utf16.isUnitChar unit = true ->
  Utf16.matchLimit (value ++ [unit]) = Some (value, unit).
Proof.
  intros Hne Hd Hu. unfold Utf16.matchLimit. rewrite wide_splitLast_app.
  destruct value as [|a p]; [congruence|].
  now rewrite Hd, Hu.
Qed.

Lemma units_small u : Utf16.isUnitChar u = true -> isSmall u = true.
Proof.
  unfold Utf16.isUnitChar, Utf16.units, isSmall.
  destruct u as [|p]; [discriminate|].
  do 7 (try destruct p as [p|p|]); try discriminate; reflexivity.
Qed.

Lemma digit_small u : Utf16.isDigit u = true -> isSmall u = true.
Proof.
  unfold Utf16.isDigit, isSmall. intros H. apply andb_prop in H.
  destruct H as [_ H]. apply N.leb_le in H. apply N.ltb_lt. lia.
Qed.

Lemma digits_small s :
  forallb Utf16.isDigit s = true -> forallb isSmall s = true.
Proof.
  rewrite !forallb_forall. intros H u Hu. now apply digit_small, H.
Qed.

Lemma small_plain s : forallb isSmall s = true -> forallb isPlain s = true.
Proof.
  rewrite !forallb_forall. intros H u Hu. unfold isPlain.
  specialize (H u Hu). unfold isSmall in H. now rewrite H.
Qed.

Lemma isDigit_foldUnit u : Utf16.isDigit (foldUnit u) = Utf16.isDigit u.
Proof.
  unfold foldUnit, Utf16.isDigit, kelvin.
  destruct ((65 <=? u) && (u <=? 90))%N eqn:E.
  - apply andb_prop in E. destruct E as [E1 E2]. apply N.leb_le in E1, E2.
    replace (u + 32 <=? 57)%N with false by (symmetry; apply N.leb_gt; lia).
    replace (u <=? 57)%N with false by (symmetry; apply N.leb_gt; lia).
    now rewrite !andb_false_r.
  - destruct (u =? 8490)%N eqn:K; [|reflexivity].
    apply N.eqb_eq in K. now subst u.
Qed.

Lemma digit_foldUnit u : Utf16.isDigit u = true -> foldUnit u = u.
Proof.
  unfold foldUnit, Utf16.isDigit, kelvin. intros H. apply andb_prop in H.
  destruct H as [H1 H2]. apply N.leb_le in H1, H2.
  replace (65 <=? u)%N with false by (symmetry; apply N.leb_gt; lia).
  cbn [andb].
  replace (u =? 8490)%N with false by (symmetry; apply N.eqb_neq; lia).
  reflexivity.
Qed.

Lemma digits_foldUnit s :
  forallb Utf16.isDigit s = true -> map foldUnit s = s.
Proof.
  induction s as [|u s IH]; [reflexivity|]. cbn [forallb map].
  intros H. apply andb_prop in H. destruct H as [Hu Hs].
  now rewrite digit_foldUnit, IH.
Qed.

Lemma digits_of_folded s :
  forallb Utf16.isDigit (map foldUnit s) = forallb Utf16.isDigit s.
Proof.
  induction s as [|u s IH]; [reflexivity|]. cbn [forallb map].
  now rewrite isDigit_foldUnit, IH.
Qed.

Lemma units_foldUnit u :
  isUnit u -> Utf16.units (foldUnit u) = Some (factorOf u).
Proof.
  unfold isUnit, kelvin. cbn [In].
  intros [<-|[<-|[<-|[<-|[<-|[<-|[<-|[<-|[<-|[]]]]]]]]]]; reflexivity.
Qed.

Lemma isUnit_plain u : isUnit u -> isPlain u = true.
Proof.
  unfold isUnit, kelvin. cbn [In].
  intros [<-|[<-|[<-|[<-|[<-|[<-|[<-|[<-|[<-|[]]]]]]]]]]; reflexivity.
Qed.

Lemma unit_of_folded u :
  Utf16.isUnitChar (foldUnit u) = true -> isUnit u.
Proof.
  unfold foldUnit, isUnit, kelvin. cbn [In].
  destruct ((65 <=? u) && (u <=? 90))%N eqn:E.
  - apply andb_prop in E. destruct E as [E1 E2]. apply N.leb_le in E1, E2.
    intros H.
    assert (Hc : (u + 32 = 98 \/ u + 32 = 107 \/ u + 32 = 109
                  \/ u + 32 = 103)%N).
    { revert H. generalize (u + 32)%N. intros v.
      unfold Utf16.isUnitChar, Utf16.units.
      destruct v as [|p]; [discriminate|].
      do 7 (try destruct p as [p|p|]); try discriminate; intros _; lia. }
    lia.
  - destruct (u =? 8490)%N eqn:K.
    + apply N.eqb_eq in K. intros _. subst u. tauto.
    + unfold Utf16.isUnitChar, Utf16.units.
      destruct u as [|p]; [discriminate|].
      do 7 (try destruct p as [p|p|]); try discriminate; intros _; tauto.
Qed.

Lemma factorOf_pos unit : isUnit unit -> 1 <= factorOf unit.
Proof.
  unfold isUnit, kelvin. cbn [In].
  intros [<-|[<-|[<-|[<-|[<-|[<-|[<-|[<-|[<-|[]]]]]]]]]]; cbn; lia.
Qed.

Lemma toLowerCase_wellFormed finalSigma digits unit :
  forallb Utf16.isDigit digits = true -> isUnit unit ->
  Utf16.toLowerCase finalSigma (digits ++ [unit]) = digits ++ [foldUnit unit].
Proof.
  intros Hd Hu. unfold Utf16.toLowerCase.
  rewrite lowerFrom_plain.
  - rewrite map_app. cbn [map]. now rewrite digits_foldUnit.
  - rewrite forallb_app. cbn [forallb].
    now rewrite (small_plain _ (digits_small _ Hd)), isUnit_plain.
Qed.

Lemma wide_parseMemoryLimit_wellFormed finalSigma digits unit :
  digits <> [] -> forallb Utf16.isDigit digits = true -> isUnit unit ->
  Utf16.parseMemoryLimit finalSigma (digits ++ [unit])
  = Ok (mul (Utf16.parseInt10 digits) (factorOf unit)).
Proof.
  intros Hne Hd Hu. unfold Utf16.parseMemoryLimit.
  rewrite toLowerCase_wellFormed by assumption.
  rewrite wide_matchLimit_app; auto.
  - destruct digits; [congruence|]. now rewrite units_foldUnit.
  - unfold Utf16.isUnitChar. now rewrite units_foldUnit.
Qed.

Lemma wide_matchLimit_lowered finalSigma limit value unit :
  Utf16.matchLimit (Utf16.toLowerCase finalSigma limit) = Some (value, unit) ->
  exists unit', limit = value ++ [unit'] /\ value <> []
                /\ forallb Utf16.isDigit value = true
                /\ isUnit unit' /\ unit = foldUnit unit'.
Proof.
  intros M. apply wide_matchLimit_Some in M.
  destruct M as (Hlow & Hne & Hd & Hu).
  assert (Hplain : forallb isPlain limit = true).
  { apply (@lowerFrom_small finalSigma limit []).
    fold (Utf16.toLowerCase finalSigma limit). rewrite Hlow, forallb_app.
    cbn [forallb]. now rewrite digits_small, units_small. }
  unfold Utf16.toLowerCase in Hlow.
  rewrite lowerFrom_plain in Hlow by assumption.
  apply map_eq_app in Hlow. destruct Hlow as (p & q & -> & Hp & Hq).
  destruct q as [|c q]; [discriminate|]. cbn [map] in Hq.
  injection Hq as Hc Hq. apply map_eq_nil in Hq. subst q.
  assert (Hdp : forallb Utf16.isDigit p = true).
  { now rewrite <- digits_of_folded, Hp. }
  rewrite digits_foldUnit in Hp by assumption. subst p.
  exists c. repeat split; auto.
  apply unit_of_folded. now rewrite Hc.
Qed.

Lemma wide_parseMemoryLimit_Ok finalSigma limit n :
  Utf16.parseMemoryLimit finalSigma limit = Ok n -> wellFormed limit.
Proof.
  unfold Utf16.parseMemoryLimit.
  destruct (Utf16.matchLimit (Utf16.toLowerCase finalSigma limit))
    as [[value unit]|] eqn:E; [|discriminate].
  intros _. apply wide_matchLimit_lowered in E.
  destruct E as (unit' & -> & Hne & Hd & Hu & _).
  now exists value, unit'.
Qed.

Lemma wide_parseMemoryLimit_Err finalSigma limit :
  ~ wellFormed limit ->
  Utf16.parseMemoryLimit finalSigma limit
  = Err (text "Invalid memory limit format: " ++ limit).
Proof.
  intros H.
  destruct (Utf16.parseMemoryLimit finalSigma limit) as [n|e] eqn:E.
  - exfalso. apply H. eapply wide_parseMemoryLimit_Ok; eauto.
  - revert E. unfold Utf16.parseMemoryLimit.
    destruct (Utf16.matchLimit (Utf16.toLowerCase finalSigma limit))
      as [[value unit]|] eqn:M.
    + apply wide_matchLimit_Some in M. destruct M as (_ & Hne & _ & Hu).
      destruct value; [congruence|].
      unfold Utf16.isUnitChar in Hu.
      destruct (Utf16.units unit); [discriminate|]. discriminate.
    + congruence.
Qed.

Lemma wide_digitsValueFrom_nonneg s :
  forall acc, 0 <= acc -> forallb Utf16.isDigit s = true ->
              0 <= Utf16.digitsValueFrom acc s.
Proof.
  induction s as [|a s IH]; cbn [forallb Utf16.digitsValueFrom];
    intros acc Hacc H; auto.
  apply andb_prop in H. destruct H as [Ha Hs].
  apply IH; auto.
  unfold Utf16.isDigit in Ha. apply andb_prop in Ha. destruct Ha as [Hlo _].
  apply N.leb_le in Hlo. lia.
Qed.

Lemma wide_mul_parseInt10_exact digits factor :
  forallb Utf16.isDigit digits = true -> 1 <= factor ->
  Utf16.digitsValue digits * factor <= 2 ^ 53 ->
  mul (Utf16.parseInt10 digits) factor
  = Finite (Utf16.digitsValue digits * factor).
Proof.
  intros Hd Hf Hb.
  assert (Hn : 0 <= Utf16.digitsValue digits)
    by (apply wide_digitsValueFrom_nonneg; [lia | assumption]).
  unfold Utf16.parseInt10. rewrite toDouble_exact by nia.
  cbn [mul]. now apply toDouble_exact.
Qed.

(** ** The strings of the configuration among all strings *)

Lemma code_bounded c : (code c < 256)%N.
Proof. apply N_ascii_bounded. Qed.

Lemma lowerPoint_code c : Utf16.lowerPoint (code c) = code (lowerChar c).
Proof.
  destruct c as [[] [] [] [] [] [] [] []]; vm_compute; reflexivity.
Qed.

Lemma units_code c : Utf16.units (code c) = units c.
Proof.
  destruct c as [[] [] [] [] [] [] [] []]; reflexivity.
Qed.

Lemma lowerOne_code finalSigma before c after :
  flat_map utf16_units (Utf16.lowerOne finalSigma before (code c) after)
  = [code (lowerChar c)].
Proof.
  pose proof (code_bounded c) as Hc. unfold Utf16.lowerOne.
  replace (code c =? 931)%N with false by (symmetry; apply N.eqb_neq; lia).
  replace (code c =? 304)%N with false by (symmetry; apply N.eqb_neq; lia).
  cbn [flat_map]. rewrite app_nil_r, lowerPoint_code.
  pose proof (code_bounded (lowerChar c)) as Hl. unfold utf16_units.
  replace (code (lowerChar c) <? 65536)%N with true
    by (symmetry; apply N.ltb_lt; lia).
  reflexivity.
Qed.

Lemma lowerFrom_text finalSigma s :
  forall before,
    Utf16.lowerFrom finalSigma before (text s) = text (toLowerCase s).
Proof.
  induction s as [|c s IH]; [reflexivity|]. intros before.
  cbn [text toLowerCase Utf16.lowerFrom].
  destruct (text s) as [|low rest'] eqn:T.
  - rewrite lowerOne_code. destruct s; [reflexivity | discriminate].
  - assert (Hh : Utf16.isHighSurrogate (code c) = false).
    { pose proof (code_bounded c). unfold Utf16.isHighSurrogate.
      apply andb_false_iff. left. apply N.leb_gt. lia. }
    rewrite Hh. cbn [andb]. rewrite lowerOne_code, IH. reflexivity.
Qed.

Lemma text_app a b : text (a ++ b)%string = text a ++ text b.
Proof. induction a as [|c a IH]; cbn [text append app]; congruence. Qed.

Lemma splitLast_text s :
  Utf16.splitLast (text s)
  = match splitLast s with
    | Some (p, c) => Some (text p, code c)
    | None => None
    end.
Proof.
  induction s as [|a s IH]; [reflexivity|].
  destruct s as [|b s]; [reflexivity|].
  change (text (String a (String b s)))
    with (code a :: text (String b s)).
  change (Utf16.splitLast (code a :: text (String b s)))
    with (match Utf16.splitLast (text (String b s)) with
          | Some (p, l) => Some (code a :: p, l)
          | None => None
          end).
  rewrite IH.
  change (splitLast (String a (String b s)))
    with (match splitLast (String b s) with
          | Some (p, l) => Some (String a p, l)
          | None => None
          end).
  destruct (splitLast (String b s)) as [[p l]|]; reflexivity.
Qed.

Lemma isDigit_code c : Utf16.isDigit (code c) = isDigit c.
Proof. reflexivity. Qed.

Lemma allDigits_text s : forallb Utf16.isDigit (text s) = allDigits s.
Proof.
  induction s as [|c s IH]; [reflexivity|].
  cbn [text forallb allDigits]. now rewrite IH.
Qed.

Lemma digitsValueFrom_text s :
  forall acc, Utf16.digitsValueFrom acc (text s) = digitsValueFrom acc s.
Proof.
  induction s as [|c s IH]; [reflexivity|]. intros acc.
  cbn [text Utf16.digitsValueFrom digitsValueFrom]. apply IH.
Qed.

Lemma matchLimit_text s :
  Utf16.matchLimit (text s)
  = match matchLimit s with
    | Some (value, unit) => Some (text value, code unit)
    | None => None
    end.
Proof.
  unfold Utf16.matchLimit, matchLimit. rewrite splitLast_text.
  destruct (splitLast s) as [[p c]|]; [|reflexivity].
  destruct p as [|a p]; [reflexivity|].
  change (text (String a p)) with (code a :: text p) at 1.
  cbv iota.
  change (code a :: text p) with (text (String a p)).
  rewrite allDigits_text. unfold Utf16.isUnitChar, isUnitChar.
  rewrite units_code.
  now destruct (allDigits (String a p) && _).
Qed.

(** On a string of the configuration, the parser over all strings is the
    parser of [createSandbox]. *)
Lemma parseMemoryLimit_text finalSigma limit :
  Utf16.parseMemoryLimit finalSigma (text limit)
  = match parseMemoryLimit limit with
    | Ok n => Ok n
    | Err m => Err (text m)
    end.
Proof.
  unfold Utf16.parseMemoryLimit, parseMemoryLimit, Utf16.toLowerCase.
  rewrite lowerFrom_text, matchLimit_text.
  destruct (matchLimit (toLowerCase limit)) as [[value unit]|].
  - destruct value as [|a p].
    + now rewrite text_app.
    + change (text (String a p)) with (code a :: text p) at 1.
      cbv iota. rewrite units_code.
      destruct (units unit) as [factor|]; [|reflexivity].
      unfold Utf16.parseInt10, parseInt10, Utf16.digitsValue, digitsValue.
      change (code a :: text p) with (text (String a p)).
      now rewrite digitsValueFrom_text.
  - now rewrite text_app.
Qed.

Lemma wellFormed_text limit : wellFormedLimit limit -> wellFormed (text limit).
Proof.
  intros (digits & unit & -> & Hne & Hd & Hu).
  exists (text digits), (code unit). repeat split.
  - now rewrite text_app.
  - destruct digits; [congruence | discriminate].
  - now rewrite allDigits_text.
  - unfold isUnitLetter in Hu. unfold isUnit. cbn [In] in *.
    destruct Hu as [<-|[<-|[<-|[<-|[<-|[<-|[<-|[<-|[]]]]]]]]]; tauto.
Qed.





End MemoryLimit.

(* ===================================================================== *)
(** * The lifecycle of a sandbox *)
(* ===================================================================== *)

Module Lifecycle.

Import Js SandboxManager Statements JsMapFacts.

Lemma status_eqb_eq a b : status_eqb a b = true <-> a = b.
Proof. destruct a, b; simpl; split; congruence. Qed.

Lemma status_neqb a b : negb (status_eqb a b) = false -> a = b.
Proof.
  intros H. apply status_eqb_eq. now destruct (status_eqb a b).
Qed.

Lemma getSandbox_put sb s : getSandbox (id sb) (put sb s) = Some sb.
Proof. apply get_set_same. Qed.

(** ** Creation *)

Lemma createFailed_entry sb m s :
  createFailed sb m s
  = (Err (Failed "create sandbox" m), put (withStatus ERROR sb) s).
Proof. reflexivity. Qed.

Lemma createSandbox_Err d sandboxId name config s e s' :
  createSandbox d sandboxId name config s = (Err e, s') ->
  exists m sb,
    e = Failed "create sandbox" m
    /\ getSandbox sandboxId s' = Some sb
    /\ status sb = ERROR /\ id sb = sandboxId.
Proof.
  unfold createSandbox.
  set (info := {| id := sandboxId; name := name; status := CREATING;
                  containerId := None; createdAt := clock s;
                  config := withDefaults config |}).
  assert (Hfail : forall m s0 e s',
             createFailed info m s0 = (Err e, s') ->
             exists m sb,
               e = Failed "create sandbox" m
               /\ getSandbox sandboxId s' = Some sb
               /\ status sb = ERROR /\ id sb = sandboxId).
  { intros m s0 e0 s0' [= <- <-].
    exists m, (withStatus ERROR info). repeat split.
    apply (getSandbox_put (withStatus ERROR info)). }
  destruct (parseMemoryLimit _) as [memory|m]; [|apply Hfail].
  destruct (createContainer d _) as [container|m]; [|apply Hfail].
  destruct (start d container) as [[]|m]; [|apply Hfail].
  discriminate.
Qed.

Lemma createSandbox_rejected d sandboxId name config s m :
  driverRejects d sandboxId config m ->
  fst (createSandbox d sandboxId name config s)
  = Err (Failed "create sandbox" m).
Proof.
  intros (memory & Hp & H). unfold createSandbox. rewrite Hp.
  destruct H as [H | (container & H1 & H2)].
  - now rewrite H.
  - now rewrite H1, H2.
Qed.

(** C3.  When the driver rejects the allocation or the start of the
    container, [createSandbox] raises an error that carries the driver's
    message, and the registry keeps the entry of the new identifier with
    the status [error]: a lookup finds it, the list shows it, and it is
    not left in [creating]. *)
Theorem create_failure_is_recorded :
  forall (d : Docker) (sandboxId name : string) (config : SandboxConfig)
         (s : State) (m : string),
    driverRejects d sandboxId config m ->
    exists s' sb,
      createSandbox d sandboxId name config s
      = (Err (Failed "create sandbox" m), s')
      /\ getSandbox sandboxId s' = Some sb
      /\ In sb (listSandboxes s')
      /\ id sb = sandboxId
      /\ status sb = ERROR
      /\ status sb <> CREATING.
Proof.
  intros d sandboxId name config s m Hrej.
  pose proof (createSandbox_rejected name s Hrej) as Hfst.
  destruct (createSandbox d sandboxId name config s) as [r s'] eqn:E.
  simpl in Hfst. subst r.
  destruct (createSandbox_Err _ _ _ _ _ E) as (m' & sb & _ & Hget & Hst & Hid).
  exists s', sb. repeat split; auto.
  - unfold listSandboxes, JsMap.values.
    apply get_Some_In in Hget. now apply (in_map snd) in Hget.
  - rewrite Hst. discriminate.
Qed.

Lemma create_failure_is_recorded_witness :
  driverRejects (refusing "No such image: none") "sb_1" noConfig
    "No such image: none"
  /\ exists s' sb,
       createSandbox (refusing "No such image: none") "sb_1" "demo" noConfig
         initial
       = (Err (Failed "create sandbox" "No such image: none"), s')
       /\ getSandbox "sb_1" s' = Some sb
       /\ In sb (listSandboxes s')
       /\ id sb = "sb_1"
       /\ status sb = ERROR
       /\ status sb <> CREATING.
Proof.
  assert (H : driverRejects (refusing "No such image: none") "sb_1" noConfig
                "No such image: none").
  { exists (Finite 536870912). split; [reflexivity | left; reflexivity]. }
  split; [exact H|].
  exact (create_failure_is_recorded "demo" initial H).
Defined.

(** ** Pause, resume and the operations on a paused sandbox *)

Lemma pauseSandbox_Ok d sandboxId s sandbox s' :
  getSandbox sandboxId s = Some sandbox ->
  pauseSandbox d sandboxId s = (Ok tt, s') ->
  status sandbox = RUNNING
  /\ getSandbox sandboxId s' = Some (withStatus PAUSED sandbox).
Proof.
  unfold getSandbox, pauseSandbox. intros ->.
  destruct (negb (status_eqb (status sandbox) RUNNING)) eqn:E; [discriminate|].
  apply status_neqb in E.
  destruct (pause d _) as [[]|m]; [|discriminate].
  intros [= <-]. split; auto. simpl. apply get_set_same.
Qed.

Lemma resumeSandbox_Ok d sandboxId s sandbox s' :
  getSandbox sandboxId s = Some sandbox ->
  resumeSandbox d sandboxId s = (Ok tt, s') ->
  status sandbox = PAUSED
  /\ getSandbox sandboxId s' = Some (withStatus RUNNING sandbox).
Proof.
  unfold getSandbox, resumeSandbox. intros ->.
  destruct (negb (status_eqb (status sandbox) PAUSED)) eqn:E; [discriminate|].
  apply status_neqb in E.
  destruct (unpause d _) as [[]|m]; [|discriminate].
  intros [= <-]. split; auto. simpl. apply get_set_same.
Qed.

Lemma executeInSandbox_not_running d sandboxId command s sandbox :
  getSandbox sandboxId s = Some sandbox ->
  status sandbox <> RUNNING ->
  executeInSandbox d sandboxId command s
  = (Err (NotRunning sandboxId (status sandbox)), s).
Proof.
  unfold getSandbox, executeInSandbox. intros -> Hst.
  destruct (status_eqb (status sandbox) RUNNING) eqn:E; auto.
  apply status_eqb_eq in E. contradiction.
Qed.

Lemma truthy_Some c : c <> "" -> truthy (Some c) = Some c.
Proof. destruct c; [congruence | reflexivity]. Qed.

Lemma getSandboxStats_forwarded d sandboxId s sandbox container :
  getSandbox sandboxId s = Some sandbox ->
  containerId sandbox = Some container -> container <> "" ->
  calls (snd (getSandboxStats d sandboxId s)) = calls s ++ [CallStats container]
  /\ forall raw, stats d container = Ok raw ->
               isOk (fst (getSandboxStats d sandboxId s)) = true.
Proof.
  unfold getSandbox, getSandboxStats. intros -> -> Hc.
  rewrite truthy_Some by assumption.
  destruct (stats d container) as [raw|m]; split; auto; discriminate.
Qed.

Lemma getSandboxStats_no_handle d sandboxId s sandbox :
  getSandbox sandboxId s = Some sandbox ->
  truthy (containerId sandbox) = None ->
  getSandboxStats d sandboxId s = (Err (NotFoundOrNotRunning sandboxId), s).
Proof.
  unfold getSandbox, getSandboxStats. now intros -> ->.
Qed.

Lemma getSandboxStats_answered d sandboxId s sandbox container raw :
  getSandbox sandboxId s = Some sandbox ->
  containerId sandbox = Some container -> container <> "" ->
  stats d container = Ok raw ->
  getSandboxStats d sandboxId s
  = (Ok {| cpuUsage := calculateCpuPercent raw;
           memoryUsage := orZero (memory_usage raw);
           networkRx := orZero (eth0_rx_bytes raw);
           networkTx := orZero (eth0_tx_bytes raw) |},
     call (CallStats container) s).
Proof.
  unfold getSandbox, getSandboxStats. intros -> -> Hc Hs.
  rewrite truthy_Some by assumption. now rewrite Hs.
Qed.

Lemma getSandboxStats_refused d sandboxId s sandbox container m :
  getSandbox sandboxId s = Some sandbox ->
  containerId sandbox = Some container -> container <> "" ->
  stats d container = Err m ->
  getSandboxStats d sandboxId s
  = (Err (Failed "get sandbox stats" m), call (CallStats container) s).
Proof.
  unfold getSandbox, getSandboxStats. intros -> -> Hc Hs.
  rewrite truthy_Some by assumption. now rewrite Hs.
Qed.

Lemma calculateCpuPercent_idle raw :
  cpu_total_usage raw <= precpu_total_usage raw
  \/ cpu_system_usage raw <= precpu_system_usage raw ->
  calculateCpuPercent raw = 0%Q.
Proof.
  intros H. unfold calculateCpuPercent.
  destruct (0 <? cpu_system_usage raw - precpu_system_usage raw) eqn:E1;
    [|reflexivity].
  destruct (0 <? cpu_total_usage raw - precpu_total_usage raw) eqn:E2;
    [|reflexivity].
  apply Z.ltb_lt in E1, E2. lia.
Qed.

Lemma inject_Z_pos z : 0 < z -> (0 < inject_Z z)%Q.
Proof. intros H. unfold Qlt. cbn. lia. Qed.

Lemma calculateCpuPercent_busy raw :
  precpu_total_usage raw < cpu_total_usage raw ->
  precpu_system_usage raw < cpu_system_usage raw ->
  (forall n, online_cpus raw = Some n -> 0 <= n) ->
  (0 < calculateCpuPercent raw)%Q.
Proof.
  intros Hc Hs Hn. unfold calculateCpuPercent.
  replace (0 <? cpu_system_usage raw - precpu_system_usage raw) with true
    by (symmetry; apply Z.ltb_lt; lia).
  replace (0 <? cpu_total_usage raw - precpu_total_usage raw) with true
    by (symmetry; apply Z.ltb_lt; lia).
  cbn [andb].
  repeat apply Qmult_lt_0_compat.
  - apply inject_Z_pos. lia.
  - apply Qinv_lt_0_compat, inject_Z_pos. lia.
  - apply inject_Z_pos.
    destruct (online_cpus raw) as [n|] eqn:E; [|lia].
    specialize (Hn n eq_refl). destruct n; lia.
  - apply inject_Z_pos. lia.
Qed.

(** C2 (amended).  For every identifier in the registry: [pauseSandbox]
    succeeds only when the status is [running], and then the status is
    [paused]; [resumeSandbox] succeeds only when the status is [paused],
    and then the status is [running]; while the status is [paused],
    [executeInSandbox] is rejected with an error and the state, driver
    calls included, is as before.  [getSandboxStats] does not look at the
    status: it is rejected without a driver call when the entry has no
    container, and for an entry with a container, paused or not, it asks
    the driver once.  When the driver answers, the result has the
    driver's memory usage and the bytes received and sent on [eth0], each
    0 when the answer has none, and a CPU usage that is 0 unless both the
    container's and the system's CPU counters have grown since the
    previous reading, and is positive when both have (the number of CPUs
    not being negative).  When the driver refuses, the call fails with
    the driver's message. *)
Theorem pause_resume_transitions :
  forall (d : Docker) (sandboxId : string) (s : State) (sandbox : SandboxInfo),
    getSandbox sandboxId s = Some sandbox ->
    (forall s', pauseSandbox d sandboxId s = (Ok tt, s') ->
                status sandbox = RUNNING
                /\ option_map status (getSandbox sandboxId s') = Some PAUSED)
    /\ (forall s', resumeSandbox d sandboxId s = (Ok tt, s') ->
                   status sandbox = PAUSED
                   /\ option_map status (getSandbox sandboxId s')
                      = Some RUNNING)
    /\ (status sandbox = PAUSED ->
        forall command,
          executeInSandbox d sandboxId command s
          = (Err (NotRunning sandboxId PAUSED), s))
    /\ (truthy (containerId sandbox) = None ->
        getSandboxStats d sandboxId s
        = (Err (NotFoundOrNotRunning sandboxId), s))
    /\ (forall container,
          containerId sandbox = Some container -> container <> "" ->
          (calls (snd (getSandboxStats d sandboxId s))
           = calls s ++ [CallStats container]
           /\ forall raw, stats d container = Ok raw ->
                          isOk (fst (getSandboxStats d sandboxId s)) = true)
          /\ (forall raw,
                stats d container = Ok raw ->
                exists r,
                  getSandboxStats d sandboxId s
                  = (Ok r, call (CallStats container) s)
                  /\ memoryUsage r = orZero (memory_usage raw)
                  /\ networkRx r = orZero (eth0_rx_bytes raw)
                  /\ networkTx r = orZero (eth0_tx_bytes raw)
                  /\ (cpu_total_usage raw <= precpu_total_usage raw
                      \/ cpu_system_usage raw <= precpu_system_usage raw ->
                      cpuUsage r = 0%Q)
                  /\ (precpu_total_usage raw < cpu_total_usage raw ->
                      precpu_system_usage raw < cpu_system_usage raw ->
                      (forall n, online_cpus raw = Some n -> 0 <= n) ->
                      (0 < cpuUsage r)%Q))
          /\ (forall m,
                stats d container = Err m ->
                getSandboxStats d sandboxId s
                = (Err (Failed "get sandbox stats" m),
                   call (CallStats container) s))).
Proof.
  intros d sandboxId s sandbox Hget.
  split; [|split; [|split; [|split]]].
  - intros s' H. eapply pauseSandbox_Ok in H; eauto.
    destruct H as [H1 H2]. now rewrite H2.
  - intros s' H. eapply resumeSandbox_Ok in H; eauto.
    destruct H as [H1 H2]. now rewrite H2.
  - intros Hst command.
    erewrite executeInSandbox_not_running; eauto; rewrite Hst;
      [reflexivity | discriminate].
  - intros Hc. eapply getSandboxStats_no_handle; eauto.
  - intros container Hc Hne. split; [|split].
    + eapply getSandboxStats_forwarded; eauto.
    + intros raw Hraw. eexists. split.
      * eapply getSandboxStats_answered; eauto.
      * cbn [memoryUsage networkRx networkTx cpuUsage].
        repeat split.
        -- apply calculateCpuPercent_idle.
        -- apply calculateCpuPercent_busy.
    + intros m Hm. eapply getSandboxStats_refused; eauto.
Qed.

(** A sandbox created and then paused on a healthy driver. *)
Lemma pause_resume_transitions_witness :
  let s := run [Create healthy "sb_1" "demo" noConfig] initial in
  let s' := snd (pauseSandbox healthy "sb_1" s) in
  (exists sandbox, getSandbox "sb_1" s = Some sandbox)
  /\ pauseSandbox healthy "sb_1" s = (Ok tt, s')
  /\ option_map status (getSandbox "sb_1" s') = Some PAUSED.
Proof.
  intros s s'.
  assert (Hget : getSandbox "sb_1" s
                 = Some (withStatus RUNNING
                           (withContainerId "c-sandbox-sb_1"
                              {| id := "sb_1"; name := "demo";
                                 status := CREATING; containerId := None;
                                 createdAt := 0;
                                 config := withDefaults noConfig |})))
    by reflexivity.
  assert (Hrun : pauseSandbox healthy "sb_1" s = (Ok tt, s')) by reflexivity.
  split; [eexists; exact Hget|]. split; [exact Hrun|].
  exact (proj2 (proj1 (pause_resume_transitions healthy "sb_1" s Hget)
                  s' Hrun)).
Defined.

(** On a sandbox that was created and paused, [getSandboxStats] is not
    rejected: it asks the driver for the counters and returns them. *)
Lemma stats_of_a_paused_sandbox :
  let s := run [Create healthy "sb_1" "demo" noConfig;
                On healthy "sb_1" Pause] initial in
  option_map status (getSandbox "sb_1" s) = Some PAUSED
  /\ isOk (fst (getSandboxStats healthy "sb_1" s)) = true
  /\ calls (snd (getSandboxStats healthy "sb_1" s))
     = calls s ++ [CallStats "c-sandbox-sb_1"].
Proof. repeat split. Qed.

(** ** Cleanup *)

Lemma perform_not_found d sandboxId op s :
  getSandbox sandboxId s = None ->
  perform d sandboxId op s = (Some (notFoundError op sandboxId), s).
Proof.
  unfold getSandbox. intros H.
  destruct op; simpl;
    unfold executeInSandbox, pauseSandbox, resumeSandbox, cleanupSandbox,
           getSandboxStats; now rewrite H.
Qed.

Lemma cleanupSandbox_Some d sandboxId s sandbox :
  getSandbox sandboxId s = Some sandbox ->
  cleanupSandbox d sandboxId s
  = (Ok tt,
     emit (SandboxCleaned sandboxId)
       (setSandboxes
          (JsMap.delete sandboxId (sandboxes (teardown sandbox s)))
          (teardown sandbox s))).
Proof. unfold getSandbox, cleanupSandbox. now intros ->. Qed.

Lemma teardown_sandboxes sandbox s :
  sandboxes (teardown sandbox s) = sandboxes s.
Proof.
  unfold teardown. destruct (truthy (containerId sandbox)); auto.
  destruct (autoRemove (config sandbox)) as [[]|]; reflexivity.
Qed.

Lemma cleanupSandbox_sandboxes d sandboxId s :
  sandboxes (snd (cleanupSandbox d sandboxId s))
  = match getSandbox sandboxId s with
    | Some _ => JsMap.delete sandboxId (sandboxes s)
    | None => sandboxes s
    end.
Proof.
  unfold getSandbox, cleanupSandbox.
  destruct (JsMap.get sandboxId (sandboxes s)) as [sandbox|]; auto.
  simpl. now rewrite teardown_sandboxes.
Qed.

Lemma listed_under_other_key s sandboxId :
  wellKeyed s -> getSandbox sandboxId s = None ->
  forall sb, In sb (listSandboxes s) -> id sb <> sandboxId.
Proof.
  unfold wellKeyed, getSandbox, listSandboxes, JsMap.values.
  intros Hwf Hnone sb Hin.
  apply in_map_iff in Hin. destruct Hin as [[k sb'] [Heq Hin]].
  simpl in Heq. subst sb'.
  rewrite (Hwf _ _ Hin). intros ->.
  apply get_None_keys in Hnone. apply Hnone.
  unfold JsMap.keys. now apply (in_map fst) in Hin.
Qed.

Lemma wellKeyed_delete s k :
  wellKeyed s -> wellKeyed (setSandboxes (JsMap.delete k (sandboxes s)) s).
Proof.
  unfold wellKeyed. simpl. intros Hwf k' sb Hin.
  apply In_delete in Hin. destruct Hin as [Hin _]. auto.
Qed.



(** ** What each method does to the registry and to the timers *)

Lemma wellKeyed_set s k sb :
  wellKeyed s -> id sb = k ->
  wellKeyed (setSandboxes (JsMap.set k sb (sandboxes s)) s).
Proof.
  unfold wellKeyed. simpl. intros Hwf Hid k' sb' Hin.
  apply In_set in Hin. destruct Hin as [[= -> ->]|Hin]; auto.
Qed.

Lemma wellKeyed_sandboxes s s' :
  sandboxes s' = sandboxes s -> wellKeyed s -> wellKeyed s'.
Proof. unfold wellKeyed. now intros ->. Qed.

(** The registry after [createSandbox]: the new entry was written, and
    then written again with its final status. *)
Lemma createSandbox_sandboxes d sandboxId name config s :
  exists sb0 sb,
    id sb0 = sandboxId /\ id sb = sandboxId
    /\ sandboxes (snd (createSandbox d sandboxId name config s))
       = JsMap.set sandboxId sb (JsMap.set sandboxId sb0 (sandboxes s)).
Proof.
  unfold createSandbox.
  set (info := {| id := sandboxId; name := name; status := CREATING;
                  containerId := None; createdAt := clock s;
                  config := withDefaults config |}).
  destruct (parseMemoryLimit _) as [memory|m].
  2:{ exists info, (withStatus ERROR info). repeat split. }
  destruct (createContainer d _) as [container|m].
  2:{ exists info, (withStatus ERROR info). repeat split. }
  destruct (start d container) as [[]|m].
  2:{ exists info, (withStatus ERROR info). repeat split. }
  exists info, (withStatus RUNNING (withContainerId container info)).
  repeat split.
  destruct (timeout (withDefaults config)) as [[| |]|]; reflexivity.
Qed.

Lemma createSandbox_timers d sandboxId name config s tm :
  In tm (timers s) ->
  In tm (timers (snd (createSandbox d sandboxId name config s))).
Proof.
  unfold createSandbox.
  destruct (parseMemoryLimit _) as [memory|m]; auto.
  destruct (createContainer d _) as [container|m]; auto.
  destruct (start d container) as [[]|m]; auto.
  destruct (timeout (withDefaults config)) as [[| |]|]; simpl; auto;
    intros H; apply in_or_app; now left.
Qed.

(** A successful [createSandbox] with a timeout that is set leaves its
    timer pending. *)
Lemma createSandbox_Ok_timer d sandboxId name cfg s info s' ms :
  createSandbox d sandboxId name cfg s = (Ok info, s') ->
  timeout (config info) = Some ms -> ms <> 0 ->
  In {| due := clock s + timerDelay ms; target := sandboxId |} (timers s').
Proof.
  unfold createSandbox.
  destruct (parseMemoryLimit _) as [memory|m]; [|discriminate].
  destruct (createContainer d _) as [container|m]; [|discriminate].
  destruct (start d container) as [[]|m]; [|discriminate].
  intros [= <- <-] H Hms.
  change (orElse (timeout cfg) 300000 = Some ms) in H. rewrite H.
  destruct ms as [| |]; [congruence| |];
    simpl; apply in_or_app; right; now left.
Qed.

Lemma perform_timers d sandboxId op s :
  timers (snd (perform d sandboxId op s)) = timers s.
Proof.
  destruct op; simpl;
    unfold executeInSandbox, pauseSandbox, resumeSandbox, cleanupSandbox,
           getSandboxStats, teardown;
    destruct (JsMap.get sandboxId (sandboxes s)) as [sandbox|]; auto.
  - destruct (negb _); auto. destruct (exec d _ _); auto.
    destruct (execStart d _ _) as [st|]; auto.
    destruct (demultiplex _), (ending st); auto.
    destruct (execInspect d _ _); auto.
  - destruct (negb _); auto. destruct (pause d _); auto.
  - destruct (negb _); auto. destruct (unpause d _); auto.
  - destruct (truthy _); auto.
    destruct (autoRemove _) as [[]|]; auto.
  - destruct (truthy _); auto. destruct (stats d _); auto.
Qed.

(** An operation writes the registry only under the identifier it
    addresses, and only when that identifier is registered. *)
Lemma perform_other d i op s sandboxId :
  i <> sandboxId \/ getSandbox sandboxId s = None ->
  getSandbox sandboxId (snd (perform d i op s)) = getSandbox sandboxId s.
Proof.
  intros H. unfold getSandbox in *.
  destruct (string_dec i sandboxId) as [->|Hne].
  - destruct H as [H|H]; [congruence|].
    now rewrite perform_not_found.
  - clear H.
    destruct op; simpl;
      unfold executeInSandbox, pauseSandbox, resumeSandbox, cleanupSandbox,
             getSandboxStats;
      destruct (JsMap.get i (sandboxes s)) as [sandbox|]; auto.
    + destruct (negb _); auto. destruct (exec d _ _); auto.
      destruct (execStart d _ _) as [st|]; auto.
      destruct (demultiplex _), (ending st); auto.
      destruct (execInspect d _ _); auto.
    + destruct (negb _); auto. destruct (pause d _); auto.
      simpl. apply get_set_other. congruence.
    + destruct (negb _); auto. destruct (unpause d _); auto.
      simpl. apply get_set_other. congruence.
    + simpl. rewrite teardown_sandboxes. apply get_delete_other. congruence.
    + destruct (truthy _); auto. destruct (stats d _); auto.
Qed.

Lemma perform_wellKeyed d i op s :
  wellKeyed s -> wellKeyed (snd (perform d i op s)).
Proof.
  intros Hwf.
  destruct op; simpl;
    unfold executeInSandbox, pauseSandbox, resumeSandbox, cleanupSandbox,
           getSandboxStats;
    destruct (JsMap.get i (sandboxes s)) as [sandbox|] eqn:G; auto.
  - destruct (negb _); auto. destruct (exec d _ _); auto.
    destruct (execStart d _ _) as [st|]; auto.
    destruct (demultiplex _), (ending st); auto.
    destruct (execInspect d _ _); auto.
  - destruct (negb _); auto. destruct (pause d _); auto.
    simpl. apply (wellKeyed_sandboxes
                    (s := setSandboxes
                            (JsMap.set i (withStatus PAUSED sandbox)
                               (sandboxes s)) s)); auto.
    apply wellKeyed_set; auto. apply get_Some_In in G. now apply Hwf in G.
  - destruct (negb _); auto. destruct (unpause d _); auto.
    simpl. apply (wellKeyed_sandboxes
                    (s := setSandboxes
                            (JsMap.set i (withStatus RUNNING sandbox)
                               (sandboxes s)) s)); auto.
    apply wellKeyed_set; auto. apply get_Some_In in G. now apply Hwf in G.
  - simpl. apply (wellKeyed_sandboxes
                    (s := setSandboxes (JsMap.delete i (sandboxes s)) s)).
    + simpl. now rewrite teardown_sandboxes.
    + now apply wellKeyed_delete.
  - destruct (truthy _); auto. destruct (stats d _); auto.
Qed.

Lemma cleanupAll_timers d ids s : timers (cleanupAll d ids s) = timers s.
Proof.
  revert s. induction ids as [|i ids IH]; intros s; simpl; auto.
  unfold cleanupAll in *. simpl. rewrite IH.
  apply (perform_timers d i Cleanup).
Qed.

Lemma cleanupAll_clock d ids s : clock (cleanupAll d ids s) = clock s.
Proof.
  revert s. induction ids as [|i ids IH]; intros s; simpl; auto.
  unfold cleanupAll in *. simpl. rewrite IH.
  unfold cleanupSandbox, teardown.
  destruct (JsMap.get i (sandboxes s)) as [sandbox|]; auto.
  destruct (truthy _); auto. destruct (autoRemove _) as [[]|]; auto.
Qed.

Lemma cleanupAll_absent d ids s sandboxId :
  getSandbox sandboxId s = None ->
  getSandbox sandboxId (cleanupAll d ids s) = None.
Proof.
  revert s. induction ids as [|i ids IH]; intros s H; simpl; auto.
  unfold cleanupAll in *. simpl. apply IH.
  rewrite <- H. apply (perform_other d Cleanup). now right.
Qed.

Lemma cleanupAll_wellKeyed d ids s :
  wellKeyed s -> wellKeyed (cleanupAll d ids s).
Proof.
  revert s. induction ids as [|i ids IH]; intros s H; simpl; auto.
  unfold cleanupAll in *. simpl. apply IH.
  apply (perform_wellKeyed d i Cleanup H).
Qed.

(** ** Timers *)

Lemma In_insertTimer x y l : In y (insertTimer x l) <-> y = x \/ In y l.
Proof.
  induction l as [|z l IH]; simpl.
  - intuition.
  - destruct (due x <? due z); simpl; [intuition|].
    rewrite IH. intuition.
Qed.

Lemma In_byDue y l : In y (byDue l) <-> In y l.
Proof.
  unfold byDue.
  assert (H : forall acc,
             In y (fold_left (fun acc x => insertTimer x acc) l acc)
             <-> In y acc \/ In y l).
  { induction l as [|x l IH]; intros acc; simpl; [tauto|].
    rewrite IH, In_insertTimer. intuition. }
  rewrite H. simpl. tauto.
Qed.

(** ** Runs of the manager *)

Lemma cleanupStaleSandboxes_as_cleanupAll d s :
  exists ids,
    sandboxes (cleanupStaleSandboxes d s) = sandboxes (cleanupAll d ids s)
    /\ timers (cleanupStaleSandboxes d s) = timers (cleanupAll d ids s).
Proof.
  unfold cleanupStaleSandboxes.
  set (ids := JsMap.keys _). exists ids.
  destruct ids; split; reflexivity.
Qed.

Lemma step_wellKeyed x s : wellKeyed s -> wellKeyed (step s x).
Proof.
  intros H. destruct x as [d i name cfg | d i op | d | d | d t]; simpl.
  - destruct (createSandbox_sandboxes d i name cfg s)
      as (sb0 & sb & H0 & H1 & Hs).
    apply (wellKeyed_sandboxes
             (s := setSandboxes
                     (JsMap.set i sb
                        (sandboxes
                           (setSandboxes (JsMap.set i sb0 (sandboxes s)) s)))
                     (setSandboxes (JsMap.set i sb0 (sandboxes s)) s)));
      auto.
    apply wellKeyed_set; auto. now apply wellKeyed_set.
  - now apply perform_wellKeyed.
  - destruct (cleanupStaleSandboxes_as_cleanupAll d s) as (ids & Hs & _).
    apply (wellKeyed_sandboxes (s := cleanupAll d ids s)); auto.
    now apply cleanupAll_wellKeyed.
  - unfold shutdown.
    apply (wellKeyed_sandboxes
             (s := cleanupAll d (JsMap.keys (sandboxes s)) s)); auto.
    now apply cleanupAll_wellKeyed.
  - unfold advance.
    apply (wellKeyed_sandboxes
             (s := cleanupAll d
                     (map target (byDue (filter (fun x => due x <=? t)
                                           (timers s))))
                     (setTimers (filter (fun x => negb (due x <=? t))
                                   (timers s)) s))); auto.
    now apply cleanupAll_wellKeyed.
Qed.

Lemma run_wellKeyed xs s : wellKeyed s -> wellKeyed (run xs s).
Proof.
  revert s. induction xs as [|x xs IH]; intros s H; auto.
  unfold run in *. simpl. apply IH. now apply step_wellKeyed.
Qed.

Lemma reachable_wellKeyed s : reachable s -> wellKeyed s.
Proof.
  intros [xs ->]. apply run_wellKeyed. intros k sb [].
Qed.

Lemma timerDelay_le ms : timerDelay ms <= Z.max 1 ms.
Proof.
  unfold timerDelay.
  destruct ((1 <=? ms) && (ms <=? 2147483647)) eqn:E; lia.
Qed.

End Lifecycle.

(* ===================================================================== *)
(** * The timeout of a sandbox, in time *)
(* ===================================================================== *)

Module Timeouts.

Import Js SandboxManager Statements JsMapFacts Lifecycle Async AsyncStatements.

(** ** What comes earliest *)

Lemma earliest_None {A} (time : A -> Z) l : earliest time l = None -> l = [].
Proof.
  destruct l as [|x l]; [reflexivity|]. cbn [earliest].
  destruct (earliest time l) as [[y others]|]; [|discriminate].
  destruct (time y <? time x); discriminate.
Qed.

Lemma earliest_Some {A} (time : A -> Z) l x others :
  earliest time l = Some (x, others) ->
  Permutation.Permutation l (x :: others)
  /\ forall y, In y l -> time x <= time y.
Proof.
  revert x others. induction l as [|a l IH]; intros x others;
    cbn [earliest]; [discriminate|].
  destruct (earliest time l) as [[y rest]|] eqn:E.
  - destruct (IH y rest eq_refl) as [Hp Hmin].
    destruct (time y <? time a) eqn:C; intros [= <- <-].
    + apply Z.ltb_lt in C. split.
      * eapply Permutation.perm_trans;
          [apply Permutation.perm_skip, Hp | apply Permutation.perm_swap].
      * intros z [<-|Hz]; [lia | now apply Hmin].
    + apply Z.ltb_ge in C. split; [apply Permutation.Permutation_refl|].
      intros z [<-|Hz]; [lia|]. specialize (Hmin z Hz). lia.
  - apply earliest_None in E. subst l. intros [= <- <-]. split.
    + apply Permutation.Permutation_refl.
    + intros z [<-|[]]. lia.
Qed.

Lemma earliest_In {A} (time : A -> Z) l x others :
  earliest time l = Some (x, others) ->
  In x l /\ (forall y, In y others -> In y l)
  /\ (forall y, In y l -> y = x \/ In y others).
Proof.
  intros H. apply earliest_Some in H. destruct H as [Hp _].
  split; [|split].
  - eapply Permutation.Permutation_in;
      [apply Permutation.Permutation_sym, Hp | now left].
  - intros y Hy. eapply Permutation.Permutation_in;
      [apply Permutation.Permutation_sym, Hp | now right].
  - intros y Hy. apply (Permutation.Permutation_in _ Hp) in Hy.
    destruct Hy as [<-|Hy]; auto.
Qed.

Lemma list_sum_permutation l l' :
  Permutation.Permutation l l' -> list_sum l = list_sum l'.
Proof.
  induction 1; cbn [list_sum fold_right] in *; unfold list_sum in *;
    cbn [fold_right] in *; lia.
Qed.

Lemma earliest_weight l k others :
  earliest ready l = Some (k, others) ->
  list_sum (map weight l) = (weight k + list_sum (map weight others))%nat.
Proof.
  intros H. apply earliest_Some in H. destruct H as [Hp _].
  rewrite (@list_sum_permutation _ _ (Permutation.Permutation_map weight Hp)).
  reflexivity.
Qed.

Lemma earliest_length {A} (time : A -> Z) l x others :
  earliest time l = Some (x, others) ->
  List.length l = S (List.length others).
Proof.
  intros H. apply earliest_Some in H. destruct H as [Hp _].
  now rewrite (Permutation.Permutation_length Hp).
Qed.

(** ** The methods up to their [await] *)

Lemma cleanupSandbox_cases lat i join w :
  (getSandbox i (state w) = None
   /\ snd (Async.cleanupSandbox lat i join w) = w)
  \/ (exists sb,
         getSandbox i (state w) = Some sb
         /\ snd (Async.cleanupSandbox lat i join w) = onState (cleaned i) w)
  \/ (exists sb c,
         getSandbox i (state w) = Some sb
         /\ snd (Async.cleanupSandbox lat i join w)
            = await {| ready := clock (state w)
                                + Z.of_N (stopTakes lat c (clock (state w)));
                       awaited := AwaitStop i c sb join |}
                (onState (call (CallStop c 10)) w)).
Proof.
  unfold Async.cleanupSandbox, getSandbox.
  destruct (JsMap.get i (sandboxes (state w))) as [sb|]; [|now left].
  right. destruct (truthy (containerId sb)) as [c|].
  - right. now exists sb, c.
  - left. now exists sb.
Qed.

Lemma pauseSandbox_cases lat d i w :
  snd (Async.pauseSandbox lat d i w) = w
  \/ exists sb c,
       getSandbox i (state w) = Some sb
       /\ snd (Async.pauseSandbox lat d i w)
          = await {| ready := clock (state w)
                              + Z.of_N (pauseTakes lat c (clock (state w)));
                     awaited := AwaitPause i sb (pause d c) |}
              (onState (call (CallPause c)) w).
Proof.
  unfold Async.pauseSandbox, getSandbox.
  destruct (JsMap.get i (sandboxes (state w))) as [sb|]; [|now left].
  destruct (negb (status_eqb (status sb) RUNNING)); [now left|].
  right. now exists sb, (bang (containerId sb)).
Qed.

Lemma resumeSandbox_cases lat d i w :
  snd (Async.resumeSandbox lat d i w) = w
  \/ exists sb c,
       getSandbox i (state w) = Some sb
       /\ snd (Async.resumeSandbox lat d i w)
          = await {| ready := clock (state w)
                              + Z.of_N (unpauseTakes lat c (clock (state w)));
                     awaited := AwaitUnpause i sb (unpause d c) |}
              (onState (call (CallUnpause c)) w).
Proof.
  unfold Async.resumeSandbox, getSandbox.
  destruct (JsMap.get i (sandboxes (state w))) as [sb|]; [|now left].
  destruct (negb (status_eqb (status sb) PAUSED)); [now left|].
  right. now exists sb, (bang (containerId sb)).
Qed.

(** [settle] and [awaitAll] leave the registry, the timers, the clock and
    the calls in flight as they are. *)
Lemma settle_shape join w :
  sandboxes (state (settle join w)) = sandboxes (state w)
  /\ timers (state (settle join w)) = timers (state w)
  /\ clock (state (settle join w)) = clock (state w)
  /\ pending (settle join w) = pending w.
Proof.
  unfold settle. destruct join as [key|]; [|tauto].
  destruct (nth_error (joins w) key) as [j|]; [|tauto].
  destruct (remaining j) as [|[|n]]; cbn; tauto.
Qed.

Lemma awaitAll_shape n e w :
  sandboxes (state (awaitAll n e w)) = sandboxes (state w)
  /\ timers (state (awaitAll n e w)) = timers (state w)
  /\ clock (state (awaitAll n e w)) = clock (state w)
  /\ pending (awaitAll n e w) = pending w.
Proof. destruct n; cbn; tauto. Qed.

(** ** Enough steps for what is due *)

Lemma cleanupSandbox_budget lat i join w :
  (budget (snd (Async.cleanupSandbox lat i join w)) <= budget w + 2)%nat.
Proof.
  destruct (cleanupSandbox_cases lat i join w)
    as [[_ ->] | [(sb & _ & ->) | (sb & c & _ & ->)]];
    unfold budget; cbn [state pending onState await timers cleaned emit
                        setSandboxes call]; try lia.
  rewrite map_app, list_sum_app. cbn. lia.
Qed.

Lemma resume_budget lat k others w :
  (budget (resume lat (awaited k)
             {| state := state w; pending := others; joins := joins w |})
   + 1
   <= 3 * List.length (timers (state w))
      + (weight k + list_sum (map weight others)))%nat.
Proof.
  assert (Hdone : forall i join,
             budget (settle join
                       (onState (cleaned i)
                          {| state := state w; pending := others;
                             joins := joins w |}))
             = (3 * List.length (timers (state w))
                + list_sum (map weight others))%nat).
  { intros i join. unfold budget.
    destruct (settle_shape join
                (onState (cleaned i)
                   {| state := state w; pending := others;
                      joins := joins w |})) as (_ & -> & _ & ->).
    reflexivity. }
  assert (Hmore : forall c k',
             weight k' = 1%nat ->
             budget (await k'
                       (onState (call c)
                          {| state := state w; pending := others;
                             joins := joins w |}))
             = (3 * List.length (timers (state w))
                + (list_sum (map weight others) + 1))%nat).
  { intros c k' Hk. unfold budget.
    cbn [state pending onState await timers call].
    rewrite map_app, list_sum_app. cbn [map list_sum fold_right].
    rewrite Hk. lia. }
  unfold weight at 1. unfold resume.
  destruct (awaited k) as [i c sb join | i join | i sb [[]|m] | i sb [[]|m]].
  - destruct (autoRemove (config sb)) as [[|]|].
    + rewrite Hdone. lia.
    + cbv zeta. rewrite Hmore by reflexivity. lia.
    + cbv zeta. rewrite Hmore by reflexivity. lia.
  - rewrite Hdone. lia.
  - unfold budget. cbn [state pending onState timers refile emit
                        setSandboxes]. lia.
  - unfold budget. cbn [state pending]. lia.
  - unfold budget. cbn [state pending onState timers refile emit
                        setSandboxes]. lia.
  - unfold budget. cbn [state pending]. lia.
Qed.

Lemma happen_budget lat e w :
  next w = Some e -> (budget (happen lat e w) < budget w)%nat.
Proof.
  unfold next.
  destruct (earliest due (timers (state w))) as [[tm tms]|] eqn:Et;
    destruct (earliest ready (pending w)) as [[k ks]|] eqn:Ek.
  - destruct (due tm <=? ready k); intros [= <-]; cbn [happen].
    + pose proof (earliest_length _ _ Et) as Hl.
      eapply Nat.le_lt_trans; [apply cleanupSandbox_budget|].
      unfold budget. cbn [state pending timers setClock setTimers].
      rewrite Hl. lia.
    + pose proof (earliest_weight _ Ek) as Hw.
      pose proof (resume_budget lat k ks
                    {| state := setClock (Z.max (clock (state w)) (ready k))
                                  (state w);
                       pending := pending w; joins := joins w |}) as Hb.
      cbn [state pending joins] in Hb. unfold budget at 2.
      rewrite Hw. cbn [timers setClock] in Hb. lia.
  - intros [= <-]. cbn [happen].
    pose proof (earliest_length _ _ Et) as Hl.
    eapply Nat.le_lt_trans; [apply cleanupSandbox_budget|].
    unfold budget. cbn [state pending timers setClock setTimers].
    rewrite Hl. lia.
  - intros [= <-]. cbn [happen].
    pose proof (earliest_weight _ Ek) as Hw.
    pose proof (resume_budget lat k ks
                  {| state := setClock (Z.max (clock (state w)) (ready k))
                                (state w);
                     pending := pending w; joins := joins w |}) as Hb.
    cbn [state pending joins] in Hb. unfold budget at 2.
    rewrite Hw. cbn [timers setClock] in Hb. lia.
  - discriminate.
Qed.

Lemma next_None w : next w = None -> forall t, quietBy t w.
Proof.
  unfold next.
  destruct (earliest due (timers (state w))) as [[tm tms]|] eqn:Et;
    destruct (earliest ready (pending w)) as [[k ks]|] eqn:Ek;
    try discriminate.
  - destruct (due tm <=? ready k); discriminate.
  - intros _ t. apply earliest_None in Et, Ek. unfold quietBy.
    rewrite Et, Ek. split; intros x [].
Qed.

Lemma next_later w e t : next w = Some e -> t < timeOf e -> quietBy t w.
Proof.
  unfold next, quietBy.
  destruct (earliest due (timers (state w))) as [[tm tms]|] eqn:Et;
    destruct (earliest ready (pending w)) as [[k ks]|] eqn:Ek.
  - apply earliest_Some in Et, Ek.
    destruct Et as [_ Ht]. destruct Ek as [_ Hk].
    destruct (due tm <=? ready k) eqn:C; intros [= <-]; cbn [timeOf];
      intros Hlt; split.
    + intros x Hx. specialize (Ht x Hx). lia.
    + intros x Hx. specialize (Hk x Hx). apply Z.leb_le in C. lia.
    + intros x Hx. specialize (Ht x Hx). apply Z.leb_gt in C. lia.
    + intros x Hx. specialize (Hk x Hx). lia.
  - apply earliest_Some in Et. destruct Et as [_ Ht].
    apply earliest_None in Ek.
    intros [= <-]; cbn [timeOf]; intros Hlt; split.
    + intros x Hx. specialize (Ht x Hx). lia.
    + rewrite Ek. intros x [].
  - apply earliest_Some in Ek. destruct Ek as [_ Hk].
    apply earliest_None in Et.
    intros [= <-]; cbn [timeOf]; intros Hlt; split.
    + rewrite Et. intros x [].
    + intros x Hx. specialize (Hk x Hx). lia.
  - discriminate.
Qed.

Lemma passing_quiet lat t fuel :
  forall w, (budget w <= fuel)%nat -> quietBy t (passing lat fuel t w).
Proof.
  induction fuel as [|fuel IH]; intros w Hb; cbn [passing].
  - unfold budget in Hb. unfold quietBy.
    destruct (timers (state w)) as [|tm tms]; [|cbn in Hb; lia].
    destruct (pending w) as [|k ks].
    + split; intros x [].
    + cbn in Hb. unfold weight in Hb. destruct (awaited k); lia.
  - destruct (next w) as [e|] eqn:E; [|now apply next_None].
    destruct (timeOf e <=? t) eqn:C.
    + apply IH. pose proof (happen_budget lat w E). lia.
    + apply Z.leb_gt in C. eapply next_later; eauto.
Qed.

Lemma passTo_quiet lat t w : quietBy t (passTo lat t w).
Proof.
  unfold passTo.
  pose proof (@passing_quiet lat t (budget w) w (Nat.le_refl _)) as H.
  exact H.
Qed.

(** ** What happens next *)

Lemma next_timer w tm others :
  next w = Some (TimerDue tm others) ->
  In tm (timers (state w))
  /\ (forall x, In x others -> In x (timers (state w)))
  /\ (forall x, In x (timers (state w)) -> x = tm \/ In x others)
  /\ (forall x, In x (timers (state w)) -> due tm <= due x)
  /\ (forall k, In k (pending w) -> due tm <= ready k).
Proof.
  unfold next.
  destruct (earliest due (timers (state w))) as [[tm' tms]|] eqn:Et;
    destruct (earliest ready (pending w)) as [[k' ks]|] eqn:Ek;
    try discriminate.
  - destruct (due tm' <=? ready k') eqn:C; [|discriminate].
    intros [= <- <-]. apply Z.leb_le in C.
    destruct (earliest_In _ _ Et) as (H1 & H2 & H3).
    destruct (earliest_Some _ _ Et) as [_ H4].
    destruct (earliest_Some _ _ Ek) as [_ H5].
    repeat split; auto. intros k Hk. specialize (H5 k Hk). lia.
  - intros [= <- <-].
    destruct (earliest_In _ _ Et) as (H1 & H2 & H3).
    destruct (earliest_Some _ _ Et) as [_ H4].
    apply earliest_None in Ek. rewrite Ek.
    repeat split; auto. intros k [].
Qed.

Lemma next_answer w k others :
  next w = Some (AnswerDue k others) ->
  In k (pending w)
  /\ (forall x, In x others -> In x (pending w))
  /\ (forall x, In x (pending w) -> x = k \/ In x others)
  /\ (forall x, In x (pending w) -> ready k <= ready x)
  /\ (forall tm, In tm (timers (state w)) -> ready k <= due tm).
Proof.
  unfold next.
  destruct (earliest due (timers (state w))) as [[tm' tms]|] eqn:Et;
    destruct (earliest ready (pending w)) as [[k' ks]|] eqn:Ek;
    try discriminate.
  - destruct (due tm' <=? ready k') eqn:C; [discriminate|].
    intros [= <- <-]. apply Z.leb_gt in C.
    destruct (earliest_In _ _ Ek) as (H1 & H2 & H3).
    destruct (earliest_Some _ _ Ek) as [_ H4].
    destruct (earliest_Some _ _ Et) as [_ H5].
    repeat split; auto. intros tm Htm. specialize (H5 tm Htm). lia.
  - intros [= <- <-].
    destruct (earliest_In _ _ Ek) as (H1 & H2 & H3).
    destruct (earliest_Some _ _ Ek) as [_ H4].
    apply earliest_None in Et. rewrite Et.
    repeat split; auto. intros tm [].
Qed.

(** ** A sandbox that nothing is about *)

Lemma cleaned_other i sandboxId s :
  i <> sandboxId \/ getSandbox sandboxId s = None ->
  getSandbox sandboxId (cleaned i s) = getSandbox sandboxId s.
Proof.
  unfold getSandbox, cleaned. cbn [sandboxes emit setSandboxes].
  intros [H|H].
  - apply get_delete_other. congruence.
  - destruct (String.eqb i sandboxId) eqn:E.
    + apply String.eqb_eq in E. subst i. now rewrite get_delete_same.
    + apply String.eqb_neq in E. apply get_delete_other. congruence.
Qed.

Lemma cleaned_absent i sandboxId s :
  getSandbox sandboxId s = None -> getSandbox sandboxId (cleaned i s) = None.
Proof. intros H. rewrite cleaned_other; auto. Qed.

Lemma cleaned_own sandboxId s :
  getSandbox sandboxId (cleaned sandboxId s) = None.
Proof.
  unfold getSandbox, cleaned. cbn [sandboxes emit setSandboxes].
  apply get_delete_same.
Qed.

Lemma cleanupSandbox_untouched lat i join w sandboxId :
  i <> sandboxId \/ getSandbox sandboxId (state w) = None ->
  untouched sandboxId w ->
  untouched sandboxId (snd (Async.cleanupSandbox lat i join w))
  /\ getSandbox sandboxId (state (snd (Async.cleanupSandbox lat i join w)))
     = getSandbox sandboxId (state w).
Proof.
  intros Hi [Ht Hk].
  destruct (cleanupSandbox_cases lat i join w)
    as [[_ ->] | [(sb & Hsb & ->) | (sb & c & Hsb & ->)]].
  - split; [split|]; auto.
  - split; [split; auto|]. cbn [state onState]. now apply cleaned_other.
  - split; [split; auto|reflexivity].
    cbn [pending await onState]. intros k Hin.
    apply in_app_or in Hin. destruct Hin as [Hin|[<-|[]]]; auto.
    cbn [awaited addressee]. destruct Hi as [Hi|Hi]; [exact Hi|].
    intros ->. congruence.
Qed.

Lemma refile_other i sb announce sandboxId s :
  i <> sandboxId ->
  getSandbox sandboxId (refile i sb announce s) = getSandbox sandboxId s.
Proof.
  intros H. unfold getSandbox, refile. cbn [sandboxes emit setSandboxes].
  apply get_set_other. congruence.
Qed.

Lemma resume_untouched lat a w sandboxId :
  addressee a <> sandboxId ->
  untouched sandboxId w ->
  untouched sandboxId (resume lat a w)
  /\ getSandbox sandboxId (state (resume lat a w))
     = getSandbox sandboxId (state w).
Proof.
  intros Ha [Ht Hk].
  assert (Hdone : forall i join,
             i <> sandboxId ->
             untouched sandboxId (settle join (onState (cleaned i) w))
             /\ getSandbox sandboxId
                  (state (settle join (onState (cleaned i) w)))
                = getSandbox sandboxId (state w)).
  { intros i join Hi.
    destruct (settle_shape join (onState (cleaned i) w))
      as (Hs & Htm & _ & Hp).
    split; [split|].
    - rewrite Htm. exact Ht.
    - rewrite Hp. exact Hk.
    - unfold getSandbox. rewrite Hs.
      change (getSandbox sandboxId (cleaned i (state w))
              = getSandbox sandboxId (state w)).
      apply cleaned_other. now left. }
  destruct a as [i c sb join | i join | i sb [[]|m] | i sb [[]|m]];
    cbn [addressee] in Ha; cbn [resume].
  - destruct (autoRemove (config sb)) as [[|]|]; [now apply Hdone| |].
    + split; [split; auto|reflexivity].
      cbn [pending await onState]. intros k Hin.
      apply in_app_or in Hin. destruct Hin as [Hin|[<-|[]]]; auto.
    + split; [split; auto|reflexivity].
      cbn [pending await onState]. intros k Hin.
      apply in_app_or in Hin. destruct Hin as [Hin|[<-|[]]]; auto.
  - now apply Hdone.
  - split; [split; auto|]. cbn [state onState]. now apply refile_other.
  - split; [split; auto|reflexivity].
  - split; [split; auto|]. cbn [state onState]. now apply refile_other.
  - split; [split; auto|reflexivity].
Qed.

Lemma happen_untouched lat e w sandboxId :
  next w = Some e ->
  untouched sandboxId w ->
  untouched sandboxId (happen lat e w)
  /\ getSandbox sandboxId (state (happen lat e w))
     = getSandbox sandboxId (state w).
Proof.
  intros Hnext [Ht Hk]. destruct e as [tm others | k others].
  - destruct (next_timer _ Hnext) as (Hin & Hsub & _).
    cbn [happen].
    match goal with
    | |- untouched _ (snd (Async.cleanupSandbox _ _ _ ?w1)) /\ _ =>
        assert (H1 : untouched sandboxId w1)
          by (split; cbn [state pending timers setClock setTimers]; auto);
        destruct (@cleanupSandbox_untouched lat (target tm) None w1
                    sandboxId (or_introl (Ht tm Hin)) H1) as [H2 H3]
    end.
    split; [exact H2|]. rewrite H3. reflexivity.
  - destruct (next_answer _ Hnext) as (Hin & Hsub & _).
    cbn [happen].
    match goal with
    | |- untouched _ (resume _ _ ?w1) /\ _ =>
        assert (H1 : untouched sandboxId w1)
          by (split; cbn [state pending timers setClock]; auto);
        destruct (@resume_untouched lat (awaited k) w1 sandboxId
                    (Hk k Hin) H1) as [H2 H3]
    end.
    split; [exact H2|]. rewrite H3. reflexivity.
Qed.

Lemma passing_untouched lat t fuel sandboxId :
  forall w,
    untouched sandboxId w ->
    untouched sandboxId (passing lat fuel t w)
    /\ getSandbox sandboxId (state (passing lat fuel t w))
       = getSandbox sandboxId (state w).
Proof.
  induction fuel as [|fuel IH]; intros w H; cbn [passing]; [now split|].
  destruct (next w) as [e|] eqn:E; [|now split].
  destruct (timeOf e <=? t); [|now split].
  destruct (@happen_untouched lat e w sandboxId E H) as [H1 H2].
  destruct (IH _ H1) as [H3 H4]. split; [exact H3|]. now rewrite H4.
Qed.

Lemma passTo_untouched lat t w sandboxId :
  untouched sandboxId w ->
  untouched sandboxId (passTo lat t w)
  /\ getSandbox sandboxId (state (passTo lat t w))
     = getSandbox sandboxId (state w).
Proof.
  intros H. unfold passTo.
  destruct (@passing_untouched lat t (budget w) sandboxId w H)
    as [[H1 H2] H3].
  split; [split|]; auto.
Qed.

Lemma cleanupEach_preserves (P : World -> Prop) lat ids join :
  (forall i w, P w -> P (snd (Async.cleanupSandbox lat i (Some join) w))) ->
  forall w, P w -> P (snd (cleanupEach lat ids join w)).
Proof.
  intros Hstep w Hw. unfold cleanupEach.
  change w with (snd (O, w)) in Hw. revert Hw. generalize (O, w).
  induction ids as [|i ids IH]; intros acc Hacc; cbn [fold_left]; auto.
  apply IH. specialize (Hstep i (snd acc) Hacc).
  destruct (Async.cleanupSandbox lat i (Some join) (snd acc))
    as [[e| |] w']; exact Hstep.
Qed.

Lemma cleanupSandbox_unknown lat i join w sandboxId :
  unknown sandboxId w ->
  unknown sandboxId (snd (Async.cleanupSandbox lat i join w)).
Proof.
  intros [Hget H].
  destruct (@cleanupSandbox_untouched lat i join w sandboxId
              (or_intror Hget) H) as [H1 H2].
  split; [now rewrite H2 | exact H1].
Qed.

Lemma unknown_shape sandboxId w w' :
  sandboxes (state w') = sandboxes (state w) ->
  timers (state w') = timers (state w) ->
  pending w' = pending w ->
  unknown sandboxId w -> unknown sandboxId w'.
Proof.
  intros Hs Ht Hp [Hget [H1 H2]]. unfold unknown, untouched, getSandbox.
  rewrite Hs, Ht, Hp. auto.
Qed.

Lemma createSandbox_timer_of d i name cfg s tm :
  In tm (timers (snd (createSandbox d i name cfg s))) ->
  In tm (timers s) \/ target tm = i.
Proof.
  unfold createSandbox.
  destruct (parseMemoryLimit _) as [memory|m]; auto.
  destruct (createContainer d _) as [container|m]; auto.
  destruct (start d container) as [[]|m]; auto.
  destruct (timeout (withDefaults cfg)) as [[| |]|]; cbn; auto;
    intros H; apply in_app_or in H; destruct H as [H|[<-|[]]]; auto.
Qed.

Lemma createSandbox_absent d i name cfg s sandboxId :
  i <> sandboxId ->
  getSandbox sandboxId (snd (createSandbox d i name cfg s))
  = getSandbox sandboxId s.
Proof.
  intros H. unfold getSandbox.
  destruct (createSandbox_sandboxes d i name cfg s) as (sb0 & sb & _ & _ & ->).
  now rewrite !get_set_other by congruence.
Qed.

Lemma await_unknown sandboxId k c w :
  addressee (awaited k) <> sandboxId ->
  unknown sandboxId w ->
  unknown sandboxId (await k (onState (call c) w)).
Proof.
  intros Hk [Hget [H1 H2]]. split; [exact Hget|]. split; [exact H1|].
  cbn [pending await onState]. intros k' Hin.
  apply in_app_or in Hin. destruct Hin as [Hin|[<-|[]]]; auto.
Qed.

Lemma step_unknown lat x w sandboxId :
  match x with Create _ i _ _ => i <> sandboxId | _ => True end ->
  unknown sandboxId w -> unknown sandboxId (step lat w x).
Proof.
  intros Hx H.
  destruct x as [d i name cfg | d i [command| | | |] | d | d | d t];
    cbn [step].
  - destruct H as [Hget [H1 H2]]. split; [|split].
    + cbn [state onState]. now rewrite createSandbox_absent.
    + cbn [state onState]. intros tm Htm.
      apply createSandbox_timer_of in Htm. destruct Htm as [Htm|Htm].
      * now apply H1.
      * congruence.
    + exact H2.
  - destruct H as [Hget [H1 H2]]. split; [|split].
    + cbn [state onState].
      rewrite <- Hget.
      apply (@perform_other d i (Execute command) (state w) sandboxId).
      now right.
    + cbn [state onState].
      change (snd (executeInSandbox d i command (state w)))
        with (snd (perform d i (Execute command) (state w))).
      now rewrite perform_timers.
    + exact H2.
  - destruct (pauseSandbox_cases lat d i w) as [->|(sb & c & Hsb & ->)];
      [exact H|].
    apply await_unknown; [|exact H]. cbn [awaited addressee].
    intros ->. destruct H as [Hget _]. congruence.
  - destruct (resumeSandbox_cases lat d i w) as [->|(sb & c & Hsb & ->)];
      [exact H|].
    apply await_unknown; [|exact H]. cbn [awaited addressee].
    intros ->. destruct H as [Hget _]. congruence.
  - now apply cleanupSandbox_unknown.
  - destruct H as [Hget [H1 H2]]. split; [|split].
    + cbn [state onState].
      rewrite <- Hget.
      apply (@perform_other d i Stats (state w) sandboxId). now right.
    + cbn [state onState].
      change (snd (getSandboxStats d i (state w)))
        with (snd (perform d i Stats (state w))).
      now rewrite perform_timers.
    + exact H2.
  - unfold cleanupStaleSandboxes.
    set (ids := JsMap.keys _).
    pose proof (@cleanupEach_preserves (unknown sandboxId) lat ids
                  (List.length (joins w))
                  (fun i w0 => @cleanupSandbox_unknown lat i _ w0 sandboxId)
                  w H) as He.
    destruct (cleanupEach lat ids (List.length (joins w)) w) as [n w'].
    cbn [snd] in He. destruct ids; [exact He|].
    destruct (awaitAll_shape n (CleanupStale (s :: ids)) w')
      as (Hs & Ht & _ & Hp).
    eapply unknown_shape; eauto.
  - unfold shutdown.
    set (ids := JsMap.keys _).
    pose proof (@cleanupEach_preserves (unknown sandboxId) lat ids
                  (List.length (joins w))
                  (fun i w0 => @cleanupSandbox_unknown lat i _ w0 sandboxId)
                  w H) as He.
    destruct (cleanupEach lat ids (List.length (joins w)) w) as [n w'].
    cbn [snd] in He.
    destruct (awaitAll_shape n Shutdown w') as (Hs & Ht & _ & Hp).
    eapply unknown_shape; eauto.
  - destruct H as [Hget H].
    destruct (@passTo_untouched lat t w sandboxId H) as [H1 H2].
    split; [now rewrite H2 | exact H1].
Qed.

Lemma run_unknown lat xs sandboxId :
  neverCreates sandboxId xs ->
  forall w, unknown sandboxId w -> unknown sandboxId (Async.run lat xs w).
Proof.
  intros Hxs. induction Hxs as [|x xs Hx _ IH]; intros w H; auto.
  unfold Async.run in *. cbn [fold_left]. apply IH.
  apply step_unknown; auto.
Qed.

Lemma idle_unknown sandboxId : unknown sandboxId idle.
Proof. split; [reflexivity|]. split; intros x []. Qed.

(** ** The methods taken at an instant *)

Lemma executeInSandbox_shape d i command s :
  sandboxes (snd (executeInSandbox d i command s)) = sandboxes s
  /\ timers (snd (executeInSandbox d i command s)) = timers s
  /\ clock (snd (executeInSandbox d i command s)) = clock s.
Proof.
  unfold executeInSandbox.
  destruct (JsMap.get i (sandboxes s)) as [sb|]; [|tauto].
  destruct (negb (status_eqb (status sb) RUNNING)); [tauto|].
  destruct (exec d _ _) as [[]|m]; [|cbn; tauto].
  destruct (execStart d _ _) as [stream|m]; [|cbn; tauto].
  destruct (demultiplex (chunks stream)) as [out err].
  destruct (ending stream); [|cbn; tauto].
  destruct (execInspect d _ _); cbn; tauto.
Qed.

Lemma getSandboxStats_shape d i s :
  sandboxes (snd (getSandboxStats d i s)) = sandboxes s
  /\ timers (snd (getSandboxStats d i s)) = timers s
  /\ clock (snd (getSandboxStats d i s)) = clock s.
Proof.
  unfold getSandboxStats.
  destruct (JsMap.get i (sandboxes s)) as [sb|]; [|tauto].
  destruct (truthy (containerId sb)) as [c|]; [|tauto].
  destruct (stats d c); cbn; tauto.
Qed.

Lemma createSandbox_clock d i name cfg s :
  clock (snd (createSandbox d i name cfg s)) = clock s.
Proof.
  unfold createSandbox.
  destruct (parseMemoryLimit _) as [memory|m]; auto.
  destruct (createContainer d _) as [container|m]; auto.
  destruct (SandboxManager.start d container) as [[]|m]; auto.
  destruct (timeout (withDefaults cfg)) as [[| |]|]; reflexivity.
Qed.

(** ** A sandbox on its way out *)

Section Leaving.

Variable lat : Latency.
Variable sandboxId : string.
Variables deadline stopBound removeBound : Z.

Hypothesis stop_within :
  forall c now, Z.of_N (stopTakes lat c now) <= stopBound.
Hypothesis remove_within :
  forall c now, Z.of_N (removeTakes lat c now) <= removeBound.

Local Notation leaves :=
  (leaving sandboxId deadline stopBound removeBound).

Lemma leaving_mono w w' :
  (getSandbox sandboxId (state w) = None ->
   getSandbox sandboxId (state w') = None) ->
  (forall tm, In tm (timers (state w)) -> In tm (timers (state w'))) ->
  clock (state w') = clock (state w) ->
  (forall k, In k (pending w) -> In k (pending w')) ->
  notRefiled sandboxId w' ->
  leaves w -> leaves w'.
Proof.
  intros Hs Ht Hc Hp Hn [_ H]. split; [exact Hn|]. rewrite Hc.
  destruct H as [H | [(tm & Hin & Htm) | [(k & c & sb & j & Hin & Hk)
                                         | (k & j & Hin & Hk)]]].
  - left. auto.
  - right; left. exists tm. auto.
  - right; right; left. exists k, c, sb, j. auto.
  - right; right; right. exists k, j. auto.
Qed.

Lemma leaving_shape w w' :
  sandboxes (state w') = sandboxes (state w) ->
  timers (state w') = timers (state w) ->
  clock (state w') = clock (state w) ->
  pending w' = pending w ->
  leaves w -> leaves w'.
Proof.
  intros Hs Ht Hc Hp H. apply leaving_mono with (w := w); auto.
  - unfold getSandbox. now rewrite Hs.
  - now rewrite Ht.
  - now rewrite Hp.
  - destruct H as [Hn _]. unfold notRefiled. now rewrite Hp.
Qed.

Lemma leaving_gone w :
  notRefiled sandboxId w -> getSandbox sandboxId (state w) = None ->
  leaves w.
Proof. intros Hn H. split; [exact Hn | now left]. Qed.

Lemma notRefiled_await k w :
  (refiles (awaited k) = true -> addressee (awaited k) <> sandboxId) ->
  notRefiled sandboxId w -> notRefiled sandboxId (await k w).
Proof.
  intros Hk Hn k' Hin. cbn [pending await] in Hin.
  apply in_app_or in Hin. destruct Hin as [Hin|[<-|[]]]; auto.
Qed.

Lemma leaving_cleaned i w : leaves w -> leaves (onState (cleaned i) w).
Proof.
  intros H. apply leaving_mono with (w := w); auto.
  - cbn [state onState]. apply cleaned_absent.
  - now destruct H.
Qed.

Lemma leaving_await k c w :
  (refiles (awaited k) = true -> addressee (awaited k) <> sandboxId) ->
  leaves w -> leaves (await k (onState (call c) w)).
Proof.
  intros Hk H. apply leaving_mono with (w := w); auto.
  - cbn [pending await onState]. intros k' Hin. apply in_or_app. now left.
  - apply notRefiled_await; auto. now destruct H.
Qed.

Lemma leaving_settle join w : leaves w -> leaves (settle join w).
Proof.
  intros H. destruct (settle_shape join w) as (Hs & Ht & Hc & Hp).
  eapply leaving_shape; eauto.
Qed.

Lemma cleanupSandbox_leaving i join w :
  leaves w -> leaves (snd (Async.cleanupSandbox lat i join w)).
Proof.
  intros H.
  destruct (cleanupSandbox_cases lat i join w)
    as [[_ ->] | [(sb & _ & ->) | (sb & c & _ & ->)]].
  - exact H.
  - now apply leaving_cleaned.
  - apply leaving_await; [discriminate | exact H].
Qed.

(** The timer of the sandbox fires. *)
Lemma cleanupSandbox_own join w :
  notRefiled sandboxId w -> clock (state w) <= deadline ->
  leaves (snd (Async.cleanupSandbox lat sandboxId join w)).
Proof.
  intros Hn Hc.
  destruct (cleanupSandbox_cases lat sandboxId join w)
    as [[Hget ->] | [(sb & _ & ->) | (sb & c & _ & ->)]].
  - now apply leaving_gone.
  - apply leaving_gone; [exact Hn|]. cbn [state onState]. apply cleaned_own.
  - split.
    + apply notRefiled_await; [discriminate | exact Hn].
    + right; right; left.
      eexists _, c, sb, join. split.
      * cbn [pending await onState]. apply in_or_app. right. now left.
      * split; [reflexivity|]. cbn [ready state onState await clock call].
        pose proof (stop_within c (clock (state w))). lia.
Qed.

Lemma resume_leaving a w :
  (refiles a = true -> addressee a <> sandboxId) ->
  leaves w -> leaves (resume lat a w).
Proof.
  intros Ha H.
  destruct a as [i c sb join | i join | i sb [[]|m] | i sb [[]|m]];
    cbn [resume]; auto.
  - destruct (autoRemove (config sb)) as [[|]|].
    + now apply leaving_settle, leaving_cleaned.
    + apply leaving_await; [discriminate | exact H].
    + apply leaving_await; [discriminate | exact H].
  - now apply leaving_settle, leaving_cleaned.
  - specialize (Ha eq_refl). cbn [addressee] in Ha.
    apply leaving_mono with (w := w); auto.
    + cbn [state onState]. intros Hget. now rewrite refile_other.
    + now destruct H.
  - specialize (Ha eq_refl). cbn [addressee] in Ha.
    apply leaving_mono with (w := w); auto.
    + cbn [state onState]. intros Hget. now rewrite refile_other.
    + now destruct H.
Qed.

Lemma notRefiled_shape w w' :
  pending w' = pending w -> notRefiled sandboxId w -> notRefiled sandboxId w'.
Proof. unfold notRefiled. now intros ->. Qed.

Lemma gone_settled join w :
  notRefiled sandboxId w ->
  leaves (settle join (onState (cleaned sandboxId) w)).
Proof.
  intros Hn. apply leaving_settle, leaving_gone.
  - exact Hn.
  - cbn [state onState]. apply cleaned_own.
Qed.

(** The driver has stopped the container of the sandbox. *)
Lemma resume_own_stop c sb join w :
  notRefiled sandboxId w -> clock (state w) <= deadline + stopBound ->
  leaves (resume lat (AwaitStop sandboxId c sb join) w).
Proof.
  intros Hn Hc. cbn [resume].
  assert (Hremove :
            leaves
              (await
                 {| ready := clock (state (onState (call (CallRemove c true))
                                             w))
                             + Z.of_N
                                 (removeTakes lat c
                                    (clock
                                       (state
                                          (onState (call (CallRemove c true))
                                             w))));
                    awaited := AwaitRemove sandboxId join |}
                 (onState (call (CallRemove c true)) w))).
  { split.
    - apply notRefiled_await; [discriminate | exact Hn].
    - right; right; right. eexists _, join. split.
      + cbn [pending await onState]. apply in_or_app. right. now left.
      + split; [reflexivity|]. cbn [ready state onState await clock call].
        pose proof (remove_within c (clock (state w))). lia. }
  destruct (autoRemove (config sb)) as [[|]|]; auto.
  now apply gone_settled.
Qed.

Lemma resume_own_remove join w :
  notRefiled sandboxId w ->
  leaves (resume lat (AwaitRemove sandboxId join) w).
Proof. intros Hn. cbn [resume]. now apply gone_settled. Qed.

Lemma happen_leaving e w :
  next w = Some e -> leaves w -> leaves (happen lat e w).
Proof.
  intros Hnext [Hn H]. destruct e as [tm others | k others].
  - destruct (next_timer _ Hnext) as (Hin & Hsub & Hrest & Hmin & Hmin').
    cbn [happen].
    set (w1 := {| state := setClock
                             (Z.max (clock (setTimers others (state w)))
                                (due tm))
                             (setTimers others (state w));
                  pending := pending w; joins := joins w |}).
    assert (Hn1 : notRefiled sandboxId w1) by exact Hn.
    destruct H as [H | [(tm0 & Hin0 & Htarget & Hdue)
                       | [(k0 & c & sb & j & Hin0 & Hk0 & Hready)
                         | (k0 & j & Hin0 & Hk0 & Hready)]]].
    + apply cleanupSandbox_leaving. now apply leaving_gone.
    + destruct (Hrest tm0 Hin0) as [->|Hin1].
      * rewrite Htarget. apply cleanupSandbox_own; auto.
        cbn [w1 state clock setClock setTimers]. lia.
      * apply cleanupSandbox_leaving. split; [exact Hn1|].
        right; left. exists tm0. split; [exact Hin1|]. split; [exact Htarget|].
        cbn [w1 state clock setClock setTimers].
        specialize (Hmin tm0 Hin0). lia.
    + apply cleanupSandbox_leaving. split; [exact Hn1|].
      right; right; left. exists k0, c, sb, j.
      split; [exact Hin0|]. split; [exact Hk0|].
      cbn [w1 state clock setClock setTimers].
      specialize (Hmin' k0 Hin0). lia.
    + apply cleanupSandbox_leaving. split; [exact Hn1|].
      right; right; right. exists k0, j. auto.
  - destruct (next_answer _ Hnext) as (Hin & Hsub & Hrest & Hmin & Hmin').
    cbn [happen].
    set (w1 := {| state := setClock (Z.max (clock (state w)) (ready k))
                             (state w);
                  pending := others; joins := joins w |}).
    assert (Hn1 : notRefiled sandboxId w1).
    { intros k' Hk'. apply Hn. now apply Hsub. }
    assert (Ha : refiles (awaited k) = true ->
                 addressee (awaited k) <> sandboxId) by now apply Hn.
    destruct H as [H | [(tm0 & Hin0 & Htarget & Hdue)
                       | [(k0 & c & sb & j & Hin0 & Hk0 & Hready)
                         | (k0 & j & Hin0 & Hk0 & Hready)]]].
    + apply resume_leaving; auto. now apply leaving_gone.
    + apply resume_leaving; auto. split; [exact Hn1|].
      right; left. exists tm0. split; [exact Hin0|]. split; [exact Htarget|].
      cbn [w1 state clock setClock].
      specialize (Hmin' tm0 Hin0). lia.
    + destruct (Hrest k0 Hin0) as [->|Hin1].
      * rewrite Hk0. apply resume_own_stop; auto.
        cbn [w1 state clock setClock]. lia.
      * apply resume_leaving; auto. split; [exact Hn1|].
        right; right; left. exists k0, c, sb, j.
        split; [exact Hin1|]. split; [exact Hk0|].
        cbn [w1 state clock setClock].
        specialize (Hmin k0 Hin0). lia.
    + destruct (Hrest k0 Hin0) as [->|Hin1].
      * rewrite Hk0. now apply resume_own_remove.
      * apply resume_leaving; auto. split; [exact Hn1|].
        right; right; right. exists k0, j. auto.
Qed.

Lemma passing_leaving t fuel :
  forall w, leaves w -> leaves (passing lat fuel t w).
Proof.
  induction fuel as [|fuel IH]; intros w H; cbn [passing]; auto.
  destruct (next w) as [e|] eqn:E; auto.
  destruct (timeOf e <=? t); auto.
  apply IH. now apply happen_leaving.
Qed.

Lemma passTo_leaving t w : leaves w -> leaves (passTo lat t w).
Proof.
  intros H. unfold passTo.
  pose proof (@passing_quiet lat t (budget w) w (Nat.le_refl _)) as [Qt Qk].
  pose proof (@passing_leaving t (budget w) w H) as [Hn Hl].
  set (w' := passing lat (budget w) t w) in *.
  split; [exact Hn|]. cbn [state onState clock setClock].
  destruct Hl as [Hl | [(tm & Hin & Htm & Hdue)
                       | [(k & c & sb & j & Hin & Hk & Hready)
                         | (k & j & Hin & Hk)]]].
  - now left.
  - right; left. exists tm. split; [exact Hin|]. split; [exact Htm|].
    specialize (Qt tm Hin). lia.
  - right; right; left. exists k, c, sb, j. split; [exact Hin|].
    split; [exact Hk|]. specialize (Qk k Hin). lia.
  - right; right; right. exists k, j. auto.
Qed.

(** Once the clock has reached the time by which the cleanup has its last
    answer, the sandbox is gone. *)
Lemma leaving_left t w :
  leaves w -> quietBy t w ->
  deadline + stopBound + removeBound <= t ->
  getSandbox sandboxId (state w) = None.
Proof.
  intros [_ H] [Qt Qk] Ht.
  pose proof (stop_within "" 0) as Hs. pose proof (remove_within "" 0) as Hr.
  assert (0 <= stopBound) by lia. assert (0 <= removeBound) by lia.
  destruct H as [H | [(tm & Hin & Htm & Hdue)
                     | [(k & c & sb & j & Hin & Hk & Hready)
                       | (k & j & Hin & Hk & Hready)]]]; auto.
  - specialize (Qt tm Hin). lia.
  - specialize (Qk k Hin). lia.
  - specialize (Qk k Hin). lia.
Qed.

Lemma step_leaving x w :
  match x with
  | Create _ i _ _ => i <> sandboxId
  | On _ i Pause | On _ i Resume => i <> sandboxId
  | _ => True
  end ->
  leaves w -> leaves (step lat w x).
Proof.
  intros Hx H.
  destruct x as [d i name cfg | d i [command| | | |] | d | d | d t];
    cbn [step].
  - apply leaving_mono with (w := w); auto.
    + cbn [state onState]. intros Hget. now rewrite createSandbox_absent.
    + cbn [state onState]. intros tm. apply createSandbox_timers.
    + cbn [state onState]. apply createSandbox_clock.
    + now destruct H.
  - destruct (executeInSandbox_shape d i command (state w))
      as (Hs & Ht & Hc).
    eapply leaving_shape; eauto.
  - destruct (pauseSandbox_cases lat d i w) as [->|(sb & c & Hsb & ->)];
      [exact H|].
    apply leaving_await; [|exact H]. now intros _.
  - destruct (resumeSandbox_cases lat d i w) as [->|(sb & c & Hsb & ->)];
      [exact H|].
    apply leaving_await; [|exact H]. now intros _.
  - now apply cleanupSandbox_leaving.
  - destruct (getSandboxStats_shape d i (state w)) as (Hs & Ht & Hc).
    eapply leaving_shape; eauto.
  - unfold cleanupStaleSandboxes.
    set (ids := JsMap.keys _).
    pose proof (@cleanupEach_preserves leaves lat ids
                  (List.length (joins w))
                  (fun i w0 => @cleanupSandbox_leaving i _ w0) w H) as He.
    destruct (cleanupEach lat ids (List.length (joins w)) w) as [n w'].
    cbn [snd] in He. destruct ids; [exact He|].
    destruct (awaitAll_shape n (CleanupStale (s :: ids)) w')
      as (Hs & Ht & Hc & Hp).
    eapply leaving_shape; eauto.
  - unfold shutdown.
    set (ids := JsMap.keys _).
    pose proof (@cleanupEach_preserves leaves lat ids
                  (List.length (joins w))
                  (fun i w0 => @cleanupSandbox_leaving i _ w0) w H) as He.
    destruct (cleanupEach lat ids (List.length (joins w)) w) as [n w'].
    cbn [snd] in He.
    destruct (awaitAll_shape n Shutdown w') as (Hs & Ht & Hc & Hp).
    eapply leaving_shape; eauto.
  - now apply passTo_leaving.
Qed.

Lemma run_leaving xs :
  leftAlone sandboxId xs ->
  forall w, leaves w -> leaves (Async.run lat xs w).
Proof.
  intros Hxs. induction Hxs as [|x xs Hx _ IH]; intros w H; auto.
  unfold Async.run in *. cbn [fold_left]. apply IH.
  apply step_leaving; auto.
Qed.

End Leaving.

(** ** Entries under their own identifier *)

Lemma get_In {V} (m : JsMap.t V) k v : JsMap.get k m = Some v -> In (k, v) m.
Proof.
  induction m as [|[k' v'] m IH]; cbn [JsMap.get]; [discriminate|].
  destruct (String.eqb k k') eqn:E.
  - apply String.eqb_eq in E. subst k'. intros [= <-]. now left.
  - intros H. right. now apply IH.
Qed.

Lemma wellKeyed_get s i sb :
  wellKeyed s -> getSandbox i s = Some sb -> id sb = i.
Proof. intros H Hget. apply H. now apply get_In. Qed.

Lemma wellFiled_shape w w' :
  sandboxes (state w') = sandboxes (state w) ->
  (forall k, In k (pending w') -> In k (pending w)) ->
  wellFiled w -> wellFiled w'.
Proof.
  intros Hs Hp [H1 H2]. split.
  - eapply wellKeyed_sandboxes; eauto.
  - intros k Hk. apply H2. now apply Hp.
Qed.

Lemma wellFiled_cleaned i w : wellFiled w -> wellFiled (onState (cleaned i) w).
Proof.
  intros [H1 H2]. split; [|exact H2]. cbn [state onState]. unfold cleaned.
  apply (@wellKeyed_sandboxes
           (setSandboxes (JsMap.delete i (sandboxes (state w))) (state w)));
    [reflexivity|].
  now apply wellKeyed_delete.
Qed.

Lemma wellFiled_await k c w :
  match awaited k with
  | AwaitPause i sb _ | AwaitUnpause i sb _ => id sb = i
  | _ => True
  end ->
  wellFiled w -> wellFiled (await k (onState (call c) w)).
Proof.
  intros Hk [H1 H2]. split.
  - eapply wellKeyed_sandboxes; [|exact H1]. reflexivity.
  - cbn [pending await onState]. intros k' Hin.
    apply in_app_or in Hin. destruct Hin as [Hin|[<-|[]]].
    + now apply H2.
    + exact Hk.
Qed.

Lemma wellFiled_settle join w : wellFiled w -> wellFiled (settle join w).
Proof.
  intros H. destruct (settle_shape join w) as (Hs & _ & _ & Hp).
  eapply wellFiled_shape; eauto. now rewrite Hp.
Qed.

Lemma wellFiled_refile i sb announce w :
  id sb = i -> wellFiled w -> wellFiled (onState (refile i sb announce) w).
Proof.
  intros Hi [H1 H2]. split; [|exact H2]. cbn [state onState]. unfold refile.
  apply (@wellKeyed_sandboxes
           (setSandboxes (JsMap.set i sb (sandboxes (state w))) (state w)));
    [reflexivity|].
  now apply wellKeyed_set.
Qed.

Lemma cleanupSandbox_wellFiled lat i join w :
  wellFiled w -> wellFiled (snd (Async.cleanupSandbox lat i join w)).
Proof.
  intros H.
  destruct (cleanupSandbox_cases lat i join w)
    as [[_ ->] | [(sb & _ & ->) | (sb & c & _ & ->)]].
  - exact H.
  - now apply wellFiled_cleaned.
  - now apply wellFiled_await.
Qed.

Lemma resume_wellFiled lat a w :
  match a with
  | AwaitPause i sb _ | AwaitUnpause i sb _ => id sb = i
  | _ => True
  end ->
  wellFiled w -> wellFiled (resume lat a w).
Proof.
  intros Ha H.
  destruct a as [i c sb join | i join | i sb [[]|m] | i sb [[]|m]];
    cbn [resume]; auto.
  - destruct (autoRemove (config sb)) as [[|]|].
    + now apply wellFiled_settle, wellFiled_cleaned.
    + now apply wellFiled_await.
    + now apply wellFiled_await.
  - now apply wellFiled_settle, wellFiled_cleaned.
  - now apply wellFiled_refile.
  - now apply wellFiled_refile.
Qed.

Lemma happen_wellFiled lat e w :
  next w = Some e -> wellFiled w -> wellFiled (happen lat e w).
Proof.
  intros Hnext H. destruct e as [tm others | k others]; cbn [happen].
  - apply cleanupSandbox_wellFiled.
    eapply wellFiled_shape; [| |exact H]; [reflexivity | auto].
  - destruct (next_answer _ Hnext) as (Hin & Hsub & _).
    apply resume_wellFiled.
    + destruct H as [_ H2]. now apply H2.
    + eapply wellFiled_shape; [| |exact H]; [reflexivity | exact Hsub].
Qed.

Lemma passing_wellFiled lat t fuel :
  forall w, wellFiled w -> wellFiled (passing lat fuel t w).
Proof.
  induction fuel as [|fuel IH]; intros w H; cbn [passing]; auto.
  destruct (next w) as [e|] eqn:E; auto.
  destruct (timeOf e <=? t); auto.
  apply IH. now apply happen_wellFiled.
Qed.

Lemma step_wellFiled lat x w : wellFiled w -> wellFiled (step lat w x).
Proof.
  intros H.
  destruct x as [d i name cfg | d i [command| | | |] | d | d | d t];
    cbn [step].
  - destruct H as [H1 H2]. split; [|exact H2]. cbn [state onState].
    exact (@step_wellKeyed (Create d i name cfg) (state w) H1).
  - destruct (executeInSandbox_shape d i command (state w)) as (Hs & _).
    eapply wellFiled_shape; [exact Hs | | exact H]. auto.
  - destruct (pauseSandbox_cases lat d i w) as [->|(sb & c & Hsb & ->)];
      [exact H|].
    apply wellFiled_await; [|exact H]. cbn [awaited].
    destruct H as [H1 _]. eapply wellKeyed_get; eauto.
  - destruct (resumeSandbox_cases lat d i w) as [->|(sb & c & Hsb & ->)];
      [exact H|].
    apply wellFiled_await; [|exact H]. cbn [awaited].
    destruct H as [H1 _]. eapply wellKeyed_get; eauto.
  - now apply cleanupSandbox_wellFiled.
  - destruct (getSandboxStats_shape d i (state w)) as (Hs & _).
    eapply wellFiled_shape; [exact Hs | | exact H]. auto.
  - unfold cleanupStaleSandboxes.
    set (ids := JsMap.keys _).
    pose proof (@cleanupEach_preserves wellFiled lat ids
                  (List.length (joins w))
                  (fun i w0 => @cleanupSandbox_wellFiled lat i _ w0) w H)
      as He.
    destruct (cleanupEach lat ids (List.length (joins w)) w) as [n w'].
    cbn [snd] in He. destruct ids; [exact He|].
    destruct (awaitAll_shape n (CleanupStale (s :: ids)) w')
      as (Hs & _ & _ & Hp).
    eapply wellFiled_shape; [exact Hs | | exact He]. now rewrite Hp.
  - unfold shutdown.
    set (ids := JsMap.keys _).
    pose proof (@cleanupEach_preserves wellFiled lat ids
                  (List.length (joins w))
                  (fun i w0 => @cleanupSandbox_wellFiled lat i _ w0) w H)
      as He.
    destruct (cleanupEach lat ids (List.length (joins w)) w) as [n w'].
    cbn [snd] in He.
    destruct (awaitAll_shape n Shutdown w') as (Hs & _ & _ & Hp).
    eapply wellFiled_shape; [exact Hs | | exact He]. now rewrite Hp.
  - unfold passTo.
    pose proof (@passing_wellFiled lat t (budget w) w H) as Hp.
    eapply wellFiled_shape; [| |exact Hp]; [reflexivity | auto].
Qed.

Lemma run_wellFiled lat xs :
  forall w, wellFiled w -> wellFiled (Async.run lat xs w).
Proof.
  induction xs as [|x xs IH]; intros w H; auto.
  unfold Async.run in *. cbn [fold_left]. apply IH.
  now apply step_wellFiled.
Qed.

Lemma idle_wellFiled : wellFiled idle.
Proof. split; [intros k sb []|intros k []]. Qed.

(** ** The timeout of a sandbox *)

Lemma createSandbox_Ok_entry d i name cfg s info s' :
  createSandbox d i name cfg s = (Ok info, s') ->
  getSandbox i s' = Some info.
Proof.
  unfold createSandbox.
  destruct (parseMemoryLimit _) as [memory|m]; [|discriminate].
  destruct (createContainer d _) as [container|m]; [|discriminate].
  destruct (SandboxManager.start d container) as [[]|m]; [|discriminate].
  destruct (timeout (withDefaults cfg)) as [[| |]|];
    intros [= <- <-]; unfold getSandbox;
    cbn [sandboxes emit setTimeout setTimers put setSandboxes call id
         withStatus withContainerId];
    apply get_set_same.
Qed.

Lemma createSandbox_no_timer d i name cfg s info s' :
  createSandbox d i name cfg s = (Ok info, s') ->
  timeout (config info) = Some 0 ->
  timers s' = timers s.
Proof.
  unfold createSandbox.
  destruct (parseMemoryLimit _) as [memory|m]; [|discriminate].
  destruct (createContainer d _) as [container|m]; [|discriminate].
  destruct (SandboxManager.start d container) as [[]|m]; [|discriminate].
  intros [= <- <-] H.
  change (orElse (timeout cfg) 300000 = Some 0) in H.
  change (timeout (withDefaults cfg)) with (orElse (timeout cfg) 300000).
  rewrite H. reflexivity.
Qed.

Lemma In_listSandboxes s i sb :
  getSandbox i s = Some sb -> In sb (listSandboxes s).
Proof.
  intros H. unfold listSandboxes, JsMap.values.
  apply (in_map snd _ (i, sb)). now apply get_In.
Qed.

Lemma run_forgotten lat xs sandboxId info :
  onlyTime xs ->
  forall w, forgotten sandboxId info w ->
            forgotten sandboxId info (Async.run lat xs w).
Proof.
  intros Hxs. induction Hxs as [|x xs Hx _ IH]; intros w H; auto.
  unfold Async.run in *. cbn [fold_left]. apply IH.
  destruct x as [| | | |d t]; try contradiction. cbn [step].
  destruct H as [Hget H].
  destruct (@passTo_untouched lat t w sandboxId H) as [H1 H2].
  split; [now rewrite H2 | exact H1].
Qed.




End Timeouts.

(* ===================================================================== *)
(** * The output of a command *)
(* ===================================================================== *)

Module Output.

Import Js SandboxManager Statements.

(** ** [trim] *)

Lemma trimStart_first s c :
  firstUnit (trimStart s) = Some c -> isWhiteSpace c = false.
Proof.
  unfold firstUnit. induction s as [|a s IH]; simpl; [discriminate|].
  destruct (isWhiteSpace a) eqn:E; auto.
  simpl. now intros [= <-].
Qed.

(** [trimStart] removes a prefix of white space. *)
Lemma trimStart_suffix s :
  exists w, s = w ++ trimStart s /\ forallb isWhiteSpace w = true.
Proof.
  induction s as [|a s (w & Hs & Hw)]; simpl.
  - now exists [].
  - destruct (isWhiteSpace a) eqn:E.
    + exists (a :: w). simpl. rewrite E, Hw. split; auto. now f_equal.
    + now exists [].
Qed.

Lemma trimEnd_prefix s : exists w, s = trimEnd s ++ w.
Proof.
  unfold trimEnd. destruct (trimStart_suffix (rev s)) as (w & Hs & _).
  exists (rev w). rewrite <- rev_app_distr, <- Hs. now rewrite rev_involutive.
Qed.

Lemma trim_isTrimmed s : isTrimmed (trim s).
Proof.
  unfold isTrimmed, trim. intros c [H|H].
  - destruct (trimEnd_prefix (trimStart s)) as [w Hw].
    apply (trimStart_first s). rewrite Hw.
    unfold firstUnit in *.
    destruct (trimEnd (trimStart s)); [discriminate | exact H].
  - unfold lastUnit, trimEnd in H. rewrite rev_involutive in H.
    now apply trimStart_first in H.
Qed.

Lemma trim_changes s : hasSurroundingWhiteSpace s -> trim s <> s.
Proof.
  intros (c & Hc & Hw) Heq.
  pose proof (trim_isTrimmed s) as H. rewrite Heq in H.
  rewrite (H c Hc) in Hw. discriminate.
Qed.

Lemma trimStart_snoc s c :
  isWhiteSpace c = true ->
  trimStart (s ++ [c]) =
  match trimStart s with [] => [] | _ => trimStart s ++ [c] end.
Proof.
  intros Hc. induction s as [|a s IH]; simpl.
  - now rewrite Hc.
  - destruct (isWhiteSpace a); auto.
Qed.

(** White space at the end, a final newline for one, is not part of the
    result. *)
Lemma trim_snoc s c : isWhiteSpace c = true -> trim (s ++ [c]) = trim s.
Proof.
  intros Hc. unfold trim. rewrite trimStart_snoc by assumption.
  destruct (trimStart s) as [|a u] eqn:E; auto.
  unfold trimEnd. rewrite rev_app_distr. simpl. now rewrite Hc.
Qed.

(** ** [executeInSandbox] *)

Lemma executeInSandbox_Ok d sandboxId command s r s' :
  executeInSandbox d sandboxId command s = (Ok r, s') ->
  exists sandbox stream code,
    getSandbox sandboxId s = Some sandbox
    /\ status sandbox = RUNNING
    /\ execStart d (bang (containerId sandbox)) command = Ok stream
    /\ ending stream = StreamEnded
    /\ execInspect d (bang (containerId sandbox)) command = Ok code
    /\ r = {| stdout := trim (fst (demultiplex (chunks stream)));
              stderr := trim (snd (demultiplex (chunks stream)));
              exitCode := orZero code |}.
Proof.
  unfold executeInSandbox, getSandbox.
  destruct (JsMap.get sandboxId (sandboxes s)) as [sandbox|]; [|discriminate].
  destruct (status_eqb (status sandbox) RUNNING) eqn:E; [|discriminate].
  simpl.
  destruct (exec d _ _) as [[]|m]; [|discriminate].
  destruct (execStart d _ _) as [stream|m] eqn:St; [|discriminate].
  destruct (demultiplex (chunks stream)) as [out err] eqn:D.
  destruct (ending stream) eqn:En; [|discriminate].
  destruct (execInspect d _ _) as [code|m] eqn:I; [|discriminate].
  intros [= <- <-].
  exists sandbox, stream, code.
  split; [reflexivity|]. split; [now apply Lifecycle.status_eqb_eq|].
  split; [exact St|]. split; [exact En|]. split; [exact I|].
  now rewrite D.
Qed.

(** C8.  The [stdout] and [stderr] that a successful [executeInSandbox]
    returns are the two accumulated decoded streams with the white space
    at both ends removed: neither starts or ends with white space, each
    differs from the accumulated stream that has white space at its start
    or its end, and a newline at the end of a stream, or any other white
    space there, does not show in the result. *)
Theorem execute_returns_trimmed_streams :
  forall (d : Docker) (sandboxId : string) (command : list string)
         (s s' : State) (r : ExecuteResult),
    executeInSandbox d sandboxId command s = (Ok r, s') ->
    exists container stream,
      execStart d container command = Ok stream
      /\ stdout r = trim (fst (demultiplex (chunks stream)))
      /\ stderr r = trim (snd (demultiplex (chunks stream)))
      /\ isTrimmed (stdout r)
      /\ isTrimmed (stderr r)
      /\ (hasSurroundingWhiteSpace (fst (demultiplex (chunks stream))) ->
          stdout r <> fst (demultiplex (chunks stream)))
      /\ (hasSurroundingWhiteSpace (snd (demultiplex (chunks stream))) ->
          stderr r <> snd (demultiplex (chunks stream)))
      /\ (forall out c,
            fst (demultiplex (chunks stream)) = out ++ [c] ->
            isWhiteSpace c = true -> stdout r = trim out)
      /\ (forall err c,
            snd (demultiplex (chunks stream)) = err ++ [c] ->
            isWhiteSpace c = true -> stderr r = trim err).
Proof.
  intros d sandboxId command s s' r H.
  apply executeInSandbox_Ok in H.
  destruct H as (sandbox & stream & code & _ & _ & Hstart & _ & _ & ->).
  exists (bang (containerId sandbox)), stream. cbn [stdout stderr].
  split; [exact Hstart|]. split; [reflexivity|]. split; [reflexivity|].
  split; [apply trim_isTrimmed|]. split; [apply trim_isTrimmed|].
  split; [apply trim_changes|]. split; [apply trim_changes|].
  split; intros t c -> Hc; now apply trim_snoc.
Qed.

(** [echo hello] on a sandbox without a terminal: one frame of standard
    output, [hello] and a newline. *)
Lemma execute_returns_trimmed_streams_witness :
  let d := printing
             {| chunks :=
                  [encode [{| stream := Stdout;
                              payload := bytes (text "hello" ++ [10%N]) |}]];
                ending := StreamEnded |} in
  let s := run [Create healthy "sb_1" "demo" noConfig] initial in
  let r := {| stdout := text "hello"; stderr := []; exitCode := 0 |} in
  (exists s', executeInSandbox d "sb_1" ["echo"; "hello"] s = (Ok r, s'))
  /\ isTrimmed (stdout r).
Proof.
  intros d s r.
  assert (H : executeInSandbox d "sb_1" ["echo"; "hello"] s
              = (Ok r, snd (executeInSandbox d "sb_1" ["echo"; "hello"] s)))
    by reflexivity.
  split; [eexists; exact H|].
  destruct (execute_returns_trimmed_streams _ _ _ _ H)
    as (container & stream & _ & _ & _ & Hout & _).
  exact Hout.
Defined.

(** ** The decoder on whole frames *)

Lemma utf8_decode_ascii bs :
  Forall (fun b => (Byte.to_N b < 128)%N) bs ->
  utf8_decode utf8_init bs = map Byte.to_N bs.
Proof.
  induction 1 as [|b bs Hb _ IH]; [reflexivity|].
  cbn [utf8_decode map]. unfold utf8_step. cbn [u_needed utf8_init].
  unfold utf8_lead.
  replace (Byte.to_N b <=? 127)%N with true
    by (symmetry; apply N.leb_le; lia).
  cbn [app]. now rewrite <- IH.
Qed.

Lemma toString_ascii bs :
  Forall (fun b => (Byte.to_N b < 128)%N) bs ->
  toString bs = map Byte.to_N bs.
Proof.
  intros H. unfold toString. rewrite (utf8_decode_ascii H).
  induction H as [|b bs Hb _ IH]; [reflexivity|].
  cbn [map flat_map]. rewrite IH. unfold utf16_units.
  replace (Byte.to_N b <? 65536)%N with true
    by (symmetry; apply N.ltb_lt; lia).
  reflexivity.
Qed.

Lemma to_N_of_N n :
  (n < 256)%N ->
  Byte.to_N (match Byte.of_N n with Some b => b | None => Byte.x00 end) = n.
Proof.
  intros H. destruct (Byte.of_N n) as [b|] eqn:E.
  - now apply Byte.to_of_N.
  - apply Byte.of_N_None_iff in E. lia.
Qed.

Lemma header_plain f :
  plain f ->
  exists b,
    header f = b :: bytes [0; 0; 0; 0; 0; 0;
                           N.of_nat (List.length (payload f))]%N
    /\ b = (match stream f with Stdout => Byte.x01 | Stderr => Byte.x02 end)
    /\ Forall (fun b => (Byte.to_N b < 128)%N) (header f).
Proof.
  intros [Hlen _]. unfold header.
  set (n := N.of_nat (List.length (payload f))).
  assert (Hn : (n < 128)%N) by (unfold n; lia).
  assert (H24 : N.land (N.shiftr n 24) 255 = 0%N).
  { rewrite N.shiftr_div_pow2, N.div_small; [reflexivity|].
    change (2 ^ 24)%N with 16777216%N. lia. }
  assert (H16 : N.land (N.shiftr n 16) 255 = 0%N).
  { rewrite N.shiftr_div_pow2, N.div_small; [reflexivity|].
    change (2 ^ 16)%N with 65536%N. lia. }
  assert (H8 : N.land (N.shiftr n 8) 255 = 0%N).
  { rewrite N.shiftr_div_pow2, N.div_small; [reflexivity|].
    change (2 ^ 8)%N with 256%N. lia. }
  assert (H0 : N.land n 255 = n).
  { change 255%N with (N.ones 8). rewrite N.land_ones, N.mod_small; auto.
    change (2 ^ 8)%N with 256%N. lia. }
  rewrite H24, H16, H8, H0.
  eexists. split; [reflexivity|]. split.
  - now destruct (stream f).
  - unfold bytes. cbn [map].
    repeat constructor;
      try (destruct (stream f); vm_compute; reflexivity);
      try (vm_compute; reflexivity).
    rewrite to_N_of_N; lia.
Qed.

Lemma onData_plain acc f :
  plain f ->
  onData acc (header f ++ payload f) =
  match stream f with
  | Stdout => (fst acc ++ toString (payload f), snd acc)
  | Stderr => (fst acc, snd acc ++ toString (payload f))
  end.
Proof.
  intros Hf. destruct (header_plain Hf) as (b & Hh & Hb & Hascii).
  assert (Hdata : substring 8 (toString (header f ++ payload f))
                  = toString (payload f)).
  { destruct Hf as [_ Hp].
    rewrite toString_ascii by (apply Forall_app; auto).
    rewrite (toString_ascii Hp), map_app, Hh. reflexivity. }
  unfold onData. rewrite Hdata, Hh. cbn [app].
  rewrite Hb. now destruct (stream f).
Qed.

Lemma written_cons t f fs :
  written t (f :: fs) =
  if isStream t f then payload f ++ written t fs else written t fs.
Proof.
  unfold written. cbn [filter]. now destruct (isStream t f).
Qed.

Lemma written_ascii t fs :
  Forall plain fs -> Forall (fun b => (Byte.to_N b < 128)%N) (written t fs).
Proof.
  induction 1 as [|f fs [_ Hf] _ IH]; [constructor|].
  rewrite written_cons. destruct (isStream t f); auto.
  apply Forall_app; auto.
Qed.

(** When every frame is plain and arrives as a chunk of its own, the
    decoder rebuilds the two streams. *)
Lemma demultiplex_whole_frames fs :
  Forall plain fs ->
  demultiplex (chunkPerFrame fs)
  = (toString (written Stdout fs), toString (written Stderr fs)).
Proof.
  intros H. unfold demultiplex.
  assert (G : forall acc,
             fold_left onData (chunkPerFrame fs) acc
             = (fst acc ++ toString (written Stdout fs),
                snd acc ++ toString (written Stderr fs))).
  { induction H as [|f fs Hf Hfs IH]; intros [o e].
    - simpl. now rewrite !app_nil_r.
    - cbn [chunkPerFrame map fold_left].
      fold (chunkPerFrame fs). rewrite (onData_plain _ Hf), IH.
      rewrite !written_cons.
      pose proof (written_ascii Stdout Hfs) as Ho.
      pose proof (written_ascii Stderr Hfs) as He.
      destruct Hf as [_ Hp].
      destruct (stream f) eqn:S; unfold isStream; rewrite S; cbn [fst snd];
        rewrite !toString_ascii by (try apply Forall_app; auto);
        rewrite ?map_app, ?app_assoc; reflexivity. }
  now rewrite G.
Qed.

(** ** The decoder on streams that are not one frame a chunk *)

(** C1.  The container of [createSandbox] and the decoder of
    [executeInSandbox], at four streams.  The container is created with a
    terminal ([Tty] is set), and a terminal sends the output of both
    streams unframed: the chunk [STDOUT\r\nSTDERR\r\n] is dropped whole.
    On a framed stream the decoder takes each chunk for one frame and
    decodes the text of each chunk by itself: of two frames that arrive in
    one chunk, the second, header and all, goes to the stream of the
    first; of a frame that arrives in two chunks, the second part is
    dropped; and a character whose bytes lie in two frames comes out as
    replacement characters.  So the two streams are not rebuilt for every
    way of cutting the output into chunks. *)
Theorem demultiplex_takes_a_chunk_for_a_frame :
  (forall sandboxId config memory,
      Tty (containerOptions sandboxId config memory) = true)
  /\ demultiplex
       [bytes (text "STDOUT" ++ [13; 10] ++ text "STDERR" ++ [13; 10])%N]
     = ([], [])
  /\ (let frames := [frame Stdout "out"; frame Stderr "err"] in
      demultiplex [encode frames]
      = (text "out" ++ [2; 0; 0; 0; 0; 0; 0; 3]%N ++ text "err", [])
      /\ (toString (written Stdout frames), toString (written Stderr frames))
         = (text "out", text "err"))
  /\ (let frames := [frame Stdout "hello world"] in
      demultiplex [firstn 13 (encode frames); skipn 13 (encode frames)]
      = (text "hello", [])
      /\ (toString (written Stdout frames), toString (written Stderr frames))
         = (text "hello world", []))
  /\ (let frames := [{| stream := Stdout; payload := bytes [0xE2]%N |};
                     {| stream := Stdout; payload := bytes [0x82; 0xAC]%N |}] in
      demultiplex (chunkPerFrame frames)
      = ([0xFFFD; 0xFFFD; 0xFFFD]%N, [])
      /\ (toString (written Stdout frames), toString (written Stderr frames))
         = ([0x20AC]%N, []))
  /\ ~ (forall frames cs,
          List.concat cs = encode frames ->
          demultiplex cs
          = (toString (written Stdout frames),
             toString (written Stderr frames))).
Proof.
  split; [reflexivity|]. split; [reflexivity|].
  split; [split; reflexivity|]. split; [split; reflexivity|].
  split; [split; reflexivity|].
  intros H.
  specialize (H [frame Stdout "out"; frame Stderr "err"]
                [encode [frame Stdout "out"; frame Stderr "err"]]
                eq_refl).
  vm_compute in H. discriminate.
Qed.

End Output.

(* ===================================================================== *)
(** * Pages of a browser context *)
(* ===================================================================== *)

Module Pages.

Import Js BrowserSandboxManager BrowserStatements JsMapFacts.

Lemma lastOf_app {A} (l : list A) (x : A) : lastOf (l ++ [x]) = Some x.
Proof.
  unfold lastOf. destruct (l ++ [x]) eqn:E.
  - destruct l; discriminate.
  - rewrite <- E, length_app. simpl.
    replace (List.length l + 1 - 1)%nat with (List.length l) by lia.
    rewrite nth_error_app2 by lia. now rewrite Nat.sub_diag.
Qed.

Lemma lastOf_nil {A} : @lastOf A [] = None.
Proof. reflexivity. Qed.

Lemma getManagedContext_active contextId s c :
  JsMap.get contextId (contexts s) = Some c -> status c = active ->
  getManagedContext contextId s = Ok c.
Proof. unfold getManagedContext. now intros -> ->. Qed.

Lemma getManagedContext_Ok contextId s c :
  getManagedContext contextId s = Ok c ->
  JsMap.get contextId (contexts s) = Some c /\ status c = active.
Proof.
  unfold getManagedContext.
  destruct (JsMap.get contextId (contexts s)) as [c'|]; [|discriminate].
  destruct (status c') eqn:E; [|discriminate].
  now intros [= <-].
Qed.

Lemma getPage_Ok_context contextId pageId s page :
  getPage contextId pageId s = Ok page ->
  exists c, getManagedContext contextId s = Ok c.
Proof.
  unfold getPage. destruct (getManagedContext contextId s) as [c|e];
    [eauto | discriminate].
Qed.

(** ** Assignments to a managed context *)

Lemma update_same contextId f s c :
  JsMap.get contextId (contexts s) = Some c ->
  JsMap.get contextId (contexts (update contextId f s)) = Some (f c).
Proof.
  intros H. unfold update. rewrite H. simpl. apply get_set_same.
Qed.

Lemma update_other contextId f s k :
  k <> contextId ->
  JsMap.get k (contexts (update contextId f s)) = JsMap.get k (contexts s).
Proof.
  intros H. unfold update.
  destruct (JsMap.get contextId (contexts s)); auto.
  simpl. now apply get_set_other.
Qed.

Lemma update_calls contextId f s : calls (update contextId f s) = calls s.
Proof.
  unfold update. now destruct (JsMap.get contextId (contexts s)).
Qed.

Lemma update_keeps_pages contextId f s :
  (forall c, pages (f c) = pages c) ->
  forall k, pagesOf k (update contextId f s) = pagesOf k s.
Proof.
  intros Hf k. unfold pagesOf.
  destruct (string_dec k contextId) as [->|Hne].
  - destruct (JsMap.get contextId (contexts s)) as [c|] eqn:G.
    + rewrite (@update_same contextId f s c G). simpl. now rewrite Hf.
    + unfold update. rewrite G. now rewrite G.
  - now rewrite update_other.
Qed.

(** ** The default page *)

Lemma getPage_default contextId pageId s c :
  JsMap.get contextId (contexts s) = Some c -> status c = active ->
  truthy pageId = None ->
  getPage contextId pageId s =
  match lastOf (JsMap.values (pages c)) with
  | Some lastPage => Ok lastPage
  | None =>
      Err {| message := ("No pages found in context: " ++ contextId)%string;
             code := PAGE_NOT_FOUND; originalError := None |}
  end.
Proof.
  intros Hget Hst Hp. unfold getPage.
  rewrite (@getManagedContext_active contextId s c Hget Hst), Hp.
  now destruct (lastOf _).
Qed.

Lemma getPageContent_of_page d contextId pageId s page :
  getPage contextId pageId s = Ok page ->
  calls (snd (getPageContent d contextId pageId s))
  = calls s ++ [CallContent page]
  /\ forall html, content d page = Ok html ->
                  fst (getPageContent d contextId pageId s) = Ok html.
Proof.
  intros Hp. unfold getPageContent. rewrite Hp.
  destruct (@getPage_Ok_context contextId pageId s page Hp) as [c Hc].
  rewrite Hc.
  destruct (content d page) as [html|t]; simpl; rewrite update_calls;
    split; auto; congruence.
Qed.

Lemma navigate_Ok d contextId pageId url options s c r s' :
  JsMap.get contextId (contexts s) = Some c -> status c = active ->
  navigate d contextId pageId url options s = (Ok r, s') ->
  exists page,
    newPage d (context c) = Ok page
    /\ r = pageId
    /\ exists c',
         JsMap.get contextId (contexts s') = Some c'
         /\ status c' = active
         /\ pages c' = JsMap.set pageId page (pages c).
Proof.
  intros Hget Hst. unfold navigate.
  rewrite (@getManagedContext_active contextId s c Hget Hst).
  destruct (newPage d (context c)) as [page|t]; [|discriminate].
  destruct (truthy (referer options)) as [ref|]; cbn [fst snd].
  - destruct (setExtraHTTPHeaders d page ref) as [[]|t]; [|discriminate].
    destruct (goto d page url _ _) as [[]|t]; [|discriminate].
    intros [= <- <-]. exists page. repeat split.
    eexists. split.
    + cbn [contexts emit]. apply update_same.
      cbn [contexts emit call]. apply update_same. exact Hget.
    + split; [exact Hst | reflexivity].
  - destruct (goto d page url _ _) as [[]|t]; [|discriminate].
    intros [= <- <-]. exists page. repeat split.
    eexists. split.
    + cbn [contexts emit]. apply update_same.
      cbn [contexts emit call]. apply update_same. exact Hget.
    + split; [exact Hst | reflexivity].
Qed.

(** C5.  On an active context, [getPageContent] without a page id fails
    with [PAGE_NOT_FOUND], and asks the driver nothing, when the context
    has no page; otherwise it reads the page of the last entry of the page
    map, the latest inserted one, whatever the entries before it.  After a
    [navigate] that succeeds under a page id not yet in the map, that page
    is the one the navigation has opened. *)
Theorem default_page_is_latest_inserted :
  forall (d : Playwright) (contextId : string) (pageId : option string)
         (s : State) (c : ManagedContext),
    JsMap.get contextId (contexts s) = Some c ->
    status c = active ->
    truthy pageId = None ->
    (pages c = [] ->
     exists e, getPageContent d contextId pageId s = (Err e, s)
               /\ code e = PAGE_NOT_FOUND)
    /\ (forall older latestId latest,
          pages c = older ++ [(latestId, latest)] ->
          getPage contextId pageId s = Ok latest
          /\ calls (snd (getPageContent d contextId pageId s))
             = calls s ++ [CallContent latest]
          /\ forall html, content d latest = Ok html ->
                          fst (getPageContent d contextId pageId s) = Ok html)
    /\ (forall d' newId url options r s',
          JsMap.get newId (pages c) = None ->
          navigate d' contextId newId url options s = (Ok r, s') ->
          exists page,
            newPage d' (context c) = Ok page
            /\ getPage contextId pageId s' = Ok page
            /\ calls (snd (getPageContent d contextId pageId s'))
               = calls s' ++ [CallContent page]).
Proof.
  intros d contextId pageId s c Hget Hst Hp.
  split; [|split].
  - intros Hnone. eexists. unfold getPageContent.
    rewrite (@getPage_default contextId pageId s c Hget Hst Hp), Hnone.
    simpl. split; reflexivity.
  - intros older latestId latest Hpages.
    assert (Hpage : getPage contextId pageId s = Ok latest).
    { rewrite (@getPage_default contextId pageId s c Hget Hst Hp), Hpages.
      unfold JsMap.values. rewrite map_app. simpl. now rewrite lastOf_app. }
    split; [exact Hpage|]. now apply getPageContent_of_page.
  - intros d' newId url options r s' Hfresh Hnav.
    eapply navigate_Ok in Hnav; eauto.
    destruct Hnav as (page & Hnew & _ & c' & Hget' & Hst' & Hpages').
    exists page. split; [exact Hnew|].
    assert (Hpage : getPage contextId pageId s' = Ok page).
    { rewrite (@getPage_default contextId pageId s' c' Hget' Hst' Hp), Hpages'.
      rewrite set_fresh by assumption.
      unfold JsMap.values. rewrite map_app. simpl. now rewrite lastOf_app. }
    split; [exact Hpage|]. now apply getPageContent_of_page.
Qed.

(** Two navigations, then the content without a page id: that of the
    second page. *)
Lemma default_page_is_latest_inserted_witness :
  let s1 := snd (navigate (working 1%nat) "ctx_1" "page_1" "https://a.example"
                   noOptions oneContext) in
  let s2 := snd (navigate (working 2%nat) "ctx_1" "page_2" "https://b.example"
                   noOptions s1) in
  pagesOf "ctx_1" s2 = Some [("page_1", 1%nat); ("page_2", 2%nat)]
  /\ getPage "ctx_1" None s2 = Ok 2%nat
  /\ fst (getPageContent (working 0%nat) "ctx_1" None s2)
     = Ok "<html>second</html>".
Proof.
  intros s1 s2.
  split; [reflexivity|].
  destruct (@default_page_is_latest_inserted (working 0%nat) "ctx_1" None s2
              {| id := "ctx_1"; browserType := chromium; context := 0%nat;
                 pages := [("page_1", 1%nat); ("page_2", 2%nat)];
                 createdAt := 0; lastAccessedAt := 0;
                 config := {| cfg_browserType := None; cfg_timeout := None |};
                 status := active |}
              eq_refl eq_refl eq_refl) as (_ & H & _).
  destruct (H [("page_1", 1%nat)] "page_2" 2%nat eq_refl) as (H1 & _ & H2).
  split; [exact H1|]. exact (H2 "<html>second</html>" eq_refl).
Defined.

(** ** A navigation that fails *)

Lemma navigate_rejected d contextId pageId url options s c t :
  JsMap.get contextId (contexts s) = Some c -> status c = active ->
  navigationRejected d c url options t ->
  fst (navigate d contextId pageId url options s)
  = Err (navigationError url t).
Proof.
  intros Hget Hst Hrej. unfold navigate.
  rewrite (@getManagedContext_active contextId s c Hget Hst).
  destruct Hrej as [Hnew | (page & Hnew & Hrest)]; rewrite Hnew; auto.
  destruct Hrest as [(r & Hr & Hset) | (Hset & Hgoto)].
  - rewrite Hr. cbn [fst snd]. now rewrite Hset.
  - destruct (truthy (referer options)) as [r|] eqn:Hr; cbn [fst snd].
    + rewrite (Hset r eq_refl). now rewrite Hgoto.
    + now rewrite Hgoto.
Qed.

Lemma navigate_Err_pages d contextId pageId url options s e s' :
  navigate d contextId pageId url options s = (Err e, s') ->
  forall k, pagesOf k s' = pagesOf k s.
Proof.
  unfold navigate.
  destruct (getManagedContext contextId s) as [c|e0]; [|now intros [= _ <-]].
  destruct (newPage d (context c)) as [page|t]; [|now intros [= _ <-]].
  destruct (truthy (referer options)) as [ref|]; cbn [fst snd].
  - destruct (setExtraHTTPHeaders d page ref) as [[]|t];
      [|now intros [= _ <-]].
    destruct (goto d page url _ _) as [[]|t]; [discriminate|].
    intros [= _ <-] k.
    unfold pagesOf. cbn [contexts call emit].
    now apply update_keeps_pages.
  - destruct (goto d page url _ _) as [[]|t]; [discriminate|].
    intros [= _ <-] k.
    unfold pagesOf. cbn [contexts call emit].
    now apply update_keeps_pages.
Qed.

(** C9.  On an active context, a [navigate] that the driver rejects, at
    the opening of the page, at the referer header or at the navigation
    itself, raises an error that carries the code of a navigation failure
    or of a navigation timeout, so it returns no page id; and after any
    [navigate] that raises an error, the page map of the context, as that
    of every context, is what it was before the call. *)
Theorem failed_navigation_keeps_pages :
  forall (d : Playwright) (contextId pageId url : string)
         (options : NavigateOptions) (s : State) (c : ManagedContext),
    JsMap.get contextId (contexts s) = Some c ->
    status c = active ->
    (forall t,
        navigationRejected d c url options t ->
        exists e,
          fst (navigate d contextId pageId url options s) = Err e
          /\ (code e = NAVIGATION_FAILED \/ code e = NAVIGATION_TIMEOUT))
    /\ (forall e s',
          navigate d contextId pageId url options s = (Err e, s') ->
          pagesOf contextId s' = Some (pages c)
          /\ forall k, pagesOf k s' = pagesOf k s).
Proof.
  intros d contextId pageId url options s c Hget Hst. split.
  - intros t Hrej. exists (navigationError url t). split.
    + eapply navigate_rejected; eauto.
    + unfold navigationError. simpl.
      destruct t as [m|v]; [|now left].
      destruct (includes (toLowerCase m) "timeout"); auto.
  - intros e s' Hnav.
    pose proof (navigate_Err_pages _ _ _ _ _ _ Hnav) as H.
    split; [|exact H].
    rewrite H. unfold pagesOf. now rewrite Hget.
Qed.

(** A navigation that times out, on a context with one page. *)
Lemma failed_navigation_keeps_pages_witness :
  let s1 := snd (navigate (working 1%nat) "ctx_1" "page_1" "https://a.example"
                   noOptions oneContext) in
  let d := unreachable 2%nat
             (ThrownError "page.goto: Timeout 50ms exceeded.") in
  let r := navigate d "ctx_1" "page_2" "http://unreachable.invalid"
             noOptions s1 in
  (exists e, fst r = Err e /\ code e = NAVIGATION_TIMEOUT)
  /\ pagesOf "ctx_1" (snd r) = Some [("page_1", 1%nat)].
Proof.
  intros s1 d r.
  split; [eexists; split; reflexivity|].
  destruct (@failed_navigation_keeps_pages d "ctx_1" "page_2"
              "http://unreachable.invalid" noOptions s1
              {| id := "ctx_1"; browserType := chromium; context := 0%nat;
                 pages := [("page_1", 1%nat)];
                 createdAt := 0; lastAccessedAt := 0;
                 config := {| cfg_browserType := None; cfg_timeout := None |};
                 status := active |}
              eq_refl eq_refl) as [_ H].
  exact (proj1 (H _ (snd r) eq_refl)).
Defined.

(** ** Scripts *)

(** C6.  On an active context with at least one page, the page of an
    [executeJavaScript] call without a page id is found; and whenever the
    page is found, the call returns a result, never an error: when the
    script fails in the page the result has [success] false and the
    message of the failure as [error], and otherwise [success] true and
    the value. *)
Theorem script_failure_is_returned :
  forall (d : Playwright) (contextId script : string)
         (pageId : option string) (s : State),
    (forall c,
        JsMap.get contextId (contexts s) = Some c ->
        status c = active -> pages c <> [] -> truthy pageId = None ->
        exists page, getPage contextId pageId s = Ok page)
    /\ (forall page,
          getPage contextId pageId s = Ok page ->
          exists r s',
            executeJavaScript d contextId script pageId s = (Ok r, s')
            /\ calls s' = calls s ++ [CallEvaluate page script]
            /\ (forall t, evaluate d page script = Err t ->
                          r = {| success := false; result := None;
                                 error := Some (thrownText t) |})
            /\ (forall v, evaluate d page script = Ok v ->
                          r = {| success := true; result := Some v;
                                 error := None |})).
Proof.
  intros d contextId script pageId s. split.
  - intros c Hget Hst Hne Hp.
    rewrite (@getPage_default contextId pageId s c Hget Hst Hp).
    destruct (pages c) as [|kv m] using rev_ind; [congruence|].
    unfold JsMap.values. rewrite map_app. simpl. rewrite lastOf_app. eauto.
  - intros page Hp. unfold executeJavaScript. rewrite Hp.
    destruct (@getPage_Ok_context contextId pageId s page Hp) as [c Hc].
    rewrite Hc.
    destruct (evaluate d page script) as [v|t]; eexists _, _;
      (split; [reflexivity|]); cbn [calls call]; rewrite update_calls;
      (split; [reflexivity|]); split; intros x [= <-]; reflexivity.
Qed.

(** A script that throws, on a context with one page. *)
Lemma script_failure_is_returned_witness :
  let s1 := snd (navigate (working 1%nat) "ctx_1" "page_1" "https://a.example"
                   noOptions oneContext) in
  let d := throwing (ThrownError "ReferenceError: x is not defined") in
  getPage "ctx_1" None s1 = Ok 1%nat
  /\ fst (executeJavaScript d "ctx_1" "x.y" None s1)
     = Ok {| success := false; result := None;
             error := Some "ReferenceError: x is not defined" |}.
Proof.
  intros s1 d.
  assert (Hp : getPage "ctx_1" None s1 = Ok 1%nat) by reflexivity.
  split; [exact Hp|].
  destruct (proj2 (script_failure_is_returned d "ctx_1" "x.y" None s1)
              1%nat Hp) as (r & s' & Hrun & _ & Hfail & _).
  rewrite Hrun. simpl. f_equal. exact (Hfail _ eq_refl).
Defined.

End Pages.

(* ===================================================================== *)
(** * The registry of sandboxes across calls *)
(* ===================================================================== *)

Module Registry.

Import Js SandboxManager Statements RegistryStatements JsMapFacts Lifecycle.

(** ** Creation *)

Lemma createSandbox_accepted d sandboxId name cfg s memory container :
  driverAccepts d sandboxId cfg memory container ->
  createSandbox d sandboxId name cfg s
  = (Ok (withStatus RUNNING
           (withContainerId container
              {| id := sandboxId; name := name; status := CREATING;
                 containerId := None; createdAt := clock s;
                 config := withDefaults cfg |})),
     snd (createSandbox d sandboxId name cfg s)).
Proof.
  intros (Hp & Hc & Hs). unfold createSandbox. rewrite Hp, Hc, Hs.
  reflexivity.
Qed.

Lemma createSandbox_accepted_state d sandboxId name cfg s memory container :
  driverAccepts d sandboxId cfg memory container ->
  let info := {| id := sandboxId; name := name; status := RUNNING;
                 containerId := Some container; createdAt := clock s;
                 config := withDefaults cfg |} in
  let s' := snd (createSandbox d sandboxId name cfg s) in
  getSandbox sandboxId s' = Some info
  /\ calls s'
     = calls s
       ++ [CallCreateContainer
             (containerOptions sandboxId (withDefaults cfg) memory);
           CallStart container]
  /\ emitted s' = emitted s ++ [SandboxCreated info].
Proof.
  intros (Hp & Hc & Hs) info s'. unfold s', createSandbox.
  rewrite Hp, Hc, Hs. cbn [snd].
  destruct (timeout (withDefaults cfg)) as [[| |]|];
    (split; [apply (getSandbox_put info)|]);
    (split; [cbn; now rewrite <- app_assoc | reflexivity]).
Qed.



(** ** Entries and keys of the map *)

Lemma set_set {V} (m : JsMap.t V) k v v' :
  JsMap.set k v (JsMap.set k v' m) = JsMap.set k v m.
Proof.
  induction m as [|[k0 v0] m IH]; simpl.
  - now rewrite String.eqb_refl.
  - destruct (String.eqb k k0) eqn:E; simpl; rewrite E; [reflexivity|].
    now rewrite IH.
Qed.

Lemma set_same {V} (m : JsMap.t V) k v :
  JsMap.get k m = Some v -> JsMap.set k v m = m.
Proof.
  induction m as [|[k0 v0] m IH]; simpl; [discriminate|].
  destruct (String.eqb k k0) eqn:E.
  - intros [= ->]. reflexivity.
  - intros H. now rewrite IH.
Qed.

Lemma keys_set {V} (m : JsMap.t V) k v :
  JsMap.keys (JsMap.set k v m)
  = match JsMap.get k m with
    | Some _ => JsMap.keys m
    | None => JsMap.keys m ++ [k]
    end.
Proof.
  induction m as [|[k0 v0] m IH]; simpl; [reflexivity|].
  destruct (String.eqb k k0) eqn:E; simpl; [reflexivity|].
  rewrite IH. now destruct (JsMap.get k m).
Qed.

Lemma keys_delete_filter {V} (m : JsMap.t V) k :
  JsMap.keys (JsMap.delete k m)
  = filter (fun k' => negb (String.eqb k k')) (JsMap.keys m).
Proof.
  induction m as [|[k0 v0] m IH]; simpl; [reflexivity|].
  destruct (String.eqb k k0); simpl; now rewrite IH.
Qed.

Lemma NoDup_keys_set {V} (m : JsMap.t V) k v :
  NoDup (JsMap.keys m) -> NoDup (JsMap.keys (JsMap.set k v m)).
Proof.
  intros H. rewrite keys_set.
  destruct (JsMap.get k m) eqn:G; auto.
  apply get_None_keys in G.
  apply NoDup_app; auto.
  - constructor; [intros [] | constructor].
  - intros x Hx [<-|[]]. contradiction.
Qed.

Lemma NoDup_keys_delete {V} (m : JsMap.t V) k :
  NoDup (JsMap.keys m) -> NoDup (JsMap.keys (JsMap.delete k m)).
Proof.
  intros H. rewrite keys_delete_filter. now apply NoDup_filter.
Qed.

(** Under distinct keys, an entry of the map is what its key looks up. *)
Lemma In_get {V} (m : JsMap.t V) k v :
  NoDup (JsMap.keys m) -> In (k, v) m -> JsMap.get k m = Some v.
Proof.
  induction m as [|[k0 v0] m IH]; simpl; [tauto|].
  intros Hnd [H|H].
  - injection H as -> ->. now rewrite String.eqb_refl.
  - inversion Hnd as [|? ? Hnotin Hnd']; subst.
    destruct (String.eqb k k0) eqn:E; auto.
    apply String.eqb_eq in E. subst k0. exfalso. apply Hnotin.
    unfold JsMap.keys. now apply (in_map fst) in H.
Qed.

(** ** What a step does to the registry *)

Lemma evolves_trans m1 m2 m3 :
  evolves m1 m2 -> evolves m2 m3 -> evolves m1 m3.
Proof.
  intros H12 H23. induction H23; auto; now constructor.
Qed.

Lemma settled_paused sb :
  settled sb -> status sb = RUNNING -> settled (withStatus PAUSED sb).
Proof.
  intros [[_ Hc]|[He _]] Hs; [|congruence]. left. split; auto.
Qed.

Lemma settled_resumed sb :
  settled sb -> status sb = PAUSED -> settled (withStatus RUNNING sb).
Proof.
  intros [[_ Hc]|[He _]] Hs; [|congruence]. left. split; auto.
Qed.

Lemma createSandbox_evolves d sandboxId name cfg s :
  evolves (sandboxes s)
    (sandboxes (snd (createSandbox d sandboxId name cfg s))).
Proof.
  unfold createSandbox.
  set (info := {| id := sandboxId; name := name; status := CREATING;
                  containerId := None; createdAt := clock s;
                  config := withDefaults cfg |}).
  assert (Hfail : forall m s0,
             sandboxes s0 = JsMap.set sandboxId info (sandboxes s) ->
             evolves (sandboxes s)
               (sandboxes (snd (createFailed info m s0)))).
  { intros m s0 Hs0. cbn. rewrite Hs0, set_set.
    apply (evolves_set (sb := withStatus ERROR info)); [constructor|].
    right. split; reflexivity. }
  destruct (parseMemoryLimit _) as [memory|m]; [|now apply Hfail].
  destruct (createContainer d _) as [container|m]; [|now apply Hfail].
  destruct (start d container) as [[]|m]; [|now apply Hfail].
  assert (Hok : evolves (sandboxes s)
                  (JsMap.set sandboxId
                     (withStatus RUNNING (withContainerId container info))
                     (JsMap.set sandboxId info (sandboxes s)))).
  { rewrite set_set.
    apply (evolves_set
             (sb := withStatus RUNNING (withContainerId container info)));
      [constructor|].
    left. split; [now left | now exists container]. }
  destruct (timeout (withDefaults cfg)) as [[| |]|]; exact Hok.
Qed.

Lemma cleanupSandbox_evolves d i s :
  evolves (sandboxes s) (sandboxes (snd (cleanupSandbox d i s))).
Proof.
  rewrite cleanupSandbox_sandboxes.
  destruct (getSandbox i s); repeat constructor.
Qed.

Lemma perform_evolves d i op s :
  wellKeyed s ->
  (forall k sb, In (k, sb) (sandboxes s) -> settled sb) ->
  evolves (sandboxes s) (sandboxes (snd (perform d i op s))).
Proof.
  intros Hwf Hst.
  destruct op; cbn [perform snd];
    try (apply cleanupSandbox_evolves);
    unfold executeInSandbox, pauseSandbox, resumeSandbox, getSandboxStats;
    destruct (JsMap.get i (sandboxes s)) as [sandbox|] eqn:G;
    try constructor.
  - destruct (negb _); [constructor|]. destruct (exec d _ _); [|constructor].
    destruct (execStart d _ _) as [st|]; [|constructor].
    destruct (demultiplex _), (ending st); [|constructor].
    destruct (execInspect d _ _); constructor.
  - destruct (negb _) eqn:E; [constructor|]. apply status_neqb in E.
    destruct (pause d _); [|constructor]. cbn.
    apply get_Some_In in G.
    replace i with (id (withStatus PAUSED sandbox)) by (apply (Hwf _ _ G)).
    apply evolves_set; [constructor|].
    apply settled_paused; eauto.
  - destruct (negb _) eqn:E; [constructor|]. apply status_neqb in E.
    destruct (unpause d _); [|constructor]. cbn.
    apply get_Some_In in G.
    replace i with (id (withStatus RUNNING sandbox)) by (apply (Hwf _ _ G)).
    apply evolves_set; [constructor|].
    apply settled_resumed; eauto.
  - destruct (truthy _); [|constructor]. destruct (stats d _); constructor.
Qed.

Lemma cleanupAll_evolves d ids s :
  evolves (sandboxes s) (sandboxes (cleanupAll d ids s)).
Proof.
  revert s. induction ids as [|i ids IH]; intros s; [constructor|].
  unfold cleanupAll in *. cbn [fold_left].
  eapply evolves_trans; [apply cleanupSandbox_evolves | apply IH].
Qed.

Lemma step_evolves x s :
  wellKeyed s ->
  (forall k sb, In (k, sb) (sandboxes s) -> settled sb) ->
  evolves (sandboxes s) (sandboxes (step s x)).
Proof.
  intros Hwf Hst.
  destruct x as [d i name cfg | d i op | d | d | d t]; cbn [step].
  - apply createSandbox_evolves.
  - now apply perform_evolves.
  - destruct (cleanupStaleSandboxes_as_cleanupAll d s) as (ids & -> & _).
    apply cleanupAll_evolves.
  - unfold shutdown. cbn [sandboxes emit]. apply cleanupAll_evolves.
  - unfold advance. cbn [sandboxes setClock].
    apply (cleanupAll_evolves d _
             (setTimers (filter (fun x => negb (due x <=? t)) (timers s)) s)).
Qed.

(** ** Invariants of the registry *)

Lemma evolves_settled m m' :
  evolves m m' ->
  (forall k sb, In (k, sb) m -> settled sb) ->
  forall k sb, In (k, sb) m' -> settled sb.
Proof.
  intros He Hm. induction He as [|m' sb0 He IH Hsb|m' k0 He IH];
    intros k sb Hin; eauto.
  - apply In_set in Hin. destruct Hin as [[= _ ->]|Hin]; eauto.
  - apply In_delete in Hin. destruct Hin as [Hin _]. eauto.
Qed.

Lemma evolves_uniqueKeys m m' :
  evolves m m' -> NoDup (JsMap.keys m) -> NoDup (JsMap.keys m').
Proof.
  intros He Hm. induction He; auto using NoDup_keys_set, NoDup_keys_delete.
Qed.

Lemma run_invariants xs s :
  wellKeyed s -> uniqueKeys s ->
  (forall k sb, In (k, sb) (sandboxes s) -> settled sb) ->
  uniqueKeys (run xs s)
  /\ forall k sb, In (k, sb) (sandboxes (run xs s)) -> settled sb.
Proof.
  revert s. induction xs as [|x xs IH]; intros s Hwf Hu Hst; [now split|].
  unfold run in *. cbn [fold_left].
  pose proof (step_evolves x Hwf Hst) as He.
  apply IH.
  - now apply step_wellKeyed.
  - unfold uniqueKeys. eapply evolves_uniqueKeys; eauto.
  - eapply evolves_settled; eauto.
Qed.

Lemma reachable_invariants s :
  reachable s ->
  wellKeyed s /\ uniqueKeys s
  /\ forall k sb, In (k, sb) (sandboxes s) -> settled sb.
Proof.
  intros Hr. split; [now apply reachable_wellKeyed|].
  destruct Hr as [xs ->]. apply run_invariants.
  - intros k sb [].
  - constructor.
  - intros k sb [].
Qed.

(** X2.  Between two calls, whatever calls, sweeps, shutdowns and timers
    came before, every sandbox of the list is settled: it is running or
    paused and has the container the driver gave it, or it is in error
    and has none.  No listed sandbox is creating or stopped, and none is
    running without a container. *)
Theorem listed_sandboxes_are_settled :
  forall (s : State) (sb : SandboxInfo),
    reachable s ->
    In sb (listSandboxes s) ->
    settled sb
    /\ status sb <> CREATING /\ status sb <> STOPPED
    /\ (status sb = RUNNING -> containerId sb <> None).
Proof.
  intros s sb Hr Hin.
  destruct (reachable_invariants Hr) as (_ & _ & Hst).
  unfold listSandboxes, JsMap.values in Hin. apply in_map_iff in Hin.
  destruct Hin as [[k sb'] [Heq Hin]]. simpl in Heq. subst sb'.
  pose proof (Hst _ _ Hin) as H. split; [exact H|].
  destruct H as [[[H|H] [c Hc]]|[H Hc]]; rewrite H;
    repeat split; try discriminate; intros _; congruence.
Qed.

Lemma listed_sandboxes_are_settled_witness :
  let s := run [Create healthy "sb_1" "one" noConfig;
                Create (refusing "no such image") "sb_2" "two" noConfig;
                On healthy "sb_1" Pause] initial in
  reachable s
  /\ map status (listSandboxes s) = [PAUSED; ERROR]
  /\ Forall settled (listSandboxes s).
Proof.
  intros s.
  assert (Hr : reachable s) by (eexists; reflexivity).
  split; [exact Hr|]. split; [reflexivity|].
  apply Forall_forall. intros sb Hin.
  exact (proj1 (@listed_sandboxes_are_settled s sb Hr Hin)).
Defined.

(** X3.  Between two calls, the list and the lookup agree: a sandbox is
    in the list if and only if looking up its own identifier returns it,
    and no two sandboxes of the list have the same identifier. *)
Theorem list_and_lookup_agree :
  forall (s : State),
    reachable s ->
    (forall sb, In sb (listSandboxes s) <-> getSandbox (id sb) s = Some sb)
    /\ NoDup (map id (listSandboxes s)).
Proof.
  intros s Hr.
  destruct (reachable_invariants Hr) as (Hwf & Hu & _).
  assert (Hids : map id (listSandboxes s) = JsMap.keys (sandboxes s)).
  { unfold listSandboxes, JsMap.values, JsMap.keys. rewrite map_map.
    apply map_ext_in. intros [k sb] Hin. simpl. now apply Hwf. }
  split; [|now rewrite Hids].
  intros sb. unfold listSandboxes, JsMap.values, getSandbox. split.
  - intros Hin. apply in_map_iff in Hin.
    destruct Hin as [[k sb'] [Heq Hin]]. simpl in Heq. subst sb'.
    rewrite (Hwf _ _ Hin). now apply In_get.
  - intros Hget. apply get_Some_In in Hget. now apply (in_map snd) in Hget.
Qed.

Lemma list_and_lookup_agree_witness :
  let s := run [Create healthy "sb_1" "one" noConfig;
                Create healthy "sb_2" "two" noConfig;
                On healthy "sb_1" Cleanup] initial in
  reachable s
  /\ map id (listSandboxes s) = ["sb_2"]
  /\ NoDup (map id (listSandboxes s)).
Proof.
  intros s.
  assert (Hr : reachable s) by (eexists; reflexivity).
  split; [exact Hr|]. split; [reflexivity|].
  exact (proj2 (@list_and_lookup_agree s Hr)).
Defined.

(** ** Calls that follow one another *)

Lemma executeInSandbox_running d i command s sb :
  getSandbox i s = Some sb -> status sb = RUNNING ->
  let container := bang (containerId sb) in
  (exists rest,
      calls (snd (executeInSandbox d i command s))
      = calls s ++ CallExec container command :: rest)
  /\ forall stream code,
       exec d container command = Ok tt ->
       execStart d container command = Ok stream ->
       ending stream = StreamEnded ->
       execInspect d container command = Ok code ->
       fst (executeInSandbox d i command s)
       = Ok {| stdout := trim (fst (demultiplex (chunks stream)));
               stderr := trim (snd (demultiplex (chunks stream)));
               exitCode := orZero code |}.
Proof.
  intros Hget Hst container. unfold getSandbox in Hget.
  unfold executeInSandbox. rewrite Hget, Hst. cbn [status_eqb negb].
  fold container. split.
  - destruct (exec d container command) as [[]|m]; [|now exists []].
    destruct (execStart d container command) as [st|m];
      [|exists [CallExecStart container command]; cbn;
        now rewrite <- app_assoc].
    destruct (demultiplex (chunks st)) as [out err].
    destruct (ending st).
    + destruct (execInspect d container command);
        exists [CallExecStart container command;
                CallExecInspect container command];
        cbn; now rewrite <- !app_assoc.
    + exists [CallExecStart container command]. cbn.
      now rewrite <- app_assoc.
  - intros stream code He Hs Hend Hi. rewrite He, Hs.
    destruct (demultiplex (chunks stream)) as [out err].
    now rewrite Hend, Hi.
Qed.

(** X4.  A command sent to a sandbox right after its creation reaches the
    driver, for the container that the creation has started.  If the
    driver runs the command and its stream ends, the call succeeds
    whatever the exit code, zero or not, and reports the code, or 0 when
    the driver reports none. *)
Theorem create_then_execute :
  forall (d d' : Docker) (sandboxId name : string) (cfg : SandboxConfig)
         (s : State) (memory : Number) (container : string)
         (command : list string),
    driverAccepts d sandboxId cfg memory container ->
    let s1 := snd (createSandbox d sandboxId name cfg s) in
    (exists rest,
        calls (snd (executeInSandbox d' sandboxId command s1))
        = calls s1 ++ CallExec container command :: rest)
    /\ forall stream code,
         exec d' container command = Ok tt ->
         execStart d' container command = Ok stream ->
         ending stream = StreamEnded ->
         execInspect d' container command = Ok code ->
         fst (executeInSandbox d' sandboxId command s1)
         = Ok {| stdout := trim (fst (demultiplex (chunks stream)));
                 stderr := trim (snd (demultiplex (chunks stream)));
                 exitCode := orZero code |}.
Proof.
  intros d d' sandboxId name cfg s memory container command H s1.
  destruct (createSandbox_accepted_state name s H) as (Hget & _).
  exact (@executeInSandbox_running d' sandboxId command s1 _ Hget eq_refl).
Qed.

Lemma create_then_execute_witness :
  let s1 := snd (createSandbox healthy "sb_1" "exec-test" noConfig initial) in
  driverAccepts healthy "sb_1" noConfig (Finite 536870912) "c-sandbox-sb_1"
  /\ fst (executeInSandbox (exiting (Some 3)) "sb_1" ["false"] s1)
     = Ok {| stdout := []; stderr := []; exitCode := 3 |}.
Proof.
  intros s1.
  assert (H : driverAccepts healthy "sb_1" noConfig (Finite 536870912)
                "c-sandbox-sb_1") by (repeat split).
  split; [exact H|].
  exact (proj2 (@create_then_execute healthy (exiting (Some 3)) "sb_1"
                  "exec-test" noConfig initial _ _ ["false"] H)
           {| chunks := []; ending := StreamEnded |} (Some 3)
           eq_refl eq_refl eq_refl eq_refl).
Defined.

Lemma createSandbox_other d i name cfg s k :
  k <> i ->
  getSandbox k (snd (createSandbox d i name cfg s)) = getSandbox k s.
Proof.
  intros Hne. unfold getSandbox.
  destruct (createSandbox_sandboxes d i name cfg s)
    as (sb0 & sb & _ & _ & ->).
  now rewrite !get_set_other.
Qed.

(** X5.  A call made for one sandbox, be it its creation, a command, a
    pause, a resume, a cleanup or a reading of its counters, and however
    the driver answers, leaves the entry of every other sandbox as it
    was. *)
Theorem calls_touch_one_sandbox :
  forall (x : Step) (s : State) (sandboxId other : string),
    addressee x = Some sandboxId ->
    other <> sandboxId ->
    getSandbox other (step s x) = getSandbox other s.
Proof.
  intros x s sandboxId other Hx Hne.
  destruct x as [d i name cfg | d i op | d | d | d t]; cbn in Hx;
    try discriminate; injection Hx as ->; cbn [step].
  - now apply createSandbox_other.
  - apply perform_other. left. congruence.
Qed.

Lemma calls_touch_one_sandbox_witness :
  let s := run [Create healthy "sb_1" "one" noConfig;
                Create healthy "sb_2" "two" noConfig] initial in
  addressee (On healthy "sb_2" Cleanup) = Some "sb_2"
  /\ "sb_1" <> "sb_2"
  /\ getSandbox "sb_2" (step s (On healthy "sb_2" Cleanup)) = None
  /\ getSandbox "sb_1" (step s (On healthy "sb_2" Cleanup))
     = getSandbox "sb_1" s.
Proof.
  intros s.
  assert (H1 : addressee (On healthy "sb_2" Cleanup) = Some "sb_2")
    by reflexivity.
  assert (H2 : "sb_1" <> "sb_2") by discriminate.
  split; [exact H1|]. split; [exact H2|]. split; [reflexivity|].
  exact (@calls_touch_one_sandbox (On healthy "sb_2" Cleanup) s
           "sb_2" "sb_1" H1 H2).
Defined.

(** ** Pause and resume *)

Lemma withStatus_own sb : withStatus (status sb) sb = sb.
Proof. now destruct sb. Qed.

(** X6.  A pause followed by a resume, both accepted by the driver, puts
    the registry back exactly as it was, entry for entry and in the same
    order; the driver has been asked to pause and then to unpause the
    container of the sandbox, and no timer has been touched. *)
Theorem pause_then_resume_restores :
  forall (d d' : Docker) (sandboxId : string) (s : State)
         (sb : SandboxInfo),
    getSandbox sandboxId s = Some sb ->
    status sb = RUNNING ->
    pause d (bang (containerId sb)) = Ok tt ->
    unpause d' (bang (containerId sb)) = Ok tt ->
    exists s1 s2,
      pauseSandbox d sandboxId s = (Ok tt, s1)
      /\ resumeSandbox d' sandboxId s1 = (Ok tt, s2)
      /\ sandboxes s2 = sandboxes s
      /\ timers s2 = timers s
      /\ calls s2
         = calls s ++ [CallPause (bang (containerId sb));
                       CallUnpause (bang (containerId sb))]
      /\ emitted s2
         = emitted s ++ [SandboxPaused (withStatus PAUSED sb);
                         SandboxResumed sb].
Proof.
  intros d d' sandboxId s sb Hget Hst Hp Hu. unfold getSandbox in Hget.
  eexists _, _. split.
  { unfold pauseSandbox. rewrite Hget, Hst. cbn [status_eqb negb].
    rewrite Hp. reflexivity. }
  assert (Hsb : withStatus RUNNING (withStatus PAUSED sb) = sb).
  { rewrite <- Hst. now destruct sb. }
  split.
  { unfold resumeSandbox. cbn [sandboxes emit setSandboxes call].
    rewrite get_set_same. cbn [status withStatus status_eqb negb].
    cbn [containerId withStatus]. rewrite Hu. reflexivity. }
  cbn [sandboxes emit setSandboxes call timers calls emitted].
  rewrite Hsb, set_set, (set_same _ _ Hget), <- !app_assoc.
  repeat split.
Qed.

Lemma pause_then_resume_restores_witness :
  let s := run [Create healthy "sb_1" "pause-test" noConfig] initial in
  (exists sb, getSandbox "sb_1" s = Some sb /\ status sb = RUNNING)
  /\ exists s1 s2,
       pauseSandbox healthy "sb_1" s = (Ok tt, s1)
       /\ resumeSandbox healthy "sb_1" s1 = (Ok tt, s2)
       /\ sandboxes s2 = sandboxes s.
Proof.
  intros s.
  assert (Hget : getSandbox "sb_1" s
                 = Some {| id := "sb_1"; name := "pause-test";
                           status := RUNNING;
                           containerId := Some "c-sandbox-sb_1";
                           createdAt := 0;
                           config := withDefaults noConfig |})
    by reflexivity.
  split; [eexists; split; [exact Hget | reflexivity]|].
  destruct (@pause_then_resume_restores healthy healthy "sb_1" s _ Hget
              eq_refl eq_refl eq_refl)
    as (s1 & s2 & H1 & H2 & H3 & _).
  exists s1, s2. repeat split; assumption.
Defined.

(** X7.  When the driver rejects a pause, [pauseSandbox] raises
    [Failed to pause sandbox: ...] with the driver's message and the
    sandbox stays running; when it rejects an unpause, [resumeSandbox]
    raises [Failed to resume sandbox: ...] and the sandbox stays paused.
    In both cases the registry is untouched and no event is emitted. *)
Theorem rejected_pause_changes_no_status :
  forall (d : Docker) (sandboxId : string) (s : State) (sb : SandboxInfo)
         (m : string),
    getSandbox sandboxId s = Some sb ->
    (status sb = RUNNING ->
     pause d (bang (containerId sb)) = Err m ->
     fst (pauseSandbox d sandboxId s) = Err (Failed "pause sandbox" m)
     /\ sandboxes (snd (pauseSandbox d sandboxId s)) = sandboxes s
     /\ emitted (snd (pauseSandbox d sandboxId s)) = emitted s)
    /\ (status sb = PAUSED ->
        unpause d (bang (containerId sb)) = Err m ->
        fst (resumeSandbox d sandboxId s) = Err (Failed "resume sandbox" m)
        /\ sandboxes (snd (resumeSandbox d sandboxId s)) = sandboxes s
        /\ emitted (snd (resumeSandbox d sandboxId s)) = emitted s).
Proof.
  intros d sandboxId s sb m Hget. unfold getSandbox in Hget. split.
  - intros Hst Hp. unfold pauseSandbox. rewrite Hget, Hst.
    cbn [status_eqb negb]. rewrite Hp. repeat split.
  - intros Hst Hu. unfold resumeSandbox. rewrite Hget, Hst.
    cbn [status_eqb negb]. rewrite Hu. repeat split.
Qed.

Lemma rejected_pause_changes_no_status_witness :
  let s := run [Create healthy "sb_1" "one" noConfig] initial in
  let r := pauseSandbox (frozen "cannot pause") "sb_1" s in
  (exists sb, getSandbox "sb_1" s = Some sb /\ status sb = RUNNING)
  /\ fst r = Err (Failed "pause sandbox" "cannot pause")
  /\ option_map status (getSandbox "sb_1" (snd r)) = Some RUNNING.
Proof.
  intros s r.
  assert (Hget : getSandbox "sb_1" s
                 = Some {| id := "sb_1"; name := "one"; status := RUNNING;
                           containerId := Some "c-sandbox-sb_1";
                           createdAt := 0;
                           config := withDefaults noConfig |})
    by reflexivity.
  split; [eexists; split; [exact Hget | reflexivity]|].
  destruct (proj1 (@rejected_pause_changes_no_status
                     (frozen "cannot pause") "sb_1" s _ "cannot pause" Hget)
              eq_refl eq_refl) as (H1 & H2 & _).
  split; [exact H1|]. unfold getSandbox, r. now rewrite H2.
Defined.

(** ** Cleanup *)

Lemma createSandbox_rejected_state d sandboxId name cfg s m :
  driverRejects d sandboxId cfg m ->
  let s' := snd (createSandbox d sandboxId name cfg s) in
  getSandbox sandboxId s'
  = Some {| id := sandboxId; name := name; status := ERROR;
            containerId := None; createdAt := clock s;
            config := withDefaults cfg |}
  /\ emitted s' = emitted s
  /\ timers s' = timers s.
Proof.
  intros (memory & Hp & H) s'. unfold s', createSandbox. rewrite Hp.
  destruct H as [H | (container & H1 & H2)].
  - rewrite H. cbn [snd createFailed]. split; [|split; reflexivity].
    apply (getSandbox_put
             (withStatus ERROR
                {| id := sandboxId; name := name; status := CREATING;
                   containerId := None; createdAt := clock s;
                   config := withDefaults cfg |})).
  - rewrite H1, H2. cbn [snd createFailed]. split; [|split; reflexivity].
    apply (getSandbox_put
             (withStatus ERROR
                {| id := sandboxId; name := name; status := CREATING;
                   containerId := None; createdAt := clock s;
                   config := withDefaults cfg |})).
Qed.

(** X8.  The cleanup of a sandbox that was created on a container
    succeeds whatever the driver answers, removes the entry and emits
    [sandbox:cleaned].  It asks the driver to stop the container with a
    grace of 10 seconds, and then to remove it by force exactly when the
    configuration given at creation had [autoRemove] set to false: by
    default the container is left to remove itself. *)
Theorem cleanup_removes_unless_auto_removed :
  forall (d d' : Docker) (sandboxId name : string) (cfg : SandboxConfig)
         (s : State) (memory : Number) (container : string),
    driverAccepts d sandboxId cfg memory container ->
    container <> "" ->
    let s1 := snd (createSandbox d sandboxId name cfg s) in
    let r := cleanupSandbox d' sandboxId s1 in
    fst r = Ok tt
    /\ getSandbox sandboxId (snd r) = None
    /\ calls (snd r)
       = calls s1
         ++ CallStop container 10
            :: match autoRemove cfg with
               | Some false => [CallRemove container true]
               | _ => []
               end
    /\ emitted (snd r) = emitted s1 ++ [SandboxCleaned sandboxId].
Proof.
  intros d d' sandboxId name cfg s memory container H Hne s1 r.
  destruct (createSandbox_accepted_state name s H) as (Hget & _).
  fold s1 in Hget. unfold r.
  rewrite (@cleanupSandbox_Some d' sandboxId s1 _ Hget). cbn [fst snd].
  split; [reflexivity|]. split.
  { unfold getSandbox. cbn [sandboxes emit setSandboxes].
    apply get_delete_same. }
  unfold teardown. cbn [containerId config]. rewrite (@truthy_Some container Hne).
  unfold withDefaults. cbn [autoRemove].
  destruct (autoRemove cfg) as [[]|]; cbn; rewrite <- ?app_assoc;
    split; reflexivity.
Qed.

Lemma cleanup_removes_unless_auto_removed_witness :
  let s1 := snd (createSandbox healthy "sb_1" "kept" keepingContainer
                   initial) in
  driverAccepts healthy "sb_1" keepingContainer (Finite 536870912)
    "c-sandbox-sb_1"
  /\ "c-sandbox-sb_1" <> ""
  /\ calls (snd (cleanupSandbox (refusing "gone") "sb_1" s1))
     = calls s1 ++ [CallStop "c-sandbox-sb_1" 10;
                    CallRemove "c-sandbox-sb_1" true].
Proof.
  intros s1.
  assert (H : driverAccepts healthy "sb_1" keepingContainer
                (Finite 536870912) "c-sandbox-sb_1") by (repeat split).
  assert (Hne : "c-sandbox-sb_1" <> "") by discriminate.
  split; [exact H|]. split; [exact Hne|].
  exact (proj1 (proj2 (proj2
           (@cleanup_removes_unless_auto_removed healthy (refusing "gone")
              "sb_1" "kept" keepingContainer initial _ _ H Hne)))).
Defined.

(** X9.  A sandbox whose creation the driver rejected has no container
    handle, also when the container had been allocated and only its start
    failed.  Reading its counters fails with [not found or not running]
    and its cleanup succeeds and removes the entry, both without a single
    call to the driver: the manager never stops or removes a container
    that it could not start. *)
Theorem failed_creation_leaves_no_handle :
  forall (d d' : Docker) (sandboxId name : string) (cfg : SandboxConfig)
         (s : State) (m : string),
    driverRejects d sandboxId cfg m ->
    let s1 := snd (createSandbox d sandboxId name cfg s) in
    getSandboxStats d' sandboxId s1
    = (Err (NotFoundOrNotRunning sandboxId), s1)
    /\ fst (cleanupSandbox d' sandboxId s1) = Ok tt
    /\ calls (snd (cleanupSandbox d' sandboxId s1)) = calls s1
    /\ getSandbox sandboxId (snd (cleanupSandbox d' sandboxId s1)) = None.
Proof.
  intros d d' sandboxId name cfg s m H s1.
  destruct (createSandbox_rejected_state name s H) as (Hget & _).
  fold s1 in Hget. split.
  { unfold getSandboxStats. unfold getSandbox in Hget. now rewrite Hget. }
  rewrite (@cleanupSandbox_Some d' sandboxId s1 _ Hget). cbn [fst snd].
  split; [reflexivity|]. split; [reflexivity|].
  unfold getSandbox. cbn [sandboxes emit setSandboxes].
  apply get_delete_same.
Qed.

Lemma failed_creation_leaves_no_handle_witness :
  let s1 := snd (createSandbox (stalling "no such image") "sb_1" "lost"
                   noConfig initial) in
  driverRejects (stalling "no such image") "sb_1" noConfig "no such image"
  /\ In (CallStart "c-sandbox-sb_1") (calls s1)
  /\ calls (snd (cleanupSandbox healthy "sb_1" s1)) = calls s1.
Proof.
  intros s1.
  assert (H : driverRejects (stalling "no such image") "sb_1" noConfig
                "no such image").
  { exists (Finite 536870912). split; [reflexivity|]. right.
    exists "c-sandbox-sb_1". split; reflexivity. }
  split; [exact H|]. split; [right; left; reflexivity|].
  exact (proj1 (proj2 (proj2
           (@failed_creation_leaves_no_handle (stalling "no such image")
              healthy "sb_1" "lost" noConfig initial _ H)))).
Defined.

(** ** Commands and counters read only *)

(** X10.  Running a command in a sandbox and reading the counters of a
    sandbox never change the registry, the pending timers or the emitted
    events, whatever the identifier, the state of the sandbox and the
    answers of the driver; the calls already sent to the driver stay a
    prefix of the calls sent. *)
Theorem commands_and_counters_read_only :
  forall (d : Docker) (sandboxId : string) (command : list string)
         (s : State),
    let s1 := snd (executeInSandbox d sandboxId command s) in
    let s2 := snd (getSandboxStats d sandboxId s) in
    (sandboxes s1 = sandboxes s /\ timers s1 = timers s
     /\ emitted s1 = emitted s /\ exists cs, calls s1 = calls s ++ cs)
    /\ (sandboxes s2 = sandboxes s /\ timers s2 = timers s
        /\ emitted s2 = emitted s /\ exists cs, calls s2 = calls s ++ cs).
Proof.
  intros d sandboxId command s. cbv zeta.
  assert (Hnil : exists cs, calls s = calls s ++ cs)
    by (exists []; now rewrite app_nil_r).
  split.
  - unfold executeInSandbox.
    destruct (JsMap.get sandboxId (sandboxes s)) as [sb|];
      [|repeat split; exact Hnil].
    destruct (negb _); [repeat split; exact Hnil|].
    destruct (exec d _ _) as [[]|]; [|repeat split; now eexists].
    destruct (execStart d _ _) as [st|];
      [|repeat split; cbn; rewrite <- app_assoc; now eexists].
    destruct (demultiplex _), (ending st);
      [|repeat split; cbn; rewrite <- app_assoc; now eexists].
    destruct (execInspect d _ _);
      repeat split; cbn; rewrite <- !app_assoc; now eexists.
  - unfold getSandboxStats.
    destruct (JsMap.get sandboxId (sandboxes s)) as [sb|];
      [|repeat split; exact Hnil].
    destruct (truthy _); [|repeat split; exact Hnil].
    destruct (stats d _); repeat split; now eexists.
Qed.

(** ** Cleaning many sandboxes *)

Lemma delete_absent {V} (m : JsMap.t V) k :
  JsMap.get k m = None -> JsMap.delete k m = m.
Proof.
  induction m as [|[k0 v0] m IH]; simpl; [reflexivity|].
  destruct (String.eqb k k0); [discriminate|].
  intros H. simpl. f_equal. now apply IH.
Qed.

Lemma cleanupSandbox_deletes d i s :
  sandboxes (snd (cleanupSandbox d i s)) = JsMap.delete i (sandboxes s).
Proof.
  rewrite cleanupSandbox_sandboxes.
  destruct (getSandbox i s) eqn:G; [reflexivity|].
  symmetry. now apply delete_absent.
Qed.

Lemma filter_filter {A} (f g : A -> bool) (l : list A) :
  filter f (filter g l) = filter (fun x => g x && f x) l.
Proof.
  induction l as [|x l IH]; simpl; [reflexivity|].
  destruct (g x); simpl; [destruct (f x)|]; now rewrite IH.
Qed.

Lemma filter_all {A} (f : A -> bool) (l : list A) :
  (forall x, In x l -> f x = true) -> filter f l = l.
Proof.
  induction l as [|x l IH]; simpl; intros H; [reflexivity|].
  rewrite (H x) by now left. f_equal. apply IH. intros y Hy. apply H.
  now right.
Qed.

Lemma filter_none {A} (f : A -> bool) (l : list A) :
  (forall x, In x l -> f x = false) -> filter f l = [].
Proof.
  induction l as [|x l IH]; simpl; intros H; [reflexivity|].
  rewrite (H x) by now left. apply IH. intros y Hy. apply H. now right.
Qed.

Lemma map_filter {A B} (f : A -> B) (p : B -> bool) (l : list A) :
  map f (filter (fun x => p (f x)) l) = filter p (map f l).
Proof.
  induction l as [|x l IH]; simpl; [reflexivity|].
  destruct (p (f x)); simpl; now rewrite IH.
Qed.

(** The registry after the cleanup of [ids]: the entries under the other
    keys, in their order. *)
Lemma cleanupAll_sandboxes d ids s :
  sandboxes (cleanupAll d ids s)
  = filter (fun e => negb (existsb (String.eqb (fst e)) ids)) (sandboxes s).
Proof.
  revert s. induction ids as [|i ids IH]; intros s.
  - cbn. symmetry. now apply filter_all.
  - unfold cleanupAll in *. cbn [fold_left]. rewrite IH.
    rewrite cleanupSandbox_deletes. unfold JsMap.delete.
    rewrite filter_filter. apply filter_ext. intros [k v]. cbn.
    rewrite (String.eqb_sym i k). now rewrite negb_orb.
Qed.

Lemma cleanupAll_noop d ids s :
  (forall i, In i ids -> getSandbox i s = None) -> cleanupAll d ids s = s.
Proof.
  induction ids as [|i ids IH]; intros H; [reflexivity|].
  unfold cleanupAll in *. cbn [fold_left].
  assert (Hi : snd (cleanupSandbox d i s) = s).
  { unfold cleanupSandbox. unfold getSandbox in H.
    now rewrite (H i (or_introl eq_refl)). }
  rewrite Hi. apply IH. intros j Hj. apply H. now right.
Qed.

Lemma cleanupSandbox_emitted d i s e :
  In e (emitted s) -> In e (emitted (snd (cleanupSandbox d i s))).
Proof.
  intros H. unfold cleanupSandbox, teardown.
  destruct (JsMap.get i (sandboxes s)) as [sb|]; [|exact H].
  cbn [snd emitted emit setSandboxes]. apply in_or_app. left.
  destruct (truthy _); [|exact H].
  destruct (autoRemove _) as [[]|]; exact H.
Qed.

Lemma cleanupAll_emitted d ids s e :
  In e (emitted s) -> In e (emitted (cleanupAll d ids s)).
Proof.
  revert s. induction ids as [|i ids IH]; intros s H; [exact H|].
  unfold cleanupAll in *. cbn [fold_left].
  now apply IH, cleanupSandbox_emitted.
Qed.

Lemma cleanupAll_emits d ids s k :
  In k ids -> getSandbox k s <> None ->
  In (SandboxCleaned k) (emitted (cleanupAll d ids s)).
Proof.
  revert s. induction ids as [|i ids IH]; intros s Hin Hk; [destruct Hin|].
  unfold cleanupAll in *. cbn [fold_left].
  destruct (string_dec i k) as [->|Hne].
  - apply (cleanupAll_emitted d ids). unfold cleanupSandbox.
    unfold getSandbox in Hk.
    destruct (JsMap.get k (sandboxes s)); [|contradiction].
    cbn [snd emitted emit]. apply in_or_app. right. now left.
  - destruct Hin as [Heq|Hin]; [contradiction|].
    apply IH; [exact Hin|].
    replace (snd (cleanupSandbox d i s))
      with (snd (perform d i Cleanup s)) by reflexivity.
    rewrite perform_other; [exact Hk|]. left. congruence.
Qed.

Lemma keys_present {V} (m : JsMap.t V) k :
  In k (JsMap.keys m) -> JsMap.get k m <> None.
Proof.
  intros Hin Hget. now apply get_None_keys in Hget.
Qed.

Lemma cleanupAll_calls_of_absent d ids s :
  sandboxes s = JsMap.empty -> cleanupAll d ids s = s.
Proof.
  intros H. apply cleanupAll_noop. intros i _. unfold getSandbox.
  now rewrite H.
Qed.

Lemma listed_settled_status s sb :
  (forall k sb, In (k, sb) (sandboxes s) -> settled sb) ->
  In sb (listSandboxes s) ->
  status sb <> CREATING /\ status sb <> STOPPED.
Proof.
  intros Hst Hin.
  unfold listSandboxes, JsMap.values in Hin. apply in_map_iff in Hin.
  destruct Hin as [[k sb'] [Heq Hin]]. simpl in Heq. subst sb'.
  destruct (Hst _ _ Hin) as [[[H|H] _]|[H _]]; rewrite H;
    split; discriminate.
Qed.


(** X12.  A sweep removes from the registry exactly the sandboxes that
    are older than their timeout at the time of the sweep, where a
    timeout of 0 counts as 300000 ms, and keeps the others in their
    order; a sandbox whose age equals its timeout is kept.  The sweep
    touches no timer. *)
Theorem sweep_removes_the_stale :
  forall (d : Docker) (s : State),
    reachable s ->
    let s' := cleanupStaleSandboxes d s in
    listSandboxes s'
    = filter (fun sb => negb (isStale (clock s) sb)) (listSandboxes s)
    /\ (forall sb,
           In sb (listSandboxes s') <->
           In sb (listSandboxes s)
           /\ clock s - createdAt sb
              <= match timeout (config sb) with
                 | Some 0 | None => 300000
                 | Some ms => ms
                 end)
    /\ timers s' = timers s.
Proof.
  intros d s Hr s'.
  destruct (reachable_invariants Hr) as (Hwf & Hu & Hst).
  set (ids := JsMap.keys
                (filter (fun e => isStale (clock s) (snd e))
                   (JsMap.entries (sandboxes s)))).
  assert (Hs' : sandboxes s' = sandboxes (cleanupAll d ids s)
                /\ timers s' = timers (cleanupAll d ids s)).
  { unfold s', cleanupStaleSandboxes. fold ids.
    destruct ids; split; reflexivity. }
  destruct Hs' as (Hsb & Htm).
  assert (Hlist : listSandboxes s'
                  = filter (fun sb => negb (isStale (clock s) sb))
                      (listSandboxes s)).
  { unfold listSandboxes, JsMap.values. rewrite Hsb, cleanupAll_sandboxes.
    rewrite <- map_filter. f_equal. apply filter_ext_in.
    intros [k v] Hin. cbn [fst snd]. f_equal.
    destruct (isStale (clock s) v) eqn:E.
    - apply existsb_exists. exists k. split; [|apply String.eqb_refl].
      unfold ids, JsMap.keys, JsMap.entries.
      apply (in_map fst (filter _ _) (k, v)), filter_In. now split.
    - destruct (existsb _ ids) eqn:X; [|reflexivity].
      apply existsb_exists in X. destruct X as (k' & Hk' & Heq).
      apply String.eqb_eq in Heq. subst k'.
      unfold ids, JsMap.keys, JsMap.entries in Hk'.
      apply in_map_iff in Hk'. destruct Hk' as ([k' v'] & Hfst & Hf).
      cbn in Hfst. subst k'. apply filter_In in Hf.
      destruct Hf as (Hin' & Hstale). cbn in Hstale.
      pose proof (@In_get _ _ _ _ Hu Hin) as G.
      pose proof (@In_get _ _ _ _ Hu Hin') as G'.
      rewrite G in G'. injection G' as ->. congruence. }
  split; [exact Hlist|]. split; [|rewrite Htm; apply cleanupAll_timers].
  intros sb. rewrite Hlist, filter_In.
  split; intros (Hin & H); (split; [exact Hin|]).
  - apply negb_true_iff in H. unfold isStale in H.
    apply andb_false_iff in H. destruct H as [H|H].
    + apply Z.ltb_ge in H. exact H.
    + destruct (@listed_settled_status s sb Hst Hin) as (_ & Hns).
      apply negb_false_iff, status_eqb_eq in H. contradiction.
  - apply negb_true_iff. unfold isStale. apply andb_false_iff. left.
    now apply Z.ltb_ge.
Qed.

Lemma sweep_removes_the_stale_witness :
  let s := run [Create healthy "sb_1" "old" (withTimeout 0);
                Advance healthy 300001;
                Create healthy "sb_2" "new" noConfig] initial in
  reachable s
  /\ timers s = [{| due := 600001; target := "sb_2" |}]
  /\ map id (listSandboxes s) = ["sb_1"; "sb_2"]
  /\ map id (listSandboxes (cleanupStaleSandboxes healthy s)) = ["sb_2"].
Proof.
  intros s.
  assert (Hr : reachable s) by (eexists; reflexivity).
  split; [exact Hr|]. split; [reflexivity|]. split; [reflexivity|].
  rewrite (proj1 (@sweep_removes_the_stale healthy s Hr)). reflexivity.
Defined.

(** ** Timers *)

(** X13.  When the sandboxes of the timers that are due have already
    been removed, by an explicit cleanup, a sweep or a shutdown, the
    firing of those timers changes nothing: no call reaches the driver,
    no event is emitted and the registry stays as it is.  Only the
    timers that are not yet due stay pending. *)
Theorem late_timers_do_nothing :
  forall (d : Docker) (t : Z) (s : State),
    (forall tm, In tm (timers s) -> due tm <= t ->
                getSandbox (target tm) s = None) ->
    let s' := advance d t s in
    sandboxes s' = sandboxes s
    /\ calls s' = calls s
    /\ emitted s' = emitted s
    /\ forall tm, In tm (timers s') <-> In tm (timers s) /\ t < due tm.
Proof.
  intros d t s H s'. unfold s', advance.
  rewrite cleanupAll_noop.
  - cbn [sandboxes calls emitted timers setClock setTimers].
    repeat split; try (apply filter_In in H0; destruct H0 as (Hin & Hd));
      auto.
    + cbv beta in Hd. apply negb_true_iff, Z.leb_gt in Hd. lia.
    + intros (Hin & Hd). apply filter_In. split; [exact Hin|]. cbv beta.
      apply negb_true_iff, Z.leb_gt. lia.
  - intros i Hi. apply in_map_iff in Hi. destruct Hi as (tm & <- & Hin).
    apply In_byDue, filter_In in Hin. destruct Hin as (Hin & Hd).
    cbv beta in Hd. apply Z.leb_le in Hd.
    unfold getSandbox. cbn [sandboxes setTimers]. now apply H.
Qed.

Lemma late_timers_do_nothing_witness :
  let s := run [Create healthy "sb_1" "short" (withTimeout 100);
                On healthy "sb_1" Cleanup] initial in
  timers s = [{| due := 100; target := "sb_1" |}]
  /\ (forall tm, In tm (timers s) -> due tm <= 150 ->
                 getSandbox (target tm) s = None)
  /\ calls (advance healthy 150 s) = calls s
  /\ timers (advance healthy 150 s) = [].
Proof.
  intros s.
  assert (H : forall tm, In tm (timers s) -> due tm <= 150 ->
                         getSandbox (target tm) s = None).
  { intros tm [<-|[]] _. reflexivity. }
  split; [reflexivity|]. split; [exact H|].
  split; [|reflexivity].
  exact (proj1 (proj2 (@late_timers_do_nothing healthy 150 s H))).
Defined.

(** X14.  [createSandbox] sets a timer exactly when it succeeds with a
    timeout other than 0: one timer for the new sandbox, due the timeout
    after the creation, which is 300000 ms when the configuration gives
    none.  A creation that fails, and one with the timeout 0, set no
    timer; no creation removes a timer. *)
Theorem create_schedules_its_cleanup :
  forall (d : Docker) (sandboxId name : string) (cfg : SandboxConfig)
         (s : State),
    let r := createSandbox d sandboxId name cfg s in
    (forall e, fst r = Err e -> timers (snd r) = timers s)
    /\ (forall info, fst r = Ok info ->
          timers (snd r)
          = timers s
            ++ match timeout cfg with
               | Some 0 => []
               | Some ms =>
                   [{| due := clock s + timerDelay ms;
                       target := sandboxId |}]
               | None =>
                   [{| due := clock s + 300000; target := sandboxId |}]
               end).
Proof.
  intros d sandboxId name cfg s. cbv zeta. unfold createSandbox.
  destruct (parseMemoryLimit _) as [memory|m];
    [|split; [reflexivity | discriminate]].
  destruct (createContainer d _) as [container|m];
    [|split; [reflexivity | discriminate]].
  destruct (start d container) as [[]|m];
    [|split; [reflexivity | discriminate]].
  split; [discriminate|]. intros info _.
  unfold withDefaults. cbn [timeout orElse].
  destruct (timeout cfg) as [[|ms|ms]|]; cbn;
    now rewrite ?app_nil_r.
Qed.

End Registry.

(* ===================================================================== *)
(** * Pages and contexts of the browser manager *)
(* ===================================================================== *)

Module PageLifecycle.

Import Js BrowserSandboxManager BrowserContexts BrowserStatements.
Import ContextStatements JsMapFacts Pages.

(** ** Calls on a context that the registry does not hold *)

Lemma getManagedContext_code contextId s e :
  getManagedContext contextId s = Err e -> code e = CONTEXT_NOT_FOUND.
Proof.
  unfold getManagedContext.
  destruct (JsMap.get contextId (contexts s)) as [c|];
    [destruct (status c); [discriminate|]|]; now intros [= <-].
Qed.

(** X15.  When the context of a call is not registered, or not active,
    every page method, [navigate], [getPageContent], [executeJavaScript],
    [closePage] and [listPages], fails with the error of the context
    lookup, whose code is [CONTEXT_NOT_FOUND], makes no call to the driver
    and changes nothing. *)
Theorem missing_context_stops_every_call :
  forall (d : Playwright) (d' : Driver) (contextId pageId url script : string)
         (page : option string) (options : NavigateOptions) (s : State)
         (e : BrowserError),
    getManagedContext contextId s = Err e ->
    code e = CONTEXT_NOT_FOUND
    /\ navigate d contextId pageId url options s = (Err e, s)
    /\ getPageContent d contextId page s = (Err e, s)
    /\ executeJavaScript d contextId script page s = (Err e, s)
    /\ closePage d contextId pageId s = (Err e, s)
    /\ listPages d' contextId s = Err e.
Proof.
  intros d d' contextId pageId url script page options s e H.
  split; [now apply getManagedContext_code in H|].
  unfold navigate, getPageContent, executeJavaScript, closePage, listPages,
         getPage.
  rewrite H. repeat split.
Qed.

Lemma missing_context_stops_every_call_witness :
  let e := {| message := "Context not found: ctx_2";
              code := CONTEXT_NOT_FOUND; originalError := None |} in
  getManagedContext "ctx_2" oneContext = Err e
  /\ navigate (working 1%nat) "ctx_2" "page_1" "https://a.example" noOptions
       oneContext
     = (Err e, oneContext).
Proof.
  intros e.
  assert (H : getManagedContext "ctx_2" oneContext = Err e) by reflexivity.
  split; [exact H|].
  exact (proj1 (proj2
           (@missing_context_stops_every_call (working 1%nat) closing "ctx_2"
              "page_1" "https://a.example" "1" None noOptions oneContext e
              H))).
Defined.

(** ** A navigation that succeeds *)

Lemma navigate_accepted d contextId pageId url options s c page :
  JsMap.get contextId (contexts s) = Some c -> status c = active ->
  navigationAccepted d c url options page ->
  exists s',
    navigate d contextId pageId url options s = (Ok pageId, s')
    /\ contexts s'
       = JsMap.set contextId
           (withPages (JsMap.set pageId page (pages c))
              (withLastAccessedAt (clock s) c))
           (contexts s)
    /\ emitted s'
       = emitted s ++ [NavigationStart contextId pageId url;
                       NavigationComplete contextId pageId url 0;
                       PageCreated contextId pageId url].
Proof.
  intros Hget Hst (Hnew & Hhdr & Hgoto). unfold navigate.
  rewrite (@getManagedContext_active contextId s c Hget Hst), Hnew.
  assert (Hupd : forall s0,
             contexts s0 = contexts s -> clock s0 = clock s ->
             contexts
               (update contextId
                  (fun c0 => withPages (JsMap.set pageId page (pages c0)) c0)
                  (call (CallGoto page url
                           (match waitUntil options with
                            | Some w => w
                            | None => load
                            end)
                           (orNumber (timeout options)
                              (orNumber (cfg_timeout (config c))
                                 DEFAULT_timeout)))
                     (emit (NavigationStart contextId pageId url)
                        (update contextId (withLastAccessedAt (clock s0))
                           s0))))
             = JsMap.set contextId
                 (withPages (JsMap.set pageId page (pages c))
                    (withLastAccessedAt (clock s) c))
                 (contexts s)).
  { intros s0 Hc Hk. unfold update at 2. rewrite Hc, Hget.
    unfold update. cbn [contexts call emit setContexts].
    rewrite get_set_same. cbn [contexts setContexts].
    rewrite Registry.set_set, Hk. reflexivity. }
  assert (Hclock : forall s0 f, clock (update contextId f s0) = clock s0).
  { intros s0 f. unfold update.
    now destruct (JsMap.get contextId (contexts s0)). }
  assert (Hemit : forall s0 f, emitted (update contextId f s0) = emitted s0).
  { intros s0 f. unfold update.
    now destruct (JsMap.get contextId (contexts s0)). }
  destruct (truthy (referer options)) as [r|] eqn:Hr; cbn [fst snd].
  - rewrite (Hhdr r eq_refl), Hgoto. eexists. split; [reflexivity|].
    cbn [contexts emitted emit]. split.
    + now apply Hupd.
    + rewrite Hemit. cbn [emitted call emit]. rewrite Hemit.
      cbn [emitted call]. rewrite !Hclock. cbn [clock call emit].
      rewrite !Hclock. cbn [clock call]. rewrite Z.sub_diag.
      now rewrite <- !app_assoc.
  - rewrite Hgoto. eexists. split; [reflexivity|].
    cbn [contexts emitted emit]. split.
    + now apply Hupd.
    + rewrite Hemit. cbn [emitted call emit]. rewrite Hemit.
      cbn [emitted call]. rewrite !Hclock. cbn [clock call emit].
      rewrite !Hclock. cbn [clock call]. rewrite Z.sub_diag.
      now rewrite <- !app_assoc.
Qed.

(** X16.  When the driver accepts a navigation on an active context, the
    page id given to [navigate] comes back, and from then on that id
    finds the page that the driver opened; the pages listed for the
    context are those of its page map with the new id; the context is
    marked as used at the time of the call and no other context changes.
    When the id is new to the context, the page is also the default page
    of the context. *)
Theorem navigate_then_lookup :
  forall (d : Playwright) (d' : Driver) (contextId pageId url : string)
         (options : NavigateOptions) (s : State) (c : ManagedContext)
         (page : Page),
    JsMap.get contextId (contexts s) = Some c ->
    status c = active ->
    navigationAccepted d c url options page ->
    pageId <> "" ->
    exists s',
      navigate d contextId pageId url options s = (Ok pageId, s')
      /\ getPage contextId (Some pageId) s' = Ok page
      /\ (exists infos,
             listPages d' contextId s' = Ok infos
             /\ map page_id infos
                = JsMap.keys (JsMap.set pageId page (pages c)))
      /\ (JsMap.get pageId (pages c) = None ->
          getPage contextId None s' = Ok page
          /\ pagesOf contextId s' = Some (pages c ++ [(pageId, page)]))
      /\ option_map lastAccessedAt (JsMap.get contextId (contexts s'))
         = Some (clock s)
      /\ forall k, k <> contextId ->
                   JsMap.get k (contexts s') = JsMap.get k (contexts s).
Proof.
  intros d d' contextId pageId url options s c page Hget Hst Hacc Hne.
  destruct (@navigate_accepted d contextId pageId url options s c page
              Hget Hst Hacc) as (s' & Hnav & Hc & _).
  exists s'. split; [exact Hnav|].
  set (c' := withPages (JsMap.set pageId page (pages c))
               (withLastAccessedAt (clock s) c)) in *.
  assert (Hget' : JsMap.get contextId (contexts s') = Some c')
    by (rewrite Hc; apply get_set_same).
  assert (Hctx : getManagedContext contextId s' = Ok c')
    by (now apply getManagedContext_active).
  split.
  { unfold getPage. rewrite Hctx.
    replace (truthy (Some pageId)) with (Some pageId)
      by (destruct pageId; [contradiction | reflexivity]).
    cbn [pages c' withPages]. now rewrite get_set_same. }
  split.
  { unfold listPages. rewrite Hctx. eexists. split; [reflexivity|].
    rewrite map_map. reflexivity. }
  split.
  { intros Hfresh. unfold getPage, pagesOf. rewrite Hctx, Hget'.
    cbn [truthy pages c' withPages option_map].
    rewrite (@set_fresh _ (pages c) pageId page Hfresh).
    split; [|reflexivity].
    unfold JsMap.values. rewrite map_app. cbn [map snd].
    now rewrite lastOf_app. }
  split; [now rewrite Hget'|].
  intros k Hk. rewrite Hc. now apply get_set_other.
Qed.

Lemma navigate_then_lookup_witness :
  navigationAccepted (working 1%nat)
    {| id := "ctx_1"; browserType := chromium; context := 0%nat;
       pages := []; createdAt := 0; lastAccessedAt := 0;
       config := {| cfg_browserType := None; cfg_timeout := None |};
       status := active |}
    "https://a.example" noOptions 1%nat
  /\ "page_1" <> ""
  /\ exists s',
       navigate (working 1%nat) "ctx_1" "page_1" "https://a.example"
         noOptions oneContext = (Ok "page_1", s')
       /\ getPage "ctx_1" (Some "page_1") s' = Ok 1%nat.
Proof.
  assert (Hacc : navigationAccepted (working 1%nat)
                   {| id := "ctx_1"; browserType := chromium;
                      context := 0%nat; pages := []; createdAt := 0;
                      lastAccessedAt := 0;
                      config := {| cfg_browserType := None;
                                   cfg_timeout := None |};
                      status := active |}
                   "https://a.example" noOptions 1%nat).
  { split; [reflexivity|]. split; [|reflexivity]. intros r. discriminate. }
  assert (Hne : "page_1" <> "") by discriminate.
  split; [exact Hacc|]. split; [exact Hne|].
  destruct (@navigate_then_lookup (working 1%nat) closing "ctx_1" "page_1"
              "https://a.example" noOptions oneContext _ 1%nat
              eq_refl eq_refl Hacc Hne) as (s' & H1 & H2 & _).
  exists s'. split; assumption.
Defined.

(** ** Closing a page *)

(** X17.  Closing a registered page of an active context asks the driver
    to close it.  When the driver accepts, the page leaves the page map,
    the other pages keep their order, [page:closed] is emitted, and a
    second [closePage], like a lookup of the id, fails with
    [PAGE_NOT_FOUND] without a driver call.  When the driver refuses, the
    call fails with [PAGE_NOT_FOUND] (the message says that the page could
    not be closed) and the page stays registered.  In neither case is the
    context marked as used. *)
Theorem close_page_removes_it :
  forall (d : Playwright) (contextId pageId : string) (s : State)
         (c : ManagedContext) (page : Page),
    JsMap.get contextId (contexts s) = Some c ->
    status c = active ->
    JsMap.get pageId (pages c) = Some page ->
    (close d page = Ok tt ->
     exists s',
       closePage d contextId pageId s = (Ok tt, s')
       /\ JsMap.get contextId (contexts s')
          = Some (withPages (JsMap.delete pageId (pages c)) c)
       /\ calls s' = calls s ++ [CallClose page]
       /\ emitted s' = emitted s ++ [PageClosed contextId pageId]
       /\ (forall d2, exists e,
              closePage d2 contextId pageId s' = (Err e, s')
              /\ code e = PAGE_NOT_FOUND)
       /\ (pageId <> "" ->
           exists e, getPage contextId (Some pageId) s' = Err e
                     /\ code e = PAGE_NOT_FOUND))
    /\ (forall t,
          close d page = Err t ->
          exists e,
            closePage d contextId pageId s = (Err e, call (CallClose page) s)
            /\ code e = PAGE_NOT_FOUND
            /\ message e = ("Failed to close page: " ++ pageId)%string).
Proof.
  intros d contextId pageId s c page Hget Hst Hpage.
  pose proof (@getManagedContext_active contextId s c Hget Hst) as Hctx.
  split.
  - intros Hclose. unfold closePage. rewrite Hctx, Hpage, Hclose.
    eexists. split; [reflexivity|].
    set (c' := withPages (JsMap.delete pageId (pages c)) c).
    assert (Hget' : JsMap.get contextId
                      (contexts
                         (emit (PageClosed contextId pageId)
                            (update contextId
                               (fun c0 =>
                                  withPages (JsMap.delete pageId (pages c0))
                                    c0)
                               (call (CallClose page) s))))
                    = Some c').
    { cbn [contexts emit].
      exact (@update_same contextId
               (fun c0 => withPages (JsMap.delete pageId (pages c0)) c0)
               (call (CallClose page) s) c Hget). }
    split; [exact Hget'|].
    split; [cbn [calls emit]; now rewrite update_calls|].
    split.
    { cbn [emitted emit]. unfold update. cbn [contexts call].
      now rewrite Hget. }
    assert (Hctx' : getManagedContext contextId
                      (emit (PageClosed contextId pageId)
                         (update contextId
                            (fun c0 =>
                               withPages (JsMap.delete pageId (pages c0)) c0)
                            (call (CallClose page) s)))
                    = Ok c')
      by (now apply getManagedContext_active).
    split.
    + intros d2. unfold closePage. rewrite Hctx'.
      cbn [pages c' withPages]. rewrite get_delete_same.
      eexists. split; reflexivity.
    + intros Hne. unfold getPage. rewrite Hctx'.
      replace (truthy (Some pageId)) with (Some pageId)
        by (destruct pageId; [contradiction | reflexivity]).
      cbn [pages c' withPages]. rewrite get_delete_same.
      eexists. split; reflexivity.
  - intros t Hclose. unfold closePage. rewrite Hctx, Hpage, Hclose.
    eexists. repeat split.
Qed.

Lemma close_page_removes_it_witness :
  let s1 := snd (navigate (working 1%nat) "ctx_1" "page_1" "https://a.example"
                   noOptions oneContext) in
  let s2 := snd (navigate (working 2%nat) "ctx_1" "page_2" "https://b.example"
                   noOptions s1) in
  pagesOf "ctx_1" s2 = Some [("page_1", 1%nat); ("page_2", 2%nat)]
  /\ exists s3,
       closePage (working 0%nat) "ctx_1" "page_2" s2 = (Ok tt, s3)
       /\ pagesOf "ctx_1" s3 = Some [("page_1", 1%nat)]
       /\ getPage "ctx_1" None s3 = Ok 1%nat.
Proof.
  intros s1 s2. split; [reflexivity|].
  destruct (proj1 (@close_page_removes_it (working 0%nat) "ctx_1" "page_2" s2
                     {| id := "ctx_1"; browserType := chromium;
                        context := 0%nat;
                        pages := [("page_1", 1%nat); ("page_2", 2%nat)];
                        createdAt := 0; lastAccessedAt := 0;
                        config := {| cfg_browserType := None;
                                     cfg_timeout := None |};
                        status := active |}
                     2%nat eq_refl eq_refl eq_refl) eq_refl)
    as (s3 & H1 & H2 & _).
  exists s3. split; [exact H1|].
  unfold pagesOf, getPage, getManagedContext. rewrite H2.
  split; reflexivity.
Defined.

(** ** The classification of a failed navigation *)

Lemma startsWith_spec p s :
  startsWith p s = true <-> exists b, s = (p ++ b)%string.
Proof.
  revert s. induction p as [|a p IH]; intros s; cbn.
  - split; [intros _; now exists s | reflexivity].
  - destruct s as [|b s]; [split; [discriminate | intros [x [=]]]|].
    rewrite andb_true_iff, Ascii.eqb_eq, IH. split.
    + intros [-> [x ->]]. now exists x.
    + intros [x [= -> ->]]. split; [reflexivity | now exists x].
Qed.

Lemma includes_unfold s p :
  includes s p
  = startsWith p s
    || match s with
       | EmptyString => false
       | String _ s' => includes s' p
       end.
Proof. now destruct s. Qed.

Lemma includes_spec s p : includes s p = true <-> contains s p.
Proof.
  unfold contains. split.
  - induction s as [|c s IH]; rewrite includes_unfold, orb_true_iff.
    + intros [H|H]; [|discriminate].
      apply startsWith_spec in H. destruct H as [b ->]. now exists "", b.
    + intros [H|H].
      * apply startsWith_spec in H. destruct H as [b ->]. now exists "", b.
      * destruct (IH H) as (a & b & ->). now exists (String c a), b.
  - intros (a & b & ->). induction a as [|c a IH];
      rewrite includes_unfold, orb_true_iff.
    + left. apply startsWith_spec. now exists b.
    + right. exact IH.
Qed.

Lemma navigate_never_closes d contextId pageId url options s :
  exists cs,
    calls (snd (navigate d contextId pageId url options s)) = calls s ++ cs
    /\ forall p, ~ In (CallClose p) cs.
Proof.
  unfold navigate.
  destruct (getManagedContext contextId s) as [c|e];
    [|exists []; split; [now rewrite app_nil_r | intros p []]].
  destruct (newPage d (context c)) as [page|t];
    [|eexists; split; [reflexivity | intros p [H|[]]; discriminate]].
  destruct (truthy (referer options)) as [r|]; cbn [fst snd].
  - destruct (setExtraHTTPHeaders d page r) as [[]|t];
      [|cbn; rewrite <- app_assoc; eexists; split;
        [reflexivity | intros p [H|[H|[]]]; discriminate]].
    destruct (goto d page url _ _) as [[]|t]; cbn [snd calls emit call];
      rewrite ?update_calls; cbn [calls emit call]; rewrite ?update_calls;
      cbn [calls call]; rewrite <- !app_assoc; eexists;
      (split; [reflexivity | intros p [H|[H|[H|[]]]]; discriminate]).
  - destruct (goto d page url _ _) as [[]|t]; cbn [snd calls emit call];
      rewrite ?update_calls; cbn [calls emit call]; rewrite ?update_calls;
      cbn [calls call]; rewrite <- !app_assoc; eexists;
      (split; [reflexivity | intros p [H|[H|[]]]; discriminate]).
Qed.

(** X18.  When the driver rejects a navigation on an active context with
    [t], [navigate] fails with the message [Failed to navigate to] and the
    url, not with the driver's message.  The code is [NAVIGATION_TIMEOUT]
    exactly when [t] is an [Error] whose message holds [timeout] in
    whatever letter case, and [NAVIGATION_FAILED] otherwise, also for a
    thrown value that is no [Error].  The page that the driver had opened
    for the navigation is not closed: no [close] reaches the driver. *)
Theorem navigation_timeout_is_recognised :
  forall (d : Playwright) (contextId pageId url : string)
         (options : NavigateOptions) (s : State) (c : ManagedContext)
         (t : Thrown),
    JsMap.get contextId (contexts s) = Some c ->
    status c = active ->
    navigationRejected d c url options t ->
    exists e s',
      navigate d contextId pageId url options s = (Err e, s')
      /\ message e = ("Failed to navigate to " ++ url)%string
      /\ (code e = NAVIGATION_TIMEOUT <->
          exists m, t = ThrownError m /\ contains (toLowerCase m) "timeout")
      /\ (code e = NAVIGATION_FAILED \/ code e = NAVIGATION_TIMEOUT)
      /\ forall p, ~ In (CallClose p) (callsSince s s').
Proof.
  intros d contextId pageId url options s c t Hget Hst Hrej.
  pose proof (@navigate_rejected d contextId pageId url options s c t
                Hget Hst Hrej) as Hnav.
  exists (navigationError url t),
         (snd (navigate d contextId pageId url options s)).
  split; [rewrite <- Hnav; now destruct (navigate _ _ _ _ _ _)|].
  split; [reflexivity|]. split; [|split].
  - unfold navigationError. cbn [code]. destruct t as [m|v].
    + destruct (includes (toLowerCase m) "timeout") eqn:E.
      * split; [|reflexivity]. intros _. exists m. split; [reflexivity|].
        now apply includes_spec.
      * split; [discriminate|]. intros (m' & [= <-] & H).
        apply includes_spec in H. congruence.
    + split; [discriminate|]. intros (m & [=] & _).
  - unfold navigationError. cbn [code]. destruct t as [m|v]; [|now left].
    destruct (includes (toLowerCase m) "timeout"); auto.
  - destruct (navigate_never_closes d contextId pageId url options s)
      as (cs & Hcs & Hno).
    unfold callsSince. rewrite Hcs, skipn_app, skipn_all, Nat.sub_diag.
    exact Hno.
Qed.

Lemma navigation_timeout_is_recognised_witness :
  let c := {| id := "ctx_1"; browserType := chromium; context := 0%nat;
              pages := []; createdAt := 0; lastAccessedAt := 0;
              config := {| cfg_browserType := None; cfg_timeout := None |};
              status := active |} in
  let t := ThrownError "page.goto: Timeout 30000ms exceeded." in
  navigationRejected (unreachable 1%nat t) c "http://slow.invalid" noOptions t
  /\ exists e,
       fst (navigate (unreachable 1%nat t) "ctx_1" "page_1"
              "http://slow.invalid" noOptions oneContext) = Err e
       /\ code e = NAVIGATION_TIMEOUT.
Proof.
  intros c t.
  assert (Hrej : navigationRejected (unreachable 1%nat t) c
                   "http://slow.invalid" noOptions t).
  { right. exists 1%nat. split; [reflexivity|]. right.
    split; [intros r; discriminate | reflexivity]. }
  split; [exact Hrej|].
  destruct (@navigation_timeout_is_recognised (unreachable 1%nat t) "ctx_1"
              "page_1" "http://slow.invalid" noOptions oneContext c t
              eq_refl eq_refl Hrej) as (e & s' & Hnav & _ & Hcode & _).
  exists e. split; [now rewrite Hnav|].
  apply Hcode. exists "page.goto: Timeout 30000ms exceeded.".
  split; [reflexivity|].
  exists "page.goto: ", " 30000ms exceeded.". reflexivity.
Defined.

(** ** Closing a context *)

Lemma closePages_state d ps s :
  calls (closePages d ps s) = calls s ++ map CallClose (JsMap.values ps)
  /\ contexts (closePages d ps s) = contexts s
  /\ emitted (closePages d ps s) = emitted s
  /\ clock (closePages d ps s) = clock s.
Proof.
  unfold closePages, JsMap.entries, JsMap.values. revert s.
  induction ps as [|[k page] ps IH]; intros s; cbn [fold_left map snd].
  - now rewrite app_nil_r.
  - destruct (IH (call (CallClose page) s)) as (H1 & H2 & H3 & H4).
    rewrite H1, H2, H3, H4. cbn [calls contexts emitted clock call].
    now rewrite <- app_assoc.
Qed.

Lemma closeContext_accepted d contextId m c :
  JsMap.get contextId (contexts (st m)) = Some c ->
  contextClose d (context c) = Ok tt ->
  exists m',
    closeContext d contextId m = (Ok tt, m')
    /\ calls (st m')
       = calls (st m) ++ map CallClose (JsMap.values (pages c))
    /\ closes m' = closes m ++ [context c]
    /\ announced m' = announced m ++ [ContextClosed contextId]
    /\ contexts (st m') = JsMap.delete contextId (contexts (st m))
    /\ (exists e, getManagedContext contextId (st m') = Err e
                  /\ code e = CONTEXT_NOT_FOUND)
    /\ getContext contextId (st m') = None
    /\ forall d2, exists e, closeContext d2 contextId m' = (Err e, m')
                            /\ code e = CONTEXT_NOT_FOUND.
Proof.
  intros Hget Hclose. unfold closeContext.
  rewrite Hget, Hclose. eexists. split; [reflexivity|].
  destruct (closePages_state d (pages c) (st m)) as (H1 & H2 & _).
  cbn [st closes announced announce setSt callClose calls contexts
       setContexts].
  rewrite H1, H2. repeat split.
  - unfold getManagedContext. cbn [contexts setContexts].
    rewrite get_delete_same. eexists. split; reflexivity.
  - unfold getContext. cbn [contexts setContexts].
    now rewrite get_delete_same.
  - intros d2. cbn [st announce setSt contexts setContexts].
    rewrite get_delete_same. eexists. split; reflexivity.
Qed.

Lemma closeContext_refused d contextId m c t :
  JsMap.get contextId (contexts (st m)) = Some c ->
  contextClose d (context c) = Err t ->
  exists e m',
    closeContext d contextId m = (Err e, m')
    /\ code e = CONTEXT_NOT_FOUND
    /\ message e = ("Failed to close browser context: " ++ contextId)%string
    /\ contexts (st m') = contexts (st m)
    /\ announced m' = announced m
    /\ calls (st m')
       = calls (st m) ++ map CallClose (JsMap.values (pages c))
    /\ forall d', listPages d' contextId (st m')
                  = listPages d' contextId (st m).
Proof.
  intros Hget Hclose. unfold closeContext.
  rewrite Hget, Hclose. eexists _, _. split; [reflexivity|].
  destruct (closePages_state d (pages c) (st m)) as (H1 & H2 & _).
  cbn [st announced setSt callClose code message].
  rewrite H1, H2. repeat split.
  intros d'. unfold listPages, getManagedContext. now rewrite H2.
Qed.

(** X19.  Closing a registered context asks the driver to close every
    page of its page map, in the order of the map and whatever the driver
    answers for each, and then the context itself.  When the driver
    closes the context, the entry leaves the registry, [context:closed] is
    emitted, the other contexts stay, and every later lookup or closing
    of the context fails with [CONTEXT_NOT_FOUND].  When the driver
    refuses to close it, [closeContext] fails with the code
    [CONTEXT_NOT_FOUND] and the message [Failed to close browser context:]
    and the id; no event is emitted and the registry is unchanged: the
    context stays registered and active, and its page map still holds
    every page, although the driver has been asked to close each of
    them. *)
Theorem close_context_closes_every_page :
  forall (d : Driver) (contextId : string) (m : Manager)
         (c : ManagedContext),
    JsMap.get contextId (contexts (st m)) = Some c ->
    (contextClose d (context c) = Ok tt ->
     exists m',
       closeContext d contextId m = (Ok tt, m')
       /\ calls (st m')
          = calls (st m) ++ map CallClose (JsMap.values (pages c))
       /\ closes m' = closes m ++ [context c]
       /\ announced m' = announced m ++ [ContextClosed contextId]
       /\ contexts (st m') = JsMap.delete contextId (contexts (st m))
       /\ (exists e, getManagedContext contextId (st m') = Err e
                     /\ code e = CONTEXT_NOT_FOUND)
       /\ getContext contextId (st m') = None
       /\ forall d2, exists e, closeContext d2 contextId m' = (Err e, m')
                               /\ code e = CONTEXT_NOT_FOUND)
    /\ (forall t,
          contextClose d (context c) = Err t ->
          exists e m',
            closeContext d contextId m = (Err e, m')
            /\ code e = CONTEXT_NOT_FOUND
            /\ message e
               = ("Failed to close browser context: " ++ contextId)%string
            /\ contexts (st m') = contexts (st m)
            /\ announced m' = announced m
            /\ calls (st m')
               = calls (st m) ++ map CallClose (JsMap.values (pages c))
            /\ forall d', listPages d' contextId (st m')
                          = listPages d' contextId (st m)).
Proof.
  intros d contextId m c Hget. split.
  - intros Hclose.
    exact (@closeContext_accepted d contextId m c Hget Hclose).
  - intros t Hclose.
    exact (@closeContext_refused d contextId m c t Hget Hclose).
Qed.

Lemma close_context_closes_every_page_witness :
  (exists m',
      closeContext (pagesStuck (ThrownError "Target closed")) "ctx_1"
        (managing twoPages) = (Ok tt, m')
      /\ calls (st m') = [CallClose 1%nat; CallClose 2%nat]
      /\ closes m' = [7%nat]
      /\ contexts (st m') = [])
  /\ exists e m',
       closeContext (contextStuck (ThrownError "Browser has been closed"))
         "ctx_1" (managing twoPages) = (Err e, m')
       /\ calls (st m') = [CallClose 1%nat; CallClose 2%nat]
       /\ pagesOf "ctx_1" (st m')
          = Some [("page_1", 1%nat); ("page_2", 2%nat)].
Proof.
  split.
  - destruct (proj1 (@close_context_closes_every_page
                       (pagesStuck (ThrownError "Target closed")) "ctx_1"
                       (managing twoPages) _ eq_refl) eq_refl)
      as (m' & H1 & H2 & H3 & _ & H5 & _).
    exists m'. repeat split; assumption.
  - destruct (proj2 (@close_context_closes_every_page
                       (contextStuck (ThrownError "Browser has been closed"))
                       "ctx_1" (managing twoPages) _ eq_refl)
                (ThrownError "Browser has been closed") eq_refl)
      as (e & m' & H1 & _ & _ & H4 & _ & H6 & _).
    exists e, m'. split; [exact H1|]. split; [exact H6|].
    unfold pagesOf. now rewrite H4.
Defined.

(** ** The sweep of the contexts *)

Lemma delete_middle {V} (pre l : JsMap.t V) k v :
  NoDup (JsMap.keys (pre ++ (k, v) :: l)) ->
  JsMap.delete k (pre ++ (k, v) :: l) = pre ++ l.
Proof.
  intros Hnd. unfold JsMap.keys in Hnd. rewrite map_app in Hnd.
  cbn [map fst] in Hnd. apply NoDup_remove in Hnd.
  destruct Hnd as [_ Hnotin].
  unfold JsMap.delete. rewrite filter_app. cbn [filter fst].
  rewrite String.eqb_refl. cbn [negb]. rewrite <- filter_app.
  apply Registry.filter_all. intros [k' v'] Hin. cbn [fst].
  apply negb_true_iff. destruct (String.eqb k k') eqn:E; [|reflexivity].
  apply String.eqb_eq in E. subst k'. exfalso. apply Hnotin.
  rewrite <- map_app. now apply (in_map fst) in Hin.
Qed.

Lemma NoDup_keys_middle {V} (pre l : JsMap.t V) e :
  NoDup (JsMap.keys (pre ++ e :: l)) -> NoDup (JsMap.keys (pre ++ l)).
Proof.
  unfold JsMap.keys. rewrite !map_app. cbn [map]. intros H.
  now apply NoDup_remove_1 in H.
Qed.

Lemma cleanupVisit_step d now m acc k c :
  JsMap.get k (contexts (st m)) = Some c ->
  exists m',
    cleanupVisit d now (m, acc) (k, c)
    = (m', if sweptAt d now (k, c) then acc ++ [k] else acc)
    /\ contexts (st m')
       = (if sweptAt d now (k, c)
          then JsMap.delete k (contexts (st m))
          else contexts (st m))
    /\ announced m'
       = announced m
         ++ (if sweptAt d now (k, c) then [ContextClosed k] else []).
Proof.
  intros Hget. unfold cleanupVisit, sweptAt. cbn [fst snd].
  destruct (DEFAULT_contextMaxAge <? now - lastAccessedAt c); cbn [andb].
  - unfold closeContext. rewrite Hget.
    destruct (closePages_state d (pages c) (st m)) as (_ & H2 & _).
    destruct (contextClose d (context c)) as [[]|t]; cbn [isOk];
      eexists; (split; [reflexivity|]);
      cbn [st announced announce setSt callClose contexts setContexts];
      rewrite ?H2, ?app_nil_r; split; reflexivity.
  - exists m. rewrite app_nil_r. repeat split.
Qed.

Lemma sweep_fold d now l :
  forall pre m acc,
    contexts (st m) = pre ++ l ->
    NoDup (JsMap.keys (pre ++ l)) ->
    contexts (st (fst (fold_left (cleanupVisit d now) l (m, acc))))
    = pre ++ filter (fun e => negb (sweptAt d now e)) l
    /\ snd (fold_left (cleanupVisit d now) l (m, acc))
       = acc ++ JsMap.keys (filter (sweptAt d now) l)
    /\ announced (fst (fold_left (cleanupVisit d now) l (m, acc)))
       = announced m
         ++ map ContextClosed (JsMap.keys (filter (sweptAt d now) l)).
Proof.
  induction l as [|[k c] l IH]; intros pre m acc Hc Hnd.
  - cbn. rewrite app_nil_r in Hc. rewrite !app_nil_r. auto.
  - assert (Hnext : (pre ++ [(k, c)]) ++ l = pre ++ (k, c) :: l)
      by now rewrite <- app_assoc.
    assert (Hget : JsMap.get k (contexts (st m)) = Some c).
    { rewrite Hc. apply Registry.In_get; [exact Hnd|].
      apply in_or_app. right. now left. }
    destruct (@cleanupVisit_step d now m acc k c Hget)
      as (m' & Hstep & Hc' & Ha').
    cbn [fold_left filter]. rewrite Hstep.
    destruct (sweptAt d now (k, c)); cbn [negb].
    + destruct (IH pre m' (acc ++ [k])) as (I1 & I2 & I3).
      { rewrite Hc', Hc. now apply delete_middle. }
      { now apply NoDup_keys_middle in Hnd. }
      rewrite I1, I2, I3, Ha'. unfold JsMap.keys. cbn [map fst].
      now rewrite <- !app_assoc.
    + destruct (IH (pre ++ [(k, c)]) m' acc) as (I1 & I2 & I3).
      { now rewrite Hc', Hc, Hnext. }
      { now rewrite Hnext. }
      rewrite I1, I2, I3, Ha', app_nil_r. now rewrite <- app_assoc.
Qed.

(** X20.  The sweep of the contexts closes, in the order of the registry,
    every context that has not been used for more than five minutes; it
    removes exactly those of them that the driver closes and keeps all
    other entries in their order, so a context used within the last five
    minutes, or not used for exactly five minutes, always stays.  A
    [context:closed] event is emitted for each removed context and then,
    when at least one was removed, one [cleanup:stale] event with their
    ids. *)
Theorem stale_contexts_are_swept :
  forall (d : Driver) (m : Manager),
    NoDup (JsMap.keys (contexts (st m))) ->
    let now := clock (st m) in
    let closedContextIds :=
      JsMap.keys (filter (sweptAt d now) (contexts (st m))) in
    let m' := cleanupStaleContexts d m in
    contexts (st m')
    = filter (fun e => negb (sweptAt d now e)) (contexts (st m))
    /\ announced m'
       = announced m ++ map ContextClosed closedContextIds
         ++ match closedContextIds with
            | [] => []
            | _ => [CleanupStale closedContextIds]
            end
    /\ forall k c,
         JsMap.get k (contexts (st m)) = Some c ->
         now - lastAccessedAt c <= 300000 ->
         JsMap.get k (contexts (st m')) = Some c.
Proof.
  intros d m Hnd now closedContextIds m'.
  destruct (@sweep_fold d now (contexts (st m)) [] m [] eq_refl Hnd)
    as (H1 & H2 & H3).
  cbn [app] in H1, H2.
  assert (Hc : contexts (st m')
               = filter (fun e => negb (sweptAt d now e)) (contexts (st m))).
  { unfold m', cleanupStaleContexts. fold now. unfold JsMap.entries.
    destruct (snd (fold_left _ _ _)); [exact H1|].
    cbn [st announce]. exact H1. }
  split; [exact Hc|]. split.
  - unfold m', cleanupStaleContexts. fold now. unfold JsMap.entries.
    rewrite H2. fold closedContextIds.
    destruct closedContextIds eqn:E.
    + rewrite H3. unfold closedContextIds in E. fold now in E.
      now rewrite E.
    + cbn [announced announce]. rewrite H3. fold closedContextIds.
      rewrite E. now rewrite <- app_assoc.
  - intros k c Hget Hage. rewrite Hc.
    apply Registry.In_get.
    + unfold JsMap.keys. apply get_Some_In in Hget.
      clear - Hnd. unfold JsMap.keys in Hnd.
      induction (contexts (st m)) as [|e l IH]; [constructor|].
      cbn [filter]. inversion Hnd as [|? ? Hnotin Hnd']; subst.
      destruct (negb (sweptAt d now e)); [|now apply IH].
      cbn [map]. constructor; [|now apply IH].
      intros Hin. apply Hnotin. apply in_map_iff in Hin.
      destruct Hin as (e' & He' & Hin). apply filter_In in Hin.
      rewrite <- He'. apply in_map. tauto.
    + apply filter_In. split; [now apply get_Some_In|].
      unfold sweptAt. cbn [snd].
      replace (DEFAULT_contextMaxAge <? now - lastAccessedAt c) with false;
        [reflexivity|].
      symmetry. apply Z.ltb_ge. unfold DEFAULT_contextMaxAge. lia.
Qed.

Lemma stale_contexts_are_swept_witness :
  NoDup (JsMap.keys (contexts (st (managing oldAndRecent))))
  /\ JsMap.keys (contexts (st (cleanupStaleContexts closing
                                 (managing oldAndRecent))))
     = ["ctx_recent"]
  /\ announced (cleanupStaleContexts closing (managing oldAndRecent))
     = [ContextClosed "ctx_old"; CleanupStale ["ctx_old"]].
Proof.
  assert (Hnd : NoDup (JsMap.keys (contexts (st (managing oldAndRecent))))).
  { repeat constructor; cbn; intuition discriminate. }
  split; [exact Hnd|].
  destruct (@stale_contexts_are_swept closing (managing oldAndRecent) Hnd)
    as (H1 & H2 & _).
  rewrite H1, H2. split; reflexivity.
Defined.

(** ** The listing of contexts and pages *)

(** X21.  The contexts listed are those that a lookup finds, with the
    same information, and the page count of an active context is the
    number of pages that [listPages] returns for it, whose ids are the
    keys of the page map, in its order. *)
Theorem listings_agree :
  forall (d : Driver) (s : State) (contextId : string) (c : ManagedContext),
    JsMap.get contextId (contexts s) = Some c ->
    status c = active ->
    exists info infos,
      getContext contextId s = Some info
      /\ In info (listContexts s)
      /\ listPages d contextId s = Ok infos
      /\ pageCount info = List.length infos
      /\ map page_id infos = JsMap.keys (pages c)
      /\ Forall (fun p => BrowserContexts.contextId p = contextId
                          /\ page_createdAt p = info_createdAt info) infos.
Proof.
  intros d s contextId c Hget Hst.
  unfold getContext, listContexts, listPages.
  rewrite (@getManagedContext_active contextId s c Hget Hst), Hget.
  eexists _, _. split; [reflexivity|].
  split.
  { apply in_map. unfold JsMap.values. apply get_Some_In in Hget.
    now apply (in_map snd) in Hget. }
  split; [reflexivity|].
  split; [cbn; unfold JsMap.size, JsMap.entries; now rewrite length_map|].
  split; [now rewrite map_map|].
  apply Forall_forall. intros p Hin. apply in_map_iff in Hin.
  destruct Hin as (e & <- & _). split; reflexivity.
Qed.

Lemma listings_agree_witness :
  exists info infos,
    getContext "ctx_1" twoPages = Some info
    /\ listPages closing "ctx_1" twoPages = Ok infos
    /\ pageCount info = 2%nat
    /\ map page_id infos = ["page_1"; "page_2"].
Proof.
  destruct (@listings_agree closing twoPages "ctx_1" _ eq_refl eq_refl)
    as (info & infos & H1 & _ & H3 & H4 & H5 & _).
  exists info, infos. split; [exact H1|]. split; [exact H3|].
  split; [|exact H5].
  rewrite H4. injection H3 as <-. reflexivity.
Defined.

End PageLifecycle.

(* ===================================================================== *)
(** * Requests and errors of the HTTP client *)
(* ===================================================================== *)

Module FetchFacts.

Import Js FetchClient FetchStatements JsMapFacts.

(** ** Errors *)

Lemma codeIs_spec error c : codeIs error c = true <-> ax_code error = Some c.
Proof.
  unfold codeIs. destruct (ax_code error) as [c'|].
  - rewrite String.eqb_eq. split; congruence.
  - split; discriminate.
Qed.

Lemma includes_holds s p :
  BrowserSandboxManager.includes s p = true <-> holds s p.
Proof. apply PageLifecycle.includes_spec. Qed.

Lemma tellsTimeout_spec error :
  codeIs error "ECONNABORTED"
  || BrowserSandboxManager.includes (ax_message error) "timeout" = true
  <-> tellsTimeout error.
Proof.
  unfold tellsTimeout. now rewrite orb_true_iff, codeIs_spec, includes_holds.
Qed.

Lemma tellsNetwork_spec error :
  codeIs error "ENOTFOUND" || codeIs error "ECONNREFUSED"
  || codeIs error "ETIMEDOUT" || codeIs error "ENETUNREACH" = true
  <-> tellsNetwork error.
Proof.
  unfold tellsNetwork. rewrite !orb_true_iff, !codeIs_spec. tauto.
Qed.

Lemma handleAxiosError_classified error url :
  let e := handleAxiosError error url in
  originalError e = Some (OriginalAxios error)
  /\ (code e = TIMEOUT_ERROR <-> tellsTimeout error)
  /\ (code e = NETWORK_ERROR <->
      ~ tellsTimeout error /\ tellsNetwork error)
  /\ (code e = TOO_MANY_REDIRECTS <->
      ~ tellsTimeout error /\ ~ tellsNetwork error /\ tellsRedirects error)
  /\ (code e = REQUEST_FAILED <->
      ~ tellsTimeout error /\ ~ tellsNetwork error
      /\ ~ tellsRedirects error)
  /\ (forall n,
        statusCode e = Some n <->
        code e = REQUEST_FAILED
        /\ exists r, ax_response error = Some r /\ status r = n)
  /\ (response e = None <-> statusCode e = None).
Proof.
  cbv zeta. unfold handleAxiosError.
  pose proof (tellsTimeout_spec error) as HT.
  pose proof (tellsNetwork_spec error) as HN.
  pose proof (includes_holds (ax_message error) "maximum redirect") as HR.
  fold (tellsRedirects error) in HR.
  destruct (codeIs error "ECONNABORTED" || _);
    [|destruct (codeIs error "ENOTFOUND" || _ || _ || _);
      [|destruct (BrowserSandboxManager.includes _ "maximum redirect");
        [|destruct (ax_response error) as [r|]]]];
    cbn [code statusCode response originalError];
    (split; [reflexivity|]);
    repeat split; try discriminate; try tauto;
    try (intros; intuition discriminate);
    try (intros [H1 (r' & H2 & H3)]; discriminate).
  - injection H as <-. now exists r.
  - intros [_ (r' & [= <-] & <-)]. reflexivity.
Qed.

(** X22.  [handleError] hands back a [FetchError] as it is.  An error of
    axios becomes a [FetchError] that keeps it as [originalError], with
    one of four codes, decided in this order: a timeout when its code is
    [ECONNABORTED] or its message holds [timeout]; else a network error
    when its code is [ENOTFOUND], [ECONNREFUSED], [ETIMEDOUT] or
    [ENETUNREACH]; else too many redirects when its message holds
    [maximum redirect]; else a failed request.  The status code and the
    response are reported together, and only for a failed request: the
    response that came with a timeout, a network error or a redirect loop
    is dropped.  Whatever else is caught becomes a failed request with
    the message [Unknown error occurred while fetching] and the url. *)
Theorem fetch_errors_are_classified :
  forall (caught : Caught) (url : string),
    let e := handleError caught url in
    (forall fe, caught = CaughtFetchError fe -> e = fe)
    /\ (forall error,
          caught = CaughtAxiosError error ->
          originalError e = Some (OriginalAxios error)
          /\ (code e = TIMEOUT_ERROR <-> tellsTimeout error)
          /\ (code e = NETWORK_ERROR <->
              ~ tellsTimeout error /\ tellsNetwork error)
          /\ (code e = TOO_MANY_REDIRECTS <->
              ~ tellsTimeout error /\ ~ tellsNetwork error
              /\ tellsRedirects error)
          /\ (code e = REQUEST_FAILED <->
              ~ tellsTimeout error /\ ~ tellsNetwork error
              /\ ~ tellsRedirects error)
          /\ (forall n,
                statusCode e = Some n <->
                code e = REQUEST_FAILED
                /\ exists r, ax_response error = Some r /\ status r = n)
          /\ (response e = None <-> statusCode e = None))
    /\ ((forall fe, caught <> CaughtFetchError fe) ->
        (forall error, caught <> CaughtAxiosError error) ->
        code e = REQUEST_FAILED
        /\ statusCode e = None /\ response e = None
        /\ message e
           = ("Unknown error occurred while fetching " ++ url)%string).
Proof.
  intros caught url. cbv zeta. split; [|split].
  - now intros fe ->.
  - intros error ->. apply handleAxiosError_classified.
  - intros Hf Ha. destruct caught as [fe|error|m|]; cbn [handleError].
    + now destruct (Hf fe).
    + now destruct (Ha error).
    + repeat split.
    + repeat split.
Qed.

(** ** Requests *)

Ltac request_cases options :=
  unfold buildRequestConfig;
  destruct (followRedirects options) as [[]|],
           (body options) as [[[|? ?]|?]|],
           (proxy options) as [?|];
  try reflexivity.

Lemma req_url_build url options :
  req_url (buildRequestConfig url options) = url.
Proof. request_cases options. Qed.

Lemma req_timeout_build url options :
  req_timeout (buildRequestConfig url options)
  = match timeout options with
    | Some 0 | None => DEFAULT_timeout
    | Some ms => ms
    end.
Proof. request_cases options. Qed.

Lemma req_maxRedirects_build url options :
  req_maxRedirects (buildRequestConfig url options)
  = match followRedirects options with
    | Some false => 0
    | _ => match maxRedirects options with
           | Some n => n
           | None => DEFAULT_maxRedirects
           end
    end.
Proof. request_cases options. Qed.

Lemma req_validateStatus_build url options :
  req_validateStatus (buildRequestConfig url options)
  = match validateStatus options with
    | Some f => f
    | None => DEFAULT_validateStatus
    end.
Proof. request_cases options. Qed.

Lemma req_method_build url options :
  req_method (buildRequestConfig url options)
  = match truthy (method options) with Some m => m | None => "GET" end.
Proof. request_cases options. Qed.

Lemma req_proxy_build url options :
  req_proxy (buildRequestConfig url options) = proxy options.
Proof.
  unfold buildRequestConfig.
  destruct (followRedirects options) as [[]|],
           (body options) as [[[|? ?]|?]|],
           (proxy options) as [[? ? ?]|];
    reflexivity.
Qed.

Lemma req_data_build url options :
  req_data (buildRequestConfig url options)
  = match body options with
    | Some (BodyString "") => None
    | b => b
    end.
Proof. request_cases options. Qed.

Lemma req_headers_build url options :
  req_headers (buildRequestConfig url options)
  = let sent :=
      spread
        [("User-Agent",
          match truthy (userAgent options) with
          | Some ua => ua
          | None => DEFAULT_userAgent
          end)]
        (givenHeaders options) in
    match body options, truthy (JsMap.get "Content-Type" sent) with
    | Some (BodyObject _), None =>
        JsMap.set "Content-Type" "application/json" sent
    | _, _ => sent
    end.
Proof.
  unfold givenHeaders. cbv zeta. request_cases options;
    now destruct (truthy (JsMap.get "Content-Type" _)).
Qed.

(** X23.  The request that [buildRequestConfig] makes for a url goes to
    that url and never has the timeout 0: a timeout of 0, like none, is
    replaced by 30000 ms, and any other is kept.  The limit of redirects
    is 0 when [followRedirects] is false, whatever [maxRedirects] says;
    otherwise it is [maxRedirects], also when that is 0, and 5 when none
    is given.  Without a status validator, every status from 200 to 599
    is accepted, and no other.  The method is [GET] unless one is given,
    and the proxy is the one given. *)
Theorem request_limits :
  forall (url : string) (options : FetchOptions),
    let config := buildRequestConfig url options in
    req_url config = url
    /\ req_timeout config <> 0
    /\ (forall ms, timeout options = Some ms -> ms <> 0 ->
                   req_timeout config = ms)
    /\ ((timeout options = None \/ timeout options = Some 0) ->
        req_timeout config = 30000)
    /\ (followRedirects options = Some false -> req_maxRedirects config = 0)
    /\ (followRedirects options <> Some false ->
        (forall n, maxRedirects options = Some n ->
                   req_maxRedirects config = n)
        /\ (maxRedirects options = None -> req_maxRedirects config = 5))
    /\ (validateStatus options = None ->
        forall status, req_validateStatus config status = true
                       <-> 200 <= status < 600)
    /\ (forall m, method options = Some m -> m <> "" ->
                  req_method config = m)
    /\ ((method options = None \/ method options = Some "") ->
        req_method config = "GET")
    /\ req_proxy config = proxy options.
Proof.
  intros url options. cbv zeta.
  rewrite req_url_build, req_timeout_build, req_maxRedirects_build,
          req_validateStatus_build, req_method_build, req_proxy_build.
  split; [reflexivity|].
  split; [destruct (timeout options) as [[| |]|]; discriminate|].
  split; [intros ms -> Hms; now destruct ms|].
  split; [intros [->| ->]; reflexivity|].
  split; [now intros ->|].
  split.
  { intros Hf. destruct (followRedirects options) as [[]|];
      try (now destruct Hf); split; try (now intros n ->); now intros ->. }
  split.
  { intros -> status. unfold DEFAULT_validateStatus.
    rewrite andb_true_iff, Z.leb_le, Z.ltb_lt. tauto. }
  split; [intros m -> Hm; now destruct m|].
  split; [intros [->| ->]; reflexivity | reflexivity].
Qed.

Lemma get_spread (base extra : JsMap.t string) k :
  NoDup (JsMap.keys extra) ->
  JsMap.get k (spread base extra)
  = match JsMap.get k extra with
    | Some v => Some v
    | None => JsMap.get k base
    end.
Proof.
  unfold spread. revert base.
  induction extra as [|[k0 v0] extra IH]; intros base Hnd; [reflexivity|].
  cbn [fold_left fst snd JsMap.get]. inversion Hnd as [|? ? Hnotin Hnd'].
  subst. rewrite (IH _ Hnd').
  destruct (String.eqb k k0) eqn:E.
  - apply String.eqb_eq in E. subst k0.
    apply get_None_keys in Hnotin. rewrite Hnotin. apply get_set_same.
  - destruct (JsMap.get k extra); [reflexivity|].
    apply get_set_other. intros ->. now rewrite String.eqb_refl in E.
Qed.

(** X24.  In the headers of a request, a header given by the caller
    wins: [User-Agent] is the caller's header of that name, else the
    [userAgent] option, else [Enhanced-Fetch-MCP/1.0].  [Content-Type] is
    set to [application/json] exactly when the body is an object and the
    caller gave no [Content-Type] header with these capitals, or an empty
    one; a string body never sets it, and an empty string is no body.
    Every other header is the caller's. *)
Theorem request_headers :
  forall (url : string) (options : FetchOptions),
    NoDup (JsMap.keys (givenHeaders options)) ->
    let config := buildRequestConfig url options in
    let given := fun k => JsMap.get k (givenHeaders options) in
    JsMap.get "User-Agent" (req_headers config)
    = Some (match given "User-Agent" with
            | Some v => v
            | None =>
                match truthy (userAgent options) with
                | Some ua => ua
                | None => "Enhanced-Fetch-MCP/1.0"
                end
            end)
    /\ JsMap.get "Content-Type" (req_headers config)
       = match body options, truthy (given "Content-Type") with
         | Some (BodyObject _), None => Some "application/json"
         | _, _ => given "Content-Type"
         end
    /\ (forall k, k <> "User-Agent" -> k <> "Content-Type" ->
                  JsMap.get k (req_headers config) = given k)
    /\ req_data config
       = match body options with
         | Some (BodyString "") => None
         | b => b
         end.
Proof.
  intros url options Hnd. cbv zeta.
  rewrite req_headers_build, req_data_build. cbv zeta.
  set (agent := match truthy (userAgent options) with
                | Some ua => ua
                | None => DEFAULT_userAgent
                end).
  set (h := givenHeaders options) in *.
  assert (HUA : JsMap.get "User-Agent" (spread [("User-Agent", agent)] h)
                = Some (match JsMap.get "User-Agent" h with
                        | Some v => v
                        | None => agent
                        end)).
  { rewrite (@get_spread _ h "User-Agent" Hnd).
    now destruct (JsMap.get "User-Agent" h). }
  assert (HCT : JsMap.get "Content-Type" (spread [("User-Agent", agent)] h)
                = JsMap.get "Content-Type" h).
  { rewrite (@get_spread _ h "Content-Type" Hnd).
    now destruct (JsMap.get "Content-Type" h). }
  assert (Hother : forall k, k <> "User-Agent" ->
             JsMap.get k (spread [("User-Agent", agent)] h)
             = JsMap.get k h).
  { intros k Hk. rewrite (@get_spread _ h k Hnd).
    destruct (JsMap.get k h); [reflexivity|]. cbn.
    destruct (String.eqb k "User-Agent") eqn:E; [|reflexivity].
    apply String.eqb_eq in E. contradiction. }
  rewrite HCT.
  assert (Hset : forall k, k <> "Content-Type" ->
             JsMap.get k
               (JsMap.set "Content-Type" "application/json"
                  (spread [("User-Agent", agent)] h))
             = JsMap.get k (spread [("User-Agent", agent)] h))
    by (intros k Hk; now apply get_set_other).
  destruct (body options) as [[s|o]|];
    try destruct (truthy (JsMap.get "Content-Type" h)) eqn:ET;
    rewrite ?Hset by discriminate; rewrite ?get_set_same, ?HCT;
    (split; [exact HUA|]); (split; [reflexivity|]);
    (split; [|reflexivity]);
    intros k Hk1 Hk2; rewrite ?Hset by exact Hk2; now apply Hother.
Qed.

Lemma request_headers_witness :
  NoDup (JsMap.keys (givenHeaders jsonWithSmallLetters))
  /\ req_headers (buildRequestConfig "https://a.example" jsonWithSmallLetters)
     = [("User-Agent", "Enhanced-Fetch-MCP/1.0");
        ("content-type", "text/plain");
        ("Content-Type", "application/json")]
  /\ JsMap.get "Content-Type"
       (req_headers
          (buildRequestConfig "https://a.example" jsonWithSmallLetters))
     = Some "application/json".
Proof.
  assert (Hnd : NoDup (JsMap.keys (givenHeaders jsonWithSmallLetters))).
  { repeat constructor. intros []. }
  split; [exact Hnd|]. split; [reflexivity|].
  exact (proj1 (proj2 (@request_headers "https://a.example"
                         jsonWithSmallLetters Hnd))).
Defined.

(** ** Fetching *)

Lemma validateUrl_Ok env url :
  validateUrl env url = Ok tt <->
  exists protocol, URL env url = Ok protocol
                   /\ (protocol = "http:" \/ protocol = "https:").
Proof.
  unfold validateUrl. destruct (URL env url) as [protocol|m].
  - destruct (String.eqb protocol "http:") eqn:E1; cbn [orb].
    + apply String.eqb_eq in E1. split; [|reflexivity].
      intros _. exists protocol. auto.
    + destruct (String.eqb protocol "https:") eqn:E2.
      * apply String.eqb_eq in E2. split; [|reflexivity].
        intros _. exists protocol. auto.
      * split; [discriminate|]. intros (p & [= <-] & [->| ->]).
        -- now rewrite String.eqb_refl in E1.
        -- now rewrite String.eqb_refl in E2.
  - split; [discriminate|]. intros (p & [=] & _).
Qed.

(** X25.  Of its own events, [fetchUrl] emits exactly one, and emits it
    last: [fetch:success] with the response it returns or [fetch:error]
    with the error it raises.  A url that the parser rejects raises
    [INVALID_URL] with the parser's error as original, and a url of
    another protocol than [http:] and [https:] raises
    [UNSUPPORTED_PROTOCOL] with the protocol in the message; in both
    cases no request is made, whatever the options, and [fetch:error] is
    the only event.  Otherwise one request is made, with the
    configuration built from the options; its response becomes the
    response returned, and what it throws becomes the error raised.  For
    that request the interceptors of the axios instance emit, before the
    event of [fetchUrl], first [request] with the method and the url that
    axios hands them, and then, only when a response comes back,
    [response] with its status and the url of its configuration. *)
Theorem fetch_asks_only_for_web_urls :
  forall (env : Environment) (url : string) (options : FetchOptions)
         (startTime endTime : Z),
    let r := fetchUrl env url options startTime endTime in
    let fetched := match fst r with
                   | Ok response => FetchSuccess response
                   | Err e => FetchFailure e
                   end in
    (exists before,
        snd r = before ++ [fetched]
        /\ filter isFetchEvent (snd r) = [fetched])
    /\ (forall m,
          URL env url = Err m ->
          exists e,
            fst r = Err e /\ code e = INVALID_URL
            /\ message e = ("Invalid URL: " ++ url)%string
            /\ originalError e = Some (OriginalError m))
    /\ (forall protocol,
          URL env url = Ok protocol ->
          protocol <> "http:" -> protocol <> "https:" ->
          exists e,
            fst r = Err e /\ code e = UNSUPPORTED_PROTOCOL
            /\ message e = ("Unsupported protocol: " ++ protocol)%string)
    /\ ((forall protocol, URL env url = Ok protocol ->
                          protocol <> "http:" /\ protocol <> "https:") ->
        snd r = [fetched]
        /\ forall seen ask,
             fetchUrl {| URL := URL env; merged := seen; request := ask |}
               url options startTime endTime = r)
    /\ (forall protocol,
          URL env url = Ok protocol ->
          protocol = "http:" \/ protocol = "https:" ->
          let config := buildRequestConfig url options in
          fst r
          = match request env config with
            | Ok response =>
                Ok (buildFetchResponse response url startTime endTime)
            | Err caught => Err (handleError caught url)
            end
          /\ snd r
             = Request (fst (merged env config)) (snd (merged env config))
               :: match request env config with
                  | Ok response =>
                      [Response (status response) (config_url response);
                       fetched]
                  | Err caught => [fetched]
                  end).
Proof.
  intros env url options startTime endTime. cbv zeta.
  unfold fetchUrl, executeRequest, onRequest, onResponse, onResponseError.
  pose proof (validateUrl_Ok env url) as Hok.
  split.
  { destruct (validateUrl env url) as [[]|e].
    - destruct (request env _) as [response|caught]; cbn [fst snd app].
      + exists [Request (fst (merged env (buildRequestConfig url options)))
                  (snd (merged env (buildRequestConfig url options)));
                Response (status response) (config_url response)].
        split; reflexivity.
      + exists [Request (fst (merged env (buildRequestConfig url options)))
                  (snd (merged env (buildRequestConfig url options)))].
        split; reflexivity.
    - exists []. split; reflexivity. }
  split.
  { intros m Hm. unfold validateUrl. rewrite Hm. eexists.
    repeat split. }
  split.
  { intros protocol Hp H1 H2. unfold validateUrl. rewrite Hp.
    destruct (String.eqb protocol "http:") eqn:E1;
      [apply String.eqb_eq in E1; contradiction|].
    destruct (String.eqb protocol "https:") eqn:E2;
      [apply String.eqb_eq in E2; contradiction|].
    eexists. repeat split. }
  split.
  { intros Hbad.
    assert (Hv : forall env', URL env' url = URL env url ->
                              validateUrl env' url = validateUrl env url).
    { intros env' H. unfold validateUrl. now rewrite H. }
    assert (He : exists e, validateUrl env url = Err e).
    { destruct (validateUrl env url) as [[]|e]; [|now exists e].
      destruct (proj1 Hok eq_refl) as (p & Hp & Hweb).
      destruct (Hbad p Hp) as [H1 H2]. now destruct Hweb. }
    destruct He as [e He]. split.
    - now rewrite He.
    - intros seen ask.
      rewrite (Hv {| URL := URL env; merged := seen; request := ask |}
                  eq_refl).
      now rewrite He. }
  intros protocol Hp Hweb.
  rewrite (proj2 Hok) by (exists protocol; now split).
  now destruct (request env _).
Qed.

Lemma skipWhiteSpace_digit c s :
  isDigit c = true -> skipWhiteSpace (String c s) = String c s.
Proof.
  intros H. cbn [skipWhiteSpace].
  replace (isWhiteSpace (Js.code c)) with false; [reflexivity|].
  unfold isDigit in H. apply andb_true_iff in H. destruct H as [H1 H2].
  apply N.leb_le in H1, H2. unfold isWhiteSpace.
  repeat match goal with
         | |- context [(?a =? ?b)%N] =>
             replace (a =? b)%N with false
               by (symmetry; apply N.eqb_neq; lia)
         end.
  replace (8192 <=? Js.code c)%N with false
    by (symmetry; apply N.leb_gt; lia).
  reflexivity.
Qed.

Lemma digitsPrefix_allDigits s : allDigits s = true -> digitsPrefix s = s.
Proof.
  induction s as [|c s IH]; cbn; [reflexivity|].
  intros H. apply andb_true_iff in H. destruct H as [Hc Hs].
  now rewrite Hc, IH.
Qed.

Lemma parseInt_digits s :
  s <> "" -> allDigits s = true ->
  parseInt s = Int false (toDouble (digitsValue s)).
Proof.
  destruct s as [|c s]; [contradiction|]. intros _ H.
  pose proof H as Hall. cbn [allDigits] in H.
  apply andb_true_iff in H. destruct H as [Hc Hs].
  unfold parseInt. rewrite (@skipWhiteSpace_digit c s Hc).
  assert (Hsign : match String c s with
                  | String "-"%char s' => (true, s')
                  | String "+"%char s' => (false, s')
                  | _ => (false, String c s)
                  end = (false, String c s)).
  { unfold isDigit in Hc. apply andb_true_iff in Hc.
    destruct Hc as [H1 _]. apply N.leb_le in H1.
    destruct c as [[] [] [] [] [] [] [] []]; try reflexivity;
      cbn in H1; lia. }
  rewrite Hsign. cbn [fst snd].
  rewrite (@digitsPrefix_allDigits (String c s) Hall). reflexivity.
Qed.

(** X26.  The response that [buildFetchResponse] makes keeps the url that
    was asked for and the time the request took; its status, status text
    and headers are those of the axios response, and its body is the
    response's data as a string.  Its content type is the [content-type]
    header when that is there and not empty, and
    [application/octet-stream] otherwise, so it is never empty.  Its
    content length is absent exactly when the [content-length] header is
    missing or empty; for a header of decimal digits it is their number,
    and for a header that starts with a letter it is there but is [NaN].
    The final url is the [responseUrl] of the response when that is not
    empty; when it is empty the url that was asked for; when there is
    none the url of the request's configuration, or the url that was
    asked for when that is missing or empty.  The number of redirects is
    the one the request tells, and 0 when it tells none. *)
Theorem response_fields :
  forall (response : AxiosResponse) (originalUrl : string)
         (startTime endTime : Z),
    let r := buildFetchResponse response originalUrl startTime endTime in
    let header := fun k => JsMap.get k (fr_headers r) in
    fr_url r = originalUrl
    /\ timings r = Some {| start := startTime; total := endTime - startTime |}
    /\ fr_status r = status response
    /\ fr_statusText r = statusText response
    /\ fr_headers r = match res_headers response with
                      | Some h => stringHeaders h
                      | None => []
                      end
    /\ fr_body r = convertResponseToString (data response)
    /\ contentType r <> ""
    /\ (forall t, header "content-type" = Some t -> t <> "" ->
                  contentType r = t)
    /\ (truthy (header "content-type") = None ->
        contentType r = "application/octet-stream")
    /\ (contentLength r = None <-> truthy (header "content-length") = None)
    /\ (forall digits,
          header "content-length" = Some digits ->
          digits <> "" -> allDigits digits = true ->
          contentLength r = Some (Int false (toDouble (digitsValue digits))))
    /\ (forall c rest,
          header "content-length" = Some (String c rest) ->
          (65 <= Js.code c <= 122)%N ->
          contentLength r = Some NaN)
    /\ (forall u, responseUrl response = Some u -> u <> "" -> finalUrl r = u)
    /\ (responseUrl response = Some "" -> finalUrl r = originalUrl)
    /\ (responseUrl response = None ->
        finalUrl r = match truthy (config_url response) with
                     | Some u => u
                     | None => originalUrl
                     end)
    /\ redirectCount r = match redirectable_redirectCount response with
                         | Some n => n
                         | None => 0
                         end.
Proof.
  intros response originalUrl startTime endTime. cbv zeta.
  unfold buildFetchResponse. cbn [fr_url timings contentType contentLength
                                  fr_headers finalUrl redirectCount
                                  fr_status fr_statusText fr_body].
  set (h := match res_headers response with
            | Some h0 => stringHeaders h0
            | None => []
            end).
  split; [reflexivity|]. split; [reflexivity|].
  split; [reflexivity|]. split; [reflexivity|].
  split; [reflexivity|]. split; [reflexivity|].
  split.
  { destruct (JsMap.get "content-type" h) as [[|c t]|]; discriminate. }
  split.
  { intros t -> Ht. destruct t; [contradiction | reflexivity]. }
  split; [now intros ->|].
  split.
  { destruct (truthy (JsMap.get "content-length" h)); split;
      congruence. }
  split.
  { intros digits Hd Hne Hall. rewrite Hd.
    replace (truthy (Some digits)) with (Some digits)
      by (destruct digits; [contradiction | reflexivity]).
    now rewrite parseInt_digits. }
  split.
  { intros c rest Hd Hc. rewrite Hd. cbn [truthy]. f_equal.
    unfold parseInt. cbn [skipWhiteSpace].
    assert (Hw : isWhiteSpace (Js.code c) = false).
    { unfold isWhiteSpace.
      repeat match goal with
             | |- context [(?a =? ?b)%N] =>
                 replace (a =? b)%N with false
                   by (symmetry; apply N.eqb_neq; lia)
             end.
      replace (8192 <=? Js.code c)%N with false
        by (symmetry; apply N.leb_gt; lia).
      reflexivity. }
    rewrite Hw.
    assert (Hs : match String c rest with
                 | String "-"%char s' => (true, s')
                 | String "+"%char s' => (false, s')
                 | _ => (false, String c rest)
                 end = (false, String c rest)).
    { destruct c as [[] [] [] [] [] [] [] []]; try reflexivity;
        cbn in Hc; lia. }
    rewrite Hs. cbn [fst snd digitsPrefix].
    replace (isDigit c) with false; [reflexivity|].
    symmetry. unfold isDigit. apply andb_false_iff. right.
    apply N.leb_gt. lia. }
  split.
  { intros u -> Hu. destruct u; [contradiction | reflexivity]. }
  split; [now intros ->|].
  split; [now intros ->|].
  reflexivity.
Qed.

End FetchFacts.

(* ===================================================================== *)
(** * The log entries kept in memory *)
(* ===================================================================== *)

Module LoggerFacts.

Import Js Logger LoggerStatements.

(** ** The memory cache *)

Lemma lastn_app_lastn {A} (n : nat) (a b : list A) :
  lastn n (lastn n a ++ b) = lastn n (a ++ b).
Proof.
  unfold lastn. rewrite !length_app, length_skipn.
  destruct (le_lt_dec (List.length a) n) as [Hle|Hgt].
  - replace (List.length a - n)%nat with 0%nat by lia. cbn [skipn].
    now rewrite Nat.sub_0_r.
  - replace (List.length a - (List.length a - n) + List.length b - n)%nat
      with (List.length b) by lia.
    replace (List.length a + List.length b - n)%nat
      with (List.length b + (List.length a - n))%nat by lia.
    rewrite <- skipn_skipn. f_equal.
    rewrite skipn_app.
    replace (List.length a - n - List.length a)%nat with 0%nat by lia.
    reflexivity.
Qed.

Lemma lastn_length {A} (n : nat) (l : list A) :
  (List.length (lastn n l) <= n)%nat.
Proof. unfold lastn. rewrite length_skipn. lia. Qed.

Lemma addToMemoryCache_lastn entry s :
  Z.of_nat (List.length (logEntries s)) <= maxLogEntries ->
  logEntries (addToMemoryCache entry s)
  = lastn (Z.to_nat maxLogEntries) (logEntries s ++ [entry]).
Proof.
  intros Hle. unfold addToMemoryCache, lastn.
  rewrite length_app. cbn [List.length].
  destruct (maxLogEntries <? _) eqn:E; cbn [logEntries setLogEntries].
  - apply Z.ltb_lt in E.
    replace (List.length (logEntries s) + 1 - Z.to_nat maxLogEntries)%nat
      with 1%nat by (unfold maxLogEntries in *; lia).
    reflexivity.
  - apply Z.ltb_ge in E.
    replace (List.length (logEntries s) + 1 - Z.to_nat maxLogEntries)%nat
      with 0%nat by (unfold maxLogEntries in *; lia).
    reflexivity.
Qed.

Lemma perform_state c s :
  logEntries (perform c s)
  = logEntries (addToMemoryCache (entryOf (serviceName s) c) s)
  /\ serviceName (perform c s) = serviceName s
  /\ written (perform c s)
     = written s
       ++ [{| line_level :=
                match call_level c with FATAL => ERROR | l => l end;
              line_message :=
                match call_level c with
                | FATAL => ("FATAL: " ++ call_message c)%string
                | _ => call_message c
                end;
              line_metadata := call_metadata c |}].
Proof.
  unfold perform, entryOf, debug, info, warn, error, fatal, createLogEntry,
         addToMemoryCache.
  destruct (call_level c); cbn [serviceName fresh];
    destruct (maxLogEntries <? _); repeat split.
Qed.

(** X27.  The memory cache holds the latest 10000 entries: after any
    sequence of calls of [debug], [info], [warn], [error] and [fatal] on a
    cache within the limit, it holds the entries it had followed by one
    entry per call, in the order of the calls, without the oldest ones
    beyond 10000; it never grows beyond the limit.  Every call also
    reaches winston, in order; a fatal entry stays fatal in the cache and
    reaches winston as an error whose message starts with [FATAL: ]. *)
Theorem memory_cache_keeps_the_latest :
  forall (cs : list Call) (s : State),
    Z.of_nat (List.length (logEntries s)) <= maxLogEntries ->
    logEntries (performAll cs s)
    = lastn (Z.to_nat maxLogEntries)
        (logEntries s ++ map (entryOf (serviceName s)) cs)
    /\ Z.of_nat (List.length (logEntries (performAll cs s))) <= maxLogEntries
    /\ written (performAll cs s)
       = written s
         ++ map (fun c =>
                   {| line_level :=
                        match call_level c with FATAL => ERROR | l => l end;
                      line_message :=
                        match call_level c with
                        | FATAL => ("FATAL: " ++ call_message c)%string
                        | _ => call_message c
                        end;
                      line_metadata := call_metadata c |}) cs.
Proof.
  intros cs. induction cs as [|c cs IH]; intros s Hle.
  - cbn [performAll fold_left map]. rewrite !app_nil_r. split; [|now split].
    unfold lastn.
    replace (List.length (logEntries s) - Z.to_nat maxLogEntries)%nat
      with 0%nat by (unfold maxLogEntries in *; lia).
    reflexivity.
  - unfold performAll in *. cbn [fold_left map].
    destruct (perform_state c s) as (He & Hn & Hw).
    assert (Hcache : logEntries (perform c s)
                     = lastn (Z.to_nat maxLogEntries)
                         (logEntries s ++ [entryOf (serviceName s) c]))
      by (rewrite He; now apply addToMemoryCache_lastn).
    assert (Hle' : Z.of_nat (List.length (logEntries (perform c s)))
                   <= maxLogEntries).
    { rewrite Hcache.
      pose proof (lastn_length (Z.to_nat maxLogEntries)
                    (logEntries s ++ [entryOf (serviceName s) c])).
      unfold maxLogEntries in *. lia. }
    destruct (IH (perform c s) Hle') as (I1 & I2 & I3).
    rewrite I1, I3, Hn, Hw, Hcache, lastn_app_lastn, <- !app_assoc.
    split; [reflexivity|]. split; [|reflexivity].
    match goal with
    | |- Z.of_nat (List.length (lastn ?n ?l)) <= _ =>
        pose proof (lastn_length n l)
    end.
    unfold maxLogEntries in *. lia.
Qed.

Lemma memory_cache_keeps_the_latest_witness :
  let warning := {| call_level := WARN; call_id := "log_1"; call_now := 5;
                    call_message := "low disk"; call_metadata := None;
                    call_sandbox := None |} in
  let crash := {| call_level := FATAL; call_id := "log_2"; call_now := 9;
                  call_message := "out of memory"; call_metadata := None;
                  call_sandbox := None |} in
  Z.of_nat (List.length (logEntries (fresh "svc"))) <= maxLogEntries
  /\ map level (logEntries (performAll [warning; crash] (fresh "svc")))
     = [WARN; FATAL]
  /\ map line_message (written (performAll [warning; crash] (fresh "svc")))
     = ["low disk"; "FATAL: out of memory"].
Proof.
  intros warning crash.
  assert (H : Z.of_nat (List.length (logEntries (fresh "svc")))
              <= maxLogEntries) by discriminate.
  split; [exact H|]. split; [reflexivity|].
  rewrite (proj2 (proj2 (@memory_cache_keeps_the_latest [warning; crash]
                           (fresh "svc") H))).
  reflexivity.
Defined.

(** X28.  Clearing the memory logs does not leave the cache empty: it
    holds exactly one entry, the [info] entry [Memory logs cleared] of
    the clearing itself, so the statistics count one entry, at the level
    [info], and [getLogEntries] returns that entry. *)
Theorem clearing_leaves_one_entry :
  forall (logId : string) (now : Z) (s : State),
    let s' := clearMemoryLogs logId now s in
    let entry := {| id := logId; timestamp := now; level := INFO;
                    source := serviceName s;
                    message := "Memory logs cleared"; metadata := None;
                    sandboxId := None; containerId := None |} in
    logEntries s' = [entry]
    /\ getLogStats s'
       = [(DEBUG, 0%nat); (INFO, 1%nat); (WARN, 0%nat); (ERROR, 0%nat);
          (FATAL, 0%nat)]
    /\ getLogEntries None None None s' = [entry]
    /\ written s'
       = written s ++ [{| line_level := INFO;
                          line_message := "Memory logs cleared";
                          line_metadata := None |}].
Proof.
  intros logId now s. cbv zeta.
  assert (H : logEntries (clearMemoryLogs logId now s)
              = [{| id := logId; timestamp := now; level := INFO;
                    source := serviceName s;
                    message := "Memory logs cleared"; metadata := None;
                    sandboxId := None; containerId := None |}])
    by reflexivity.
  split; [exact H|]. split; [unfold getLogStats; now rewrite H|].
  split; [unfold getLogEntries; now rewrite H|]. reflexivity.
Qed.

(** ** Statistics *)

Lemma level_eqb_eq a b : level_eqb a b = true <-> a = b.
Proof. destruct a, b; cbn; split; congruence. Qed.

(** X29.  The statistics give one count for each of the five levels, in
    the order of the enumeration, and the counts add up to the number of
    entries in the memory cache: every entry is counted once. *)
Theorem log_stats_count_every_entry :
  forall (s : State),
    map fst (getLogStats s) = [DEBUG; INFO; WARN; ERROR; FATAL]
    /\ list_sum (map snd (getLogStats s)) = List.length (logEntries s)
    /\ forall l,
         countOf l (getLogStats s)
         = List.length (filter (fun entry => level_eqb (level entry) l)
                          (logEntries s)).
Proof.
  intros s. split; [reflexivity|]. split.
  - unfold getLogStats, levels. cbn [map snd list_sum].
    induction (logEntries s) as [|e l IH]; [reflexivity|].
    cbn [filter]. unfold list_sum in *. cbn [fold_right] in *.
    destruct (level e); cbn [level_eqb List.length]; lia.
  - intros l. unfold countOf, getLogStats, levels. destruct l; reflexivity.
Qed.

(** ** Reading the cache *)

Lemma In_insertNewestFirst x y l :
  In y (insertNewestFirst x l) <-> y = x \/ In y l.
Proof.
  induction l as [|z l IH]; cbn.
  - intuition.
  - destruct (timestamp z <=? timestamp x); cbn; rewrite ?IH; intuition.
Qed.

Lemma In_sortNewestFirst y l : In y (sortNewestFirst l) <-> In y l.
Proof.
  unfold sortNewestFirst.
  induction l as [|x l IH]; cbn [fold_right In]; [tauto|].
  rewrite In_insertNewestFirst, IH. intuition.
Qed.

Lemma length_insertNewestFirst x l :
  List.length (insertNewestFirst x l) = S (List.length l).
Proof.
  induction l as [|z l IH]; cbn; [reflexivity|].
  destruct (timestamp z <=? timestamp x); cbn; now rewrite ?IH.
Qed.

Lemma length_sortNewestFirst l :
  List.length (sortNewestFirst l) = List.length l.
Proof.
  unfold sortNewestFirst.
  induction l as [|x l IH]; cbn [fold_right]; [reflexivity|].
  now rewrite length_insertNewestFirst, IH.
Qed.

Lemma insertNewestFirst_sorted x l :
  newestFirst l -> newestFirst (insertNewestFirst x l).
Proof.
  unfold newestFirst. induction 1 as [|z l Hs IH Hz]; cbn.
  - repeat constructor.
  - destruct (timestamp z <=? timestamp x) eqn:E.
    + apply Z.leb_le in E. constructor; [now constructor|].
      constructor; [exact E|].
      eapply Forall_impl; [|exact Hz]. cbv beta. intros a Ha. lia.
    + apply Z.leb_gt in E. constructor; [exact IH|].
      apply Forall_forall. intros a Ha.
      apply In_insertNewestFirst in Ha. destruct Ha as [->|Ha]; [lia|].
      rewrite Forall_forall in Hz. now apply Hz.
Qed.

Lemma sortNewestFirst_sorted l : newestFirst (sortNewestFirst l).
Proof.
  unfold sortNewestFirst.
  induction l as [|x l IH]; cbn [fold_right]; [constructor|].
  now apply insertNewestFirst_sorted.
Qed.

Lemma newestFirst_firstn n l : newestFirst l -> newestFirst (firstn n l).
Proof.
  unfold newestFirst. intros H. revert n.
  induction H as [|z l Hs IH Hz]; intros [|n]; cbn; try constructor.
  - apply IH.
  - apply Forall_forall. intros a Ha. rewrite Forall_forall in Hz.
    apply Hz. eapply (In_nth_error) in Ha. destruct Ha as [i Hi].
    rewrite nth_error_firstn in Hi.
    destruct (i <? n)%nat; [|discriminate].
    eapply nth_error_In; eauto.
Qed.

Lemma In_firstn {A} n (l : list A) x : In x (firstn n l) -> In x l.
Proof.
  intros H. rewrite <- (firstn_skipn n l). apply in_or_app. now left.
Qed.

(** X30.  [getLogEntries] returns entries of the memory cache that pass
    the filters asked for, the newest first: no entry with a later time
    comes after one with an earlier time.  With a limit that is not
    negative, 100 when none is given, it returns no more entries than the
    limit; and when the cache holds no more entries than the limit, it
    returns every entry that passes the filters. *)
Theorem log_entries_come_newest_first :
  forall (bySandbox : option string) (byLevel : option LogLevel)
         (limit : option Z) (s : State),
    let logs := getLogEntries bySandbox byLevel limit s in
    let n := match limit with Some n => n | None => 100 end in
    newestFirst logs
    /\ (forall entry, In entry logs ->
                      In entry (logEntries s)
                      /\ selected bySandbox byLevel entry)
    /\ (0 <= n -> Z.of_nat (List.length logs) <= n)
    /\ (Z.of_nat (List.length (logEntries s)) <= n ->
        forall entry, In entry (logEntries s) ->
                      selected bySandbox byLevel entry -> In entry logs).
Proof.
  intros bySandbox byLevel limit s. cbv zeta. unfold getLogEntries.
  set (n := match limit with Some n => n | None => 100 end).
  set (bySb := fun entry : LogEntry =>
                 match truthy bySandbox with
                 | Some i =>
                     match sandboxId entry with
                     | Some j => String.eqb j i
                     | None => false
                     end
                 | None => true
                 end).
  set (byLv := fun entry : LogEntry =>
                 match byLevel with
                 | Some l => level_eqb (level entry) l
                 | None => true
                 end).
  assert (Hfilter :
            match byLevel with
            | Some l =>
                filter (fun entry => level_eqb (level entry) l)
                  match truthy bySandbox with
                  | Some i =>
                      filter (fun entry =>
                                match sandboxId entry with
                                | Some j => String.eqb j i
                                | None => false
                                end) (logEntries s)
                  | None => logEntries s
                  end
            | None =>
                match truthy bySandbox with
                | Some i =>
                    filter (fun entry =>
                              match sandboxId entry with
                              | Some j => String.eqb j i
                              | None => false
                              end) (logEntries s)
                | None => logEntries s
                end
            end
            = filter byLv (filter bySb (logEntries s))).
  { unfold byLv, bySb. destruct byLevel, (truthy bySandbox);
      rewrite ?(Registry.filter_all (fun _ => true)) by reflexivity;
      reflexivity. }
  rewrite Hfilter. clear Hfilter.
  set (found := filter byLv (filter bySb (logEntries s))).
  assert (Hsel : forall entry,
             In entry found <->
             In entry (logEntries s) /\ selected bySandbox byLevel entry).
  { intros entry. unfold found, selected. rewrite !filter_In.
    assert (HbySb : bySb entry = true <->
                    forall i, truthy bySandbox = Some i ->
                              sandboxId entry = Some i).
    { unfold bySb. destruct (truthy bySandbox) as [i|].
      - destruct (sandboxId entry) as [j|]; split.
        + intros H i' [= <-]. apply String.eqb_eq in H. now subst.
        + intros H. specialize (H i eq_refl). injection H as ->.
          apply String.eqb_refl.
        + discriminate.
        + intros H. specialize (H i eq_refl). discriminate.
      - split; [intros _ i; discriminate | reflexivity]. }
    assert (HbyLv : byLv entry = true <->
                    forall l, byLevel = Some l -> level entry = l).
    { unfold byLv. destruct byLevel as [l|].
      - rewrite level_eqb_eq. split.
        + now intros H l' [= <-].
        + intros H. now apply H.
      - split; [intros _ l; discriminate | reflexivity]. }
    rewrite HbySb, HbyLv. tauto. }
  unfold slice0. rewrite length_sortNewestFirst.
  split; [apply newestFirst_firstn, sortNewestFirst_sorted|].
  split.
  { intros entry Hin. apply In_firstn in Hin.
    apply (proj1 (In_sortNewestFirst entry found)) in Hin.
    now apply (proj1 (Hsel entry)). }
  split.
  { intros Hn. rewrite length_firstn, length_sortNewestFirst.
    destruct (n <? 0) eqn:E; [apply Z.ltb_lt in E; lia|]. lia. }
  intros Hall entry Hin Hs.
  assert (Hlen : (List.length found <= List.length (logEntries s))%nat).
  { unfold found.
    eapply Nat.le_trans; [apply filter_length_le|apply filter_length_le]. }
  destruct (n <? 0) eqn:E; [apply Z.ltb_lt in E; lia|].
  rewrite firstn_all2
    by (rewrite length_sortNewestFirst; lia).
  apply (proj2 (In_sortNewestFirst entry found)).
  apply (proj2 (Hsel entry)). now split.
Qed.

End LoggerFacts.
